(* ===== verification/_CoqProject ===== *)
-Q . S2P
Prelude.v
Float64.v
Types.v
PriceLevel.v
PriceLevelFifo.v
OrderQuantity.v
Fees.v
Stp.v
Clock.v
Cache.v
Risk.v
RiskRaces.v
OrderState.v
Reject.v
Display.v
ErrorText.v
SkipMap.v
Book.v
BookInv.v
Matching.v
MatchingInv.v
MatchingSteps.v
SweepFrame.v
MatchingProps.v
MatchingPool.v
Depth.v
Statistics.v
DepthProps.v
Modifications.v
ModificationsProps.v
AddProps.v
UpdateProps.v
Uncrossed.v
MassCancel.v
Repricing.v
RepricingProps.v
Snapshot.v
SnapshotProps.v
SnapshotQueries.v
BookAccess.v
WireFraming.v
WireMessages.v
Operations.v
Replay.v
ReplayProps.v
SubmitGate.v
GatedBook.v
EventStream.v
ReplayVerify.v
UncrossedCommands.v
Manager.v
ManagerChannel.v
FileJournal.v
FileJournalProps.v
SegmentIterator.v
CountingAllocator.v
ImpliedVolatility.v
ImpliedVolatilityProps.v
Serialization.v
NatsTask.v
NatsTaskProps.v
NatsTrade.v
NatsBookChange.v
Scenarios.v
GateScenarios.v
DepthScenarios.v
RepricingScenarios.v
SnapshotScenarios.v
ReplayScenarios.v
FileJournalScenarios.v
ManagerScenarios.v
NatsScenarios.v
ImpliedVolatilityScenarios.v
