(* ===== verification/Prelude.v ===== *)
(** * A verification library for the OrderBook-rs matching engine

    OrderBook-rs keeps limit order books: orders rest in price levels, an
    incoming order sweeps the opposite side in price-time order, and what is
    left of it rests or is dropped.  Around that core are admission checks,
    risk limits, self-trade prevention, fees, an order-state tracker, mass
    cancels and expiry, re-pricing of pegged and trailing orders, snapshots,
    a command journal with replay, depth analytics, a binary wire protocol,
    publishers that carry trades and book changes to a message broker, an
    implied-volatility solver for option books and a manager of several
    books.  This library models all of these as
    executable functions translated from the Rust code under src/src, and
    proves what makes them correct.

    ** Files

    - [Prelude]: machine integers, the state and error monad with its
      notations, the preservation calculus [runs_in] and its hint database,
      sums, lists and maps.  [Float64]: f64 as specification floats.
    - [Types]: the order, update and error types (error.rs and the types of
      the pricelevel crate that the code matches on).
    - [PriceLevel]: the interface of one price level, a class of operations
      with a class of laws, since the level's queue is the pricelevel crate,
      not part of the repository; [PriceLevelFifo] is an instance with a
      first-in first-out queue, which shows the laws can be met and runs the
      scenarios.
    - [OrderQuantity] (modifications.rs, quantities of the order kinds),
      [Fees] (fees.rs, trade.rs), [Stp] (stp.rs), [Clock] (clock.rs),
      [Cache] (cache.rs), [Risk] (risk.rs) with [RiskRaces] (submissions that
      race between check and effect), [OrderState] (order_state.rs),
      [Reject] (reject_reason.rs), [Display] (the printed forms of reasons
      and statuses, metrics.rs), [ErrorText] (error.rs: the clone and the
      printed form of an error), [SkipMap] (the ordered maps of levels).
    - [Book]: the state of a book as one record, with its settings, gates and
      queries (book.rs, private.rs); [BookInv]: the abstract content of a
      book, a finite map from order ids to price, side and owner, and the
      invariant [book_rep b R] by which a book represents it.
    - [Matching] (matching.rs) with [MatchingInv], [MatchingSteps],
      [SweepFrame] (what a sweep leaves untouched) and [MatchingProps]; [MatchingPool] (pool.rs); [Modifications] (modifications.rs) with
      [ModificationsProps], [AddProps], [UpdateProps] and [Uncrossed];
      [MassCancel] (mass_cancel.rs); [Operations] (operations.rs).
    - [SubmitGate]: calls of many threads under a reader/writer lock that is
      not re-entrant and prefers writers, a transition system in which a
      thread may take and drop guards anywhere; [GatedBook]: its instance with the mutating entry
      points of the book and the mode each holds the gate in.
    - [Depth], [Statistics], [DepthProps]: the analytics of book.rs,
      iterators.rs, market_impact.rs and statistics.rs.
    - [Repricing], [RepricingProps]: repricing.rs and its use in book.rs.
    - [Snapshot], [SnapshotProps]: snapshot.rs and the restore of book.rs;
      [SnapshotQueries]: the queries of a snapshot and the enriched snapshot;
      [BookAccess]: constructors, exports of the sides, the JSON entry points.
    - [WireFraming], [WireMessages]: the codecs under wire/.
    - [Replay], [ReplayProps]: sequencer/types.rs, in_memory_journal.rs,
      replay.rs; [ReplayVerify]: the comparison of [ReplayEngine::verify];
      [FileJournal], [FileJournalProps]: file_journal.rs;
      [SegmentIterator]: its lazy reader.
    - [EventStream]: the numbered events every operation emits;
      [UncrossedCommands]: the sequenced commands keep a book uncrossed.
    - [Manager], [ManagerChannel]: manager.rs, the whole system as a
      transition system and the channel its trades go through.
    - [Serialization] (serialization.rs); [NatsTask], [NatsTaskProps]: what
      the two publishers share, retries, the bounded channel and the
      background task as a transition system; [NatsTrade] (nats.rs) and
      [NatsBookChange] (nats_book_change.rs), instances of its interface.
    - [ImpliedVolatility], [ImpliedVolatilityProps]: implied_volatility/.
    - [CountingAllocator]: utils/counting_allocator.rs.
    - [Scenarios], [GateScenarios], [DepthScenarios], [RepricingScenarios],
      [SnapshotScenarios], [ReplayScenarios], [FileJournalScenarios],
      [ManagerScenarios], [NatsScenarios], [ImpliedVolatilityScenarios]:
      small books and journals on which the theorems are
      instantiated, and concrete runs that show where the code departs from
      what its comments say.

    ** How the code is modelled

    An operation on [&self] is a state-passing function [ST OrderBook A]; a
    [Result] is returned beside the state it leaves, so an early return keeps
    the changes made before it.  Unsigned integers are [N] with saturating,
    checked and wrapping operations written out at their width; signed ones
    are [Z]; plain arithmetic wraps as in a release build.  A [DashMap] is a
    [gmap], a [SkipMap] a [gmap] with its entries in key order, a [Vec] a
    list.  Listener calls are recorded in the book's event list; a listener
    does not call back into the book (one that does is a scenario of the
    gate).  Time comes from the book's clock; wall
    clock readings are a parameter.  Code outside the repository is a
    parameter with its documented behaviour as laws: the price level
    ([PriceLevelApi], [SnapshotApi], [ExportApi]), the printed forms of an id
    and of other foreign values ([IdDisplay], [ForeignDisplay]), the snapshot checksum, the journal's JSON codec and CRC
    ([JournalCodec]), the event encoders ([SerdeJson], [Bincode]), the broker's
    answers ([JetStream]), exp and ln of the platform ([Libm]).  The background
    task of a publisher is a step function over its program points; timers
    may fire at any moment.  Concurrent calls are trees of atomic steps, cut
    in any way, interleaved by a transition system; in [RiskRaces] a check and
    the admission or re-size it allows are separate steps.  The sweep over the levels recurses on the list of
    levels and needs no fuel; the scans of a journal segment take the
    segment's length plus one as fuel, each step consuming at least five
    bytes, and the theorems about them show that the result is reached; a call
    of the lazy reader takes one round per byte and per segment left; the
    solvers take their configured number of iterations, the retries of a
    publish their configured number of attempts.

    ** What the theorems show

    - The engine refines the abstract content: matching, adding, cancelling,
      modifying, every mass cancel, expiry, re-pricing, replay and restore
      keep [book_rep] and change the content as specified
      ([match_preserves_book], [add_order_refines], [cancel_refines],
      [update_order_refines], [cancel_all_exact], [cancel_by_user_exact],
      [evict_expired_exact], [reprice_keeps_book], [replay_keeps_book],
      [restore_all_or_nothing]), and so every book reachable through the
      manager satisfies it ([reachable_books_ok]).  What an add or an update
      does is stated branch by branch ([added], [updated]): refused by
      admission and nothing changed, swept with exactly the reached makers
      gone, the rest at the end of its level's queue.  No sequenced
      command ever leaves a crossed book ([commands_keep_uncrossed]).
    - What leaves the engine: the event stream of a book is append-only and,
      between restores of a package (which set the counter), numbered without
      gaps ([event_stream_sequenced]); the manager's channel
      delivers every trade of every book there was, in order
      ([trade_channel_exact]); a publisher's
      task accounts for every event it accepts ([task_bookkeeping]), drains
      on shutdown ([shutdown_drains]) and publishes in order with bounded
      retries ([publish_retry_bounded], [trades_published_in_order],
      [changes_published_in_order]).
    - Trading: a match executes exactly what is asked or what the levels
      within its limit hold ([match_executes_depth]), quantity is conserved
      ([add_order_conserves]), prices respect the limit and price priority
      ([match_prices_sound]), no self trade under prevention
      ([match_no_self_trade]), a notional order never overspends
      ([notional_never_overspends]), fill-or-kill is predicted exactly and is
      all or nothing ([fok_prediction_exact], [fok_all_or_nothing]),
      post-only never takes ([post_only_add_never_takes]).
    - Concurrent callers: a fill-or-kill submission is atomic, and so all or
      nothing, whatever other calls run beside it
      ([fok_atomic_among_callers]), and calls that take the gate once cannot
      block each other on it ([gate_never_deadlocks]).
    - Risk counters equal the sums over the tracked orders
      ([risk_accounting_exact]); the limits hold exactly for calls that do not
      race, and up to a bound in the number of racing calls otherwise
      ([limits_hold_up_to_races]); fees are exact within the stated range; the state tracker
      stays bounded.
    - Persistence: a snapshot package restores the same book
      ([snapshot_roundtrip]) and the risk counters ([restore_rebuilds_risk]);
      replay equals the fold of the journal's events and can be resumed
      ([replay_exact], [replay_resumes]); its verification accepts a book
      exactly when it shows the expected snapshot ([verify_exact]); snapshots
      answer queries as the book does ([snapshots_answer_as_book]); the file journal implements the
      in-memory one across rotation and reopening ([file_journal_refines])
      and recovers from a torn tail ([torn_tail_recovered]); its lazy reader
      yields exactly the entries there are ([segment_iterator_exact]).
    - Frames and messages round-trip and decoders are exact
      ([frame_roundtrip], [wire_codecs_exact]); the analytics equal direct
      definitions ([price_at_depth_exact], [dry_runs_agree],
      [histogram_exact]); the pegged price is the best passive price of the
      tick grid, a full tick inside the touch ([pegged_price_exact]).  The
      Newton solver for the implied volatility returns the first estimate of
      the damped iteration that reprices the option, or the error that
      applies ([solve_iv_outcomes]); its companions are the bisection and the
      use on a book
      ([solve_iv_bisection_outcomes], [implied_volatility_sound]).
    - Concrete runs of code that departs from its documentation:
      [stp_full_fill_reported_prevented], [update_cancel_leaks_risk],
      [pegged_pass_can_trade], [trailing_stops_inert], [torn_tail_residue],
      [refused_append_hides_last_sequence], [partial_ioc_not_replayable],
      [histogram_last_bin_inverted], [zero_batch_size_loses_on_shutdown],
      [late_event_lost_uncounted], [bisection_accepts_nan],
      [delta_nan_at_zero_volatility], [weighted_mid_leans_away],
      [uncrossed_book_refused], [enriched_depth_wraps],
      [stale_price_after_race], [archived_segment_repeats],
      [reused_id_self_trades], [restore_repeats_numbers]; and of what its
      documentation warns of: [reentrant_callback_deadlocks],
      [racing_admissions_exceed].

    ** Not modelled

    Concurrency inside the maps of a book: what two calls that both hold the
    gate shared do to each other, the shards, the atomics and their memory
    orderings.  The theorems about single operations are about calls that run
    one at a time; those about the gate hold for every interleaving it
    allows.  The text of JSON documents and
    of log lines, the calls of the metrics helpers from the engine (they do
    not touch a book), throttling delays of the publishers, file-system
    errors of the journal, a book after its removal from the manager. *)

From stdpp Require Export base tactics option list list_numbers gmap sets.
From Stdlib Require Export NArith ZArith Lia.

(** ** Notations and scopes *)

Declare Scope book_scope.
Delimit Scope book_scope with book.

(** ** Machine integers

    Unsigned integers ([u64], [u128], [usize]) are modelled by [N] together
    with their upper bound; signed ones by [Z].  Every operation whose
    behaviour depends on the width is written out: saturating, checked and
    wrapping arithmetic as in the Rust standard library. *)

Definition U8_MAX : N := 2 ^ 8 - 1.
Definition U16_MAX : N := 2 ^ 16 - 1.
Definition U32_MAX : N := 2 ^ 32 - 1.
Definition U64_MAX : N := 2 ^ 64 - 1.
Definition U128_MAX : N := 2 ^ 128 - 1.
Definition I64_MIN : Z := - 2 ^ 63.
Definition I64_MAX : Z := 2 ^ 63 - 1.
Definition I128_MIN : Z := - 2 ^ 127.
Definition I128_MAX : Z := 2 ^ 127 - 1.

Definition is_u64 (n : N) : Prop := (n <= U64_MAX)%N.
Definition is_u128 (n : N) : Prop := (n <= U128_MAX)%N.

Definition sat_add (mx a b : N) : N := N.min mx (a + b).
Definition sat_mul (mx a b : N) : N := N.min mx (a * b).
Definition sat_sub (a b : N) : N := (a - b)%N.
Definition checked_add (mx a b : N) : option N :=
  if (a + b <=? mx)%N then Some (a + b)%N else None.
Definition checked_sub (a b : N) : option N :=
  if (b <=? a)%N then Some (a - b)%N else None.
Definition checked_mul (mx a b : N) : option N :=
  if (a * b <=? mx)%N then Some (a * b)%N else None.
Definition wrapping_add (mx a b : N) : N := ((a + b) mod (mx + 1))%N.
(** [div_ceil]: division rounded up. *)
Definition div_ceil (a b : N) : N := (if a mod b =? 0 then a / b else a / b + 1)%N.
Definition abs_diff (a b : N) : N := if (a <=? b)%N then (b - a)%N else (a - b)%N.

Lemma div_ceil_bounds a k : (0 < k -> a <= div_ceil a k * k /\ div_ceil a k * k < a + k)%N.
Proof.
  intros Hk. unfold div_ceil. generalize (N.div_mod a k ltac:(lia)), (N.mod_lt a k ltac:(lia)).
  generalize (a / k)%N (a mod k)%N. intros q r -> Hr. destruct (N.eqb_spec r 0); split; nia.
Qed.

(** ** Results and the state monad

    [Result] is Rust's; [ST S A] threads a state [S] and keeps the state
    reached when an operation ends in an error, as an early [return Err(..)]
    does. *)

Inductive Result (E A : Type) : Type :=
| Ok (a : A)
| Err (e : E).
Arguments Ok {E A} a.
Arguments Err {E A} e.

Definition is_ok {E A} (r : Result E A) : bool :=
  match r with Ok _ => true | Err _ => false end.

Definition result_map {E A B} (f : A -> B) (r : Result E A) : Result E B :=
  match r with Ok a => Ok (f a) | Err e => Err e end.

Definition ST (S A : Type) : Type := S -> A * S.

Definition sret {S A} (a : A) : ST S A := fun s => (a, s).
Definition sbind {S A B} (c : ST S A) (k : A -> ST S B) : ST S B :=
  fun s => let '(a, s') := c s in k a s'.
Definition sget {S A} (f : S -> A) : ST S A := fun s => (f s, s).
Definition smod {S} (f : S -> S) : ST S unit := fun s => (tt, f s).
Definition swhen {S} (c : bool) (m : ST S unit) : ST S unit :=
  if c then m else sret tt.
(** The [?] operator: continue on [Ok], return the error otherwise. *)
Definition stry {S E A B} (c : ST S (Result E A)) (k : A -> ST S (Result E B)) :
    ST S (Result E B) :=
  fun s => match c s with
           | (Ok a, s') => k a s'
           | (Err e, s') => (Err e, s')
           end.
Fixpoint siter {S A} (f : A -> ST S unit) (l : list A) : ST S unit :=
  match l with
  | [] => sret tt
  | x :: l' => sbind (f x) (fun _ => siter f l')
  end.

Notation "'let!' x := c 'in' k" := (sbind c (fun x => k))
  (at level 10, x pattern, c at level 200, k at level 200,
   format "'[v' 'let!'  x  :=  c  'in' '/' k ']'") : book_scope.
Notation "'do!' c 'in' k" := (sbind c (fun _ => k))
  (at level 10, c at level 200, k at level 200,
   format "'[v' 'do!'  c  'in' '/' k ']'") : book_scope.
Notation "'let?' x := c 'in' k" := (stry c (fun x => k))
  (at level 10, x pattern, c at level 200, k at level 200,
   format "'[v' 'let?'  x  :=  c  'in' '/' k ']'") : book_scope.
Open Scope book_scope.

(** ** Preservation of a state relation

    [runs_in R c]: whatever the initial state, [c] relates it to its final
    state by [R].  For a preorder [R] the combinators of the monad compose,
    which is what the hints below automate. *)

Definition runs_in {S A} (R : relation S) (c : ST S A) : Prop :=
  forall s, R s (c s).2.

Section RunsIn.
Context {S : Type} (R : relation S) `{!PreOrder R}.

Lemma runs_in_ret {A} (a : A) : runs_in R (sret a).
Proof. intros s. simpl. reflexivity. Qed.

Lemma runs_in_bind {A B} (c : ST S A) (k : A -> ST S B) :
  runs_in R c -> (forall a, runs_in R (k a)) -> runs_in R (sbind c k).
Proof.
  intros Hc Hk s. unfold sbind. specialize (Hc s).
  destruct (c s) as [a s'] eqn:E. simpl in *.
  transitivity s'; [done|apply Hk].
Qed.

Lemma runs_in_try {E A B} (c : ST S (Result E A)) (k : A -> ST S (Result E B)) :
  runs_in R c -> (forall a, runs_in R (k a)) -> runs_in R (stry c k).
Proof.
  intros Hc Hk s. unfold stry. specialize (Hc s).
  destruct (c s) as [[a|e] s'] eqn:E'; simpl in *; [|done].
  transitivity s'; [done|apply Hk].
Qed.

Lemma runs_in_get {A} (f : S -> A) : runs_in R (sget f).
Proof. intros s. simpl. reflexivity. Qed.

Lemma runs_in_mod (f : S -> S) : (forall s, R s (f s)) -> runs_in R (smod f).
Proof. intros H s. apply H. Qed.

Lemma runs_in_when c (m : ST S unit) : runs_in R m -> runs_in R (swhen c m).
Proof. intros H. destruct c; simpl; [done|apply runs_in_ret]. Qed.

Lemma runs_in_iter {A} (f : A -> ST S unit) l :
  (forall x, runs_in R (f x)) -> runs_in R (siter f l).
Proof.
  intros H. induction l as [|x l IH]; simpl; [apply runs_in_ret|].
  apply runs_in_bind; auto.
Qed.
End RunsIn.

Create HintDb runs discriminated.
#[export] Hint Resolve runs_in_ret runs_in_get : runs.

(** Walk through the combinators; leaves the leaf operations. *)
Ltac runs_step :=
  lazymatch goal with
  | |- runs_in _ (sbind _ _) => apply runs_in_bind; [try apply _| |intros ?]
  | |- runs_in _ (stry _ _) => apply runs_in_try; [try apply _| |intros ?]
  | |- runs_in _ (swhen _ _) => apply runs_in_when; [try apply _|]
  | |- runs_in _ (siter _ _) => apply runs_in_iter; [try apply _|intros ?]
  | |- runs_in _ (sret _) => apply runs_in_ret
  | |- runs_in _ (sget _) => apply runs_in_get
  | |- runs_in _ (smod _) => apply runs_in_mod; intros ?
  | |- runs_in _ (match ?x with _ => _ end) => destruct x eqn:?
  | |- runs_in _ (let '(_, _) := ?x in _) => destruct x eqn:?
  end.
Ltac runs := repeat (intros; first [solve [eauto with runs typeclass_instances] | runs_step]).

(** ** Inverting a run

    [st_inv H] takes a hypothesis [c s = (a, s')] apart along the monad's
    combinators, naming the intermediate states. *)

Section Inversion.
Context {S : Type}.

Lemma sbind_inv {A B} (c : ST S A) (k : A -> ST S B) s r :
  sbind c k s = r -> exists a s1, c s = (a, s1) /\ k a s1 = r.
Proof. unfold sbind. destruct (c s) as [a s1]. eauto. Qed.

Lemma stry_inv {E A B} (c : ST S (Result E A)) (k : A -> ST S (Result E B)) s r :
  stry c k s = r ->
  (exists a s1, c s = (Ok a, s1) /\ k a s1 = r) \/ (exists e s1, c s = (Err e, s1) /\ r = (Err e, s1)).
Proof. unfold stry. destruct (c s) as [[a|e] s1]; eauto. Qed.

Lemma stry_ok_inv {E A B} (c : ST S (Result E A)) (k : A -> ST S (Result E B)) s x s' :
  stry c k s = (Ok x, s') -> exists a s1, c s = (Ok a, s1) /\ k a s1 = (Ok x, s').
Proof. unfold stry. destruct (c s) as [[a|e] s1]; [eauto|done]. Qed.
Lemma sget_inv {A} (f : S -> A) s a s' : sget f s = (a, s') -> a = f s /\ s' = s.
Proof. by intros [= <- <-]. Qed.
Lemma smod_inv (f : S -> S) s a s' : smod f s = (a, s') -> s' = f s.
Proof. by intros [= <- <-]. Qed.
Lemma sret_inv {A} (a a' : A) (s s' : S) : sret a s = (a', s') -> a' = a /\ s' = s.
Proof. by intros [= <- <-]. Qed.

Lemma runs_in_inv {A} (R : relation S) (c : ST S A) s a s' :
  runs_in R c -> c s = (a, s') -> R s s'.
Proof. intros Hc E. specialize (Hc s). by rewrite E in Hc. Qed.
End Inversion.

Ltac st_step H :=
  lazymatch type of H with
  | sret _ _ = (_, _) => apply sret_inv in H as [? ?]; subst
  | sget _ _ = (_, _) => apply sget_inv in H as [? ?]; subst
  | smod _ _ = (_, _) => apply smod_inv in H; subst
  | sbind _ _ _ = _ =>
      let a := fresh "a" in let s1 := fresh "s" in let E := fresh "E" in
      apply sbind_inv in H as (a & s1 & E & H); cbn beta iota zeta in H; st_step E
  | _ => idtac
  end.
Ltac st_inv H := cbn beta iota zeta in H; repeat progress (st_step H).

(** ** Decisions on booleans *)

Ltac bool_prop :=
  repeat match goal with
  | H : (_ <=? _)%N = true |- _ => apply N.leb_le in H
  | H : (_ <=? _)%N = false |- _ => apply N.leb_gt in H
  | H : (_ <? _)%N = true |- _ => apply N.ltb_lt in H
  | H : (_ <? _)%N = false |- _ => apply N.ltb_ge in H
  | H : (_ =? _)%N = true |- _ => apply N.eqb_eq in H
  | H : (_ =? _)%N = false |- _ => apply N.eqb_neq in H
  | H : (_ <=? _)%Z = true |- _ => apply Z.leb_le in H
  | H : (_ <=? _)%Z = false |- _ => apply Z.leb_gt in H
  | H : (_ <? _)%Z = true |- _ => apply Z.ltb_lt in H
  | H : (_ <? _)%Z = false |- _ => apply Z.ltb_ge in H
  | H : (_ =? _)%Z = true |- _ => apply Z.eqb_eq in H
  | H : (_ =? _)%Z = false |- _ => apply Z.eqb_neq in H
  | H : (_ && _)%bool = true |- _ => apply andb_true_iff in H as [? ?]
  | H : (_ && _)%bool = false |- _ => apply andb_false_iff in H
  | H : (_ || _)%bool = true |- _ => apply orb_true_iff in H
  | H : (_ || _)%bool = false |- _ => apply orb_false_iff in H as [? ?]
  | H : negb _ = true |- _ => apply negb_true_iff in H
  | H : negb _ = false |- _ => apply negb_false_iff in H
  end.

(** ** Sums *)

Definition sumN {A} (f : A -> N) (l : list A) : N := foldr (fun x acc => f x + acc)%N 0%N l.
Arguments sumN : simpl never.

Lemma sumN_nil {A} (f : A -> N) : sumN f [] = 0%N.
Proof. done. Qed.
Lemma sumN_cons {A} (f : A -> N) x l : sumN f (x :: l) = (f x + sumN f l)%N.
Proof. done. Qed.
Lemma sumN_app {A} (f : A -> N) l k : sumN f (l ++ k) = (sumN f l + sumN f k)%N.
Proof. induction l; simpl; [done|]. rewrite !sumN_cons, IHl. lia. Qed.
Lemma sumN_fmap {A B} (f : B -> N) (g : A -> B) l : sumN f (g <$> l) = sumN (fun x => f (g x)) l.
Proof. induction l; csimpl; [done|]. by rewrite !sumN_cons, IHl. Qed.
Lemma sumN_Permutation {A} (f : A -> N) l k : l ≡ₚ k -> sumN f l = sumN f k.
Proof. induction 1; rewrite ?sumN_cons; lia. Qed.
Lemma sumN_filter_le {A} (f : A -> N) (P : A -> Prop) `{!forall x, Decision (P x)} l :
  (sumN f (filter P l) <= sumN f l)%N.
Proof.
  induction l as [|x l IH]; [done|].
  rewrite filter_cons. case_decide; rewrite ?sumN_cons; lia.
Qed.
Lemma sumN_mono {A} (f g : A -> N) l :
  (forall x, x ∈ l -> f x <= g x)%N -> (sumN f l <= sumN g l)%N.
Proof.
  induction l as [|x l IH]; intros H; [done|]. rewrite !sumN_cons.
  assert (f x <= g x)%N by (apply H; left).
  assert (sumN f l <= sumN g l)%N by (apply IH; intros; apply H; by right). lia.
Qed.
Lemma sumN_elem {A} (f : A -> N) x l : x ∈ l -> (f x <= sumN f l)%N.
Proof. induction 1; rewrite sumN_cons; lia. Qed.
Lemma sumN_eq {A} (f g : A -> N) l :
  (forall x, x ∈ l -> f x = g x) -> sumN f l = sumN g l.
Proof. intros H. apply N.le_antisymm; apply sumN_mono; intros; rewrite H; by try lia. Qed.

Create Rewrite HintDb sums.
#[export] Hint Rewrite @sumN_nil @sumN_cons @sumN_app : sums.

(** The running saturating sum used by the source's [fold]s and loops. *)
Definition sat_sum {A} (mx : N) (f : A -> N) (l : list A) : N :=
  foldl (fun acc x => sat_add mx acc (f x)) 0%N l.

Lemma sat_add_min mx a b c : (N.min mx (sat_add mx a b + c) = N.min mx (a + (b + c)))%N.
Proof. unfold sat_add. lia. Qed.

Lemma foldl_sat_add {A} mx (f : A -> N) l a :
  (a <= mx)%N ->
  foldl (fun acc x => sat_add mx acc (f x)) a l = N.min mx (a + sumN f l).
Proof.
  revert a. induction l as [|x l IH]; intros a Ha; simpl.
  - rewrite sumN_nil. lia.
  - rewrite IH by (unfold sat_add; lia). rewrite sumN_cons. apply sat_add_min.
Qed.

Lemma sat_sum_spec {A} mx (f : A -> N) l : sat_sum mx f l = N.min mx (sumN f l).
Proof. unfold sat_sum. rewrite foldl_sat_add by lia. f_equal. Qed.

(** ** Lists *)

(** [Vec::swap_remove]: the last element takes the place of the removed one. *)
Definition swap_remove {A} (i : nat) (l : list A) : list A :=
  match last l with
  | Some x => take (length l - 1) (<[i := x]> l)
  | None => l
  end.

Lemma swap_remove_perm {A} (l : list A) i x :
  l !! i = Some x -> x :: swap_remove i l ≡ₚ l.
Proof.
  destruct (decide (l = [])) as [->|Hl]; [done|].
  destruct (exists_last Hl) as (k & y & ->). intros Hi.
  unfold swap_remove. rewrite last_snoc, length_app. simpl.
  replace (length k + 1 - 1) with (length k) by lia.
  apply lookup_lt_Some in Hi as Hlt. rewrite length_app in Hlt. simpl in Hlt.
  destruct (decide (i = length k)) as [->|Hne].
  - rewrite lookup_app_r, Nat.sub_diag in Hi by lia. injection Hi as <-.
    rewrite insert_app_r_alt, Nat.sub_diag by lia. simpl.
    rewrite take_app_length. solve_Permutation.
  - rewrite lookup_app_l in Hi by lia.
    rewrite insert_app_l, take_app_length' by (rewrite ?length_insert; lia).
    rewrite (insert_take_drop k i y) by lia.
    rewrite <- (take_drop_middle k i x) at 3 by done.
    solve_Permutation.
Qed.


Lemma list_filter_ext {A} (P Q : A -> Prop) `{!forall x, Decision (P x), !forall x, Decision (Q x)} (l : list A) :
  (forall x, x ∈ l -> P x <-> Q x) -> filter P l = filter Q l.
Proof.
  induction l as [|x l IH]; intros HPQ; [done|].
  rewrite !filter_cons, IH by (intros; apply HPQ; by right).
  assert (P x <-> Q x) by (apply HPQ; left). repeat case_decide; tauto.
Qed.

Lemma list_filter_all {A} (P : A -> Prop) `{!forall x, Decision (P x)} (l : list A) :
  (forall x, x ∈ l -> P x) -> filter P l = l.
Proof.
  induction l as [|x l IH]; intros HP; [done|].
  rewrite filter_cons_True by (apply HP; left). f_equal. apply IH. intros; apply HP; by right.
Qed.

Lemma list_filter_none {A} (P : A -> Prop) `{!forall x, Decision (P x)} (l : list A) :
  (forall x, x ∈ l -> ~ P x) -> filter P l = [].
Proof.
  induction l as [|x l IH]; intros HP; [done|].
  rewrite filter_cons_False by (apply HP; left). apply IH. intros; apply HP; by right.
Qed.

Lemma list_filter_conj {A} (P Q : A -> Prop) `{!forall x, Decision (P x), !forall x, Decision (Q x)} (l : list A) :
  filter P (filter Q l) = filter (fun x => P x /\ Q x) l.
Proof.
  induction l as [|x l IH]; [done|].
  rewrite (filter_cons Q), (filter_cons (fun x => P x /\ Q x)).
  destruct (decide (Q x)); [rewrite filter_cons|];
    repeat case_decide; rewrite ?IH; tauto.
Qed.

Lemma list_filter_fmap {A B} (f : A -> B) (P : B -> Prop) `{!forall x, Decision (P x)} (l : list A) :
  filter P (f <$> l) = f <$> filter (fun x => P (f x)) l.
Proof.
  induction l as [|x l IH]; [done|]. rewrite fmap_cons, !filter_cons, IH. by case_decide.
Qed.

Lemma NoDup_fmap_inj {A B} (f : A -> B) (l : list A) x y :
  NoDup (f <$> l) -> x ∈ l -> y ∈ l -> f x = f y -> x = y.
Proof.
  induction l as [|z l IH]; [by intros _ ?%elem_of_nil|].
  rewrite fmap_cons, NoDup_cons, !elem_of_cons. intros [Hz Hnd] [->|Hx] [->|Hy] E; auto.
  - destruct Hz. rewrite E. by apply list_elem_of_fmap_2.
  - destruct Hz. rewrite <- E. by apply list_elem_of_fmap_2.
Qed.

(** ** Sums over finite maps *)

Section MapSum.
Context `{Countable K} {V : Type}.
Implicit Types m : gmap K V.

Definition map_sum (f : V -> N) m : N := sumN (fun kv => f kv.2) (map_to_list m).

Lemma map_sum_empty (f : V -> N) : map_sum f ∅ = 0%N.
Proof. unfold map_sum. by rewrite map_to_list_empty. Qed.

Lemma map_sum_insert (f : V -> N) m k x :
  m !! k = None -> map_sum f (<[k:=x]> m) = (f x + map_sum f m)%N.
Proof.
  intros Hk. unfold map_sum.
  rewrite (sumN_Permutation _ _ _ (map_to_list_insert m k x Hk)). by rewrite sumN_cons.
Qed.

Lemma map_sum_delete (f : V -> N) m k x :
  m !! k = Some x -> map_sum f m = (f x + map_sum f (delete k m))%N.
Proof.
  intros Hk. rewrite <- map_sum_insert with (k := k) by apply lookup_delete_eq.
  by rewrite insert_delete_id.
Qed.

Lemma map_sum_update (f : V -> N) m k x y :
  m !! k = Some x -> (map_sum f (<[k:=y]> m) + f x = f y + map_sum f m)%N.
Proof.
  intros Hk. rewrite (map_sum_delete f m k x) by done.
  rewrite <- insert_delete_eq, map_sum_insert by apply lookup_delete_eq. lia.
Qed.

Lemma map_sum_elem (f : V -> N) m k x : m !! k = Some x -> (f x <= map_sum f m)%N.
Proof. intros Hk. rewrite (map_sum_delete f m k x) by done. lia. Qed.

Lemma map_sum_mono (f g : V -> N) m :
  (forall x, (f x <= g x)%N) -> (map_sum f m <= map_sum g m)%N.
Proof. intros Hfg. apply sumN_mono. intros; apply Hfg. Qed.

Lemma map_sum_zero (f g : V -> N) m :
  (forall x, f x = 0%N -> g x = 0%N) -> map_sum f m = 0%N -> map_sum g m = 0%N.
Proof.
  intros Hfg. unfold map_sum. induction (map_to_list m) as [|kv l IH]; [done|].
  rewrite !sumN_cons. intros Hs. rewrite Hfg, IH; lia.
Qed.
End MapSum.
