(* ===== verification/Float64.v ===== *)
(** * f64

    IEEE-754 binary64 as the specification floats of the Standard Library:
    the conversions and operations the analytics of the book use. *)

From Stdlib Require Export SpecFloat.
From S2P Require Import Prelude.

Definition f64 : Type := spec_float.
Definition f64_zero : f64 := S754_zero false.

(** [n as f64]: rounded to nearest, ties to even. *)
Definition f64_of_N (n : N) : f64 := binary_normalize 53 1024 (Z.of_N n) 0 false.
Definition f64_add : f64 -> f64 -> f64 := SFadd 53 1024.
Definition f64_sub : f64 -> f64 -> f64 := SFsub 53 1024.
Definition f64_mul : f64 -> f64 -> f64 := SFmul 53 1024.
Definition f64_div : f64 -> f64 -> f64 := SFdiv 53 1024.
Definition f64_sqrt : f64 -> f64 := SFsqrt 53 1024.
Definition f64_ltb : f64 -> f64 -> bool := SFltb.

(** [x as u128]: towards zero, saturating; a NaN becomes 0. *)
Definition f64_to_u128 (x : f64) : N :=
  match x with
  | S754_zero _ | S754_nan | S754_finite true _ _ | S754_infinity true => 0
  | S754_infinity false => U128_MAX
  | S754_finite false m e =>
      N.min U128_MAX (Z.to_N (if (0 <=? e)%Z then Z.pos m * 2 ^ e else Z.pos m / 2 ^ (- e)))
  end.

(** ** Comparisons, signs and bounds *)

Definition f64_leb : f64 -> f64 -> bool := SFleb.
Definition f64_abs : f64 -> f64 := SFabs.
Definition f64_neg : f64 -> f64 := SFopp.
Definition f64_is_nan (x : f64) : bool := match x with S754_nan => true | _ => false end.
Definition f64_is_finite (x : f64) : bool :=
  match x with S754_zero _ | S754_finite _ _ _ => true | _ => false end.

(** [f64::max]: a NaN is ignored. *)
Definition f64_max (x y : f64) : f64 :=
  if f64_is_nan x then y else if f64_is_nan y then x else if f64_ltb x y then y else x.

(** [f64::clamp] panics ([None]) unless [min <= max]; a NaN stays a NaN. *)
Definition f64_clamp (x lo hi : f64) : option f64 :=
  if f64_leb lo hi then
    let x := if f64_ltb x lo then lo else x in
    Some (if f64_ltb hi x then hi else x)
  else None.

Definition f64_signum (x : f64) : f64 :=
  match x with
  | S754_nan => S754_nan
  | S754_zero s | S754_infinity s | S754_finite s _ _ => if s then f64_neg (f64_of_N 1) else f64_of_N 1
  end.

(** The literal [m / 10^k]: both integers are exact for [m < 2^53] and
    [k <= 22], so the quotient is the correctly rounded literal. *)
Definition f64_dec (m k : N) : f64 := f64_div (f64_of_N m) (f64_of_N (10 ^ k)).
Definition f64_PI : f64 := S754_finite false 7074237752028440 (-51).
Definition f64_SQRT_2 : f64 := S754_finite false 6369051672525773 (-52).

Lemma SFcompare_swap x y : SFcompare y x = option_map CompOpp (SFcompare x y).
Proof.
  destruct x as [s|s| |s m e], y as [s'|s'| |s' m' e']; unfold SFcompare;
    repeat match goal with |- context [if ?b then _ else _] => destruct b end; try done;
    change (Pos.compare_cont Eq) with Pos.compare;
    rewrite (Z.compare_antisym e e'), (Pos.compare_antisym m m');
    by destruct (e ?= e')%Z, (m ?= m')%positive.
Qed.

Lemma f64_ltb_swap x y : f64_leb x y = true -> f64_ltb y x = false.
Proof.
  unfold f64_leb, f64_ltb, SFleb, SFltb. rewrite (SFcompare_swap x y).
  by destruct (SFcompare x y) as [[]|].
Qed.

Lemma f64_ltb_irrefl x : f64_ltb x x = false.
Proof.
  unfold f64_ltb, SFltb. pose proof (SFcompare_swap x x) as H. by destruct (SFcompare x x) as [[]|].
Qed.

(** Negation turns the order around. *)
Lemma f64_ltb_opp x y : f64_ltb x y = f64_ltb (f64_neg y) (f64_neg x).
Proof.
  unfold f64_ltb, f64_neg, SFltb. rewrite (SFcompare_swap (SFopp x)).
  replace (option_map CompOpp (SFcompare (SFopp x) (SFopp y))) with (SFcompare x y); [done|].
  destruct x as [s|s| |s m e], y as [s'|s'| |s' m' e']; try done; try (by destruct s); try (by destruct s');
    try (by destruct s, s').
  destruct s, s'; try done; simpl; destruct (e ?= e')%Z; simpl; try done; by rewrite ?CompOpp_involutive.
Qed.

(** What a clamp promises: never below [lo], never above [hi]. *)
Lemma f64_clamp_bounds x lo hi y : f64_clamp x lo hi = Some y ->
  f64_ltb y lo = false /\ f64_ltb hi y = false.
Proof.
  unfold f64_clamp. destruct (f64_leb lo hi) eqn:E; [|done]. intros [= <-]. apply f64_ltb_swap in E as Hlh.
  destruct (f64_ltb x lo) eqn:Ex.
  - rewrite Hlh. split; [apply f64_ltb_irrefl|done].
  - destruct (f64_ltb hi x) eqn:Ey; [|done]. split; [done|apply f64_ltb_irrefl].
Qed.

Lemma f64_clamp_panics x lo hi : f64_clamp x lo hi = None <-> f64_leb lo hi = false.
Proof. unfold f64_clamp. by destruct (f64_leb lo hi). Qed.
