(* ===== verification/Types.v ===== *)
(** * The data types of the engine

    The enums and structs the components share.  [Side], [TimeInForce],
    [OrderType], [OrderUpdate], [TakerKind], [PegReferenceType] and
    [PriceLevelError] are declared by the [pricelevel] crate; their
    constructors and fields are the ones the repository's own pattern matches
    spell out (src/src/orderbook/private.rs, modifications.rs, error.rs,
    wire/inbound/new_order.rs, repricing.rs).  Everything else is declared by
    the repository itself. *)

From stdpp Require Export strings.
From S2P Require Import Prelude.

(** Order identifiers.  The engine only compares and hashes them. *)
Definition Id : Type := N.
(** A 32-byte user hash, read as the little-endian number of its bytes. *)
Definition Hash32 : Type := N.
Definition Hash32_zero : Hash32 := 0%N.

Inductive Side := Buy | Sell.

Definition opposite (s : Side) : Side :=
  match s with Buy => Sell | Sell => Buy end.

Inductive TimeInForce :=
| Gtc
| Ioc
| Fok
| Gtd (deadline : N)
| Day.

Inductive PegReferenceType := BestBid | BestAsk | MidPrice | LastTradePeg.

Inductive TakerKind := TakerStandard | TakerPostOnly.

(** [OrderType<T>]: every variant carries an id, a limit price, a side, a
    user, an admission timestamp, a time in force and the caller's extra
    fields. *)
Inductive OrderType (T : Type) :=
| Standard (id : Id) (price quantity : N) (side : Side) (user_id : Hash32)
    (timestamp : N) (time_in_force : TimeInForce) (extra_fields : T)
| IcebergOrder (id : Id) (price visible_quantity hidden_quantity : N) (side : Side)
    (user_id : Hash32) (timestamp : N) (time_in_force : TimeInForce) (extra_fields : T)
| PostOnly (id : Id) (price quantity : N) (side : Side) (user_id : Hash32)
    (timestamp : N) (time_in_force : TimeInForce) (extra_fields : T)
| TrailingStop (id : Id) (price quantity : N) (side : Side) (user_id : Hash32)
    (timestamp : N) (time_in_force : TimeInForce)
    (trail_amount last_reference_price : N) (extra_fields : T)
| PeggedOrder (id : Id) (price quantity : N) (side : Side) (user_id : Hash32)
    (timestamp : N) (time_in_force : TimeInForce)
    (reference_price_offset : Z) (reference_price_type : PegReferenceType) (extra_fields : T)
| MarketToLimit (id : Id) (price quantity : N) (side : Side) (user_id : Hash32)
    (timestamp : N) (time_in_force : TimeInForce) (extra_fields : T)
| ReserveOrder (id : Id) (price visible_quantity hidden_quantity : N) (side : Side)
    (user_id : Hash32) (timestamp : N) (time_in_force : TimeInForce)
    (replenish_threshold : N) (replenish_amount : option N) (auto_replenish : bool)
    (extra_fields : T).
Arguments Standard {T}.
Arguments IcebergOrder {T}.
Arguments PostOnly {T}.
Arguments TrailingStop {T}.
Arguments PeggedOrder {T}.
Arguments MarketToLimit {T}.
Arguments ReserveOrder {T}.

(** The fields common to every variant. *)
Definition o_id {T} (o : OrderType T) : Id :=
  match o with
  | Standard id _ _ _ _ _ _ _ | IcebergOrder id _ _ _ _ _ _ _ _
  | PostOnly id _ _ _ _ _ _ _ | TrailingStop id _ _ _ _ _ _ _ _ _
  | PeggedOrder id _ _ _ _ _ _ _ _ _ | MarketToLimit id _ _ _ _ _ _ _
  | ReserveOrder id _ _ _ _ _ _ _ _ _ _ _ => id
  end.
Definition o_price {T} (o : OrderType T) : N :=
  match o with
  | Standard _ p _ _ _ _ _ _ | IcebergOrder _ p _ _ _ _ _ _ _
  | PostOnly _ p _ _ _ _ _ _ | TrailingStop _ p _ _ _ _ _ _ _ _
  | PeggedOrder _ p _ _ _ _ _ _ _ _ | MarketToLimit _ p _ _ _ _ _ _
  | ReserveOrder _ p _ _ _ _ _ _ _ _ _ _ => p
  end.
Definition o_side {T} (o : OrderType T) : Side :=
  match o with
  | Standard _ _ _ s _ _ _ _ | IcebergOrder _ _ _ _ s _ _ _ _
  | PostOnly _ _ _ s _ _ _ _ | TrailingStop _ _ _ s _ _ _ _ _ _
  | PeggedOrder _ _ _ s _ _ _ _ _ _ | MarketToLimit _ _ _ s _ _ _ _
  | ReserveOrder _ _ _ _ s _ _ _ _ _ _ _ => s
  end.
Definition o_user_id {T} (o : OrderType T) : Hash32 :=
  match o with
  | Standard _ _ _ _ u _ _ _ | IcebergOrder _ _ _ _ _ u _ _ _
  | PostOnly _ _ _ _ u _ _ _ | TrailingStop _ _ _ _ u _ _ _ _ _
  | PeggedOrder _ _ _ _ u _ _ _ _ _ | MarketToLimit _ _ _ _ u _ _ _
  | ReserveOrder _ _ _ _ _ u _ _ _ _ _ _ => u
  end.
Definition o_time_in_force {T} (o : OrderType T) : TimeInForce :=
  match o with
  | Standard _ _ _ _ _ _ t _ | IcebergOrder _ _ _ _ _ _ _ t _
  | PostOnly _ _ _ _ _ _ t _ | TrailingStop _ _ _ _ _ _ t _ _ _
  | PeggedOrder _ _ _ _ _ _ t _ _ _ | MarketToLimit _ _ _ _ _ _ t _
  | ReserveOrder _ _ _ _ _ _ _ t _ _ _ _ => t
  end.

(** [OrderBook::convert_to_unit_type]: drop the extra fields. *)
Definition convert_to_unit_type {T} (o : OrderType T) : OrderType unit :=
  match o with
  | Standard id price quantity side user_id timestamp tif _ =>
      Standard id price quantity side user_id timestamp tif tt
  | IcebergOrder id price visible hidden side user_id timestamp tif _ =>
      IcebergOrder id price visible hidden side user_id timestamp tif tt
  | PostOnly id price quantity side user_id timestamp tif _ =>
      PostOnly id price quantity side user_id timestamp tif tt
  | TrailingStop id price quantity side user_id timestamp tif trail last_ref _ =>
      TrailingStop id price quantity side user_id timestamp tif trail last_ref tt
  | PeggedOrder id price quantity side user_id timestamp tif offset ref_type _ =>
      PeggedOrder id price quantity side user_id timestamp tif offset ref_type tt
  | MarketToLimit id price quantity side user_id timestamp tif _ =>
      MarketToLimit id price quantity side user_id timestamp tif tt
  | ReserveOrder id price visible hidden side user_id timestamp tif threshold amount auto _ =>
      ReserveOrder id price visible hidden side user_id timestamp tif threshold amount auto tt
  end.

(** [OrderBook::convert_from_unit_type]: restore the type with [T::default()]. *)
Definition convert_from_unit_type {T} (default : T) (o : OrderType unit) : OrderType T :=
  match o with
  | Standard id price quantity side user_id timestamp tif _ =>
      Standard id price quantity side user_id timestamp tif default
  | IcebergOrder id price visible hidden side user_id timestamp tif _ =>
      IcebergOrder id price visible hidden side user_id timestamp tif default
  | PostOnly id price quantity side user_id timestamp tif _ =>
      PostOnly id price quantity side user_id timestamp tif default
  | TrailingStop id price quantity side user_id timestamp tif trail last_ref _ =>
      TrailingStop id price quantity side user_id timestamp tif trail last_ref default
  | PeggedOrder id price quantity side user_id timestamp tif offset ref_type _ =>
      PeggedOrder id price quantity side user_id timestamp tif offset ref_type default
  | MarketToLimit id price quantity side user_id timestamp tif _ =>
      MarketToLimit id price quantity side user_id timestamp tif default
  | ReserveOrder id price visible hidden side user_id timestamp tif threshold amount auto _ =>
      ReserveOrder id price visible hidden side user_id timestamp tif threshold amount auto default
  end.

Inductive OrderUpdate :=
| UpdatePrice (order_id : Id) (new_price : N)
| UpdateQuantity (order_id : Id) (new_quantity : N)
| UpdatePriceAndQuantity (order_id : Id) (new_price new_quantity : N)
| Cancel (order_id : Id)
| Replace (order_id : Id) (price quantity : N) (side : Side).

(** [STPMode] (stp.rs). *)
Inductive STPMode := STPNone | CancelTaker | CancelMaker | CancelBoth.

(** [CancelReason] (order_state.rs). *)
Inductive CancelReason :=
| UserRequested
| SelfTradePrevention
| TimeInForceExpired
| MassCancelAll
| MassCancelBySide
| MassCancelByUser
| MassCancelByPriceRange
| InsufficientLiquidityCancel.

(** [RejectReason] (reject_reason.rs). *)
Inductive RejectReason :=
| RejKillSwitchActive
| RejRiskMaxOpenOrders
| RejRiskMaxNotional
| RejRiskPriceBand
| RejPostOnlyWouldCross
| RejSelfTradePrevention
| RejInvalidPrice
| RejInvalidQuantity
| RejInvalidPriceLevel
| RejOrderSizeOutOfRange
| RejMissingUserId
| RejDuplicateOrderId
| RejInsufficientLiquidity
| RejOther (code : N).

(** [OrderStatus] (order_state.rs). *)
Inductive OrderStatus :=
| Open
| PartiallyFilled (original_quantity filled_quantity : N)
| Filled (filled_quantity : N)
| Cancelled (filled_quantity : N) (reason : CancelReason)
| Rejected (reason : RejectReason).

(** The text of an error message: a literal, or a [format!] template kept as
    its arguments. *)
Inductive Message :=
| Lit (s : string)
| LevelCapacityExceeded (order_id : Id) (price : N)
| SnapshotSymbolMismatch (snapshot_symbol symbol : string)
| DuplicateSnapshotLevel (side : Side) (price : N)
| UnsupportedSnapshotVersion (version min max : N).

(** [PriceLevelError], with the variants [OrderBookError::clone] lists (error.rs). *)
Inductive PriceLevelError :=
| ParseError (message : Message)
| InvalidFormat
| UnknownOrderType (s : string)
| MissingField (s : string)
| InvalidFieldValue (field value : string)
| PLInvalidOperation (message : Message)
| PLSerializationError (message : Message)
| PLDeserializationError (message : Message)
| PLChecksumMismatch (expected actual : string)
| PLDuplicateOrderId (id : Id).

(** [OrderBookError] (error.rs). *)
Inductive OrderBookError :=
| EPriceLevelError (e : PriceLevelError)
| OrderNotFound (s : string)
| InvalidPriceLevel (price : N)
| PriceCrossing (price : N) (side : Side) (opposite_price : N)
| InsufficientLiquidity (side : Side) (requested available : N)
| InsufficientLiquidityNotional (side : Side) (requested spent : N)
| InvalidOperation (message : Message)
| KillSwitchActive
| SerializationError (message : Message)
| DeserializationError (message : Message)
| ChecksumMismatch (expected actual : string)
| InvalidTickSize (price tick_size : N)
| InvalidLotSize (quantity lot_size : N)
| OrderSizeOutOfRange (quantity : N) (min max : option N)
| DuplicateOrderId (order_id : Id)
| QuantityOverflow (visible hidden : N)
| MissingUserId (order_id : Id)
| SelfTradePrevented (mode : STPMode) (taker_order_id : Id) (user_id : Hash32)
| RiskMaxOpenOrders (account : Hash32) (current limit : N)
| RiskMaxNotional (account : Hash32) (current attempted limit : N)
| RiskPriceBand (submitted reference deviation_bps limit_bps : N)
| NatsPublishError (message : Message)
| NatsSerializationError (message : Message).

#[export] Instance Side_eq_dec : EqDecision Side.
Proof. solve_decision. Defined.
#[export] Instance TimeInForce_eq_dec : EqDecision TimeInForce.
Proof. solve_decision. Defined.
#[export] Instance PegReferenceType_eq_dec : EqDecision PegReferenceType.
Proof. solve_decision. Defined.
#[export] Instance TakerKind_eq_dec : EqDecision TakerKind.
Proof. solve_decision. Defined.
#[export] Instance STPMode_eq_dec : EqDecision STPMode.
Proof. solve_decision. Defined.
#[export] Instance CancelReason_eq_dec : EqDecision CancelReason.
Proof. solve_decision. Defined.
#[export] Instance RejectReason_eq_dec : EqDecision RejectReason.
Proof. solve_decision. Defined.
#[export] Instance OrderStatus_eq_dec : EqDecision OrderStatus.
Proof. solve_decision. Defined.
#[export] Instance Message_eq_dec : EqDecision Message.
Proof. solve_decision. Defined.

(** The conversions keep every field but the extra ones. *)

Lemma convert_to_unit_id {T} (o : OrderType T) : o_id (convert_to_unit_type o) = o_id o.
Proof. by destruct o. Qed.
Lemma convert_to_unit_user {T} (o : OrderType T) :
  o_user_id (convert_to_unit_type o) = o_user_id o.
Proof. by destruct o. Qed.
Lemma convert_to_unit_price {T} (o : OrderType T) :
  o_price (convert_to_unit_type o) = o_price o.
Proof. by destruct o. Qed.
Lemma convert_from_unit_id {T} (d : T) o : o_id (convert_from_unit_type d o) = o_id o.
Proof. by destruct o. Qed.
Lemma convert_from_unit_user {T} (d : T) o :
  o_user_id (convert_from_unit_type d o) = o_user_id o.
Proof. by destruct o. Qed.
Lemma convert_from_to_unit {T} (d : T) o :
  convert_to_unit_type (convert_from_unit_type d o) = o.
Proof. by destruct o as [? ? ? ? ? ? ? []|? ? ? ? ? ? ? ? []|? ? ? ? ? ? ? []
  |? ? ? ? ? ? ? ? ? []|? ? ? ? ? ? ? ? ? []|? ? ? ? ? ? ? []|? ? ? ? ? ? ? ? ? ? ? []]. Qed.

Create Rewrite HintDb orders.
#[export] Hint Rewrite @convert_to_unit_id @convert_to_unit_user @convert_to_unit_price
  @convert_from_unit_id @convert_from_unit_user @convert_from_to_unit : orders.
