(* ===== verification/PriceLevel.v ===== *)
(** * The [pricelevel] crate, as an interface

    A single price level, its orders' queue and the match of a taker against
    one level are implemented by the third-party crate [pricelevel] 0.9,
    whose code is not part of the repository.  The development is therefore
    parametric in it: [PriceLevelApi] lists the operations the engine calls,
    [PriceLevelLaws] the behaviour the repository documents and relies on
    (the comments of matching.rs, modifications.rs, stp.rs and the changelog
    entries for pricelevel 0.8 and 0.9).  PriceLevelFifo.v gives an
    executable instance of both. *)

From S2P Require Import Prelude Types.

Class PriceLevelApi := {
  (** methods of [OrderType] *)
  visible_quantity : forall {T}, OrderType T -> N;
  hidden_quantity : forall {T}, OrderType T -> N;
  is_immediate : forall {T}, OrderType T -> bool;
  is_fill_or_kill : forall {T}, OrderType T -> bool;
  is_post_only : forall {T}, OrderType T -> bool;
  with_reduced_quantity : forall {T}, OrderType T -> N -> OrderType T;
  (** [TimeInForce::is_expired(now, market_close)] *)
  tif_is_expired : TimeInForce -> N -> option N -> bool;
  (** [Trade] *)
  Trade : Type;
  trade_maker_order_id : Trade -> Id;
  trade_taker_order_id : Trade -> Id;
  trade_quantity : Trade -> N;
  trade_price : Trade -> N;
  (** [MatchResult]; [add_trade] answers [None] for its [Err] *)
  MatchResult : Type;
  mr_new : Id -> N -> MatchResult;
  mr_add_trade : MatchResult -> Trade -> option MatchResult;
  mr_add_filled_order_id : MatchResult -> Id -> MatchResult;
  mr_trades : MatchResult -> list Trade;
  mr_filled_order_ids : MatchResult -> list Id;
  mr_remaining_quantity : MatchResult -> N;
  mr_was_rejected : MatchResult -> bool;
  (** [UuidGenerator] *)
  UuidGenerator : Type;
  uuid_generator_new : N -> UuidGenerator;
  (** [PriceLevel] *)
  PriceLevel : Type;
  pl_new : N -> PriceLevel;
  pl_price : PriceLevel -> N;
  pl_order_count : PriceLevel -> nat;
  pl_visible_quantity : PriceLevel -> N;
  pl_total_quantity : PriceLevel -> Result PriceLevelError N;
  pl_snapshot_by_insertion_seq : PriceLevel -> list (OrderType unit);
  pl_iter_orders : PriceLevel -> list (OrderType unit);
  pl_matchable_quantity : PriceLevel -> N -> Id -> N;
  pl_add_order : PriceLevel -> OrderType unit ->
                 Result PriceLevelError (PriceLevel * OrderType unit);
  pl_update_order : PriceLevel -> OrderUpdate ->
                    PriceLevel * Result PriceLevelError (option (OrderType unit));
  (** quantity, taker id, time in force, taker kind, taker timestamp *)
  pl_match_order : PriceLevel -> N -> Id -> TimeInForce -> TakerKind -> N -> UuidGenerator ->
                   PriceLevel * UuidGenerator * MatchResult;
}.

Section Queue.
Context `{PriceLevelApi}.

(** The resting queue of a level, in consumption order. *)
Definition queue (lv : PriceLevel) : list (OrderType unit) := pl_snapshot_by_insertion_seq lv.

Definition queue_ids (lv : PriceLevel) : list Id := o_id <$> queue lv.

(** What the book's indices know of a resting order. *)
Definition order_key (o : OrderType unit) : Id * Hash32 := (o_id o, o_user_id o).

(** [order_matchable_qty] (matching.rs): the visible quantity plus the hidden
    quantity a sweep can draw. *)
Definition order_matchable_qty (order : OrderType unit) : N :=
  let visible := visible_quantity order in
  let drawable_hidden :=
    match order with
    | IcebergOrder _ _ _ hidden _ _ _ _ _ => hidden
    | ReserveOrder _ _ _ hidden _ _ _ _ _ _ auto_replenish _ =>
        if auto_replenish then hidden else 0%N
    | _ => 0%N
    end in
  sat_add U64_MAX visible drawable_hidden.

Definition executed_quantity (m : MatchResult) : N := sumN trade_quantity (mr_trades m).
End Queue.

(** The behaviour the engine relies on.  Each law names the place of the
    repository that documents it. *)
Class PriceLevelLaws `{!PriceLevelApi} := {
  (** modifications.rs, [OrderQuantity]: [quantity] is the visible quantity *)
  visible_quantity_spec : forall {T} (o : OrderType T),
    visible_quantity o =
      match o with
      | Standard _ _ q _ _ _ _ _ | PostOnly _ _ q _ _ _ _ _
      | TrailingStop _ _ q _ _ _ _ _ _ _ | PeggedOrder _ _ q _ _ _ _ _ _ _
      | MarketToLimit _ _ q _ _ _ _ _ => q
      | IcebergOrder _ _ v _ _ _ _ _ _ | ReserveOrder _ _ v _ _ _ _ _ _ _ _ _ => v
      end;
  (** modifications.rs, [validate_order_shape]: only Iceberg and Reserve hide quantity *)
  hidden_quantity_spec : forall {T} (o : OrderType T),
    hidden_quantity o =
      match o with
      | IcebergOrder _ _ _ h _ _ _ _ _ | ReserveOrder _ _ _ h _ _ _ _ _ _ _ _ => h
      | _ => 0%N
      end;
  (** modifications.rs, [add_order_inner]: "IOC/FOK orders should not have a resting part" *)
  is_immediate_spec : forall {T} (o : OrderType T),
    is_immediate o = match o_time_in_force o with Ioc | Fok => true | _ => false end;
  is_fill_or_kill_spec : forall {T} (o : OrderType T),
    is_fill_or_kill o = match o_time_in_force o with Fok => true | _ => false end;
  is_post_only_spec : forall {T} (o : OrderType T),
    is_post_only o = match o with PostOnly _ _ _ _ _ _ _ _ => true | _ => false end;
  with_reduced_quantity_key : forall {T} (o : OrderType T) q,
    o_id (with_reduced_quantity o q) = o_id o /\
    o_user_id (with_reduced_quantity o q) = o_user_id o;
  (** private.rs, [tif_expired_at]; sequencer/types.rs, [EvictExpiredOrders] *)
  tif_is_expired_spec : forall tif now mc,
    tif_is_expired tif now mc =
      match tif with
      | Gtd deadline => (deadline <=? now)%N
      | Day => match mc with Some close => (close <=? now)%N | None => false end
      | _ => false
      end;
  (** [MatchResult]: matching.rs, [normalize_notional_match_result]
      ("[add_trade] only fails on underflow") *)
  mr_new_spec : forall id q,
    mr_trades (mr_new id q) = [] /\ mr_filled_order_ids (mr_new id q) = [] /\
    mr_remaining_quantity (mr_new id q) = q;
  mr_add_trade_spec : forall m t,
    match mr_add_trade m t with
    | Some m' =>
        (trade_quantity t <= mr_remaining_quantity m)%N /\
        mr_trades m' = mr_trades m ++ [t] /\
        mr_filled_order_ids m' = mr_filled_order_ids m /\
        mr_remaining_quantity m' = (mr_remaining_quantity m - trade_quantity t)%N
    | None => (mr_remaining_quantity m < trade_quantity t)%N
    end;
  mr_add_filled_spec : forall m id,
    mr_trades (mr_add_filled_order_id m id) = mr_trades m /\
    mr_filled_order_ids (mr_add_filled_order_id m id) = mr_filled_order_ids m ++ [id] /\
    mr_remaining_quantity (mr_add_filled_order_id m id) = mr_remaining_quantity m;
  (** levels *)
  pl_new_spec : forall p, queue (pl_new p) = [] /\ pl_price (pl_new p) = p;
  pl_order_count_spec : forall lv, pl_order_count lv = length (queue lv);
  pl_iter_orders_spec : forall lv, pl_iter_orders lv ≡ₚ queue lv;
  (** the dry run: matching.rs, [order_matchable_qty] and [fok_fillable_quantity];
      the taker's own id is skipped *)
  pl_matchable_spec : forall lv q taker,
    pl_matchable_quantity lv q taker =
      N.min q (sumN order_matchable_qty (filter (fun o => o_id o <> taker) (queue lv)));
  (** admission appends at the back of the queue and validates first *)
  pl_add_order_ok : forall lv o lv' o',
    pl_add_order lv o = Ok (lv', o') ->
    o' = o /\ queue lv' = queue lv ++ [o] /\ pl_price lv' = pl_price lv;
  pl_add_order_admits : forall lv o,
    o_id o ∉ queue_ids lv -> o_price o = pl_price lv ->
    (forall o', o' ∈ queue lv -> o_side o' = o_side o) ->
    (sumN (fun o' => visible_quantity o' + hidden_quantity o') (queue lv ++ [o]) <= U64_MAX)%N ->
    exists lv', pl_add_order lv o = Ok (lv', o);
  (** cancelling removes the named order and nothing else *)
  pl_cancel_spec : forall lv id lv' r,
    pl_update_order lv (Cancel id) = (lv', r) ->
    r = Ok (head (filter (fun o => o_id o = id) (queue lv))) /\
    queue lv' = filter (fun o => o_id o <> id) (queue lv) /\ pl_price lv' = pl_price lv;
  (** an in-place update of a positive quantity rewrites that order only *)
  pl_update_quantity_spec : forall lv id q lv' r,
    pl_update_order lv (UpdateQuantity id q) = (lv', r) -> (0 < q)%N ->
    match r with
    | Ok (Some o') =>
        exists o, o ∈ queue lv /\ o_id o = id /\ o' = with_reduced_quantity o q /\
        (order_key <$> queue lv') ≡ₚ (order_key <$> queue lv) /\ pl_price lv' = pl_price lv
    | Ok None => (id ∉ queue_ids lv) /\ lv' = lv
    | Err _ => lv' = lv
    end;
  (** a post-only match is a dry run: matching.rs, "Post-only crossability verdict" *)
  pl_match_post_only : forall lv q taker ts gen lv' gen' m,
    pl_match_order lv q taker Gtc TakerPostOnly ts gen = (lv', gen', m) ->
    lv' = lv /\ gen' = gen /\ mr_trades m = [] /\
    mr_was_rejected m = (0 <? pl_matchable_quantity lv q taker)%N;
  (** a standard match conserves quantity, executes what the dry run promises,
      trades at the level's price and only with resting orders of other ids *)
  pl_match_price : forall lv q taker ts gen lv' gen' m,
    pl_match_order lv q taker Gtc TakerStandard ts gen = (lv', gen', m) ->
    pl_price lv' = pl_price lv /\
    (forall t, t ∈ mr_trades m -> trade_price t = pl_price lv /\ (0 < trade_quantity t)%N /\
       trade_taker_order_id t = taker /\ trade_maker_order_id t ∈ queue_ids lv);
  pl_match_quantity : forall lv q taker ts gen lv' gen' m,
    pl_match_order lv q taker Gtc TakerStandard ts gen = (lv', gen', m) ->
    executed_quantity m = pl_matchable_quantity lv q taker /\
    mr_remaining_quantity m = (q - executed_quantity m)%N;
  (** consumption follows the queue: stp.rs and matching.rs (#132) *)
  pl_match_fifo : forall lv q taker ts gen lv' gen' m pre post,
    pl_match_order lv q taker Gtc TakerStandard ts gen = (lv', gen', m) ->
    queue lv = pre ++ post -> taker ∉ (o_id <$> pre) ->
    Forall (fun o => is_u64 (visible_quantity o)) pre ->
    (q <= sumN visible_quantity pre)%N ->
    forall t, t ∈ mr_trades m -> trade_maker_order_id t ∈ (o_id <$> pre);
  (** exactly the makers reported as filled leave the queue, and an id is
      reported only with its trades (#104) *)
  pl_match_survivors : forall lv q taker ts gen lv' gen' m,
    pl_match_order lv q taker Gtc TakerStandard ts gen = (lv', gen', m) ->
    NoDup (queue_ids lv) ->
    (order_key <$> queue lv') ≡ₚ filter (fun k => k.1 ∉ mr_filled_order_ids m) (order_key <$> queue lv) /\
    (forall id, id ∈ mr_filled_order_ids m -> exists t, t ∈ mr_trades m /\ trade_maker_order_id t = id);
  (** a taker that is not filled has exhausted the level: what stays had no
      matchable quantity in the first place (matching.rs, [order_matchable_qty]:
      "a non-auto-replenish reserve drops its hidden unfilled"), or is the
      taker's own id, which the match skips *)
  pl_match_drains : forall lv q taker ts gen lv' gen' m,
    pl_match_order lv q taker Gtc TakerStandard ts gen = (lv', gen', m) ->
    (executed_quantity m < q)%N ->
    forall o, o ∈ queue lv' -> o_id o = taker \/ (o ∈ queue lv /\ order_matchable_qty o = 0%N);
}.

Section Facts.
Context `{PriceLevelLaws}.

Lemma matchable_le lv q taker : (pl_matchable_quantity lv q taker <= q)%N.
Proof. rewrite pl_matchable_spec. lia. Qed.

Lemma visible_le_matchable (o : OrderType unit) :
  is_u64 (visible_quantity o) -> (visible_quantity o <= order_matchable_qty o)%N.
Proof.
  unfold is_u64, order_matchable_qty, sat_add. intros. cbv zeta.
  generalize (visible_quantity o) H1. intros v Hv. apply N.min_glb; [done|lia].
Qed.

Lemma match_remaining_sum lv q taker ts gen lv' gen' m :
  pl_match_order lv q taker Gtc TakerStandard ts gen = (lv', gen', m) ->
  (executed_quantity m + mr_remaining_quantity m = q)%N.
Proof.
  intros Hm. apply pl_match_quantity in Hm as [Hx ->].
  pose proof (matchable_le lv q taker). lia.
Qed.

Lemma iter_orders_elem lv o : o ∈ pl_iter_orders lv <-> o ∈ queue lv.
Proof. by rewrite pl_iter_orders_spec. Qed.

Lemma queue_ids_keys lv : queue_ids lv = fst <$> (order_key <$> queue lv).
Proof. unfold queue_ids. by rewrite <- list_fmap_compose. Qed.
End Facts.
