(* ===== verification/PriceLevelFifo.v ===== *)
(** * A first-in first-out price level

    An executable instance of [PriceLevelApi] satisfying [PriceLevelLaws]:
    a level is its price and its queue, and a taker consumes the queue from
    the front, each order giving its drawable quantity.  It shows that the
    laws can hold, and it is what the concrete examples of the development
    evaluate. *)

From S2P Require Import Prelude Types PriceLevel.

Record FTrade := {
  ft_maker : Id;
  ft_taker : Id;
  ft_quantity : N;
  ft_price : N;
  ft_timestamp : N;
  ft_id : N;
}.

Record FMatch := {
  fm_order_id : Id;
  fm_trades : list FTrade;
  fm_filled : list Id;
  fm_remaining : N;
  fm_rejected : bool;
}.

Record FLevel := {
  fl_price : N;
  fl_queue : list (OrderType unit);
}.

Definition f_visible {T} (o : OrderType T) : N :=
  match o with
  | Standard _ _ q _ _ _ _ _ | PostOnly _ _ q _ _ _ _ _
  | TrailingStop _ _ q _ _ _ _ _ _ _ | PeggedOrder _ _ q _ _ _ _ _ _ _
  | MarketToLimit _ _ q _ _ _ _ _ => q
  | IcebergOrder _ _ v _ _ _ _ _ _ | ReserveOrder _ _ v _ _ _ _ _ _ _ _ _ => v
  end.

Definition f_hidden {T} (o : OrderType T) : N :=
  match o with
  | IcebergOrder _ _ _ h _ _ _ _ _ | ReserveOrder _ _ _ h _ _ _ _ _ _ _ _ => h
  | _ => 0%N
  end.

Definition f_total {T} (o : OrderType T) : N := (f_visible o + f_hidden o)%N.

Definition f_drawable (o : OrderType unit) : N :=
  sat_add U64_MAX (f_visible o)
    match o with
    | IcebergOrder _ _ _ hidden _ _ _ _ _ => hidden
    | ReserveOrder _ _ _ hidden _ _ _ _ _ _ auto _ => if auto then hidden else 0%N
    | _ => 0%N
    end.

(** Set the quantity of the visible tranche. *)
Definition f_with_visible {T} (o : OrderType T) (q : N) : OrderType T :=
  match o with
  | Standard id p _ s u ts tif x => Standard id p q s u ts tif x
  | IcebergOrder id p _ h s u ts tif x => IcebergOrder id p q h s u ts tif x
  | PostOnly id p _ s u ts tif x => PostOnly id p q s u ts tif x
  | TrailingStop id p _ s u ts tif a b x => TrailingStop id p q s u ts tif a b x
  | PeggedOrder id p _ s u ts tif a b x => PeggedOrder id p q s u ts tif a b x
  | MarketToLimit id p _ s u ts tif x => MarketToLimit id p q s u ts tif x
  | ReserveOrder id p _ h s u ts tif a b c x => ReserveOrder id p q h s u ts tif a b c x
  end.

Definition f_with_hidden (o : OrderType unit) (h : N) : OrderType unit :=
  match o with
  | IcebergOrder id p v _ s u ts tif x => IcebergOrder id p v h s u ts tif x
  | ReserveOrder id p v _ s u ts tif a b c x => ReserveOrder id p v h s u ts tif a b c x
  | _ => o
  end.

(** Take [q] from an order: from the visible tranche first, then from the
    hidden one, the remaining hidden quantity becoming visible. *)
Definition f_take (o : OrderType unit) (q : N) : OrderType unit :=
  if (q <? f_visible o)%N then f_with_visible o (f_visible o - q)
  else f_with_visible (f_with_hidden o 0) (f_total o - q).

(** Consume [q] from the queue on behalf of [taker]: the queue left, the fills
    and the ids that left the queue. *)
Fixpoint f_sweep (taker : Id) (q : N) (l : list (OrderType unit)) :
    list (OrderType unit) * list (Id * N) * list Id :=
  match l with
  | [] => ([], [], [])
  | o :: l' =>
      if (q =? 0)%N then (l, [], [])
      else if decide (o_id o = taker) then
        let '(rest, fills, filled) := f_sweep taker q l' in (o :: rest, fills, filled)
      else if (f_drawable o =? 0)%N then
        let '(rest, fills, filled) := f_sweep taker q l' in (o :: rest, fills, filled)
      else if (q <? f_drawable o)%N then (f_take o q :: l', [(o_id o, q)], [])
      else
        let '(rest, fills, filled) := f_sweep taker (q - f_drawable o) l' in
        (rest, (o_id o, f_drawable o) :: fills, o_id o :: filled)
  end.

Definition f_mk_trade (lv : FLevel) (taker ts : N) (gen : N) (i : nat) (fill : Id * N) : FTrade :=
  {| ft_maker := fill.1; ft_taker := taker; ft_quantity := fill.2;
     ft_price := fl_price lv; ft_timestamp := ts; ft_id := gen + N.of_nat i |}.

Definition f_matchable (lv : FLevel) (q : N) (taker : Id) : N :=
  N.min q (sumN f_drawable (filter (fun o => o_id o <> taker) (fl_queue lv))).

Definition f_match (lv : FLevel) (q : N) (taker : Id) (tif : TimeInForce) (kind : TakerKind)
    (ts : N) (gen : N) : FLevel * N * FMatch :=
  match kind with
  | TakerPostOnly =>
      (lv, gen, {| fm_order_id := taker; fm_trades := []; fm_filled := []; fm_remaining := q;
                   fm_rejected := (0 <? f_matchable lv q taker)%N |})
  | TakerStandard =>
      let '(rest, fills, filled) := f_sweep taker q (fl_queue lv) in
      ({| fl_price := fl_price lv; fl_queue := rest |},
       (gen + N.of_nat (length fills))%N,
       {| fm_order_id := taker;
          fm_trades := imap (f_mk_trade lv taker ts gen) fills;
          fm_filled := filled;
          fm_remaining := q - sumN snd fills;
          fm_rejected := false |})
  end.

Definition f_add (lv : FLevel) (o : OrderType unit) : Result PriceLevelError (FLevel * OrderType unit) :=
  if decide (o_id o ∈ o_id <$> fl_queue lv) then Err (PLDuplicateOrderId (o_id o))
  else if (sumN f_total (fl_queue lv ++ [o]) <=? U64_MAX)%N then
    Ok ({| fl_price := fl_price lv; fl_queue := fl_queue lv ++ [o] |}, o)
  else Err (PLInvalidOperation (Lit "level counter overflow")).

Definition f_update (lv : FLevel) (u : OrderUpdate) :
    FLevel * Result PriceLevelError (option (OrderType unit)) :=
  match u with
  | Cancel id =>
      ({| fl_price := fl_price lv; fl_queue := filter (fun o => o_id o <> id) (fl_queue lv) |},
       Ok (head (filter (fun o => o_id o = id) (fl_queue lv))))
  | UpdateQuantity id q =>
      match head (filter (fun o => o_id o = id) (fl_queue lv)) with
      | None => (lv, Ok None)
      | Some o =>
          if (f_hidden o + q <=? U64_MAX)%N then
            ({| fl_price := fl_price lv;
                fl_queue := (fun o' => if decide (o_id o' = id) then f_with_visible o' q else o')
                              <$> fl_queue lv |}, Ok (Some (f_with_visible o q)))
          else (lv, Err (PLInvalidOperation (Lit "level counter overflow")))
      end
  | _ => (lv, Err (PLInvalidOperation (Lit "unsupported update")))
  end.

#[export] Instance FifoApi : PriceLevelApi := {|
  visible_quantity := @f_visible;
  hidden_quantity := @f_hidden;
  is_immediate T o := match o_time_in_force o with Ioc | Fok => true | _ => false end;
  is_fill_or_kill T o := match o_time_in_force o with Fok => true | _ => false end;
  is_post_only T o := match o with PostOnly _ _ _ _ _ _ _ _ => true | _ => false end;
  with_reduced_quantity := @f_with_visible;
  tif_is_expired tif now mc :=
    match tif with
    | Gtd deadline => (deadline <=? now)%N
    | Day => match mc with Some close => (close <=? now)%N | None => false end
    | _ => false
    end;
  Trade := FTrade;
  trade_maker_order_id := ft_maker;
  trade_taker_order_id := ft_taker;
  trade_quantity := ft_quantity;
  trade_price := ft_price;
  MatchResult := FMatch;
  mr_new id q := {| fm_order_id := id; fm_trades := []; fm_filled := [];
                    fm_remaining := q; fm_rejected := false |};
  mr_add_trade m t :=
    if (ft_quantity t <=? fm_remaining m)%N then
      Some {| fm_order_id := fm_order_id m; fm_trades := fm_trades m ++ [t];
              fm_filled := fm_filled m; fm_remaining := fm_remaining m - ft_quantity t;
              fm_rejected := fm_rejected m |}
    else None;
  mr_add_filled_order_id m id :=
    {| fm_order_id := fm_order_id m; fm_trades := fm_trades m; fm_filled := fm_filled m ++ [id];
       fm_remaining := fm_remaining m; fm_rejected := fm_rejected m |};
  mr_trades := fm_trades;
  mr_filled_order_ids := fm_filled;
  mr_remaining_quantity := fm_remaining;
  mr_was_rejected := fm_rejected;
  UuidGenerator := N;
  uuid_generator_new ns := ns;
  PriceLevel := FLevel;
  pl_new p := {| fl_price := p; fl_queue := [] |};
  pl_price := fl_price;
  pl_order_count lv := length (fl_queue lv);
  pl_visible_quantity lv := sat_sum U64_MAX f_visible (fl_queue lv);
  pl_total_quantity lv :=
    let t := sumN f_total (fl_queue lv) in
    if (t <=? U64_MAX)%N then Ok t else Err (PLInvalidOperation (Lit "level counter overflow"));
  pl_snapshot_by_insertion_seq := fl_queue;
  pl_iter_orders := fl_queue;
  pl_matchable_quantity := f_matchable;
  pl_add_order := f_add;
  pl_update_order := f_update;
  pl_match_order := f_match;
|}.

(** ** The laws *)

Definition others (taker : Id) (l : list (OrderType unit)) : list (OrderType unit) :=
  filter (fun o => o_id o <> taker) l.

Lemma others_cons_eq taker o l : o_id o = taker -> others taker (o :: l) = others taker l.
Proof. intros. unfold others. rewrite filter_cons_False; [done|]. intros Hn. by apply Hn. Qed.
Lemma others_cons_ne taker o l : o_id o <> taker -> others taker (o :: l) = o :: others taker l.
Proof. intros. unfold others. by rewrite filter_cons_True. Qed.

Lemma f_take_key o q : order_key (f_take o q) = order_key o.
Proof. unfold f_take, order_key. case_match; by destruct o. Qed.
Lemma f_with_visible_id {T} (o : OrderType T) q : o_id (f_with_visible o q) = o_id o.
Proof. by destruct o. Qed.
Lemma f_with_visible_user {T} (o : OrderType T) q : o_user_id (f_with_visible o q) = o_user_id o.
Proof. by destruct o. Qed.

Ltac sweep_cases o q taker :=
  destruct (N.eqb_spec q 0);
    [|destruct (decide (o_id o = taker));
      [|destruct (N.eqb_spec (f_drawable o) 0);
        [|destruct (N.ltb_spec q (f_drawable o))]]].

Lemma f_sweep_executed taker q l :
  sumN snd (f_sweep taker q l).1.2 = N.min q (sumN f_drawable (others taker l)).
Proof.
  revert q. induction l as [|o l IH]; intros q; simpl;
    [unfold others; rewrite filter_nil, !sumN_nil; lia|].
  sweep_cases o q taker; simpl; rewrite ?sumN_cons, ?sumN_nil.
  - lia.
  - specialize (IH q). destruct (f_sweep taker q l) as [[? ?] ?]. simpl in *.
    by rewrite others_cons_eq.
  - specialize (IH q). destruct (f_sweep taker q l) as [[? ?] ?]. simpl in *.
    rewrite others_cons_ne, sumN_cons by done. lia.
  - rewrite others_cons_ne, sumN_cons by done. simpl. lia.
  - specialize (IH (q - f_drawable o)%N).
    destruct (f_sweep taker (q - f_drawable o) l) as [[? ?] ?]. simpl in *.
    rewrite sumN_cons, others_cons_ne, sumN_cons by done. simpl. lia.
Qed.

Lemma f_sweep_fills taker q l id n :
  (id, n) ∈ (f_sweep taker q l).1.2 -> id ∈ (o_id <$> l) /\ (0 < n)%N.
Proof.
  revert q. induction l as [|o l IH]; intros q; simpl; [by intros ?%elem_of_nil|].
  sweep_cases o q taker; simpl.
  - by intros ?%elem_of_nil.
  - specialize (IH q). destruct (f_sweep taker q l) as [[? ?] ?]. simpl in *.
    intros [? ?]%IH. split; [by right|done].
  - specialize (IH q). destruct (f_sweep taker q l) as [[? ?] ?]. simpl in *.
    intros [? ?]%IH. split; [by right|done].
  - intros [= -> ->]%list_elem_of_singleton. split; [left|lia].
  - specialize (IH (q - f_drawable o)%N).
    destruct (f_sweep taker (q - f_drawable o) l) as [[? ?] ?]. simpl in *.
    intros [[= -> ->]|[? ?]%IH]%elem_of_cons; (split; [|lia]); [left|by right].
Qed.

Lemma f_sweep_fifo taker q pre post id n :
  taker ∉ (o_id <$> pre) -> Forall (fun o => is_u64 (f_visible o)) pre ->
  (q <= sumN f_visible pre)%N ->
  (id, n) ∈ (f_sweep taker q (pre ++ post)).1.2 -> id ∈ (o_id <$> pre).
Proof.
  revert q. induction pre as [|o pre IH]; intros q Ht Hu Hq; simpl.
  - rewrite sumN_nil in Hq. assert (q = 0%N) as -> by lia.
    destruct post; simpl; by intros ?%elem_of_nil.
  - apply not_elem_of_cons in Ht as [Hne Ht]. apply Forall_cons in Hu as [Ho Hu].
    rewrite sumN_cons in Hq. unfold is_u64 in Ho.
    assert (f_visible o <= f_drawable o)%N by (unfold f_drawable, sat_add; lia).
    sweep_cases o q taker; simpl; try congruence.
    + by intros ?%elem_of_nil.
    + specialize (IH q Ht Hu ltac:(lia)).
      destruct (f_sweep taker q (pre ++ post)) as [[? ?] ?]. simpl in *. right. auto.
    + intros [= -> ->]%list_elem_of_singleton. left.
    + specialize (IH (q - f_drawable o)%N Ht Hu ltac:(lia)).
      destruct (f_sweep taker (q - f_drawable o) (pre ++ post)) as [[? ?] ?]. simpl in *.
      intros [[= -> ->]|Hin]%elem_of_cons; [left|right; auto].
Qed.

Lemma f_sweep_filled taker q l id :
  id ∈ (f_sweep taker q l).2 -> exists n, (id, n) ∈ (f_sweep taker q l).1.2.
Proof.
  revert q. induction l as [|o l IH]; intros q; simpl; [by intros ?%elem_of_nil|].
  sweep_cases o q taker; simpl; try by intros ?%elem_of_nil.
  - specialize (IH q). by destruct (f_sweep taker q l) as [[? ?] ?].
  - specialize (IH q). by destruct (f_sweep taker q l) as [[? ?] ?].
  - specialize (IH (q - f_drawable o)%N).
    destruct (f_sweep taker (q - f_drawable o) l) as [[? ?] ?]. simpl in *.
    intros [->|Hin]%elem_of_cons; [eexists; left|].
    destruct (IH Hin) as [n' ?]. exists n'. by right.
Qed.

Lemma filter_keys_keep o (l rest : list (OrderType unit)) (filled : list Id) :
  o_id o ∉ filled ->
  order_key <$> rest = filter (fun k => k.1 ∉ filled) (order_key <$> l) ->
  order_key <$> (o :: rest) = filter (fun k => k.1 ∉ filled) (order_key <$> (o :: l)).
Proof. intros Hn Hr. csimpl. rewrite filter_cons_True by done. by rewrite Hr. Qed.

Lemma f_sweep_survivors taker q l :
  NoDup (o_id <$> l) ->
  order_key <$> (f_sweep taker q l).1.1
    = filter (fun k => k.1 ∉ (f_sweep taker q l).2) (order_key <$> l).
Proof.
  revert q. induction l as [|o l IH]; intros q Hnd; simpl; [done|].
  assert (Hall : forall k : list (OrderType unit),
    order_key <$> k = filter (fun x => x.1 ∉ @nil Id) (order_key <$> k)).
  { intros k. symmetry. apply list_filter_all. intros; set_solver. }
  csimpl in Hnd. apply NoDup_cons in Hnd as [Hni Hnd].
  assert (Hsub : forall q', o_id o ∉ (f_sweep taker q' l).2).
  { intros q' Hin. apply f_sweep_filled in Hin as [n Hin].
    by apply f_sweep_fills in Hin as [? _]. }
  sweep_cases o q taker; simpl.
  - apply (Hall (o :: l)).
  - specialize (IH q Hnd). specialize (Hsub q).
    destruct (f_sweep taker q l) as [[? ?] ?]. simpl in *. by apply filter_keys_keep.
  - specialize (IH q Hnd). specialize (Hsub q).
    destruct (f_sweep taker q l) as [[? ?] ?]. simpl in *. by apply filter_keys_keep.
  - rewrite f_take_key. apply (Hall (o :: l)).
  - specialize (IH (q - f_drawable o)%N Hnd).
    destruct (f_sweep taker (q - f_drawable o) l) as [[? ?] filled]. simpl in *.
    rewrite filter_cons_False by (simpl; set_solver). rewrite IH.
    apply list_filter_ext. intros [i u] Hin. simpl.
    rewrite elem_of_cons. split; [|tauto]. intros ? [->|?]; [|done].
    apply Hni. apply list_elem_of_fmap in Hin as (o' & [= -> ->] & Ho').
    apply list_elem_of_fmap. eauto.
Qed.

Lemma f_sweep_drains taker q l :
  (sumN snd (f_sweep taker q l).1.2 < q)%N ->
  forall o, o ∈ (f_sweep taker q l).1.1 -> o_id o = taker \/ (o ∈ l /\ f_drawable o = 0%N).
Proof.
  revert q. induction l as [|o l IH]; intros q; simpl; [by intros _ o ?%elem_of_nil|].
  sweep_cases o q taker; simpl.
  - rewrite sumN_nil. lia.
  - specialize (IH q). destruct (f_sweep taker q l) as [[? ?] ?]. simpl in *.
    intros Hq x [->|Hx]%elem_of_cons; [by left|]. destruct (IH Hq x Hx) as [?|[? ?]]; [by left|].
    right. split; [by right|done].
  - specialize (IH q). destruct (f_sweep taker q l) as [[? ?] ?]. simpl in *.
    intros Hq x [->|Hx]%elem_of_cons; [right; split; [left|done]|].
    destruct (IH Hq x Hx) as [?|[? ?]]; [by left|]. right. split; [by right|done].
  - rewrite sumN_cons, sumN_nil. simpl. lia.
  - specialize (IH (q - f_drawable o)%N).
    destruct (f_sweep taker (q - f_drawable o) l) as [[? ?] ?]. simpl in *. rewrite sumN_cons. simpl.
    intros Hq x Hx. destruct (IH ltac:(lia) x Hx) as [?|[? ?]]; [by left|]. right. split; [by right|done].
Qed.

Lemma imap_elem {A B} (f : nat -> A -> B) l y :
  y ∈ imap f l -> exists i x, x ∈ l /\ y = f i x.
Proof.
  intros (i & Hi)%list_elem_of_lookup. rewrite list_lookup_imap in Hi.
  destruct (l !! i) as [x|] eqn:E; simplify_eq/=.
  exists i, x. split; [|done]. apply list_elem_of_lookup. eauto.
Qed.

Lemma sumN_trades lv taker ts gen fills :
  sumN ft_quantity (imap (f_mk_trade lv taker ts gen) fills) = sumN snd fills.
Proof.
  revert gen. induction fills as [|x fills IH]; intros gen; [done|].
  rewrite imap_cons, !sumN_cons. simpl. f_equal.
  rewrite <- (IH (gen + 1)%N). f_equal. apply imap_ext. intros i y _. unfold f_mk_trade, compose.
  f_equal. lia.
Qed.

Lemma f_match_standard lv q taker ts gen lv' gen' m :
  f_match lv q taker Gtc TakerStandard ts gen = (lv', gen', m) ->
  fl_price lv' = fl_price lv /\
  fl_queue lv' = (f_sweep taker q (fl_queue lv)).1.1 /\
  fm_filled m = (f_sweep taker q (fl_queue lv)).2 /\
  fm_remaining m = (q - sumN snd (f_sweep taker q (fl_queue lv)).1.2)%N /\
  fm_trades m = imap (f_mk_trade lv taker ts gen) (f_sweep taker q (fl_queue lv)).1.2.
Proof.
  unfold f_match. destruct (f_sweep taker q (fl_queue lv)) as [[rest fills] filled].
  intros [= <- <- <-]. done.
Qed.

#[export] Instance FifoLaws : PriceLevelLaws.
Proof.
  constructor.
  - done.
  - done.
  - done.
  - done.
  - done.
  - intros T o q. by destruct o.
  - done.
  - done.
  - intros m t. simpl. destruct (N.leb_spec (ft_quantity t) (fm_remaining m)); simpl; auto.
  - done.
  - done.
  - done.
  - done.
  - done.
  - simpl. unfold f_add. intros lv o lv' o'. repeat case_match; intros; simplify_eq. done.
  - simpl. unfold f_add. intros lv o Hid _ _ Hsum. rewrite decide_False by done.
    unfold f_total. cbn in Hsum. apply N.leb_le in Hsum. rewrite Hsum. eauto.
  - intros lv id lv' r [= <- <-]. done.
  - intros lv id q lv' r Hu _. simpl in Hu. destruct (head _) as [o|] eqn:Hh.
    + assert (Ho : o ∈ filter (fun o => o_id o = id) (fl_queue lv)).
      { by apply head_Some_elem_of in Hh. }
      apply list_elem_of_filter in Ho as [<- Ho].
      case_match; simplify_eq; [|done].
      exists o. split_and!; try done. unfold queue. simpl.
      rewrite <- list_fmap_compose. erewrite list_fmap_ext; [done|].
      intros i x _. simpl. case_decide; [|done].
      unfold order_key. by rewrite f_with_visible_id, f_with_visible_user.
    + simplify_eq. split; [|done]. intros Hin. apply list_elem_of_fmap in Hin as (o & -> & Ho).
      apply head_None in Hh. eapply filter_nil_not_elem_of; [exact Hh|done|done].
  - intros lv q taker ts gen lv' gen' m [= <- <- <-]. done.
  - intros lv q taker ts gen lv' gen' m (Hp & _ & _ & _ & Ht)%f_match_standard.
    split; [exact Hp|]. intros t. simpl. rewrite Ht.
    intros (i & [id n] & Hin & ->)%imap_elem. apply f_sweep_fills in Hin as [Hid Hn]. done.
  - intros lv q taker ts gen lv' gen' m (_ & _ & _ & Hr & Ht)%f_match_standard.
    unfold executed_quantity. simpl. rewrite Ht, sumN_trades. split; [|done].
    rewrite f_sweep_executed. done.
  - intros lv q taker ts gen lv' gen' m pre post (_ & _ & _ & _ & Ht)%f_match_standard.
    unfold queue. simpl. intros Hq Hnt Hf Hle t. rewrite Ht, Hq.
    intros (i & [id n] & Hin & ->)%imap_elem. by eapply f_sweep_fifo.
  - intros lv q taker ts gen lv' gen' m (_ & Hq & Hf & _ & Ht)%f_match_standard Hnd.
    unfold queue. simpl. rewrite Hq, Hf. split; [by rewrite f_sweep_survivors|].
    intros id (n & Hin)%f_sweep_filled. rewrite Ht.
    apply list_elem_of_lookup in Hin as [i Hi].
    exists (f_mk_trade lv taker ts gen i (id, n)). split; [|done].
    apply list_elem_of_lookup. exists i. by rewrite list_lookup_imap, Hi.
  - intros lv q taker ts gen lv' gen' m (_ & Hq & _ & _ & Ht)%f_match_standard.
    unfold executed_quantity, queue. simpl. rewrite Ht, sumN_trades, Hq. apply f_sweep_drains.
Qed.
