(* ===== verification/OrderQuantity.v ===== *)
(** * Quantities of an order (modifications.rs, trait [OrderQuantity])

    Visible and total quantity of every order kind, and the two ways a
    quantity is rewritten: the user-facing [set_quantity] and the residual
    [set_total_remaining] applied to a partially filled taker before it
    rests. *)

From S2P Require Import Prelude Types.
Local Open Scope N_scope.

Section OrderQuantity.
Context {T : Type}.
Implicit Types o : OrderType T.

Definition quantity o : N :=
  match o with
  | Standard _ _ q _ _ _ _ _ => q
  | IcebergOrder _ _ visible _ _ _ _ _ _ => visible
  | PostOnly _ _ q _ _ _ _ _ => q
  | TrailingStop _ _ q _ _ _ _ _ _ _ => q
  | PeggedOrder _ _ q _ _ _ _ _ _ _ => q
  | MarketToLimit _ _ q _ _ _ _ _ => q
  | ReserveOrder _ _ visible _ _ _ _ _ _ _ _ _ => visible
  end.

Definition total_quantity o : N :=
  match o with
  | Standard _ _ q _ _ _ _ _ => q
  | IcebergOrder _ _ visible hidden _ _ _ _ _ => sat_add U64_MAX visible hidden
  | PostOnly _ _ q _ _ _ _ _ => q
  | TrailingStop _ _ q _ _ _ _ _ _ _ => q
  | PeggedOrder _ _ q _ _ _ _ _ _ _ => q
  | MarketToLimit _ _ q _ _ _ _ _ => q
  | ReserveOrder _ _ visible hidden _ _ _ _ _ _ _ _ => sat_add U64_MAX visible hidden
  end.

Definition checked_total_quantity o : option N :=
  match o with
  | IcebergOrder _ _ visible hidden _ _ _ _ _
  | ReserveOrder _ _ visible hidden _ _ _ _ _ _ _ _ => checked_add U64_MAX visible hidden
  | _ => Some (total_quantity o)
  end.

(** The two tranches a reserve order is left with when its total goes down to
    [new_total]. *)
Definition reduce_reserve_to_total o (new_total_quantity : N) : OrderType T :=
  match o with
  | ReserveOrder id price visible hidden side user ts tif threshold amount auto extra =>
      let original_total := sat_add U64_MAX visible hidden in
      let amount_to_reduce := sat_sub original_total new_total_quantity in
      let filled_from_visible := N.min amount_to_reduce visible in
      let visible' := sat_sub visible filled_from_visible in
      let remaining_to_reduce := (amount_to_reduce - filled_from_visible)%N in
      let hidden' := sat_sub hidden remaining_to_reduce in
      if ((visible' =? 0) && (0 <? hidden'))%N then
        let refresh := N.min (default 0%N amount) hidden' in
        ReserveOrder id price refresh (sat_sub hidden' refresh) side user ts tif
          threshold amount auto extra
      else ReserveOrder id price visible' hidden' side user ts tif threshold amount auto extra
  | _ => o
  end.

Definition set_quantity o (new_total_quantity : N) : OrderType T :=
  match o with
  | Standard id p _ s u ts tif x => Standard id p new_total_quantity s u ts tif x
  | PostOnly id p _ s u ts tif x => PostOnly id p new_total_quantity s u ts tif x
  | TrailingStop id p _ s u ts tif a b x => TrailingStop id p new_total_quantity s u ts tif a b x
  | PeggedOrder id p _ s u ts tif a b x => PeggedOrder id p new_total_quantity s u ts tif a b x
  | MarketToLimit id p _ s u ts tif x => MarketToLimit id p new_total_quantity s u ts tif x
  | IcebergOrder id p _ h s u ts tif x => IcebergOrder id p new_total_quantity h s u ts tif x
  | ReserveOrder _ _ _ _ _ _ _ _ _ _ _ _ => reduce_reserve_to_total o new_total_quantity
  end.

Definition set_total_remaining o (remaining_total : N) : OrderType T :=
  match o with
  | Standard id p _ s u ts tif x => Standard id p remaining_total s u ts tif x
  | PostOnly id p _ s u ts tif x => PostOnly id p remaining_total s u ts tif x
  | TrailingStop id p _ s u ts tif a b x => TrailingStop id p remaining_total s u ts tif a b x
  | PeggedOrder id p _ s u ts tif a b x => PeggedOrder id p remaining_total s u ts tif a b x
  | MarketToLimit id p _ s u ts tif x => MarketToLimit id p remaining_total s u ts tif x
  | IcebergOrder id p display _ s u ts tif x =>
      let visible := N.min display remaining_total in
      IcebergOrder id p visible (remaining_total - visible) s u ts tif x
  | ReserveOrder _ _ _ _ _ _ _ _ _ _ _ _ => reduce_reserve_to_total o remaining_total
  end.

(** The price rewrite of [update_order] (one arm per variant). *)
Definition set_price o (new_price : N) : OrderType T :=
  match o with
  | Standard id _ q s u ts tif x => Standard id new_price q s u ts tif x
  | IcebergOrder id _ v h s u ts tif x => IcebergOrder id new_price v h s u ts tif x
  | PostOnly id _ q s u ts tif x => PostOnly id new_price q s u ts tif x
  | TrailingStop id _ q s u ts tif a b x => TrailingStop id new_price q s u ts tif a b x
  | PeggedOrder id _ q s u ts tif a b x => PeggedOrder id new_price q s u ts tif a b x
  | MarketToLimit id _ q s u ts tif x => MarketToLimit id new_price q s u ts tif x
  | ReserveOrder id _ v h s u ts tif a b c x => ReserveOrder id new_price v h s u ts tif a b c x
  end.

(** The field rewrite of [OrderUpdate::Replace]. *)
Definition replace_fields o (order_id : Id) (price quantity : N) (side : Side) : OrderType T :=
  match o with
  | Standard _ _ _ _ u ts tif x => Standard order_id price quantity side u ts tif x
  | IcebergOrder _ _ _ h _ u ts tif x => IcebergOrder order_id price quantity h side u ts tif x
  | PostOnly _ _ _ _ u ts tif x => PostOnly order_id price quantity side u ts tif x
  | TrailingStop _ _ _ _ u ts tif a b x => TrailingStop order_id price quantity side u ts tif a b x
  | PeggedOrder _ _ _ _ u ts tif a b x => PeggedOrder order_id price quantity side u ts tif a b x
  | MarketToLimit _ _ _ _ u ts tif x => MarketToLimit order_id price quantity side u ts tif x
  | ReserveOrder _ _ _ h _ u ts tif a b c x =>
      ReserveOrder order_id price quantity h side u ts tif a b c x
  end.

(** ** Properties *)

(** What a rewrite of quantities leaves alone. *)
Definition same_identity o o' : Prop :=
  o_id o' = o_id o /\ o_price o' = o_price o /\ o_side o' = o_side o /\
  o_user_id o' = o_user_id o /\ o_time_in_force o' = o_time_in_force o.

Lemma checked_total_total o t :
  checked_total_quantity o = Some t -> total_quantity o = t.
Proof.
  unfold checked_total_quantity, total_quantity, checked_add, sat_add.
  destruct o; intros; repeat case_match; simplify_eq; bool_prop; lia.
Qed.

Lemma reduce_reserve_identity o r : same_identity o (reduce_reserve_to_total o r).
Proof. unfold same_identity. destruct o; try done. simpl. case_match; done. Qed.

Lemma set_total_remaining_identity o r : same_identity o (set_total_remaining o r).
Proof. destruct o; try done. apply reduce_reserve_identity. Qed.

(** A reserve order gives its reduction from the visible tranche first; the
    tranches always add up to the smaller of the two totals. *)
Lemma reduce_reserve_checked o t r :
  checked_total_quantity o = Some t ->
  (match o with ReserveOrder _ _ _ _ _ _ _ _ _ _ _ _ => True | _ => False end) ->
  checked_total_quantity (reduce_reserve_to_total o r) = Some (N.min t r).
Proof.
  unfold checked_total_quantity, checked_add. destruct o; try done.
  intros Ht _. case_match; simplify_eq. bool_prop.
  simpl. unfold sat_add, sat_sub. rewrite (N.min_r U64_MAX) by done.
  match goal with |- context [if ?c then ReserveOrder _ _ _ _ _ _ _ _ _ _ _ _ else _] =>
    destruct c eqn:? end; bool_prop;
  match goal with |- (if ?c then Some ?x else None) = _ => replace x with
      (N.min (visible_quantity + hidden_quantity) r) by lia end;
  match goal with |- (if ?c then _ else None) = _ => destruct c eqn:E end;
    bool_prop; try done; lia.
Qed.

Lemma reduce_reserve_total o t r :
  checked_total_quantity o = Some t ->
  (match o with ReserveOrder _ _ _ _ _ _ _ _ _ _ _ _ => True | _ => False end) ->
  total_quantity (reduce_reserve_to_total o r) = N.min t r.
Proof. intros. by apply checked_total_total, reduce_reserve_checked. Qed.

Lemma set_total_remaining_checked o t r :
  checked_total_quantity o = Some t -> (r <= t)%N ->
  checked_total_quantity (set_total_remaining o r) = Some r.
Proof.
  intros Ht Hr.
  destruct o as [| | | | | |id p v h s u ts tif th am au x]; try (simpl; f_equal; fail).
  - simpl in *. unfold checked_add in *. case_match; simplify_eq. bool_prop.
    case_match; bool_prop; [f_equal|]; lia.
  - change (set_total_remaining _ r) with
      (reduce_reserve_to_total (ReserveOrder id p v h s u ts tif th am au x) r).
    rewrite (reduce_reserve_checked _ t r Ht I). f_equal. lia.
Qed.

(** Conservation of a resting residual.  If an order whose total
    quantity is representable rests with [r] units left, its tranches add up
    to exactly [r] — no kind of order, iceberg and reserve included,
    manufactures or loses quantity — it never displays more than it did
    before when it is an iceberg, and its identity is unchanged. *)
Theorem set_total_remaining_conserves o t r :
  checked_total_quantity o = Some t -> (r <= t)%N ->
  checked_total_quantity (set_total_remaining o r) = Some r /\
  same_identity o (set_total_remaining o r) /\
  (match o with
   | IcebergOrder _ _ display _ _ _ _ _ _ => quantity (set_total_remaining o r) = N.min display r
   | _ => True
   end).
Proof.
  intros Ht Hr. split_and!; [by eapply set_total_remaining_checked|
    apply set_total_remaining_identity|by destruct o].
Qed.

(** The user-facing [set_quantity] treats a reserve order's argument as
    a total it may only reduce to: asking for more than the current total
    leaves the total as it is, while every other kind takes the requested
    quantity as its new displayed quantity. *)
Theorem set_quantity_reserve_only_reduces o t q :
  checked_total_quantity o = Some t ->
  match o with
  | ReserveOrder _ _ _ _ _ _ _ _ _ _ _ _ => total_quantity (set_quantity o q) = N.min t q
  | _ => quantity (set_quantity o q) = q
  end.
Proof.
  intros Ht. destruct o; try done. exact (reduce_reserve_total _ t q Ht I).
Qed.
End OrderQuantity.

(** ** Witnesses *)

Definition sample_iceberg : OrderType unit := IcebergOrder 1 100 30 70 Buy 7 0 Gtc tt.
Definition sample_reserve : OrderType unit := ReserveOrder 2 100 30 70 Sell 7 0 Gtc 5 (Some 20%N) true tt.

Lemma set_total_remaining_conserves_witness :
  checked_total_quantity (set_total_remaining sample_iceberg 45) = Some 45%N /\
  checked_total_quantity (set_total_remaining sample_reserve 45) = Some 45%N.
Proof.
  split.
  - apply (set_total_remaining_conserves sample_iceberg 100 45); [reflexivity|lia].
  - apply (set_total_remaining_conserves sample_reserve 100 45); [reflexivity|lia].
Defined.

Lemma set_quantity_reserve_only_reduces_witness :
  total_quantity (set_quantity sample_reserve 500) = 100%N.
Proof. exact (set_quantity_reserve_only_reduces sample_reserve 100 500 eq_refl). Defined.
