(* ===== verification/Fees.v ===== *)
(** * Fees and trade results (fees.rs, trade.rs)

    The fee schedule in basis points with its exact and saturating
    calculations, and the [TradeResult] / [TradeInfo] the engine builds from
    a match. *)

From S2P Require Import Prelude Types PriceLevel.
Local Open Scope N_scope.

Definition BPS_DENOMINATOR : N := 10000.

Record FeeOverflow := {
  fo_notional : N;
  fo_bps : Z;
  fo_max_guaranteed_exact_notional : N;
}.

Record FeeSchedule := {
  maker_fee_bps : Z;
  taker_fee_bps : Z;
}.

Module FeeSchedule.

Definition new (maker taker : Z) : FeeSchedule :=
  {| maker_fee_bps := maker; taker_fee_bps := taker |}.

(** [i32::unsigned_abs] *)
Definition unsigned_abs (bps : Z) : N := Z.to_N (Z.abs bps).

Definition max_guaranteed_exact_notional_for_bps (bps : Z) : N :=
  match unsigned_abs bps with
  | 0 => U128_MAX
  | b => U128_MAX / b
  end.

Definition fee_overflow_new (notional : N) (bps : Z) : FeeOverflow :=
  {| fo_notional := notional; fo_bps := bps;
     fo_max_guaranteed_exact_notional := max_guaranteed_exact_notional_for_bps bps |}.

(** [i128::try_from] of a [u128] *)
Definition i128_try_from (n : N) : option Z :=
  if (Z.of_N n <=? I128_MAX)%Z then Some (Z.of_N n) else None.

Definition leg_bps (s : FeeSchedule) (is_maker : bool) : Z :=
  if is_maker then maker_fee_bps s else taker_fee_bps s.

Definition try_calculate_fee (s : FeeSchedule) (notional : N) (is_maker : bool) :
    Result FeeOverflow Z :=
  let bps := leg_bps s is_maker in
  match checked_mul U128_MAX notional (unsigned_abs bps) with
  | None => Err (fee_overflow_new notional bps)
  | Some product =>
      match i128_try_from (product / BPS_DENOMINATOR) with
      | None => Err (fee_overflow_new notional bps)
      | Some magnitude => Ok (if (bps <? 0)%Z then (- magnitude)%Z else magnitude)
      end
  end.

Definition calculate_fee (s : FeeSchedule) (notional : N) (is_maker : bool) : Z :=
  match try_calculate_fee s notional is_maker with
  | Ok fee => fee
  | Err overflow =>
      let magnitude := default I128_MAX (i128_try_from (U128_MAX / BPS_DENOMINATOR)) in
      if (fo_bps overflow <? 0)%Z then (- magnitude)%Z else magnitude
  end.

Definition max_guaranteed_exact_notional (s : FeeSchedule) : N :=
  let maker := max_guaranteed_exact_notional_for_bps (maker_fee_bps s) in
  let taker := max_guaranteed_exact_notional_for_bps (taker_fee_bps s) in
  if maker <? taker then maker else taker.

Definition has_maker_rebate (s : FeeSchedule) : bool := (maker_fee_bps s <? 0)%Z.

Definition is_zero_fee (s : FeeSchedule) : bool :=
  ((maker_fee_bps s =? 0) && (taker_fee_bps s =? 0))%Z.

Definition zero_fee : FeeSchedule := new 0 0.
Definition taker_only (taker : Z) : FeeSchedule := new 0 taker.
Definition with_maker_rebate (rebate taker : Z) : FeeSchedule := new (- Z.abs rebate) taker.

(** The exact fee in basis points, rounded towards zero. *)
Definition exact_fee (bps : Z) (notional : N) : Z :=
  (Z.sgn bps * Z.of_N (notional * unsigned_abs bps / BPS_DENOMINATOR))%Z.

Lemma clamp_fits : (Z.of_N (U128_MAX / BPS_DENOMINATOR) < I128_MAX)%Z.
Proof. vm_compute. reflexivity. Qed.

Lemma i128_fits n : n <= U128_MAX / BPS_DENOMINATOR -> i128_try_from n = Some (Z.of_N n).
Proof.
  intros Hn. unfold i128_try_from. pose proof clamp_fits.
  by destruct (Z.leb_spec (Z.of_N n) I128_MAX); [|lia].
Qed.

Lemma signed_magnitude bps n :
  (n = 0 \/ bps <> 0%Z) ->
  (if (bps <? 0)%Z then (- Z.of_N n)%Z else Z.of_N n) = (Z.sgn bps * Z.of_N n)%Z.
Proof. intros [->|?]; destruct (Z.ltb_spec bps 0); lia. Qed.

Lemma exact_fee_sign bps notional :
  notional * unsigned_abs bps / BPS_DENOMINATOR = 0 \/ bps <> 0%Z.
Proof.
  destruct (Z.eq_dec bps 0%Z) as [->|]; [left|by right].
  change (unsigned_abs 0%Z) with 0. by rewrite N.mul_0_r.
Qed.

Lemma try_calculate_fee_ok s notional is_maker :
  notional * unsigned_abs (leg_bps s is_maker) <= U128_MAX ->
  try_calculate_fee s notional is_maker = Ok (exact_fee (leg_bps s is_maker) notional).
Proof.
  intros Hle. unfold try_calculate_fee, checked_mul.
  rewrite (proj2 (N.leb_le _ _) Hle).
  rewrite i128_fits by (apply N.Div0.div_le_mono; done).
  unfold exact_fee. rewrite signed_magnitude by apply exact_fee_sign. done.
Qed.

Lemma try_calculate_fee_err s notional is_maker :
  U128_MAX < notional * unsigned_abs (leg_bps s is_maker) ->
  try_calculate_fee s notional is_maker = Err (fee_overflow_new notional (leg_bps s is_maker)).
Proof.
  intros Hlt. unfold try_calculate_fee, checked_mul.
  by apply N.leb_gt in Hlt as ->.
Qed.

Lemma max_exact_spec bps notional :
  notional <= U128_MAX ->
  notional <= max_guaranteed_exact_notional_for_bps bps <->
  notional * unsigned_abs bps <= U128_MAX.
Proof.
  intros Hn. unfold max_guaranteed_exact_notional_for_bps.
  destruct (unsigned_abs bps) as [|b]; [lia|].
  rewrite (N.mul_comm notional). split.
  - intros H. pose proof (N.Div0.mul_div_le U128_MAX (N.pos b)). nia.
  - intros H. apply N.div_le_lower_bound; lia.
Qed.

Lemma max_exact_min s notional :
  notional <= max_guaranteed_exact_notional s <->
  notional <= max_guaranteed_exact_notional_for_bps (maker_fee_bps s) /\
  notional <= max_guaranteed_exact_notional_for_bps (taker_fee_bps s).
Proof.
  unfold max_guaranteed_exact_notional. cbv zeta.
  destruct (N.ltb_spec (max_guaranteed_exact_notional_for_bps (maker_fee_bps s))
    (max_guaranteed_exact_notional_for_bps (taker_fee_bps s))); lia.
Qed.

(** C32.  A fee is exact or refused.  For every notional of the u128 domain,
    [try_calculate_fee] either returns exactly
    [sign(bps) * floor(notional * |bps| / 10000)], or fails with an overflow
    report; it fails exactly when the notional exceeds the bound the report
    carries, so the conversion to [i128] after the division never does. *)
Theorem try_calculate_fee_exact s notional is_maker :
  notional <= U128_MAX ->
  try_calculate_fee s notional is_maker =
    let bps := leg_bps s is_maker in
    if notional <=? max_guaranteed_exact_notional_for_bps bps
    then Ok (exact_fee bps notional)
    else Err (fee_overflow_new notional bps).
Proof.
  intros Hn. cbv zeta.
  destruct (N.leb_spec notional (max_guaranteed_exact_notional_for_bps (leg_bps s is_maker)))
    as [Hle|Hlt].
  - apply try_calculate_fee_ok. by apply max_exact_spec.
  - apply try_calculate_fee_err. apply N.lt_nge. intros Hle.
    apply max_exact_spec in Hle; [lia|done].
Qed.

Lemma exact_fee_abs bps notional :
  (Z.abs (exact_fee bps notional) <= Z.of_N (notional * unsigned_abs bps / BPS_DENOMINATOR))%Z.
Proof.
  unfold exact_fee. generalize (notional * unsigned_abs bps / BPS_DENOMINATOR). intros n.
  destruct bps; cbn [Z.sgn]; lia.
Qed.

(** The saturating fee.  [calculate_fee] agrees with the exact fee up to
    the schedule's guaranteed bound on both legs, never exceeds
    [u128::MAX / 10000] in magnitude, and never has the wrong sign: a rebate
    stays a rebate after saturation. *)
Theorem calculate_fee_bounds s notional is_maker :
  notional <= U128_MAX ->
  let bps := leg_bps s is_maker in
  let fee := calculate_fee s notional is_maker in
  (notional <= max_guaranteed_exact_notional s -> fee = exact_fee bps notional) /\
  (Z.abs fee <= Z.of_N (U128_MAX / BPS_DENOMINATOR))%Z /\
  ((bps <= 0)%Z -> (fee <= 0)%Z) /\ ((0 <= bps)%Z -> (0 <= fee)%Z).
Proof.
  intros Hn bps fee. unfold fee, calculate_fee.
  destruct (N.le_gt_cases notional (max_guaranteed_exact_notional_for_bps bps)) as [Hle|Hlt].
  - assert (Hp : notional * unsigned_abs bps <= U128_MAX) by (by apply max_exact_spec).
    rewrite try_calculate_fee_ok by done. fold bps.
    assert (notional * unsigned_abs bps / BPS_DENOMINATOR <= U128_MAX / BPS_DENOMINATOR)
      by (by apply N.Div0.div_le_mono).
    pose proof (exact_fee_abs bps notional).
    split_and!; [done|lia| |]; unfold exact_fee;
      generalize (notional * unsigned_abs bps / BPS_DENOMINATOR); intros n ?;
      destruct bps; cbn [Z.sgn]; lia.
  - assert (Hb : bps <> 0%Z).
    { intros Hz. rewrite Hz in Hlt. change (U128_MAX < notional) in Hlt. lia. }
    rewrite try_calculate_fee_err by (apply N.lt_nge; intros ?%max_exact_spec; [by apply N.lt_nge in Hlt|done]).
    fold bps.
    rewrite i128_fits by lia. simpl. split_and!.
    + intros [? ?]%max_exact_min. unfold bps, leg_bps in Hlt. destruct is_maker; lia.
    + case_match; lia.
    + intros. destruct (Z.ltb_spec bps 0); [lia|]. lia.
    + intros. destruct (Z.ltb_spec bps 0); lia.
Qed.
End FeeSchedule.

(** ** Trade results (trade.rs) *)

Section Trade.
Context `{PriceLevelApi}.
Import FeeSchedule.

Record TradeResult := {
  tr_symbol : string;
  tr_match_result : MatchResult;
  tr_total_maker_fees : Z;
  tr_total_taker_fees : Z;
  tr_engine_seq : N;
  tr_quote_notional : N;
}.

Definition trade_notional (tx : Trade) : N := sat_mul U128_MAX (trade_price tx) (trade_quantity tx).

Definition compute_quote_notional (m : MatchResult) : N :=
  foldl (fun total tx => sat_add U128_MAX total (trade_notional tx)) 0 (mr_trades m).

(** [i128::checked_add(..).unwrap_or(acc)] *)
Definition add_fee (acc fee : Z) : Z :=
  if ((I128_MIN <=? acc + fee) && (acc + fee <=? I128_MAX))%Z%bool then (acc + fee)%Z else acc.

Definition trade_result_new (symbol : string) (m : MatchResult) : TradeResult :=
  {| tr_symbol := symbol; tr_match_result := m; tr_total_maker_fees := 0;
     tr_total_taker_fees := 0; tr_engine_seq := 0;
     tr_quote_notional := compute_quote_notional m |}.

Definition with_fees (symbol : string) (m : MatchResult) (fee_schedule : option FeeSchedule) :
    TradeResult :=
  let '(maker, taker) :=
    match fee_schedule with
    | Some schedule =>
        if negb (is_zero_fee schedule) then
          foldl (fun '(maker_sum, taker_sum) tx =>
                   (add_fee maker_sum (calculate_fee schedule (trade_notional tx) true),
                    add_fee taker_sum (calculate_fee schedule (trade_notional tx) false)))
                (0%Z, 0%Z) (mr_trades m)
        else (0%Z, 0%Z)
    | None => (0%Z, 0%Z)
    end in
  {| tr_symbol := symbol; tr_match_result := m; tr_total_maker_fees := maker;
     tr_total_taker_fees := taker; tr_engine_seq := 0;
     tr_quote_notional := compute_quote_notional m |}.

Definition total_fees (t : TradeResult) : Z :=
  let s := (tr_total_maker_fees t + tr_total_taker_fees t)%Z in
  if ((I128_MIN <=? s) && (s <=? I128_MAX))%Z%bool then s else I128_MAX.

Record TransactionInfo := {
  ti_price : N;
  ti_quantity : N;
  ti_maker_order_id : Id;
  ti_taker_order_id : Id;
  ti_maker_fee : Z;
  ti_taker_fee : Z;
}.

(** The per-transaction rows of [TradeInfo::from_trade_result]. *)
Definition transaction_infos (m : MatchResult) (fee_schedule : option FeeSchedule) :
    list TransactionInfo :=
  let schedule := match fee_schedule with
                  | Some s => if negb (is_zero_fee s) then Some s else None
                  | None => None
                  end in
  (fun tx =>
     let notional := trade_notional tx in
     let fees := match schedule with
                 | Some s => (calculate_fee s notional true, calculate_fee s notional false)
                 | None => (0%Z, 0%Z)
                 end in
     {| ti_price := trade_price tx; ti_quantity := trade_quantity tx;
        ti_maker_order_id := trade_maker_order_id tx;
        ti_taker_order_id := trade_taker_order_id tx;
        ti_maker_fee := fees.1; ti_taker_fee := fees.2 |}) <$> mr_trades m.

Definition sumZ {A} (f : A -> Z) (l : list A) : Z := foldr (fun x acc => f x + acc)%Z 0%Z l.

(** The quote notional of a trade result is the exact value of its
    transactions, capped at [u128::MAX]: saturating each product and each
    partial sum saturates the whole. *)
Theorem quote_notional_capped m :
  compute_quote_notional m =
    N.min U128_MAX (sumN (fun tx => trade_price tx * trade_quantity tx) (mr_trades m)).
Proof.
  unfold compute_quote_notional. fold (sat_sum U128_MAX trade_notional (mr_trades m)).
  rewrite sat_sum_spec. unfold trade_notional, sat_mul.
  induction (mr_trades m) as [|tx l IH]; [done|]. rewrite !sumN_cons. lia.
Qed.

Lemma fold_fees_no_overflow s l a b :
  let bound := Z.of_N (U128_MAX / BPS_DENOMINATOR) in
  let f := fun '(x, y) tx => (add_fee x (calculate_fee s (trade_notional tx) true),
                              add_fee y (calculate_fee s (trade_notional tx) false)) in
  (Z.abs a <= I128_MAX - Z.of_nat (length l) * bound)%Z ->
  (Z.abs b <= I128_MAX - Z.of_nat (length l) * bound)%Z ->
  foldl f (a, b) l =
    ((a + sumZ (fun tx => calculate_fee s (trade_notional tx) true) l)%Z,
     (b + sumZ (fun tx => calculate_fee s (trade_notional tx) false) l)%Z).
Proof.
  intros bound f. revert a b. induction l as [|tx l IH]; intros a b Ha Hb.
  { simpl. by rewrite !Z.add_0_r. }
  assert (Hc : forall leg, (Z.abs (calculate_fee s (trade_notional tx) leg) <= bound)%Z).
  { intros leg. apply calculate_fee_bounds. unfold trade_notional, sat_mul. lia. }
  pose proof (Hc true) as Ht. pose proof (Hc false) as Hf.
  assert (Hadd : forall x leg, (Z.abs x <= I128_MAX - Z.of_nat (length (tx :: l)) * bound)%Z ->
    add_fee x (calculate_fee s (trade_notional tx) leg)
      = (x + calculate_fee s (trade_notional tx) leg)%Z).
  { intros x leg Hx. specialize (Hc leg). unfold add_fee. simpl length in Hx.
    assert (0 <= bound)%Z by lia. assert (I128_MIN = - I128_MAX - 1)%Z as -> by done.
    assert (0 <= Z.of_nat (length l) * bound)%Z by nia.
    rewrite Nat2Z.inj_succ in Hx.
    rewrite (proj2 (Z.leb_le _ _)), (proj2 (Z.leb_le _ _)) by lia. done. }
  cbn [foldl]. unfold f at 2. rewrite !Hadd by done.
  simpl length in Ha, Hb. rewrite Nat2Z.inj_succ in Ha, Hb.
  rewrite IH by lia. simpl. f_equal; lia.
Qed.

(** Fee totals add up.  The maker and taker totals of a trade result are
    the sums of the per-transaction fees [TradeInfo] reports for the same
    match and schedule, for any match of at most a thousand transactions (the
    clamped [i128] additions cannot overflow before roughly five thousand). *)
Theorem trade_result_fees_are_sums symbol m sched :
  (length (mr_trades m) <= 1000)%nat ->
  tr_total_maker_fees (with_fees symbol m sched) = sumZ ti_maker_fee (transaction_infos m sched) /\
  tr_total_taker_fees (with_fees symbol m sched) = sumZ ti_taker_fee (transaction_infos m sched).
Proof.
  intros Hlen. unfold with_fees, transaction_infos.
  assert (Hmap : forall (g : TransactionInfo -> Z) h (l : list Trade),
    sumZ g (h <$> l) = sumZ (fun tx => g (h tx)) l).
  { intros g h l. induction l as [|x l IH]; [done|]. simpl in *. by rewrite <- IH. }
  rewrite !Hmap. simpl.
  assert (Hz : forall l : list Trade, sumZ (fun _ => 0%Z) l = 0%Z).
  { intros l. induction l as [|x l IH]; simpl; lia. }
  destruct sched as [s|]; simpl; [|by rewrite Hz].
  destruct (is_zero_fee s); simpl; [by rewrite Hz|].
  assert (Hb : (1000 * Z.of_N (U128_MAX / BPS_DENOMINATOR) < I128_MAX)%Z)
    by (vm_compute; reflexivity).
  assert (Z.of_nat (length (mr_trades m)) * Z.of_N (U128_MAX / BPS_DENOMINATOR)
            <= 1000 * Z.of_N (U128_MAX / BPS_DENOMINATOR))%Z
    by (apply Z.mul_le_mono_nonneg_r; [apply N2Z.is_nonneg|lia]).
  rewrite (fold_fees_no_overflow s (mr_trades m) 0 0) by (rewrite Z.abs_0; lia). done.
Qed.
End Trade.

(** ** Witnesses *)

From S2P Require Import PriceLevelFifo.

Lemma try_calculate_fee_exact_witness :
  FeeSchedule.try_calculate_fee (FeeSchedule.new (-2) 5) 1000000 true = Ok (-200)%Z.
Proof.
  exact (FeeSchedule.try_calculate_fee_exact (FeeSchedule.new (-2) 5) 1000000 true
           ltac:(vm_compute; discriminate)).
Defined.

Lemma calculate_fee_bounds_witness :
  (Z.abs (FeeSchedule.calculate_fee (FeeSchedule.new (-2) 5) U128_MAX true)
     <= Z.of_N (U128_MAX / BPS_DENOMINATOR))%Z.
Proof.
  apply (FeeSchedule.calculate_fee_bounds (FeeSchedule.new (-2) 5) U128_MAX true).
  vm_compute; discriminate.
Defined.

Definition sample_match : MatchResult :=
  {| fm_order_id := 9; fm_filled := []; fm_remaining := 0; fm_rejected := false;
     fm_trades := [{| ft_maker := 1; ft_taker := 9; ft_quantity := 100; ft_price := 5000;
                      ft_timestamp := 0; ft_id := 0 |};
                   {| ft_maker := 2; ft_taker := 9; ft_quantity := 50; ft_price := 5100;
                      ft_timestamp := 0; ft_id := 1 |}] |}.

Lemma trade_result_fees_are_sums_witness :
  tr_total_maker_fees (with_fees "BTC" sample_match (Some (FeeSchedule.new (-2) 5))) = (-151)%Z /\
  tr_total_taker_fees (with_fees "BTC" sample_match (Some (FeeSchedule.new (-2) 5))) = 377%Z.
Proof.
  exact (trade_result_fees_are_sums "BTC" sample_match (Some (FeeSchedule.new (-2) 5))
           ltac:(simpl; lia)).
Defined.
