(* ===== verification/Stp.v ===== *)
(** * Self-trade prevention (stp.rs)

    The scan of a price level for resting orders of the taker's own user, and
    the action the matching loop takes on each mode. *)

From S2P Require Import Prelude Types PriceLevel.
Local Open Scope N_scope.

(** [STPMode::is_enabled] *)
Definition is_enabled (mode : STPMode) : bool := bool_decide (mode <> STPNone).

Inductive STPAction :=
| NoConflict
| ActCancelTaker (safe_quantity : N)
| ActCancelMaker
| ActCancelBoth (safe_quantity : N) (maker_order_id : Id).

Section Stp.
Context `{PriceLevelApi}.

(** The [for] loop shared by the CancelTaker and CancelBoth arms: the first
    order of the taker's user, with the visible quantity resting before it. *)
Fixpoint first_same_user (orders : list (OrderType unit)) (taker_user_id : Hash32)
    (safe_quantity : N) : option (N * Id) :=
  match orders with
  | [] => None
  | order :: orders' =>
      if decide (o_user_id order = taker_user_id) then Some (safe_quantity, o_id order)
      else first_same_user orders' taker_user_id
             (sat_add U64_MAX safe_quantity (visible_quantity order))
  end.

Definition check_stp_at_level (orders : list (OrderType unit)) (taker_user_id : Hash32)
    (mode : STPMode) : STPAction :=
  if bool_decide (mode = STPNone) || bool_decide (taker_user_id = Hash32_zero) then NoConflict
  else
    match mode with
    | STPNone => NoConflict
    | CancelTaker =>
        match first_same_user orders taker_user_id 0 with
        | Some (safe_quantity, _) => ActCancelTaker safe_quantity
        | None => NoConflict
        end
    | CancelMaker =>
        if existsb (fun o => bool_decide (o_user_id o = taker_user_id)) orders
        then ActCancelMaker else NoConflict
    | CancelBoth =>
        match first_same_user orders taker_user_id 0 with
        | Some (safe_quantity, maker_order_id) => ActCancelBoth safe_quantity maker_order_id
        | None => NoConflict
        end
    end.

(** The orders of a level split at the first one of user [u]. *)
Definition split_at_user (orders pre : list (OrderType unit)) (o : OrderType unit)
    (post : list (OrderType unit)) (u : Hash32) : Prop :=
  orders = pre ++ o :: post /\ o_user_id o = u /\ Forall (fun o' => o_user_id o' <> u) pre.

Lemma first_same_user_None orders u safe :
  first_same_user orders u safe = None <-> Forall (fun o => o_user_id o <> u) orders.
Proof.
  revert safe. induction orders as [|o l IH]; intros safe; simpl; [done|].
  rewrite Forall_cons. case_decide; [naive_solver|]. rewrite IH. tauto.
Qed.

Lemma first_same_user_Some orders u safe s id :
  safe <= U64_MAX -> first_same_user orders u safe = Some (s, id) ->
  exists pre o post, split_at_user orders pre o post u /\ o_id o = id /\
    s = N.min U64_MAX (safe + sumN visible_quantity pre).
Proof.
  revert safe. induction orders as [|o l IH]; intros safe Hs; simpl; [done|].
  case_decide as Hu.
  - intros [= <- <-]. exists [], o, l. rewrite sumN_nil. split_and!; [by split_and!|done|lia].
  - intros (pre & o' & post & (-> & Ho' & Hpre) & Hid & ->)%IH; [|unfold sat_add; lia].
    exists (o :: pre), o', post. split_and!; [|done|].
    + split_and!; [done|done|]. by apply Forall_cons.
    + rewrite sumN_cons. apply sat_add_min.
Qed.

(** The verdict of a scan is the one the mode promises.  An action other
    than [NoConflict] is only taken for an enabled mode and a named taker; the
    safe quantity is the saturated visible quantity of exactly the orders
    queued before the first one of the taker's own user; CancelBoth names that
    very order; and [NoConflict] means that no resting order of the level
    belongs to the taker (or that the check is switched off). *)
Theorem check_stp_at_level_spec orders u mode :
  match check_stp_at_level orders u mode with
  | NoConflict => mode = STPNone \/ u = Hash32_zero \/ Forall (fun o => o_user_id o <> u) orders
  | ActCancelTaker safe =>
      mode = CancelTaker /\ u <> Hash32_zero /\
      exists pre o post, split_at_user orders pre o post u /\
        safe = N.min U64_MAX (sumN visible_quantity pre)
  | ActCancelMaker =>
      mode = CancelMaker /\ u <> Hash32_zero /\ Exists (fun o => o_user_id o = u) orders
  | ActCancelBoth safe id =>
      mode = CancelBoth /\ u <> Hash32_zero /\
      exists pre o post, split_at_user orders pre o post u /\ o_id o = id /\
        safe = N.min U64_MAX (sumN visible_quantity pre)
  end.
Proof.
  unfold check_stp_at_level. repeat case_bool_decide; simpl; auto.
  destruct mode; try done.
  - destruct (first_same_user orders u 0) as [[s id]|] eqn:E.
    + apply first_same_user_Some in E as (pre & o & post & Hsp & _ & ->); [|lia].
      split_and!; [done|done|]. exists pre, o, post. by rewrite N.add_0_l.
    + apply first_same_user_None in E. auto.
  - destruct (existsb _ _) eqn:E.
    + split_and!; [done|done|]. apply existsb_exists in E as (o & Hin & Ho).
      apply Exists_exists. exists o. apply list_elem_of_In in Hin. by case_bool_decide.
    + right. right. apply Forall_forall. intros o Hin Ho.
      assert (existsb (fun o => bool_decide (o_user_id o = u)) orders = true); [|congruence].
      apply existsb_exists. exists o. rewrite bool_decide_true by done.
      by apply list_elem_of_In in Hin.
  - destruct (first_same_user orders u 0) as [[s id]|] eqn:E.
    + apply first_same_user_Some in E as (pre & o & post & Hsp & Hid & ->); [|lia].
      split_and!; [done|done|]. exists pre, o, post. by rewrite N.add_0_l.
    + apply first_same_user_None in E. auto.
Qed.
End Stp.
