(* ===== verification/Clock.v ===== *)
(** * Time sources (clock.rs, utils/time.rs)

    The book stamps events with a [Clock].  The deterministic [StubClock] is
    a counter; the production [MonotonicClock] reads the operating system's
    wall clock, an argument of the model: [current_time_millis n] is the
    answer to its [n]-th call. *)

From S2P Require Import Prelude.
Local Open Scope N_scope.

Class WallClock := { current_time_millis : nat -> N }.

Inductive Clock :=
| MonotonicClock (calls : nat)
| StubClock (counter step : N).

Definition stub_new : Clock := StubClock 0 1.
Definition stub_starting_at (start : N) : Clock := StubClock start 1.
Definition stub_with_step (start step : N) : Clock := StubClock start (N.max step 1).

Definition stub_peek (c : Clock) : N :=
  match c with StubClock counter _ => counter | MonotonicClock _ => 0 end.

Section Clock.
Context `{WallClock}.

Definition now_millis : ST Clock N := fun c =>
  match c with
  | MonotonicClock calls => (current_time_millis calls, MonotonicClock (S calls))
  | StubClock counter step => (counter, StubClock (wrapping_add U64_MAX counter step) step)
  end.

(** The readings of [n] successive calls. *)
Fixpoint readings (n : nat) (c : Clock) : list N :=
  match n with
  | O => []
  | S n' => let '(t, c') := now_millis c in t :: readings n' c'
  end.

Lemma stub_readings n counter step :
  counter + N.of_nat n * step <= U64_MAX ->
  readings n (StubClock counter step) = (fun i => counter + N.of_nat i * step) <$> seq 0 n.
Proof.
  revert counter. induction n as [|n IH]; intros counter Hb; [done|].
  simpl readings. unfold wrapping_add. rewrite N.mod_small by lia.
  rewrite IH by lia. rewrite <- cons_seq, <- fmap_S_seq, fmap_cons, <- list_fmap_compose.
  f_equal; [lia|]. apply list_fmap_ext. intros i x _. simpl. lia.
Qed.

(** A stub clock built with any step — a step of 0 is clamped to 1 — is
    deterministic and strictly monotonic: until the counter overflows its
    64 bits, the i-th reading is [start + i * max(step, 1)]. *)
Theorem stub_clock_strictly_monotonic n start step i j t u :
  start + N.of_nat n * N.max step 1 <= U64_MAX ->
  readings n (stub_with_step start step) !! i = Some t ->
  readings n (stub_with_step start step) !! j = Some u ->
  t = start + N.of_nat i * N.max step 1 /\ ((i < j)%nat -> t < u).
Proof.
  intros Hb. unfold stub_with_step. rewrite stub_readings by done.
  rewrite !list_lookup_fmap. intros Hi Hj.
  apply fmap_Some in Hi as (x & [-> _]%lookup_seq & ->).
  apply fmap_Some in Hj as (y & [-> _]%lookup_seq & ->). nia.
Qed.
End Clock.

(** ** Witness *)

Definition sample_wall : WallClock := {| current_time_millis := fun _ => 0 |}.

Lemma stub_clock_strictly_monotonic_witness :
  (@readings sample_wall 3 (stub_with_step 5 0)) = [5; 6; 7] /\ 5 < 7.
Proof.
  split; [reflexivity|].
  apply (@stub_clock_strictly_monotonic sample_wall 3 5 0 0 2 5 7); [by vm_compute|done|done|lia].
Defined.
