(* ===== verification/Cache.v ===== *)
(** * The best-price cache (cache.rs)

    A value and a validity flag per side.  The cache is advisory: every book
    mutation invalidates both sides, a miss is recomputed from the skiplist
    ([OrderBook::best_bid] and [best_ask], in Book.v). *)

From S2P Require Import Prelude.
Local Open Scope N_scope.

Record PriceLevelCache := {
  best_bid_price : N;
  best_ask_price : N;
  bid_valid : bool;
  ask_valid : bool;
}.

Definition cache_new : PriceLevelCache :=
  {| best_bid_price := 0; best_ask_price := 0; bid_valid := false; ask_valid := false |}.

Definition invalidate (c : PriceLevelCache) : PriceLevelCache :=
  {| best_bid_price := best_bid_price c; best_ask_price := best_ask_price c;
     bid_valid := false; ask_valid := false |}.

Definition get_cached_best_bid (c : PriceLevelCache) : option N :=
  if bid_valid c then Some (best_bid_price c) else None.

Definition get_cached_best_ask (c : PriceLevelCache) : option N :=
  if ask_valid c then Some (best_ask_price c) else None.

Definition update_best_bid (best_bid : option N) (c : PriceLevelCache) : PriceLevelCache :=
  match best_bid with
  | Some price => {| best_bid_price := price; best_ask_price := best_ask_price c;
                     bid_valid := true; ask_valid := ask_valid c |}
  | None => {| best_bid_price := best_bid_price c; best_ask_price := best_ask_price c;
               bid_valid := false; ask_valid := ask_valid c |}
  end.

Definition update_best_ask (best_ask : option N) (c : PriceLevelCache) : PriceLevelCache :=
  match best_ask with
  | Some price => {| best_bid_price := best_bid_price c; best_ask_price := price;
                     bid_valid := bid_valid c; ask_valid := true |}
  | None => {| best_bid_price := best_bid_price c; best_ask_price := best_ask_price c;
               bid_valid := bid_valid c; ask_valid := false |}
  end.

(** A cache is coherent with the true best prices when a hit is right. *)
Definition coherent (bid ask : option N) (c : PriceLevelCache) : Prop :=
  (forall p, get_cached_best_bid c = Some p -> bid = Some p) /\
  (forall p, get_cached_best_ask c = Some p -> ask = Some p).

Lemma coherent_invalidate bid ask c : coherent bid ask (invalidate c).
Proof. split; discriminate. Qed.

Lemma coherent_update_bid bid ask c :
  coherent bid ask c -> coherent bid ask (update_best_bid bid c).
Proof.
  intros [Hb Ha]. destruct bid; split; cbn; try done; unfold get_cached_best_ask in *; auto.
Qed.

Lemma coherent_update_ask bid ask c :
  coherent bid ask c -> coherent bid ask (update_best_ask ask c).
Proof.
  intros [Hb Ha]. destruct ask; split; cbn; try done; unfold get_cached_best_bid in *; auto.
Qed.

#[export] Hint Resolve coherent_invalidate coherent_update_bid coherent_update_ask : core.
