(* ===== verification/Risk.v ===== *)
(** * Pre-trade risk (risk.rs)

    Per-account counters of resting orders and notional, the admission
    checks that read them and the hooks the book calls on admission, fill,
    cancel and in-place quantity updates. *)

From S2P Require Import Prelude Types.
Local Open Scope N_scope.

Inductive ReferencePriceSource :=
| LastTrade
| Mid
| FixedPrice (price : N).

Record RiskConfig := {
  max_open_orders_per_account : option N;
  max_notional_per_account : option N;
  price_band_bps : option N;
  reference_price : option ReferencePriceSource;
}.

Record RiskCounters := {
  open_count : N;
  resting_notional : N;
}.

Record RiskEntry := {
  account : Hash32;
  entry_price : N;
  remaining_qty : N;
}.

Record RiskState := {
  config : option RiskConfig;
  counters : gmap Hash32 RiskCounters;
  risk_orders : gmap Id RiskEntry;
  warned_no_reference : bool;
}.

Definition risk_config_new : RiskConfig :=
  {| max_open_orders_per_account := None; max_notional_per_account := None;
     price_band_bps := None; reference_price := None |}.

Definition with_max_open_orders_per_account (c : RiskConfig) (n : N) : RiskConfig :=
  {| max_open_orders_per_account := Some n;
     max_notional_per_account := max_notional_per_account c;
     price_band_bps := price_band_bps c; reference_price := reference_price c |}.

Definition with_max_notional_per_account (c : RiskConfig) (n : N) : RiskConfig :=
  {| max_open_orders_per_account := max_open_orders_per_account c;
     max_notional_per_account := Some n;
     price_band_bps := price_band_bps c; reference_price := reference_price c |}.

Definition with_price_band_bps (c : RiskConfig) (bps : N) (source : ReferencePriceSource) :
    RiskConfig :=
  {| max_open_orders_per_account := max_open_orders_per_account c;
     max_notional_per_account := max_notional_per_account c;
     price_band_bps := Some bps; reference_price := Some source |}.

Definition risk_state_new : RiskState :=
  {| config := None; counters := ∅; risk_orders := ∅; warned_no_reference := false |}.

Definition counters_default : RiskCounters := {| open_count := 0; resting_notional := 0 |}.

Definition set_counters (f : gmap Hash32 RiskCounters -> gmap Hash32 RiskCounters)
    (s : RiskState) : RiskState :=
  {| config := config s; counters := f (counters s); risk_orders := risk_orders s;
     warned_no_reference := warned_no_reference s |}.
Definition set_risk_orders (f : gmap Id RiskEntry -> gmap Id RiskEntry)
    (s : RiskState) : RiskState :=
  {| config := config s; counters := counters s; risk_orders := f (risk_orders s);
     warned_no_reference := warned_no_reference s |}.
Definition set_warned (s : RiskState) : RiskState :=
  {| config := config s; counters := counters s; risk_orders := risk_orders s;
     warned_no_reference := true |}.

Definition set_config (cfg : RiskConfig) (s : RiskState) : RiskState :=
  {| config := Some cfg; counters := counters s; risk_orders := risk_orders s;
     warned_no_reference := false |}.
Definition disable (s : RiskState) : RiskState :=
  {| config := None; counters := counters s; risk_orders := risk_orders s;
     warned_no_reference := warned_no_reference s |}.

(** The counters of an account, 0 when it has none. *)
Definition open_count_of (s : RiskState) (a : Hash32) : N :=
  from_option open_count 0 (counters s !! a).
Definition notional_of (s : RiskState) (a : Hash32) : N :=
  from_option resting_notional 0 (counters s !! a).

Definition check_price_band (cfg : RiskConfig) (price : N) (reference : option N) :
    ST RiskState (Result OrderBookError unit) :=
  match price_band_bps cfg, reference with
  | Some bps_limit, Some reference =>
      if 0 <? reference then
        let diff := abs_diff price reference in
        let scaled_diff := sat_mul U128_MAX diff 10000 in
        let band := sat_mul U128_MAX bps_limit reference in
        if band <? scaled_diff then
          let bps_u128 := scaled_diff / reference in
          let deviation_bps := if U32_MAX <? bps_u128 then U32_MAX else bps_u128 in
          sret (Err (RiskPriceBand price reference deviation_bps bps_limit))
        else sret (Ok tt)
      else sret (Ok tt)
  | Some _, None =>
      do! swhen (bool_decide (is_Some (reference_price cfg))) (smod set_warned) in
      sret (Ok tt)
  | None, _ => sret (Ok tt)
  end.

Definition check_limit_admission (a : Hash32) (price quantity : N) (reference : option N) :
    ST RiskState (Result OrderBookError unit) :=
  let! s := sget id in
  match config s with
  | None => sret (Ok tt)
  | Some cfg =>
      let current := open_count_of s a in
      let? _ :=
        match max_open_orders_per_account cfg with
        | Some limit =>
            if limit <=? current then sret (Err (RiskMaxOpenOrders a current limit))
            else sret (Ok tt)
        | None => sret (Ok tt)
        end in
      let current := notional_of s a in
      let attempted := sat_mul U128_MAX quantity price in
      let? _ :=
        match max_notional_per_account cfg with
        | Some limit =>
            if limit <? sat_add U128_MAX current attempted
            then sret (Err (RiskMaxNotional a current attempted limit))
            else sret (Ok tt)
        | None => sret (Ok tt)
        end in
      check_price_band cfg price reference
  end.

Definition check_modify_admission (order_id : Id) (a : Hash32) (new_price new_qty : N)
    (reference : option N) : ST RiskState (Result OrderBookError unit) :=
  let! s := sget id in
  match config s with
  | None => sret (Ok tt)
  | Some cfg =>
      match risk_orders s !! order_id with
      | None => check_limit_admission a new_price new_qty reference
      | Some entry =>
          let old_contribution := sat_mul U128_MAX (remaining_qty entry) (entry_price entry) in
          let current := notional_of s a in
          let new_contribution := sat_mul U128_MAX new_qty new_price in
          let projected :=
            sat_add U128_MAX (sat_sub current old_contribution) new_contribution in
          let? _ :=
            match max_notional_per_account cfg with
            | Some limit =>
                if limit <? projected
                then sret (Err (RiskMaxNotional a current new_contribution limit))
                else sret (Ok tt)
            | None => sret (Ok tt)
            end in
          check_price_band cfg new_price reference
      end
  end.

Definition check_market_admission (_ : Hash32) : Result OrderBookError unit := Ok tt.

Definition evict_if_zeroed (a : Hash32) (s : RiskState) : RiskState :=
  match counters s !! a with
  | Some c =>
      if (open_count c =? 0) && (resting_notional c =? 0)
      then set_counters (delete a) s else s
  | None => s
  end.

Definition on_admission (order_id : Id) (a : Hash32) (price qty : N) (s : RiskState) : RiskState :=
  match config s with
  | None => s
  | Some _ =>
      let s1 := set_risk_orders
        <[order_id := {| account := a; entry_price := price; remaining_qty := qty |}]> s in
      let c := default counters_default (counters s1 !! a) in
      let notional_delta := sat_mul U128_MAX qty price in
      set_counters
        <[a := {| open_count := wrapping_add U64_MAX (open_count c) 1;
                  resting_notional := wrapping_add U128_MAX (resting_notional c) notional_delta |}]>
        s1
  end.

Definition on_fill (maker_id : Id) (filled_qty maker_price : N) (s : RiskState) : RiskState :=
  match config s with
  | None => s
  | Some _ =>
      match risk_orders s !! maker_id with
      | None => s
      | Some entry =>
          let new_remaining := sat_sub (remaining_qty entry) filled_qty in
          let fully_filled := new_remaining =? 0 in
          let s1 := set_risk_orders
            <[maker_id := {| account := account entry; entry_price := entry_price entry;
                             remaining_qty := new_remaining |}]> s in
          let notional_delta := sat_mul U128_MAX filled_qty (entry_price entry) in
          let s2 :=
            match counters s1 !! account entry with
            | Some c =>
                set_counters
                  <[account entry :=
                      {| open_count := if fully_filled then sat_sub (open_count c) 1
                                       else open_count c;
                         resting_notional := sat_sub (resting_notional c) notional_delta |}]> s1
            | None => s1
            end in
          if fully_filled
          then evict_if_zeroed (account entry) (set_risk_orders (delete maker_id) s2)
          else s2
      end
  end.

Definition on_quantity_update (order_id : Id) (new_remaining : N) (s : RiskState) : RiskState :=
  match config s with
  | None => s
  | Some _ =>
      match risk_orders s !! order_id with
      | None => s
      | Some entry =>
          let old_remaining := remaining_qty entry in
          let s1 := set_risk_orders
            <[order_id := {| account := account entry; entry_price := entry_price entry;
                             remaining_qty := new_remaining |}]> s in
          match counters s1 !! account entry with
          | Some c =>
              let notional :=
                if old_remaining <=? new_remaining then
                  wrapping_add U128_MAX (resting_notional c)
                    (sat_mul U128_MAX (new_remaining - old_remaining) (entry_price entry))
                else
                  sat_sub (resting_notional c)
                    (sat_mul U128_MAX (old_remaining - new_remaining) (entry_price entry)) in
              set_counters <[account entry := {| open_count := open_count c;
                                                 resting_notional := notional |}]> s1
          | None => s1
          end
      end
  end.

Definition on_cancel (order_id : Id) (s : RiskState) : RiskState :=
  match config s with
  | None => s
  | Some _ =>
      match risk_orders s !! order_id with
      | None => s
      | Some entry =>
          let s1 := set_risk_orders (delete order_id) s in
          let notional_delta := sat_mul U128_MAX (remaining_qty entry) (entry_price entry) in
          let s2 :=
            match counters s1 !! account entry with
            | Some c =>
                set_counters
                  <[account entry := {| open_count := sat_sub (open_count c) 1;
                                        resting_notional := sat_sub (resting_notional c) notional_delta |}]> s1
            | None => s1
            end in
          evict_if_zeroed (account entry) s2
      end
  end.

Definition risk_clear (s : RiskState) : RiskState :=
  set_counters (fun _ => ∅) (set_risk_orders (fun _ => ∅) s).

(** ** The accounting invariant *)

Definition acct_open (a : Hash32) (m : gmap Id RiskEntry) : N :=
  map_sum (fun e => if decide (account e = a) then 1 else 0) m.
Definition acct_notional (a : Hash32) (m : gmap Id RiskEntry) : N :=
  map_sum (fun e => if decide (account e = a) then remaining_qty e * entry_price e else 0) m.

(** What the counters of account [a] must be, given the tracked orders: an
    account without orders has no counters at all. *)
Definition true_counters (m : gmap Id RiskEntry) (a : Hash32) : option RiskCounters :=
  if acct_open a m =? 0 then None
  else Some {| open_count := acct_open a m; resting_notional := acct_notional a m |}.

Definition exact (s : RiskState) : Prop :=
  forall a, counters s !! a = true_counters (risk_orders s) a.

(** The exact values fit their machine types. *)
Definition representable (m : gmap Id RiskEntry) : Prop :=
  forall a, acct_open a m <= U64_MAX /\ acct_notional a m <= U128_MAX.

Lemma acct_notional_zero a m : acct_open a m = 0 -> acct_notional a m = 0.
Proof. apply map_sum_zero. intros e. case_decide; done. Qed.

Lemma exact_open s a : exact s -> open_count_of s a = acct_open a (risk_orders s).
Proof.
  intros H. unfold open_count_of. rewrite H. unfold true_counters.
  case_match; simpl; bool_prop; lia.
Qed.

Lemma exact_notional s a : exact s -> notional_of s a = acct_notional a (risk_orders s).
Proof.
  intros H. unfold notional_of. rewrite H. unfold true_counters.
  case_match; simpl; bool_prop; [|done]. by rewrite acct_notional_zero.
Qed.

(** [counters] after an account's pair has been set to its true value and
    possibly evicted. *)
Lemma exact_evict s a c :
  (forall b, b <> a -> counters s !! b = true_counters (risk_orders s) b) ->
  counters s !! a = Some c ->
  open_count c = acct_open a (risk_orders s) ->
  resting_notional c = acct_notional a (risk_orders s) ->
  exact (evict_if_zeroed a s).
Proof.
  intros Hother Hc Ho Hn b. unfold evict_if_zeroed. rewrite Hc, Ho, Hn.
  destruct ((_ =? 0) && _) eqn:E; simpl.
  - destruct (decide (b = a)) as [->|Hb].
    + rewrite lookup_delete_eq. unfold true_counters. apply andb_true_iff in E as [-> _]. done.
    + rewrite lookup_delete_ne by done. auto.
  - destruct (decide (b = a)) as [->|Hb]; [|auto]. rewrite Hc. unfold true_counters.
    destruct (acct_open a (risk_orders s) =? 0) eqn:E'.
    + bool_prop. rewrite (acct_notional_zero a), N.eqb_refl in E by done.
      destruct E; [lia|done].
    + by destruct c; simpl in *; subst.
Qed.

Lemma exact_tracked s id e :
  exact s -> risk_orders s !! id = Some e ->
  counters s !! account e =
    Some {| open_count := acct_open (account e) (risk_orders s);
            resting_notional := acct_notional (account e) (risk_orders s) |} /\
  1 <= acct_open (account e) (risk_orders s).
Proof.
  intros H He. pose proof (map_sum_elem
    (fun e' => if decide (account e' = account e) then 1 else 0) _ _ _ He) as Hle.
  simpl in Hle. rewrite decide_True in Hle by done.
  rewrite H. unfold true_counters, acct_open in *. case_match; bool_prop; [lia|done].
Qed.

Lemma acct_open_insert a m id e :
  m !! id = None ->
  acct_open a (<[id:=e]> m) = (if decide (account e = a) then 1 else 0) + acct_open a m.
Proof. intros. unfold acct_open. by rewrite map_sum_insert. Qed.
Lemma acct_notional_insert a m id e :
  m !! id = None ->
  acct_notional a (<[id:=e]> m) =
    (if decide (account e = a) then remaining_qty e * entry_price e else 0) + acct_notional a m.
Proof. intros. unfold acct_notional. by rewrite map_sum_insert. Qed.
Lemma acct_open_delete a m id e :
  m !! id = Some e ->
  acct_open a m = (if decide (account e = a) then 1 else 0) + acct_open a (delete id m).
Proof. intros. unfold acct_open. by rewrite (map_sum_delete _ _ _ _ H). Qed.
Lemma acct_notional_delete a m id e :
  m !! id = Some e ->
  acct_notional a m =
    (if decide (account e = a) then remaining_qty e * entry_price e else 0) +
    acct_notional a (delete id m).
Proof. intros. unfold acct_notional. by rewrite (map_sum_delete _ _ _ _ H). Qed.
Lemma acct_open_update a m id e e' :
  m !! id = Some e -> account e' = account e ->
  acct_open a (<[id:=e']> m) = acct_open a m.
Proof.
  intros He Ha. pose proof (map_sum_update
    (fun e => if decide (account e = a) then 1 else 0) m id e e' He) as H.
  cbv beta in H. rewrite Ha in H. unfold acct_open. lia.
Qed.
Lemma acct_notional_update a m id e e' :
  m !! id = Some e -> account e' = account e ->
  acct_notional a (<[id:=e']> m) +
    (if decide (account e = a) then remaining_qty e * entry_price e else 0) =
  (if decide (account e = a) then remaining_qty e' * entry_price e' else 0) + acct_notional a m.
Proof.
  intros He Ha. pose proof (map_sum_update
    (fun e => if decide (account e = a) then remaining_qty e * entry_price e else 0)
    m id e e' He) as H.
  cbv beta in H. rewrite Ha in H. exact H.
Qed.

Lemma true_counters_other m m' a :
  acct_open a m' = acct_open a m -> acct_notional a m' = acct_notional a m ->
  true_counters m' a = true_counters m a.
Proof. intros H1 H2. unfold true_counters. by rewrite H1, H2. Qed.

(** ** Every hook keeps the accounting exact *)

(** Decide the account comparisons of the hypotheses. *)
Ltac dec_hyps :=
  repeat match goal with
  | H : context [if decide ?P then _ else _] |- _ =>
      first [rewrite (decide_True (P := P)) in H by congruence
            |rewrite (decide_False (P := P)) in H by congruence]
  end.

Lemma mul_fits_delta m a id e :
  m !! id = Some e -> account e = a ->
  remaining_qty e * entry_price e <= acct_notional a m.
Proof. intros He Ha. rewrite (acct_notional_delete a m id e), decide_True by done. lia. Qed.

Lemma on_admission_exact id a p q s :
  exact s -> risk_orders s !! id = None ->
  representable (risk_orders (on_admission id a p q s)) ->
  exact (on_admission id a p q s).
Proof.
  intros Hs Hid. unfold on_admission. destruct (config s); [|done]. simpl. intros Hrep b. simpl.
  set (e := {| account := a; entry_price := p; remaining_qty := q |}) in *.
  pose proof (acct_open_insert b (risk_orders s) id e Hid) as Ho.
  pose proof (acct_notional_insert b (risk_orders s) id e Hid) as Hn. simpl in Ho, Hn.
  destruct (decide (b = a)) as [->|Hb].
  - dec_hyps. destruct (Hrep a) as [Hro Hrn].
    rewrite lookup_insert_eq. unfold true_counters.
    destruct (acct_open a (<[id:=e]> (risk_orders s)) =? 0) eqn:E; bool_prop; [lia|].
    pose proof (exact_open s a Hs) as Heo. pose proof (exact_notional s a Hs) as Hen.
    unfold open_count_of, notional_of in Heo, Hen.
    assert (Hc : open_count (default counters_default (counters s !! a)) = acct_open a (risk_orders s) /\
      resting_notional (default counters_default (counters s !! a)) = acct_notional a (risk_orders s)).
    { rewrite <- Heo, <- Hen. by destruct (counters s !! a). }
    destruct Hc as [-> ->]. unfold sat_mul, wrapping_add.
    rewrite N.min_r, !N.mod_small by lia. do 2 f_equal; lia.
  - dec_hyps. rewrite lookup_insert_ne, (Hs b) by done.
    symmetry. apply true_counters_other; lia.
Qed.

Lemma on_cancel_exact id s :
  exact s -> representable (risk_orders s) -> exact (on_cancel id s).
Proof.
  intros Hs Hrep. unfold on_cancel. destruct (config s); [|done].
  destruct (risk_orders s !! id) as [e|] eqn:He; [|done]. simpl.
  destruct (exact_tracked s id e Hs He) as [Hc Hone]. rewrite Hc.
  pose proof (fun b => acct_open_delete b (risk_orders s) id e He) as Ho.
  pose proof (fun b => acct_notional_delete b (risk_orders s) id e He) as Hn.
  destruct (Hrep (account e)) as [_ Hrn].
  eapply exact_evict; simpl; [|by rewrite lookup_insert_eq| |].
  - intros b Hb. rewrite lookup_insert_ne, (Hs b) by done.
    specialize (Ho b). specialize (Hn b). dec_hyps.
    apply true_counters_other; lia.
  - specialize (Ho (account e)). dec_hyps. simpl. unfold sat_sub. lia.
  - specialize (Hn (account e)). dec_hyps. simpl.
    unfold sat_sub, sat_mul. lia.
Qed.

Lemma on_fill_exact id q p s :
  exact s -> representable (risk_orders s) ->
  (forall e, risk_orders s !! id = Some e -> q <= remaining_qty e) ->
  exact (on_fill id q p s).
Proof.
  intros Hs Hrep Hq. unfold on_fill. destruct (config s); [|done].
  destruct (risk_orders s !! id) as [e|] eqn:He; [|done]. specialize (Hq e eq_refl). simpl.
  destruct (exact_tracked s id e Hs He) as [Hc Hone]. rewrite Hc.
  set (e' := {| account := account e; entry_price := entry_price e;
                remaining_qty := sat_sub (remaining_qty e) q |}).
  pose proof (fun b => acct_open_update b (risk_orders s) id e e' He eq_refl) as Ho.
  pose proof (fun b => acct_notional_update b (risk_orders s) id e e' He eq_refl) as Hn.
  pose proof (mul_fits_delta _ _ _ _ He eq_refl) as Hfit. destruct (Hrep (account e)) as [_ Hrn].
  assert (He' : forall m, <[id:=e']> m !! id = Some e') by (intros; apply lookup_insert_eq).
  unfold sat_sub in *. destruct (remaining_qty e - q =? 0) eqn:E; bool_prop.
  - pose proof (fun b => acct_open_delete b _ id e' (He' (risk_orders s))) as Ho'.
    pose proof (fun b => acct_notional_delete b _ id e' (He' (risk_orders s))) as Hn'.
    simpl in Ho', Hn', Hn. eapply exact_evict; simpl; [|by rewrite lookup_insert_eq| |].
    + intros b Hb. rewrite lookup_insert_ne, (Hs b) by done.
      specialize (Ho b). specialize (Hn b). specialize (Ho' b). specialize (Hn' b).
      dec_hyps. apply true_counters_other; lia.
    + specialize (Ho (account e)). specialize (Ho' (account e)).
      dec_hyps. simpl. lia.
    + specialize (Hn (account e)). specialize (Hn' (account e)).
      dec_hyps. simpl. unfold sat_mul.
      assert (q = remaining_qty e) as -> by lia. rewrite N.min_r by lia.
      rewrite N.sub_diag in Hn, Hn'. lia.
  - intros b. simpl. destruct (decide (b = account e)) as [->|Hb].
    + rewrite lookup_insert_eq. unfold true_counters. rewrite Ho.
      specialize (Hn (account e)). dec_hyps. simpl in Hn.
      case_match; bool_prop; [lia|]. unfold sat_mul. rewrite N.min_r by nia. do 2 f_equal. nia.
    + rewrite lookup_insert_ne, (Hs b) by done. specialize (Hn b). dec_hyps.
      symmetry. apply true_counters_other; [apply Ho|lia].
Qed.

Lemma on_quantity_update_exact id q s :
  exact s -> representable (risk_orders s) ->
  representable (risk_orders (on_quantity_update id q s)) ->
  exact (on_quantity_update id q s).
Proof.
  intros Hs Hrep. unfold on_quantity_update. destruct (config s); [|done].
  destruct (risk_orders s !! id) as [e|] eqn:He; [|done]. simpl.
  destruct (exact_tracked s id e Hs He) as [Hc Hone]. rewrite Hc. simpl. intros Hrep'.
  set (e' := {| account := account e; entry_price := entry_price e; remaining_qty := q |}) in *.
  pose proof (fun b => acct_open_update b (risk_orders s) id e e' He eq_refl) as Ho.
  pose proof (fun b => acct_notional_update b (risk_orders s) id e e' He eq_refl) as Hn.
  pose proof (mul_fits_delta _ _ _ _ He eq_refl) as Hfit. destruct (Hrep (account e)) as [_ Hrn].
  destruct (Hrep' (account e)) as [_ Hrn'].
  intros b. simpl. destruct (decide (b = account e)) as [->|Hb].
  - rewrite lookup_insert_eq. unfold true_counters. rewrite Ho.
    specialize (Hn (account e)). dec_hyps. simpl in Hn.
    destruct (acct_open (account e) (risk_orders s) =? 0) eqn:E0; bool_prop; [lia|].
    unfold sat_mul, sat_sub, wrapping_add. destruct (remaining_qty e <=? q) eqn:E; bool_prop;
      do 2 f_equal; [rewrite N.min_r, N.mod_small by nia; nia|rewrite N.min_r by nia; nia].
  - rewrite lookup_insert_ne, (Hs b) by done. specialize (Hn b). dec_hyps.
    symmetry. apply true_counters_other; [apply Ho|lia].
Qed.

(** ** Runs of the risk layer *)

Inductive risk_step : RiskState -> RiskState -> Prop :=
| step_admission id a p q s :
    risk_orders s !! id = None -> risk_step s (on_admission id a p q s)
| step_fill id q p s :
    (forall e, risk_orders s !! id = Some e -> q <= remaining_qty e) ->
    risk_step s (on_fill id q p s)
| step_cancel id s : risk_step s (on_cancel id s)
| step_quantity id q s : risk_step s (on_quantity_update id q s)
| step_check_limit a p q r s : risk_step s (check_limit_admission a p q r s).2
| step_check_modify id a p q r s : risk_step s (check_modify_admission id a p q r s).2
| step_set_config cfg s : risk_step s (set_config cfg s)
| step_disable s : risk_step s (disable s)
| step_clear s : risk_step s (risk_clear s).

(** Runs all of whose states are representable. *)
Inductive risk_run : RiskState -> RiskState -> Prop :=
| risk_run_refl s : representable (risk_orders s) -> risk_run s s
| risk_run_step s1 s2 s3 :
    risk_run s1 s2 -> risk_step s2 s3 -> representable (risk_orders s3) -> risk_run s1 s3.

(** The checks only touch the warning latch. *)
Definition only_warns (s s' : RiskState) : Prop :=
  config s' = config s /\ counters s' = counters s /\ risk_orders s' = risk_orders s.

#[export] Instance only_warns_preorder : PreOrder only_warns.
Proof. split; unfold only_warns; [done|intros ???; intuition congruence]. Qed.

Lemma check_price_band_only_warns cfg p r : runs_in only_warns (check_price_band cfg p r).
Proof. unfold check_price_band. runs. by split_and!. Qed.
#[export] Hint Resolve check_price_band_only_warns : runs.
Lemma check_limit_only_warns a p q r : runs_in only_warns (check_limit_admission a p q r).
Proof. unfold check_limit_admission. runs. Qed.
#[export] Hint Resolve check_limit_only_warns : runs.
Lemma check_modify_only_warns id a p q r : runs_in only_warns (check_modify_admission id a p q r).
Proof. unfold check_modify_admission. runs. Qed.

Lemma exact_only_warns s s' : only_warns s s' -> exact s -> exact s'.
Proof. intros (_ & Hc & Ho) H a. rewrite Hc, Ho. apply H. Qed.

Lemma exact_empty s : counters s = ∅ -> risk_orders s = ∅ -> exact s.
Proof.
  intros Hc Ho a. rewrite Hc, Ho, lookup_empty. unfold true_counters, acct_open.
  by rewrite map_sum_empty.
Qed.

Lemma risk_step_exact s s' :
  risk_step s s' -> representable (risk_orders s) -> representable (risk_orders s') ->
  exact s -> exact s'.
Proof.
  destruct 1; intros Hr Hr' Hs.
  - by apply on_admission_exact.
  - by apply on_fill_exact.
  - by apply on_cancel_exact.
  - by apply on_quantity_update_exact.
  - eapply exact_only_warns; [apply check_limit_only_warns|done].
  - eapply exact_only_warns; [apply check_modify_only_warns|done].
  - done.
  - done.
  - by apply exact_empty.
Qed.

Lemma risk_run_representable s s' : risk_run s s' -> representable (risk_orders s').
Proof. by destruct 1. Qed.

Lemma risk_run_exact s : risk_run risk_state_new s -> exact s.
Proof.
  intros Hrun. remember risk_state_new as s0 eqn:E0.
  induction Hrun as [|s1 s2 s3 Hrun IH Hstep Hrep]; subst.
  - by apply exact_empty.
  - eapply risk_step_exact; eauto using risk_run_representable.
Qed.

(** C27.  Exact risk accounting.  Along every run of the hooks from the empty
    state in which new orders get fresh ids, fills do not exceed what rests
    and the exact totals fit their machine types, each account's counters
    equal the number and the notional of its tracked orders, and an account
    has counters only while it has a tracked order (so no phantom exposure
    survives its last order). *)
Theorem risk_accounting_exact s a :
  risk_run risk_state_new s ->
  counters s !! a =
    (if acct_open a (risk_orders s) =? 0 then None
     else Some {| open_count := acct_open a (risk_orders s);
                  resting_notional := acct_notional a (risk_orders s) |}).
Proof.
  intros Hrun. by apply (risk_run_exact s).
Qed.

(** ** The admission verdicts *)

Definition band_ok (cfg : RiskConfig) (price : N) (reference : option N) : Prop :=
  match price_band_bps cfg, reference with
  | Some bps, Some r =>
      r = 0 \/ U128_MAX <= bps * r \/ abs_diff price r * 10000 <= bps * r
  | _, _ => True
  end.

Lemma check_price_band_ok cfg p r s :
  (check_price_band cfg p r s).1 = Ok tt <-> band_ok cfg p r.
Proof.
  unfold check_price_band, band_ok. destruct (price_band_bps cfg) as [bps|]; [|done].
  destruct r as [r|]; [|by destruct (bool_decide _)].
  destruct (0 <? r) eqn:Er; bool_prop; [|by intuition lia].
  unfold sat_mul. destruct (_ <? _) eqn:E; bool_prop; simpl.
  - split; [done|]. intros [?|[?|?]]; lia.
  - split; [|done]. intros _. lia.
Qed.

(** The price band is exact.  With a band of [bps] basis points and a
    positive reference price, a limit price is rejected if and only if its
    deviation in basis points strictly exceeds the band — no rounding lets a
    fractional excess through — as long as [bps * reference] fits in 128
    bits; past that width nothing is rejected.  The error carries the price,
    the reference and the limit. *)
Theorem price_band_exact cfg bps price r s :
  price_band_bps cfg = Some bps -> 0 < r ->
  match (check_price_band cfg price (Some r) s).1 with
  | Ok _ => bps * r < U128_MAX -> abs_diff price r * 10000 <= bps * r
  | Err e => bps * r < abs_diff price r * 10000 /\
      exists dev, e = RiskPriceBand price r dev bps /\
        dev = N.min U32_MAX (sat_mul U128_MAX (abs_diff price r) 10000 / r)
  end.
Proof.
  intros Hb Hr. unfold check_price_band. rewrite Hb.
  destruct (0 <? r) eqn:Er; bool_prop; [|lia].
  destruct (_ <? _) eqn:E; bool_prop; simpl.
  - split; [unfold sat_mul in E; lia|]. eexists. split; [done|]. case_match; bool_prop; lia.
  - unfold sat_mul in E. lia.
Qed.

Definition open_ok (cfg : RiskConfig) (current : N) : Prop :=
  match max_open_orders_per_account cfg with Some limit => current < limit | None => True end.
Definition notional_ok (cfg : RiskConfig) (after : N) : Prop :=
  match max_notional_per_account cfg with
  | Some limit => N.min U128_MAX after <= limit | None => True end.

Lemma check_limit_admission_ok cfg a p q r s :
  config s = Some cfg ->
  ((check_limit_admission a p q r s).1 = Ok tt <->
   open_ok cfg (open_count_of s a) /\ notional_ok cfg (notional_of s a + q * p) /\
   band_ok cfg p r).
Proof.
  intros Hc. unfold check_limit_admission, sbind, sget. simpl. rewrite Hc.
  unfold open_ok, notional_ok. rewrite <- check_price_band_ok with (s := s).
  unfold stry.
  destruct (max_open_orders_per_account cfg) as [l|]; simpl.
  - destruct (l <=? _) eqn:E; bool_prop; simpl; [split; [done|lia]|].
    destruct (max_notional_per_account cfg) as [l'|]; simpl; [|tauto].
    unfold sat_add, sat_mul. destruct (l' <? _) eqn:E'; bool_prop; simpl; [split; [done|lia]|].
    split; [intros ?; split_and!; [lia..|done]|tauto].
  - destruct (max_notional_per_account cfg) as [l'|]; simpl; [|tauto].
    unfold sat_add, sat_mul. destruct (l' <? _) eqn:E'; bool_prop; simpl; [split; [done|lia]|].
    split; [intros ?; split_and!; [done|lia|done]|tauto].
Qed.

(** ** Limits *)

Definition within_limits (cfg : RiskConfig) (m : gmap Id RiskEntry) : Prop :=
  forall a,
  (forall l, max_open_orders_per_account cfg = Some l -> acct_open a m <= l) /\
  (forall l, max_notional_per_account cfg = Some l -> acct_notional a m <= l).

Lemma evict_config a s : config (evict_if_zeroed a s) = config s.
Proof. unfold evict_if_zeroed. by repeat case_match. Qed.
Lemma evict_orders a s : risk_orders (evict_if_zeroed a s) = risk_orders s.
Proof. unfold evict_if_zeroed. by repeat case_match. Qed.

Lemma on_cancel_orders id s :
  config s <> None -> risk_orders (on_cancel id s) = delete id (risk_orders s).
Proof.
  intros Hc. unfold on_cancel. destruct (config s); [|done].
  destruct (risk_orders s !! id) as [e|] eqn:E; [|by rewrite delete_id].
  rewrite evict_orders. simpl. by destruct (counters s !! account e).
Qed.

Lemma on_cancel_config id s : config (on_cancel id s) = config s.
Proof.
  unfold on_cancel. destruct (config s) eqn:E; [|done].
  destruct (risk_orders s !! id) as [e|]; [|done].
  rewrite evict_config. simpl. by destruct (counters s !! account e).
Qed.

(** The full admission check an order goes through after its predecessor has
    been cancelled by a modify. *)
Definition readmission (id : Id) (a : Hash32) (p q : N) (r : option N) (s : RiskState) :
    Result OrderBookError unit :=
  (check_limit_admission a p q r (on_cancel id s)).1.

Lemma tracked_projection s id e :
  exact s -> representable (risk_orders s) -> risk_orders s !! id = Some e -> config s <> None ->
  open_count_of (on_cancel id s) (account e) = open_count_of s (account e) - 1 /\
  notional_of (on_cancel id s) (account e) =
    notional_of s (account e) - sat_mul U128_MAX (remaining_qty e) (entry_price e).
Proof.
  intros Hx Hr He Hc. pose proof (on_cancel_exact id s Hx Hr) as Hx'.
  rewrite (exact_open _ _ Hx'), (exact_notional _ _ Hx'), exact_open, exact_notional by done.
  rewrite on_cancel_orders by done.
  rewrite (acct_open_delete (account e) (risk_orders s) id e) by done.
  rewrite (acct_notional_delete (account e) (risk_orders s) id e) by done.
  destruct (Hr (account e)) as [_ Hn].
  rewrite (acct_notional_delete (account e) (risk_orders s) id e) in Hn by done.
  rewrite !decide_True in * by done. unfold sat_mul. lia.
Qed.

(** The validate-first guard of a modify is sound.  On exact counters,
    with the account within its open-order limit, if
    [check_modify_admission] accepts a modify of a tracked order then the
    full admission that runs after the original has been cancelled accepts
    it too, so the original is never destroyed for a replacement the risk
    layer refuses. *)
Theorem modify_admission_predicts s cfg id e p q r :
  exact s -> representable (risk_orders s) -> config s = Some cfg ->
  within_limits cfg (risk_orders s) -> risk_orders s !! id = Some e ->
  (check_modify_admission id (account e) p q r s).1 = Ok tt ->
  readmission id (account e) p q r s = Ok tt.
Proof.
  intros Hx Hr Hc Hw He Hck. unfold readmission.
  apply (check_limit_admission_ok cfg); [by rewrite on_cancel_config|].
  destruct (tracked_projection s id e) as [-> ->]; [done..|congruence|].
  rewrite exact_open by done. destruct (exact_tracked s id e Hx He) as [_ Hone].
  revert Hck. unfold check_modify_admission, sbind, sget, stry. simpl. rewrite Hc, He.
  intros Hck. split_and!.
  - unfold open_ok. destruct (Hw (account e)) as [Hl _].
    destruct (max_open_orders_per_account cfg) as [l|]; [|done]. specialize (Hl l eq_refl). lia.
  - unfold notional_ok. destruct (max_notional_per_account cfg) as [l|]; [|done].
    destruct (l <? _) eqn:E; [done|]. bool_prop. unfold sat_add, sat_sub, sat_mul in *. lia.
  - rewrite <- check_price_band_ok with (s := s). destruct (max_notional_per_account cfg); [|done].
    by destruct (_ <? _).
Qed.

(** ** Sample runs *)

Definition sample_entry : RiskEntry := {| account := 7; entry_price := 100; remaining_qty := 10 |}.
Definition sample_risk (cfg : RiskConfig) : RiskState := set_config cfg risk_state_new.
Definition sample_risk1 (cfg : RiskConfig) : RiskState := on_admission 1 7 100 10 (sample_risk cfg).
Definition sample_risk2 (cfg : RiskConfig) : RiskState := on_admission 2 7 100 10 (sample_risk1 cfg).

Lemma sample_representable cfg :
  representable ∅ /\ representable (risk_orders (sample_risk1 cfg)) /\
  representable (risk_orders (sample_risk2 cfg)).
Proof.
  split_and!; intros a; unfold sample_risk2, sample_risk1, on_admission; simpl;
    rewrite ?acct_open_insert, ?acct_notional_insert by done; simpl;
    unfold acct_open, acct_notional; rewrite !map_sum_empty; try case_decide; by vm_compute.
Qed.

Lemma sample_risk_run cfg : risk_run risk_state_new (sample_risk2 cfg).
Proof.
  destruct (sample_representable cfg) as (H0 & H1 & H2).
  apply (risk_run_step _ (sample_risk1 cfg)); [|by constructor|done].
  apply (risk_run_step _ (sample_risk cfg)); [|by constructor|done].
  apply (risk_run_step _ risk_state_new); [by constructor|constructor|done].
Qed.

(** Outside that condition the guard is not sound: when the open-order
    limit has been lowered below what an account already has, the guard of a
    modify (which skips the count) accepts a change of a tracked order and
    the re-admission after the cancel refuses it. *)
Theorem modify_admission_lowered_limit :
  exists s id e p q,
    risk_run risk_state_new s /\ risk_orders s !! id = Some e /\
    (check_modify_admission id (account e) p q None s).1 = Ok tt /\
    readmission id (account e) p q None s = Err (RiskMaxOpenOrders (account e) 1 1).
Proof.
  exists (set_config (with_max_open_orders_per_account risk_config_new 1)
            (sample_risk2 risk_config_new)), 1, sample_entry, 101, 10.
  split_and!; [|done|by vm_compute|by vm_compute].
  apply (risk_run_step _ (sample_risk2 risk_config_new));
    [apply sample_risk_run|constructor|apply (sample_representable risk_config_new)].
Qed.

(** ** Witnesses *)

Definition sample_limits : RiskConfig :=
  with_price_band_bps
    (with_max_notional_per_account (with_max_open_orders_per_account risk_config_new 2) 5000)
    50 LastTrade.

Lemma risk_accounting_exact_witness :
  counters (sample_risk2 sample_limits) !! 7 = Some {| open_count := 2; resting_notional := 2000 |}.
Proof.
  etransitivity; [apply (risk_accounting_exact (sample_risk2 sample_limits) 7)|by vm_compute].
  apply sample_risk_run.
Defined.

Lemma price_band_exact_witness :
  match (check_price_band sample_limits 1006 (Some 1000) risk_state_new).1 with
  | Ok _ => 50 * 1000 < U128_MAX -> abs_diff 1006 1000 * 10000 <= 50 * 1000
  | Err e => 50 * 1000 < abs_diff 1006 1000 * 10000 /\
      exists dev, e = RiskPriceBand 1006 1000 dev 50 /\
        dev = N.min U32_MAX (sat_mul U128_MAX (abs_diff 1006 1000) 10000 / 1000)
  end.
Proof.
  apply (price_band_exact sample_limits 50 1006 1000 risk_state_new); [done|lia].
Defined.

Lemma modify_admission_predicts_witness :
  readmission 1 7 101 10 None (sample_risk2 sample_limits) = Ok tt.
Proof.
  apply (modify_admission_predicts (sample_risk2 sample_limits) sample_limits 1 sample_entry 101 10 None).
  - apply risk_run_exact, sample_risk_run.
  - apply (sample_representable sample_limits).
  - done.
  - intros a. unfold sample_risk2, sample_risk1, on_admission. simpl.
    rewrite !acct_open_insert, !acct_notional_insert by done. simpl.
    unfold acct_open, acct_notional. rewrite !map_sum_empty.
    split; intros l [= <-]; case_decide; by vm_compute.
  - done.
  - by vm_compute.
Defined.
