(* ===== verification/RiskRaces.v ===== *)
(** * Racing submissions and the risk limits (risk.rs, modifications.rs)

    A submission is checked before the sweep and registered with the risk
    state when its residual rests; an in-place re-size is checked before the
    level is changed and reported afterwards.  Between the two, submissions
    and re-sizes of other threads may be checked, each against counters that
    do not yet know of the others.  Here a check and what follows it are
    separate steps, with the calls in between kept as [Flight]s; the theorem
    bounds by how much racing calls can exceed the limits, and says that calls
    that do not race do not exceed them at all. *)

From S2P Require Import Prelude Types Risk.
Local Open Scope N_scope.

(** ** Calls between their check and their effect *)

Inductive Flight :=
(** a submission: account, price, quantity submitted *)
| Admitting (a : Hash32) (p submitted : N)
(** an in-place re-size: order, new quantity *)
| Resizing (id : Id) (new_qty : N).

(** The state of the risk layer and the calls in flight. *)
Definition RiskFlights : Type := RiskState * list Flight.

Inductive gated_step : RiskFlights -> RiskFlights -> Prop :=
(** add_order_inner: check_risk_limit_admission *)
| gated_check a p submitted r s fl :
    (check_limit_admission a p submitted r s).1 = Ok tt ->
    gated_step (s, fl) ((check_limit_admission a p submitted r s).2, Admitting a p submitted :: fl)
(** add_order_inner: what is left after the sweep rests; the id is not in use,
    nor the target of a re-size in flight *)
| gated_admit id a p submitted q s fl rest :
    fl ≡ₚ Admitting a p submitted :: rest -> q <= submitted ->
    risk_orders s !! id = None -> (forall n, Resizing id n ∉ fl) ->
    gated_step (s, fl) (on_admission id a p q s, rest)
(** update_order: check_risk_modify_admission of a tracked order *)
| gated_check_resize id e q r s fl :
    risk_orders s !! id = Some e ->
    (check_modify_admission id (account e) (entry_price e) q r s).1 = Ok tt ->
    gated_step (s, fl)
      ((check_modify_admission id (account e) (entry_price e) q r s).2, Resizing id q :: fl)
(** update_order: on_quantity_update *)
| gated_resize id q s fl rest :
    fl ≡ₚ Resizing id q :: rest -> gated_step (s, fl) (on_quantity_update id q s, rest)
(** update_order: the guard of a re-price or a replacement, whose cancel and
    re-submission are calls of their own *)
| gated_guard id a p q r s fl :
    gated_step (s, fl) ((check_modify_admission id a p q r s).2, fl)
(** a check is refused *)
| gated_refused a p submitted r s fl :
    gated_step (s, fl) ((check_limit_admission a p submitted r s).2, fl)
(** a later check fails, or nothing is left to rest *)
| gated_abandon f s fl rest : fl ≡ₚ f :: rest -> gated_step (s, fl) (s, rest)
| gated_fill id q p s fl :
    (forall e, risk_orders s !! id = Some e -> q <= remaining_qty e) ->
    gated_step (s, fl) (on_fill id q p s, fl)
| gated_cancel id s fl : gated_step (s, fl) (on_cancel id s, fl).

(** Runs with at most [n] calls in flight at any moment, all of whose states
    are representable. *)
Inductive gated_run (n : nat) (s0 : RiskState) : RiskFlights -> Prop :=
| gated_run_refl : gated_run n s0 (s0, [])
| gated_run_step x y :
    gated_run n s0 x -> gated_step x y -> representable (risk_orders y.1) -> (length y.2 <= n)%nat ->
    gated_run n s0 y.

(** ** Orders as large as the calls in flight may make them *)

Definition resized (q : N) (e : RiskEntry) : RiskEntry :=
  {| account := account e; entry_price := entry_price e; remaining_qty := N.max (remaining_qty e) q |}.
Definition inflate (f : Flight) (m : gmap Id RiskEntry) : gmap Id RiskEntry :=
  match f with Admitting _ _ _ => m | Resizing id q => alter (resized q) id m end.
Definition inflated (fl : list Flight) (m : gmap Id RiskEntry) : gmap Id RiskEntry := foldr inflate m fl.

Lemma alter_tracked (f : RiskEntry -> RiskEntry) (m : gmap Id RiskEntry) id e :
  m !! id = Some e -> alter f id m = <[id := f e]> m.
Proof.
  intros E. apply map_eq. intros i. destruct (decide (i = id)) as [->|Hne];
    [by rewrite lookup_alter_eq, lookup_insert_eq, E|by rewrite lookup_alter_ne, lookup_insert_ne].
Qed.
Lemma alter_untracked (f : RiskEntry -> RiskEntry) (m : gmap Id RiskEntry) id :
  m !! id = None -> alter f id m = m.
Proof.
  intros E. apply map_eq. intros i. destruct (decide (i = id)) as [->|Hne];
    [by rewrite lookup_alter_eq, E|by rewrite lookup_alter_ne].
Qed.

Lemma inflate_comm f g m : inflate f (inflate g m) = inflate g (inflate f m).
Proof.
  destruct f as [|i p], g as [|j q]; try done. simpl. destruct (decide (i = j)) as [->|Hne]; [|by apply alter_alter_ne].
  rewrite !alter_alter_eq. apply alter_ext. intros e _. unfold compose, resized. simpl. f_equal. lia.
Qed.

Lemma inflated_inflate f fl m : inflated fl (inflate f m) = inflate f (inflated fl m).
Proof. induction fl as [|g fl IH]; [done|]. simpl. by rewrite IH, inflate_comm. Qed.

Lemma inflated_perm fl fl' m : fl ≡ₚ fl' -> inflated fl m = inflated fl' m.
Proof.
  induction 1 as [|f l l' _ IH|f g l|l1 l2 l3 _ IH1 _ IH2]; simpl; [done|by rewrite IH|apply inflate_comm|congruence].
Qed.

(** Every order of [m] is in [m'], of the same account and price, and at
    least as large. *)
Definition below (m m' : gmap Id RiskEntry) : Prop :=
  forall id e, m !! id = Some e -> exists e', m' !! id = Some e' /\ account e' = account e /\
    entry_price e' = entry_price e /\ remaining_qty e <= remaining_qty e'.

#[export] Instance below_preorder : PreOrder below.
Proof.
  split; [intros m id e He; exists e; split_and!; [done..|lia]|].
  intros m1 m2 m3 H1 H2 id e He. destruct (H1 _ _ He) as (e1 & He1 & Ha1 & Hp1 & Hq1).
  destruct (H2 _ _ He1) as (e2 & He2 & Ha2 & Hp2 & Hq2). exists e2. split_and!; [done|congruence..|lia].
Qed.

Lemma below_sums m : forall m' a, below m m' ->
  acct_open a m <= acct_open a m' /\ acct_notional a m <= acct_notional a m'.
Proof.
  induction m as [|i e m Hi IH] using map_ind; intros m' a Hb.
  { unfold acct_open, acct_notional. rewrite !map_sum_empty. lia. }
  destruct (Hb i e (lookup_insert_eq _ _ _)) as (e' & He' & Ha & Hp & Hq).
  rewrite acct_open_insert, acct_notional_insert by done.
  rewrite (acct_open_delete a m' i e'), (acct_notional_delete a m' i e') by done.
  destruct (IH (delete i m') a) as [H1 H2].
  { intros j x Hj. assert (j <> i) by congruence. destruct (Hb j x) as (x' & Hx' & ?); [by rewrite lookup_insert_ne|].
    exists x'. by rewrite lookup_delete_ne. }
  rewrite Ha, Hp. case_decide; [|lia]. split; [lia|]. nia.
Qed.

Lemma below_inflate f m m' : below m m' -> below (inflate f m) (inflate f m').
Proof.
  destruct f as [|i q]; [done|]. simpl. intros Hb id e. destruct (decide (id = i)) as [->|Hne].
  - rewrite lookup_alter_eq, fmap_Some. intros (x & Hx & ->). destruct (Hb _ _ Hx) as (x' & Hx' & Ha & Hp & Hq).
    exists (resized q x'). rewrite lookup_alter_eq, Hx'. simpl. split_and!; [done..|lia].
  - rewrite !lookup_alter_ne by done. apply Hb.
Qed.

Lemma below_inflated fl m m' : below m m' -> below (inflated fl m) (inflated fl m').
Proof. intros Hb. induction fl as [|f fl IH]; [done|]. simpl. by apply below_inflate. Qed.

Lemma below_inflates f m : below m (inflate f m).
Proof.
  destruct f as [|i q]; [done|]. simpl. intros id e He. destruct (decide (id = i)) as [->|Hne].
  - exists (resized q e). rewrite lookup_alter_eq, He. simpl. split_and!; [done..|lia].
  - exists e. rewrite lookup_alter_ne by done. split_and!; [done..|lia].
Qed.

Lemma below_all fl m : below m (inflated fl m).
Proof. induction fl as [|f fl IH]; [done|]. simpl. etransitivity; [exact IH|apply below_inflates]. Qed.

Lemma below_delete id m : below (delete id m) m.
Proof. intros i e [_ He]%lookup_delete_Some. exists e. split_and!; [done..|lia]. Qed.

Lemma below_reduce id e q m : m !! id = Some e -> q <= remaining_qty e ->
  below (<[id := {| account := account e; entry_price := entry_price e; remaining_qty := q |}]> m) m.
Proof.
  intros He Hq i x [[<- <-]|[_ Hx]]%lookup_insert_Some; [exists e|exists x]; simpl; split_and!; try done; lia.
Qed.

(** ** What the hooks do to the tracked orders *)

Lemma on_fill_below id q p s :
  (forall e, risk_orders s !! id = Some e -> q <= remaining_qty e) ->
  config (on_fill id q p s) = config s /\ below (risk_orders (on_fill id q p s)) (risk_orders s).
Proof.
  intros Hq. unfold on_fill. destruct (config s) eqn:Ec; [|done].
  destruct (risk_orders s !! id) as [e|] eqn:E; [|done].
  pose proof (below_reduce id e (sat_sub (remaining_qty e) q) _ E ltac:(unfold sat_sub; lia)) as Hs.
  cbv zeta. simpl. destruct (_ =? 0).
  - rewrite evict_config, evict_orders. destruct (counters s !! account e); simpl;
      (split; [done|]); (etransitivity; [apply below_delete|exact Hs]).
  - destruct (counters s !! account e); auto.
Qed.

Lemma on_quantity_orders id q s :
  config s <> None -> config (on_quantity_update id q s) = config s /\
  risk_orders (on_quantity_update id q s) =
    alter (fun e => {| account := account e; entry_price := entry_price e; remaining_qty := q |}) id (risk_orders s).
Proof.
  intros Hc. unfold on_quantity_update. destruct (config s) eqn:Ec; [|done].
  destruct (risk_orders s !! id) as [e|] eqn:E; [|by rewrite alter_untracked].
  rewrite (alter_tracked _ _ _ _ E). cbv zeta. simpl. by destruct (counters s !! account e).
Qed.

Lemma resize_below id q m :
  below (alter (fun e => {| account := account e; entry_price := entry_price e; remaining_qty := q |}) id m)
        (inflate (Resizing id q) m).
Proof.
  intros i e. simpl. destruct (decide (i = id)) as [->|Hne].
  - rewrite !lookup_alter_eq, fmap_Some. intros (x & Hx & ->). exists (resized q x). rewrite Hx. simpl.
    split_and!; [done..|lia].
  - rewrite !lookup_alter_ne by done. intros He. exists e. split_and!; [done..|lia].
Qed.

Lemma inflated_insert fl id e m : (forall n, Resizing id n ∉ fl) ->
  inflated fl (<[id := e]> m) = <[id := e]> (inflated fl m).
Proof.
  intros Hn. induction fl as [|f fl IH]; [done|]. simpl.
  rewrite IH by (intros n Hin; apply (Hn n); by right). destruct f as [|j q]; [done|]. simpl.
  apply alter_insert_ne. intros ->. apply (Hn q). by left.
Qed.

Lemma inflated_None fl id m : m !! id = None -> inflated fl m !! id = None.
Proof.
  intros Hm. induction fl as [|[|j q] fl IH]; [done|done|]. simpl.
  destruct (decide (j = id)) as [->|Hne]; [by rewrite lookup_alter_eq, IH|by rewrite lookup_alter_ne].
Qed.

(** ** The invariant *)

Definition admits (a : Hash32) (fl : list Flight) : N :=
  sumN (fun f => match f with Admitting a' _ _ => if decide (a' = a) then 1 else 0 | _ => 0 end) fl.
Definition admits_notional (a : Hash32) (fl : list Flight) : N :=
  sumN (fun f => match f with Admitting a' p q => if decide (a' = a) then q * p else 0 | _ => 0 end) fl.

(** The account with every call in flight carried out. *)
Definition open_ahead (a : Hash32) (m : gmap Id RiskEntry) (fl : list Flight) : N :=
  acct_open a m + admits a fl.
Definition notional_ahead (a : Hash32) (m : gmap Id RiskEntry) (fl : list Flight) : N :=
  acct_notional a (inflated fl m) + admits_notional a fl.

(** No single call in flight is for more than the limit. *)
Definition each_within (l : N) (m : gmap Id RiskEntry) (fl : list Flight) : Prop :=
  forall f, f ∈ fl ->
  match f with
  | Admitting _ p q => q * p <= l
  | Resizing id q => forall e, m !! id = Some e -> q * entry_price e <= l
  end.

Lemma admits_le a fl : admits a fl <= N.of_nat (length fl).
Proof.
  unfold admits. induction fl as [|f fl IH]; rewrite ?sumN_nil, ?sumN_cons; simpl length; [lia|].
  destruct f; [case_decide|]; lia.
Qed.

Lemma inflate_notional a f m l :
  match f with Admitting _ _ _ => True | Resizing id q => forall e, m !! id = Some e -> q * entry_price e <= l end ->
  acct_notional a (inflate f m) <= acct_notional a m + match f with Resizing _ _ => l | _ => 0 end.
Proof.
  destruct f as [|id q]; simpl; [lia|]. intros Hq. destruct (m !! id) as [e|] eqn:E.
  - rewrite (alter_tracked _ _ _ _ E).
    pose proof (acct_notional_update a m id e (resized q e) E eq_refl) as Hn. simpl in Hn.
    specialize (Hq e eq_refl). case_decide; nia.
  - rewrite alter_untracked by done. lia.
Qed.

(** A re-size in flight says nothing about the other accounts. *)
Lemma inflate_other a id q m :
  (forall e, m !! id = Some e -> account e <> a) ->
  acct_notional a (inflate (Resizing id q) m) = acct_notional a m.
Proof.
  intros Ha. simpl. destruct (m !! id) as [e|] eqn:E; [|by rewrite alter_untracked].
  rewrite (alter_tracked _ _ _ _ E).
  pose proof (acct_notional_update a m id e (resized q e) E eq_refl) as Hn. simpl in Hn.
  rewrite !decide_False in Hn by auto. lia.
Qed.

(** The price of an order is the same once inflated. *)
Lemma inflated_price fl m id e : inflated fl m !! id = Some e ->
  exists e0, m !! id = Some e0 /\ entry_price e0 = entry_price e.
Proof.
  revert e. induction fl as [|[|j q] fl IH]; intros e; simpl; [eauto|apply IH|].
  destruct (decide (id = j)) as [->|Hne]; [|rewrite lookup_alter_ne by done; apply IH].
  rewrite lookup_alter_eq, fmap_Some. intros (x & Hx & ->). destruct (IH _ Hx) as (e0 & ? & ?). by exists e0.
Qed.

(** Each call in flight adds at most the limit. *)
Lemma notional_ahead_le a m fl l : each_within l m fl ->
  notional_ahead a m fl <= acct_notional a m + N.of_nat (length fl) * l.
Proof.
  unfold notional_ahead, admits_notional. induction fl as [|f fl IH]; intros Hw; rewrite ?sumN_nil, ?sumN_cons; [simpl; lia|].
  assert (Hf := Hw f ltac:(left)). specialize (IH ltac:(intros g Hg; apply Hw; by right)).
  pose proof (inflate_notional a f (inflated fl m) l) as Hi. simpl length. rewrite Nat2N.inj_succ.
  change (inflated (f :: fl) m) with (inflate f (inflated fl m)). destruct f as [a' p q|id q].
  - specialize (Hi I). case_decide; nia.
  - assert (H : forall e, inflated fl m !! id = Some e -> q * entry_price e <= l).
    { intros e (e0 & He0 & <-)%inflated_price. by apply Hf. }
    specialize (Hi H). nia.
Qed.

Lemma ahead_perm a m fl fl' : fl ≡ₚ fl' -> notional_ahead a m fl = notional_ahead a m fl'.
Proof.
  intros Hp. unfold notional_ahead, admits_notional. by rewrite (inflated_perm _ _ _ Hp), (sumN_Permutation _ _ _ Hp).
Qed.
Lemma admits_perm a fl fl' : fl ≡ₚ fl' -> admits a fl = admits a fl'.
Proof. apply sumN_Permutation. Qed.

Lemma each_within_perm l m fl fl' : fl ≡ₚ fl' -> each_within l m fl -> each_within l m fl'.
Proof. intros Hp Hw f Hf. apply Hw. by rewrite Hp. Qed.

(** Fewer or smaller orders, the same calls. *)
Lemma ahead_below a m m' fl : below m' m ->
  open_ahead a m' fl <= open_ahead a m fl /\ notional_ahead a m' fl <= notional_ahead a m fl.
Proof.
  intros Hb. unfold open_ahead, notional_ahead.
  destruct (below_sums _ _ a Hb), (below_sums _ _ a (below_inflated fl _ _ Hb)). lia.
Qed.

Lemma each_within_below l m m' fl : below m' m -> each_within l m fl -> each_within l m' fl.
Proof.
  intros Hb Hw f Hf. specialize (Hw f Hf). destruct f as [|id q]; [done|].
  intros e He. destruct (Hb _ _ He) as (e' & He' & _ & <- & _). by apply Hw.
Qed.

(** A flight ends. *)
Lemma ahead_drop a m f fl :
  open_ahead a m fl <= open_ahead a m (f :: fl) /\ notional_ahead a m fl <= notional_ahead a m (f :: fl).
Proof.
  unfold open_ahead, notional_ahead, admits, admits_notional. rewrite !sumN_cons.
  change (inflated (f :: fl) m) with (inflate f (inflated fl m)).
  destruct (below_sums _ _ a (below_inflates f (inflated fl m))). lia.
Qed.

(** A re-size lands. *)
Lemma ahead_resize a id q m fl :
  let m' := alter (fun e => {| account := account e; entry_price := entry_price e; remaining_qty := q |}) id m in
  open_ahead a m' fl <= open_ahead a m (Resizing id q :: fl) /\
  notional_ahead a m' fl <= notional_ahead a m (Resizing id q :: fl).
Proof.
  intros m'. pose proof (resize_below id q m) as Hb. fold m' in Hb.
  unfold open_ahead, notional_ahead, admits, admits_notional.
  rewrite !sumN_cons. change (inflated (Resizing id q :: fl) m) with (inflate (Resizing id q) (inflated fl m)).
  rewrite <- inflated_inflate. destruct (below_sums _ _ a (below_inflated fl _ _ Hb)) as [_ Hn].
  split; [|lia]. assert (acct_open a m' = acct_open a m) as ->; [|lia].
  unfold m'. destruct (m !! id) as [e|] eqn:E; [|by rewrite alter_untracked].
  rewrite (alter_tracked _ _ _ _ E). by apply acct_open_update with (e := e).
Qed.

(** An admission lands. *)
Lemma ahead_admit b id a p submitted q m fl :
  q <= submitted -> m !! id = None -> (forall n, Resizing id n ∉ fl) ->
  let m' := <[id := {| account := a; entry_price := p; remaining_qty := q |}]> m in
  open_ahead b m' fl <= open_ahead b m (Admitting a p submitted :: fl) /\
  notional_ahead b m' fl <= notional_ahead b m (Admitting a p submitted :: fl).
Proof.
  intros Hq Hid Hn m'. unfold open_ahead, notional_ahead, admits, admits_notional. rewrite !sumN_cons. unfold m'.
  rewrite inflated_insert, acct_open_insert, acct_notional_insert by (done || by apply inflated_None). simpl.
  case_decide; nia.
Qed.

(** What an accepted re-size would make of the account. *)
Lemma check_modify_notional cfg id e q r s l :
  exact s -> representable (risk_orders s) -> config s = Some cfg -> risk_orders s !! id = Some e ->
  max_notional_per_account cfg = Some l -> l < U128_MAX ->
  (check_modify_admission id (account e) (entry_price e) q r s).1 = Ok tt ->
  acct_notional (account e) (risk_orders s) - remaining_qty e * entry_price e + q * entry_price e <= l.
Proof.
  intros Hx Hr Hc He Hl Hlt. unfold check_modify_admission, sbind, sget, stry. simpl. rewrite Hc, He, Hl.
  rewrite exact_notional by done. pose proof (mul_fits_delta _ _ _ _ He eq_refl) as Hfit.
  destruct (Hr (account e)) as [_ Hn].
  destruct (l <? _) eqn:E; [done|]. bool_prop. unfold sat_add, sat_sub, sat_mul in E. lia.
Qed.

(** Everything in flight taken into account, [n] racing calls keep every
    account within [n - 1] orders and [n] times the notional of its limits. *)
Record bounded (n : nat) (cfg : RiskConfig) (s : RiskState) (fl : list Flight) : Prop := {
  bd_exact : exact s;
  bd_config : config s = Some cfg;
  bd_open : forall l a, max_open_orders_per_account cfg = Some l ->
    open_ahead a (risk_orders s) fl <= l + N.of_nat (n - 1);
  bd_notional : forall l, max_notional_per_account cfg = Some l -> l < U128_MAX ->
    each_within l (risk_orders s) fl /\
    forall a, notional_ahead a (risk_orders s) fl <= N.of_nat n * l;
}.

(** A step after which the accounts are no further ahead. *)
Lemma bounded_less n cfg s s' fl fl' :
  exact s' -> config s' = Some cfg ->
  (forall a, open_ahead a (risk_orders s') fl' <= open_ahead a (risk_orders s) fl /\
             notional_ahead a (risk_orders s') fl' <= notional_ahead a (risk_orders s) fl) ->
  (forall l, each_within l (risk_orders s) fl -> each_within l (risk_orders s') fl') ->
  bounded n cfg s fl -> bounded n cfg s' fl'.
Proof.
  intros Hx Hc Ha Hw [_ _ Ho Hn]. split; [done|done|..].
  - intros l a Hl. destruct (Ha a). specialize (Ho l a Hl). lia.
  - intros l Hl Hlt. destruct (Hn l Hl Hlt) as [H1 H2]. split; [by apply Hw|].
    intros a. destruct (Ha a). specialize (H2 a). lia.
Qed.

Lemma bounded_perm n cfg s fl fl' : fl ≡ₚ fl' -> bounded n cfg s fl -> bounded n cfg s fl'.
Proof.
  intros Hp Hb. pose proof Hb as [Hx Hc _ _]. apply (bounded_less n cfg s s fl); [done|done| | |done].
  - intros a. unfold open_ahead. rewrite (ahead_perm _ _ _ _ Hp), (admits_perm _ _ _ Hp). lia.
  - intros l. by apply each_within_perm.
Qed.

Lemma bounded_check n cfg a p submitted r s fl :
  representable (risk_orders s) -> (length (Admitting a p submitted :: fl) <= n)%nat ->
  (check_limit_admission a p submitted r s).1 = Ok tt -> bounded n cfg s fl ->
  bounded n cfg (check_limit_admission a p submitted r s).2 (Admitting a p submitted :: fl).
Proof.
  intros Hr Hlen Hck [Hx Hc Ho Hn]. pose proof (check_limit_only_warns a p submitted r s) as Hw.
  pose proof Hw as (Hc1 & _ & Ho1). simpl in Hlen.
  apply (check_limit_admission_ok cfg) in Hck as (Hko & Hkn & _); [|done].
  rewrite exact_open in Hko by done. rewrite exact_notional in Hkn by done.
  pose proof (admits_le a fl) as Hal.
  split; [by eapply exact_only_warns|by rewrite Hc1|..]; rewrite Ho1.
  - intros l b Hl. specialize (Ho l b Hl). unfold open_ok in Hko. rewrite Hl in Hko.
    unfold open_ahead, admits in *. rewrite sumN_cons. case_decide; [subst b; lia|lia].
  - intros l Hl Hlt. destruct (Hn l Hl Hlt) as [H1 H2]. unfold notional_ok in Hkn. rewrite Hl in Hkn.
    assert (Hv : acct_notional a (risk_orders s) + submitted * p <= l) by lia. split.
    + intros f [->|Hf]%elem_of_cons; [lia|by apply H1].
    + intros b. specialize (H2 b). pose proof (notional_ahead_le b _ _ _ H1) as Hb.
      unfold notional_ahead, admits_notional in *. rewrite sumN_cons.
      change (inflated (Admitting a p submitted :: fl) (risk_orders s)) with (inflated fl (risk_orders s)).
      case_decide; [subst b; nia|lia].
Qed.

Lemma bounded_check_resize n cfg id e q r s fl :
  representable (risk_orders s) -> (length (Resizing id q :: fl) <= n)%nat ->
  risk_orders s !! id = Some e ->
  (check_modify_admission id (account e) (entry_price e) q r s).1 = Ok tt -> bounded n cfg s fl ->
  bounded n cfg (check_modify_admission id (account e) (entry_price e) q r s).2 (Resizing id q :: fl).
Proof.
  intros Hr Hlen He Hck [Hx Hc Ho Hn].
  pose proof (check_modify_only_warns id (account e) (entry_price e) q r s) as Hw.
  pose proof Hw as (Hc1 & _ & Ho1). simpl in Hlen.
  split; [by eapply exact_only_warns|by rewrite Hc1|..]; rewrite Ho1.
  - intros l b Hl. specialize (Ho l b Hl). unfold open_ahead, admits in *. by rewrite sumN_cons.
  - intros l Hl Hlt. destruct (Hn l Hl Hlt) as [H1 H2].
    pose proof (check_modify_notional _ _ _ _ _ _ _ Hx Hr Hc He Hl Hlt Hck) as Hv. split.
    { intros f [->|Hf]%elem_of_cons; [|by apply H1]. intros e' He'. simplify_eq. lia. }
    intros b. set (m := risk_orders s) in *. set (m2 := <[id := resized q e]> m).
    assert (E : notional_ahead b m (Resizing id q :: fl) = notional_ahead b m2 fl).
    { unfold notional_ahead, admits_notional. rewrite sumN_cons, N.add_0_l. f_equal. f_equal.
      change (inflated (Resizing id q :: fl) m) with (inflate (Resizing id q) (inflated fl m)).
      rewrite <- inflated_inflate. f_equal. simpl. by rewrite (alter_tracked _ _ _ _ He). }
    rewrite E. assert (Hw2 : each_within l m2 fl).
    { intros f Hf. specialize (H1 f Hf). destruct f as [|j n']; [done|].
      intros e' [[<- <-]|[_ He']]%lookup_insert_Some; [by apply (H1 e)|by apply H1]. }
    pose proof (notional_ahead_le b _ _ _ Hw2) as Hb2. specialize (H2 b).
    pose proof (acct_notional_update b m id e (resized q e) He eq_refl) as Hu. fold m2 in Hu. simpl in Hu.
    pose proof (mul_fits_delta _ _ _ _ He eq_refl) as Hfit.
    destruct (N.le_gt_cases q (remaining_qty e)) as [Hle|Hgt].
    + assert (resized q e = e) as Hsame by (destruct e; unfold resized; simpl in *; f_equal; lia).
      unfold m2. rewrite Hsame, insert_id by done. exact H2.
    + rewrite N.max_r in Hu by lia. case_decide as Hd; [subst b; nia|]. etransitivity; [|exact H2].
      rewrite <- E. unfold notional_ahead, admits_notional. rewrite sumN_cons, N.add_0_l.
      change (inflated (Resizing id q :: fl) m) with (inflate (Resizing id q) (inflated fl m)).
      rewrite inflate_other; [lia|]. intros x Hx'. destruct (below_all fl m id e He) as (e' & He' & Ha & _).
      simplify_eq. congruence.
Qed.

Lemma bounded_admit n cfg id a p submitted q s fl rest :
  representable (risk_orders s) -> representable (risk_orders (on_admission id a p q s)) ->
  fl ≡ₚ Admitting a p submitted :: rest -> q <= submitted ->
  risk_orders s !! id = None -> (forall n, Resizing id n ∉ fl) ->
  bounded n cfg s fl -> bounded n cfg (on_admission id a p q s) rest.
Proof.
  intros Hr Hr' Hp Hq Hid Hfree Hb.
  assert (Hfree' : forall k, Resizing id k ∉ rest) by (intros k Hk; apply (Hfree k); rewrite Hp; by right).
  apply (bounded_perm _ _ _ _ _ Hp) in Hb. pose proof Hb as [Hx Hc _ _].
  assert (Ho : risk_orders (on_admission id a p q s) =
    <[id := {| account := a; entry_price := p; remaining_qty := q |}]> (risk_orders s))
    by (unfold on_admission; by rewrite Hc).
  eapply bounded_less; [by apply on_admission_exact| | | |exact Hb].
  - unfold on_admission. by rewrite Hc.
  - intros b. rewrite Ho. by apply ahead_admit.
  - intros l Hw f Hf. rewrite Ho. specialize (Hw f ltac:(by right)). destruct f as [|j k]; [done|].
    intros e He. apply Hw. rewrite lookup_insert_ne in He; [done|]. intros ->. by apply (Hfree' k).
Qed.

Lemma bounded_resize n cfg id q s fl rest :
  representable (risk_orders s) -> representable (risk_orders (on_quantity_update id q s)) ->
  fl ≡ₚ Resizing id q :: rest -> bounded n cfg s fl -> bounded n cfg (on_quantity_update id q s) rest.
Proof.
  intros Hr Hr' Hp Hb. apply (bounded_perm _ _ _ _ _ Hp) in Hb. pose proof Hb as [Hx Hc _ _].
  destruct (on_quantity_orders id q s) as [Hc' Ho]; [congruence|].
  eapply bounded_less; [by apply on_quantity_update_exact|congruence| | |exact Hb].
  - intros b. rewrite Ho. apply ahead_resize.
  - intros l Hw f Hf. rewrite Ho. specialize (Hw f ltac:(by right)). destruct f as [|j k]; [done|].
    intros e. destruct (decide (j = id)) as [->|Hne]; [|rewrite lookup_alter_ne by done; apply Hw].
    rewrite lookup_alter_eq, fmap_Some. intros (x & Hx' & ->). by apply (Hw x).
Qed.

Lemma bounded_shrink n cfg s s' fl :
  exact s' -> config s' = config s -> below (risk_orders s') (risk_orders s) ->
  bounded n cfg s fl -> bounded n cfg s' fl.
Proof.
  intros Hx Hc Hs Hb. pose proof Hb as [_ Hc0 _ _].
  eapply bounded_less; [done|congruence|intros a; by apply ahead_below|intros l; by apply each_within_below|done].
Qed.

Lemma bounded_abandon n cfg s f fl rest : fl ≡ₚ f :: rest -> bounded n cfg s fl -> bounded n cfg s rest.
Proof.
  intros Hp Hb. apply (bounded_perm _ _ _ _ _ Hp) in Hb. pose proof Hb as [Hx Hc _ _].
  eapply bounded_less; [done|done|intros a; apply ahead_drop| |done].
  intros l Hw g Hg. apply Hw. by right.
Qed.

Lemma bounded_warns n cfg s s' fl : only_warns s s' -> bounded n cfg s fl -> bounded n cfg s' fl.
Proof.
  intros Hw Hb. pose proof Hb as [Hx _ _ _]. pose proof Hw as (Hc & _ & Ho).
  eapply bounded_shrink; [by eapply exact_only_warns|done|by rewrite Ho|done].
Qed.

Lemma gated_step_bounded n cfg x y :
  gated_step x y -> representable (risk_orders x.1) -> representable (risk_orders y.1) ->
  (length y.2 <= n)%nat -> bounded n cfg x.1 x.2 -> bounded n cfg y.1 y.2.
Proof.
  destruct 1; simpl; intros Hr Hr' Hlen Hb; pose proof Hb as [Hx Hc _ _].
  - by apply bounded_check.
  - by eapply bounded_admit.
  - by apply bounded_check_resize.
  - by eapply bounded_resize.
  - eapply bounded_warns; [apply check_modify_only_warns|done].
  - eapply bounded_warns; [apply check_limit_only_warns|done].
  - by eapply bounded_abandon.
  - destruct (on_fill_below id q p s) as [Hc' Hs]; [done|]. eapply bounded_shrink; eauto. by apply on_fill_exact.
  - eapply bounded_shrink; [by apply on_cancel_exact|by rewrite on_cancel_config| |done].
    rewrite on_cancel_orders by congruence. apply below_delete.
Qed.

Lemma representable_empty : representable ∅.
Proof. intros a. unfold acct_open, acct_notional. rewrite !map_sum_empty. split; lia. Qed.

Lemma gated_run_bounded n cfg x :
  gated_run n (set_config cfg risk_state_new) x ->
  representable (risk_orders x.1) /\ bounded n cfg x.1 x.2.
Proof.
  induction 1 as [|x y _ [Hr Hb] Hstep Hr' Hlen]; [|split; [done|by eapply gated_step_bounded]].
  split; [apply representable_empty|]. split; [by apply exact_empty|done|..].
  - intros l a _. unfold open_ahead, acct_open, admits. simpl. rewrite map_sum_empty, sumN_nil. lia.
  - intros l _ _. split; [intros f Hf%elem_of_nil; done|]. intros a.
    unfold notional_ahead, acct_notional, admits_notional. simpl. rewrite map_sum_empty, sumN_nil. lia.
Qed.

(** C28.  The per-account limits hold up to the calls that race.  Start from
    an empty risk layer with limits set, and run submissions, in-place
    re-sizes (up and down), fills and cancels, where a submission or re-size
    may be overtaken by other calls between its check and the moment its
    order is registered or re-sized, and may be given up after the check.
    When never more than [n] calls are between check and effect, every account
    stays within its open-order limit plus [n - 1] and within [n] times its
    notional limit; calls that do not race ([n = 1]) never exceed either
    limit.  What is assumed: the configuration is not changed during the run,
    an admitted id is neither in use nor the target of a re-size in flight,
    a submission rests no more than was checked, re-sizes are of orders the
    risk layer tracks, fills do not exceed what rests, and the exact totals
    fit their machine types. *)
Theorem limits_hold_up_to_races n cfg s fl a :
  (1 <= n)%nat -> gated_run n (set_config cfg risk_state_new) (s, fl) ->
  (forall l, max_open_orders_per_account cfg = Some l ->
     acct_open a (risk_orders s) <= l + N.of_nat (n - 1)) /\
  (forall l, max_notional_per_account cfg = Some l ->
     acct_notional a (risk_orders s) <= N.of_nat n * l).
Proof.
  intros Hn [Hr [_ _ Ho Hm]]%gated_run_bounded. simpl in *. split; intros l Hl.
  - specialize (Ho l a Hl). unfold open_ahead in Ho. lia.
  - destruct (N.lt_ge_cases l U128_MAX) as [Hlt|Hge].
    + destruct (Hm l Hl Hlt) as [_ Hb]. specialize (Hb a). unfold notional_ahead in Hb.
      destruct (below_sums _ _ a (below_all fl (risk_orders s))). lia.
    + destruct (Hr a). nia.
Qed.

(** ** Sample runs *)

Ltac small_orders :=
  intros b; unfold on_admission, on_quantity_update; simpl;
  rewrite ?acct_open_insert, ?acct_notional_insert by done; simpl;
  unfold acct_open, acct_notional; rewrite ?map_sum_empty; repeat case_decide; by vm_compute.

(** Two submissions of account 7 race with an open-order limit of 1. *)
Definition one_order : RiskState :=
  set_config (with_max_open_orders_per_account risk_config_new 1) risk_state_new.
Definition racing : RiskState := on_admission 2 7 100 10 (on_admission 1 7 100 10 one_order).

Lemma racing_run : gated_run 2 one_order (racing, []).
Proof.
  apply (gated_run_step _ _ (on_admission 1 7 100 10 one_order, [Admitting 7 100 10])); [|..|simpl; lia].
  2: apply (gated_admit 2 7 100 10 10); [done|lia|done|by intros ? [=]%list_elem_of_singleton].
  2: small_orders.
  apply (gated_run_step _ _ (one_order, [Admitting 7 100 10; Admitting 7 100 10])); [|..|simpl; lia].
  2: apply (gated_admit 1 7 100 10 10); [done|lia|done|].
  2: { by intros ? [[=]|[=]%list_elem_of_singleton]%elem_of_cons. }
  2: small_orders.
  apply (gated_run_step _ _ (one_order, [Admitting 7 100 10])); [|..|simpl; lia].
  2: by apply (gated_check 7 100 10 None one_order [Admitting 7 100 10]).
  2: apply representable_empty.
  apply (gated_run_step _ _ (one_order, [])); [constructor|..|simpl; lia].
  - by apply (gated_check 7 100 10 None one_order []).
  - apply representable_empty.
Qed.

(** The bound is reached: two racing submissions that both pass the check of
    an open-order limit of 1 leave two orders open, one more than the limit
    and as many as the bound for two calls allows. *)
Theorem racing_admissions_exceed :
  (check_limit_admission 7 100 10 None one_order).1 = Ok tt /\
  gated_run 2 one_order (racing, []) /\ acct_open 7 (risk_orders racing) = 2.
Proof. split_and!; [by vm_compute|apply racing_run|by vm_compute]. Qed.

(** The limits of two racing submissions. *)
Lemma limits_hold_up_to_races_witness : acct_open 7 (risk_orders racing) <= 1 + N.of_nat (2 - 1).
Proof.
  apply (limits_hold_up_to_races 2 (with_max_open_orders_per_account risk_config_new 1) racing [] 7);
    [lia|apply racing_run|done].
Defined.
