(* ===== verification/OrderState.v ===== *)
(** * Order lifecycle tracking (order_state.rs)

    The current status and the timestamped history of every order, with a
    bounded number of retained terminal entries.  The calls of the installed
    listener are recorded in [notified], oldest first. *)

From S2P Require Import Prelude Types Clock.

Definition is_terminal (st : OrderStatus) : bool :=
  match st with Filled _ | Cancelled _ _ | Rejected _ => true | _ => false end.

Definition is_active (st : OrderStatus) : bool :=
  match st with Open | PartiallyFilled _ _ => true | _ => false end.

Definition filled_quantity (st : OrderStatus) : N :=
  match st with
  | Open => 0
  | PartiallyFilled _ filled => filled
  | Filled filled => filled
  | Cancelled filled _ => filled
  | Rejected _ => 0
  end.

Record OrderStateTracker := {
  states : gmap Id OrderStatus;
  history : gmap Id (list (N * OrderStatus));
  terminal_queue : list Id;
  retention_capacity : nat;
  has_listener : bool;
  tracker_clock : Clock;
  notified : list (Id * OrderStatus * OrderStatus);
}.

Definition DEFAULT_RETENTION_CAPACITY : nat := N.to_nat 10000.

Definition with_capacity_and_clock (cap : nat) (c : Clock) : OrderStateTracker :=
  {| states := ∅; history := ∅; terminal_queue := []; retention_capacity := cap;
     has_listener := false; tracker_clock := c; notified := [] |}.
Definition with_clock (c : Clock) : OrderStateTracker :=
  with_capacity_and_clock DEFAULT_RETENTION_CAPACITY c.
Definition with_capacity (cap : nat) : OrderStateTracker :=
  with_capacity_and_clock cap (MonotonicClock 0).

Definition set_listener (t : OrderStateTracker) : OrderStateTracker :=
  {| states := states t; history := history t; terminal_queue := terminal_queue t;
     retention_capacity := retention_capacity t; has_listener := true;
     tracker_clock := tracker_clock t; notified := notified t |}.

Definition get (t : OrderStateTracker) (order_id : Id) : option OrderStatus := states t !! order_id.
Definition get_history (t : OrderStateTracker) (order_id : Id) : option (list (N * OrderStatus)) :=
  history t !! order_id.
Definition tracker_len (t : OrderStateTracker) : nat := size (states t).
Definition tracker_is_empty (t : OrderStateTracker) : bool := bool_decide (states t = ∅).

(** [states.iter().filter(..).count()] *)
Definition count_states (f : OrderStatus -> bool) (t : OrderStateTracker) : nat :=
  length (filter (fun kv => f kv.2 = true) (map_to_list (states t))).
Definition active_count : OrderStateTracker -> nat := count_states is_active.
Definition terminal_count : OrderStateTracker -> nat := count_states is_terminal.

(** Remove the state and the history of one order. *)
Definition forget (order_id : Id) (t : OrderStateTracker) : OrderStateTracker :=
  {| states := delete order_id (states t); history := delete order_id (history t);
     terminal_queue := terminal_queue t; retention_capacity := retention_capacity t;
     has_listener := has_listener t; tracker_clock := tracker_clock t; notified := notified t |}.

Definition set_queue (q : list Id) (t : OrderStateTracker) : OrderStateTracker :=
  {| states := states t; history := history t; terminal_queue := q;
     retention_capacity := retention_capacity t; has_listener := has_listener t;
     tracker_clock := tracker_clock t; notified := notified t |}.

(** The [while queue.len() > retention_capacity] loop of [enqueue_terminal]. *)
Fixpoint evict_loop (q : list Id) (t : OrderStateTracker) : OrderStateTracker :=
  match q with
  | [] => set_queue [] t
  | evicted_id :: q' =>
      if decide (retention_capacity t < length q) then
        evict_loop q'
          (match states t !! evicted_id with
           | Some st => if is_terminal st then forget evicted_id t else t
           | None => t
           end)
      else set_queue q t
  end.

Definition enqueue_terminal (order_id : Id) (t : OrderStateTracker) : OrderStateTracker :=
  evict_loop (terminal_queue t ++ [order_id]) t.

Section Tracker.
Context `{WallClock}.

Definition transition (order_id : Id) (new_status : OrderStatus) (t : OrderStateTracker) :
    OrderStateTracker :=
  let old_status := states t !! order_id in
  let '(ts, clock') := now_millis (tracker_clock t) in
  let t1 :=
    {| states := <[order_id := new_status]> (states t);
       history := <[order_id := default [] (history t !! order_id) ++ [(ts, new_status)]]> (history t);
       terminal_queue := terminal_queue t; retention_capacity := retention_capacity t;
       has_listener := has_listener t; tracker_clock := clock';
       notified := if has_listener t
                   then notified t ++ [(order_id, default new_status old_status, new_status)]
                   else notified t |} in
  if is_terminal new_status then enqueue_terminal order_id t1 else t1.

(** The ids [purge_terminal_older_than] collects. *)
Definition purgeable (t : OrderStateTracker) (cutoff : N) (id : Id) (st : OrderStatus) : bool :=
  is_terminal st &&
  match history t !! id with
  | Some h => match last h with Some (ts, _) => (ts <=? cutoff)%N | None => false end
  | None => false
  end.

(** [older_than] is the duration's [as_millis()]. *)
Definition purge_terminal_older_than (older_than : N) (t : OrderStateTracker) :
    nat * OrderStateTracker :=
  let '(now_ms, clock') := now_millis (tracker_clock t) in
  let cutoff := sat_sub now_ms (N.min older_than U64_MAX) in
  let to_remove :=
    omap (fun kv : Id * OrderStatus => if purgeable t cutoff kv.1 kv.2 then Some kv.1 else None)
         (map_to_list (states t)) in
  let t1 :=
    {| states := states t; history := history t; terminal_queue := terminal_queue t;
       retention_capacity := retention_capacity t; has_listener := has_listener t;
       tracker_clock := clock'; notified := notified t |} in
  (length to_remove, foldl (fun t id => forget id t) t1 to_remove).

Definition tracker_clear (t : OrderStateTracker) : OrderStateTracker :=
  {| states := ∅; history := ∅; terminal_queue := [];
     retention_capacity := retention_capacity t; has_listener := has_listener t;
     tracker_clock := tracker_clock t; notified := notified t |}.

(** ** Invariant *)

Record tracker_wf (t : OrderStateTracker) : Prop := {
  wf_history : forall id, states t !! id = h ← history t !! id; snd <$> last h;
  wf_domain : forall id, history t !! id <> Some [];
  wf_queued : forall id st, states t !! id = Some st -> is_terminal st = true -> id ∈ terminal_queue t;
  wf_capacity : length (terminal_queue t) <= retention_capacity t;
}.

Lemma tracker_wf_empty cap c : tracker_wf (with_capacity_and_clock cap c).
Proof. split; simpl; intros *; rewrite ?lookup_empty; try done; lia. Qed.

(** The invariant in the middle of the eviction loop, whose local queue is [q]. *)
Record evict_inv (q : list Id) (t : OrderStateTracker) : Prop := {
  ei_history : forall id, states t !! id = h ← history t !! id; snd <$> last h;
  ei_domain : forall id, history t !! id <> Some [];
  ei_queued : forall id st, states t !! id = Some st -> is_terminal st = true -> id ∈ q;
}.

Lemma evict_inv_forget q id t :
  evict_inv (id :: q) t -> evict_inv q (forget id t).
Proof.
  intros [Hh Hd Hq]. split; simpl.
  - intros i. destruct (decide (i = id)) as [->|Hi].
    + by rewrite !lookup_delete_eq.
    + rewrite !lookup_delete_ne by done. apply Hh.
  - intros i. rewrite lookup_delete_Some. intros [_ E]. by apply (Hd i).
  - intros i st. rewrite lookup_delete_Some. intros [Hne Hi] Hst.
    apply (Hq i st Hi) in Hst. by apply elem_of_cons in Hst as [->|?].
Qed.

Lemma evict_inv_skip q id t :
  evict_inv (id :: q) t ->
  (forall st, states t !! id = Some st -> is_terminal st = false) -> evict_inv q t.
Proof.
  intros [Hh Hd Hq] Hid. split; [done|done|]. intros i st Hi Hst.
  pose proof (Hq i st Hi Hst) as [->|?]%elem_of_cons; [|done].
  rewrite (Hid st Hi) in Hst. done.
Qed.

Lemma evict_loop_wf q t : evict_inv q t -> tracker_wf (evict_loop q t).
Proof.
  revert t. induction q as [|id q IH]; intros t Hinv; cbn [evict_loop].
  - destruct Hinv as [Hh Hd Hq]. split; simpl; auto; lia.
  - case_decide as Hlen.
    + apply IH. destruct (states t !! id) as [st|] eqn:E; [destruct (is_terminal st) eqn:Et|].
      * by apply evict_inv_forget.
      * eapply evict_inv_skip; [done|]. intros st' Hst. congruence.
      * eapply evict_inv_skip; [done|]. congruence.
    + destruct Hinv as [Hh Hd Hq]. split; simpl in *; auto; lia.
Qed.

Lemma transition_wf id st t : tracker_wf t -> tracker_wf (transition id st t).
Proof.
  intros [Hh Hd Hq Hc]. unfold transition. destruct (now_millis _) as [ts c'].
  set (t1 := {| states := _ |}).
  assert (H1 : (forall i, states t1 !! i = h ← history t1 !! i; snd <$> last h) /\
               (forall i, history t1 !! i <> Some [])).
  { split; intros i; simpl; destruct (decide (i = id)) as [->|Hi];
      rewrite ?lookup_insert_eq, ?lookup_insert_ne by done; auto.
    - simpl. by rewrite last_snoc.
    - intros [= E]. by destruct (default [] (history t !! id)). }
  destruct H1 as [H1 H2]. destruct (is_terminal st) eqn:Est.
  - apply evict_loop_wf. split; [done|done|]. intros i st'. simpl.
    destruct (decide (i = id)) as [->|Hi]; [set_solver|].
    rewrite lookup_insert_ne by done. intros Hi' Hst'. apply elem_of_app. left. eauto.
  - split; [done|done| |done]. intros i st'. simpl. destruct (decide (i = id)) as [->|Hi].
    + rewrite lookup_insert_eq. congruence.
    + rewrite lookup_insert_ne by done. eauto.
Qed.

Lemma forget_wf id t : tracker_wf t -> tracker_wf (forget id t).
Proof.
  intros [Hh Hd Hq Hc]. split; simpl; [| |intros i st [_ Hi]%lookup_delete_Some; eauto|done].
  - intros i. destruct (decide (i = id)) as [->|Hi];
      rewrite ?lookup_delete_eq, ?lookup_delete_ne by done; auto.
  - intros i [_ E]%lookup_delete_Some. by apply (Hd i).
Qed.

Lemma forget_all_wf ids t : tracker_wf t -> tracker_wf (foldl (fun t id => forget id t) t ids).
Proof. revert t. induction ids; simpl; auto using forget_wf. Qed.

Lemma purge_wf d t : tracker_wf t -> tracker_wf (purge_terminal_older_than d t).2.
Proof.
  intros Hwf. unfold purge_terminal_older_than. destruct (now_millis _) as [now c'].
  apply forget_all_wf. by destruct Hwf.
Qed.

(** ** Runs *)

Inductive tracker_op :=
| OpTransition (id : Id) (st : OrderStatus)
| OpPurge (older_than : N)
| OpClear.

Definition tracker_apply (t : OrderStateTracker) (op : tracker_op) : OrderStateTracker :=
  match op with
  | OpTransition id st => transition id st t
  | OpPurge d => (purge_terminal_older_than d t).2
  | OpClear => tracker_clear t
  end.

Lemma evict_loop_capacity q t : retention_capacity (evict_loop q t) = retention_capacity t.
Proof.
  revert t. induction q as [|id q IH]; intros t; cbn [evict_loop]; [done|].
  case_decide; [|done]. rewrite IH. by repeat case_match.
Qed.

Lemma forget_all_capacity ids t :
  retention_capacity (foldl (fun t id => forget id t) t ids) = retention_capacity t.
Proof. revert t. induction ids as [|id ids IH]; intros t; simpl; [done|]. by rewrite IH. Qed.

Lemma tracker_apply_capacity t op : retention_capacity (tracker_apply t op) = retention_capacity t.
Proof.
  destruct op as [id st|d|]; simpl; [| |done].
  - unfold transition. destruct (now_millis _). case_match; [unfold enqueue_terminal; by rewrite evict_loop_capacity|done].
  - unfold purge_terminal_older_than. destruct (now_millis _). simpl. by rewrite forget_all_capacity.
Qed.

Lemma tracker_apply_wf t op : tracker_wf t -> tracker_wf (tracker_apply t op).
Proof.
  intros Hwf. destruct op; simpl; [by apply transition_wf|by apply purge_wf|].
  split; simpl; intros *; rewrite ?lookup_empty; try done; lia.
Qed.

Lemma terminal_count_queue t : tracker_wf t -> terminal_count t <= length (terminal_queue t).
Proof.
  intros [_ _ Hq _]. unfold terminal_count, count_states.
  rewrite <- (length_fmap fst). apply submseteq_length, NoDup_submseteq.
  - eapply sublist_NoDup; [apply (NoDup_fst_map_to_list (states t))|].
    apply fmap_sublist, sublist_filter.
  - intros id ((i & st) & -> & [Hst Hin]%list_elem_of_filter)%list_elem_of_fmap.
    apply elem_of_map_to_list in Hin. simpl in *. eauto.
Qed.

Definition tracker_run : list tracker_op -> OrderStateTracker -> OrderStateTracker :=
  fun ops t => foldl tracker_apply t ops.

Lemma tracker_run_wf ops t :
  tracker_wf t ->
  tracker_wf (tracker_run ops t) /\ retention_capacity (tracker_run ops t) = retention_capacity t.
Proof.
  unfold tracker_run. revert t. induction ops as [|op ops IH]; intros t Hwf; simpl; [done|].
  destruct (IH (tracker_apply t op)) as [H1 H2]; [by apply tracker_apply_wf|].
  by rewrite H2, tracker_apply_capacity.
Qed.

(** C31.  Bounded retention.  After any sequence of transitions, purges and
    clears, a tracker built with capacity [cap] retains at most [cap] orders
    in a terminal state, and the status it reports for an order is the last
    entry of the history it reports. *)
Theorem tracker_bounded cap c ops :
  let t := tracker_run ops (with_capacity_and_clock cap c) in
  terminal_count t <= cap /\ forall id, get t id = h ← get_history t id; snd <$> last h.
Proof.
  intros t. destruct (tracker_run_wf ops _ (tracker_wf_empty cap c)) as [Hwf Hcap].
  fold t in Hwf, Hcap. simpl in Hcap. split; [|apply (wf_history _ Hwf)].
  pose proof (terminal_count_queue t Hwf). pose proof (wf_capacity t Hwf). lia.
Qed.

Definition touches (id : Id) (op : tracker_op) : bool :=
  match op with OpTransition i _ => bool_decide (i = id) | OpPurge _ => false | OpClear => true end.

Lemma forget_get id i t : states (forget i t) !! id = if decide (i = id) then None else states t !! id.
Proof. simpl. case_decide; subst; [by rewrite lookup_delete_eq|by rewrite lookup_delete_ne]. Qed.

Lemma evict_loop_active q t id st :
  states t !! id = Some st -> is_active st = true ->
  states (evict_loop q t) !! id = Some st.
Proof.
  revert t. induction q as [|i q IH]; intros t Hid Hact; cbn [evict_loop]; [done|].
  case_decide; [|done]. apply IH; [|done].
  destruct (states t !! i) as [st'|] eqn:Ei; [|done]. destruct (is_terminal st') eqn:Et; [|done].
  rewrite forget_get. case_decide as Hi; [|done]. subst i.
  rewrite Ei in Hid. simplify_eq. by destruct st.
Qed.

Lemma forget_all_get ids id t :
  states (foldl (fun t id => forget id t) t ids) !! id =
    if decide (id ∈ ids) then None else states t !! id.
Proof.
  revert t. induction ids as [|i ids IH]; intros t; simpl; [done|].
  rewrite IH, forget_get. repeat case_decide; set_solver.
Qed.

Definition purge_ids (t : OrderStateTracker) (cutoff : N) : list Id :=
  omap (fun kv : Id * OrderStatus => if purgeable t cutoff kv.1 kv.2 then Some kv.1 else None)
       (map_to_list (states t)).

Lemma elem_of_purge_ids t cutoff id :
  id ∈ purge_ids t cutoff <-> exists st, states t !! id = Some st /\ purgeable t cutoff id st = true.
Proof.
  unfold purge_ids. rewrite list_elem_of_omap. split.
  - intros ([i st] & Hin%elem_of_map_to_list & Hp). simpl in Hp.
    destruct (purgeable t cutoff i st) eqn:E; simplify_eq. eauto.
  - intros (st & Hst & Hp). exists (id, st). rewrite elem_of_map_to_list. simpl. by rewrite Hp.
Qed.

Lemma tracker_apply_active t op id st :
  touches id op = false -> get t id = Some st -> is_active st = true ->
  get (tracker_apply t op) id = Some st.
Proof.
  unfold get. destruct op as [i st'|d|]; simpl; intros Ht Hid Hact; [| |done].
  - case_bool_decide; [done|]. unfold transition. destruct (now_millis _).
    destruct (is_terminal st').
    + apply evict_loop_active; [|done]. simpl. by rewrite lookup_insert_ne.
    + simpl. by rewrite lookup_insert_ne.
  - unfold purge_terminal_older_than. destruct (now_millis _) as [now c'].
    change (omap _ _) with (purge_ids t (sat_sub now (N.min d U64_MAX))).
    simpl. rewrite forget_all_get. case_decide as Hin; [|done].
    apply elem_of_purge_ids in Hin as (st' & Hst' & Hp). exfalso.
    rewrite Hid in Hst'. simplify_eq. by destruct st'.
Qed.

(** An order in an active state is never evicted: whatever else the
    tracker records, evicts or purges, its status stays until a transition of
    its own (or a [clear]). *)
Theorem active_never_evicted t ops id st :
  Forall (fun op => touches id op = false) ops ->
  get t id = Some st -> is_active st = true ->
  get (tracker_run ops t) id = Some st.
Proof.
  unfold tracker_run. intros Hops. revert t.
  induction Hops as [|op ops Hop _ IH]; intros t Hid Hact; simpl; [done|].
  apply IH; [|done]. by apply tracker_apply_active.
Qed.

(** [purge_terminal_older_than] removes exactly the terminal orders whose
    last transition is at or before [now - older_than], keeps every other
    status, and returns the number of orders it removed. *)
Theorem purge_exact d t :
  let now := (now_millis (tracker_clock t)).1 in
  let cutoff := sat_sub now (N.min d U64_MAX) in
  let '(n, t') := purge_terminal_older_than d t in
  (forall id, get t' id =
     st ← get t id; if purgeable t cutoff id st then None else Some st) /\
  n = length (filter (fun kv : Id * OrderStatus => purgeable t cutoff kv.1 kv.2 = true)
                (map_to_list (states t))).
Proof.
  unfold purge_terminal_older_than. destruct (now_millis _) as [now c']. simpl.
  set (cutoff := sat_sub now (N.min d U64_MAX)). split.
  - intros id. unfold get. change (omap _ _) with (purge_ids t cutoff).
    rewrite forget_all_get. simpl. destruct (states t !! id) as [st|] eqn:Est; simpl.
    + pose proof (elem_of_purge_ids t cutoff id) as Hin. rewrite Est in Hin.
      case_decide as Hd; destruct (purgeable t cutoff id st) eqn:Ep; try done.
      * apply Hin in Hd as (st' & [= <-] & ?). congruence.
      * destruct Hd. apply Hin. eauto.
    + by case_decide.
  - induction (map_to_list (states t)) as [|kv l IH]; simpl; [done|].
    rewrite filter_cons. destruct (purgeable t cutoff kv.1 kv.2) eqn:E.
    + rewrite decide_True by done. simpl. f_equal. exact IH.
    + rewrite decide_False by done. exact IH.
Qed.
End Tracker.

(** ** Witness *)

Definition sample_tracker : OrderStateTracker :=
  @transition sample_wall 1%N Open (with_capacity_and_clock 1 stub_new).

Lemma active_never_evicted_witness :
  get (@tracker_run sample_wall
         [OpTransition 2%N (Filled 5); OpTransition 3%N (Rejected RejInvalidPrice); OpPurge 0]
         sample_tracker) 1%N = Some Open.
Proof.
  apply (@active_never_evicted sample_wall sample_tracker _ 1%N Open);
    [by repeat constructor|by vm_compute|done].
Defined.
