(* ===== verification/Reject.v ===== *)
(** * Reject codes (reject_reason.rs)

    The stable 16-bit codes of the reject taxonomy and the mapping of the
    engine's typed errors to them. *)

From S2P Require Import Prelude Types.
Local Open Scope N_scope.

Definition as_u16 (r : RejectReason) : N :=
  match r with
  | RejKillSwitchActive => 1
  | RejRiskMaxOpenOrders => 2
  | RejRiskMaxNotional => 3
  | RejRiskPriceBand => 4
  | RejPostOnlyWouldCross => 5
  | RejSelfTradePrevention => 6
  | RejInvalidPrice => 7
  | RejInvalidQuantity => 8
  | RejInvalidPriceLevel => 9
  | RejOrderSizeOutOfRange => 10
  | RejMissingUserId => 11
  | RejDuplicateOrderId => 12
  | RejInsufficientLiquidity => 13
  | RejOther code => code
  end.

Definition from_u16 (code : N) : RejectReason :=
  match code with
  | 1 => RejKillSwitchActive
  | 2 => RejRiskMaxOpenOrders
  | 3 => RejRiskMaxNotional
  | 4 => RejRiskPriceBand
  | 5 => RejPostOnlyWouldCross
  | 6 => RejSelfTradePrevention
  | 7 => RejInvalidPrice
  | 8 => RejInvalidQuantity
  | 9 => RejInvalidPriceLevel
  | 10 => RejOrderSizeOutOfRange
  | 11 => RejMissingUserId
  | 12 => RejDuplicateOrderId
  | 13 => RejInsufficientLiquidity
  | other => RejOther other
  end.

(** [RejectReason::from(&OrderBookError)] *)
Definition reject_reason_from (err : OrderBookError) : RejectReason :=
  match err with
  | KillSwitchActive => RejKillSwitchActive
  | RiskMaxOpenOrders _ _ _ => RejRiskMaxOpenOrders
  | RiskMaxNotional _ _ _ _ => RejRiskMaxNotional
  | RiskPriceBand _ _ _ _ => RejRiskPriceBand
  | SelfTradePrevented _ _ _ => RejSelfTradePrevention
  | InvalidPriceLevel _ => RejInvalidPriceLevel
  | PriceCrossing _ _ _ => RejPostOnlyWouldCross
  | InsufficientLiquidity _ _ _ => RejInsufficientLiquidity
  | InsufficientLiquidityNotional _ _ _ => RejInsufficientLiquidity
  | InvalidTickSize _ _ => RejInvalidPrice
  | InvalidLotSize _ _ => RejInvalidQuantity
  | QuantityOverflow _ _ => RejInvalidQuantity
  | OrderSizeOutOfRange _ _ _ => RejOrderSizeOutOfRange
  | DuplicateOrderId _ => RejDuplicateOrderId
  | MissingUserId _ => RejMissingUserId
  | EPriceLevelError _ => RejOther 0
  | OrderNotFound _ => RejOther 0
  | InvalidOperation _ => RejOther 0
  | SerializationError _ => RejOther 0
  | DeserializationError _ => RejOther 0
  | ChecksumMismatch _ _ => RejOther 0
  | NatsPublishError _ => RejOther 0
  | NatsSerializationError _ => RejOther 0
  end.

(** An [Other] whose code is a named one's is the only value the codes do not
    determine. *)
Definition shadowed (r : RejectReason) : bool :=
  match r with RejOther code => (1 <=? code) && (code <=? 13) | _ => false end.

(** Case analysis on a wire code: one of the thirteen, or something else. *)
Lemma from_u16_cases c : from_u16 c = RejOther c /\ (c = 0 \/ 13 < c) \/ 1 <= c <= 13.
Proof.
  destruct (decide (1 <= c <= 13)) as [|Hc]; [by right|]. left. split; [|lia].
  destruct c as [|p]; [done|].
  do 4 (destruct p as [p|p|]; try done; try (exfalso; lia)).
Qed.

Lemma small_codes c : 1 <= c <= 13 -> c ∈ [1; 2; 3; 4; 5; 6; 7; 8; 9; 10; 11; 12; 13].
Proof. intros Hc. rewrite !elem_of_cons. lia. Qed.

(** Wire codes round-trip.  Every 16-bit code survives decoding and
    encoding unchanged, unknown ones included; every reason survives encoding
    and decoding, except an [Other] that reuses the code of a named reason;
    and no engine error is ever mapped to such an [Other]. *)
Theorem reject_codes_roundtrip c r err :
  as_u16 (from_u16 c) = c /\
  (from_u16 (as_u16 r) = r <-> shadowed r = false) /\
  from_u16 (as_u16 (reject_reason_from err)) = reject_reason_from err.
Proof.
  assert (Hr : forall r, from_u16 (as_u16 r) = r <-> shadowed r = false).
  { intros []; try done. simpl.
    destruct (from_u16_cases code) as [[-> Hc]|Hc].
    - split; [|done]. intros _. apply andb_false_iff. rewrite !N.leb_gt. lia.
    - rewrite (proj2 (andb_true_iff _ _)) by (rewrite !N.leb_le; lia). split; [|done].
      apply small_codes in Hc. rewrite !elem_of_cons, elem_of_nil in Hc.
      repeat (destruct Hc as [->|Hc]; [done|]). done. }
  split_and!; [|apply Hr|apply Hr; by destruct err].
  destruct (from_u16_cases c) as [[-> _]|Hc]; [done|].
  apply small_codes in Hc. rewrite !elem_of_cons, elem_of_nil in Hc.
  repeat (destruct Hc as [->|Hc]; [done|]). done.
Qed.
