(* ===== verification/Display.v ===== *)
(** * Printed forms (the Display instances) and metrics (metrics.rs)

    The texts by which operators read the engine: reasons, statuses and
    modes as log lines and metric labels.  A text that two values shared
    would merge two counters or blur a log; none does.  The recorder of the
    metrics crate is represented by the calls it receives; where the engine
    calls the helpers is not modelled. *)

From S2P Require Import Prelude Types.
From Stdlib Require Import Ascii.
From stdpp Require Import strings pretty.
Local Open Scope N_scope.
Local Open Scope string_scope.

Definition RejectReason_display (r : RejectReason) : string :=
  match r with
  | RejKillSwitchActive => "kill switch active"
  | RejRiskMaxOpenOrders => "risk: max open orders"
  | RejRiskMaxNotional => "risk: max notional"
  | RejRiskPriceBand => "risk: price band"
  | RejPostOnlyWouldCross => "post-only would cross"
  | RejSelfTradePrevention => "self-trade prevention"
  | RejInvalidPrice => "invalid price"
  | RejInvalidQuantity => "invalid quantity"
  | RejInvalidPriceLevel => "invalid price level"
  | RejOrderSizeOutOfRange => "order size out of range"
  | RejMissingUserId => "missing user id"
  | RejDuplicateOrderId => "duplicate order id"
  | RejInsufficientLiquidity => "insufficient liquidity"
  | RejOther code => "other(" +:+ pretty code +:+ ")"
  end.

Definition CancelReason_display (r : CancelReason) : string :=
  match r with
  | UserRequested => "user requested"
  | SelfTradePrevention => "self-trade prevention"
  | TimeInForceExpired => "time-in-force expired"
  | MassCancelAll => "mass cancel all"
  | MassCancelBySide => "mass cancel by side"
  | MassCancelByUser => "mass cancel by user"
  | MassCancelByPriceRange => "mass cancel by price range"
  | InsufficientLiquidityCancel => "insufficient liquidity"
  end.

Definition STPMode_display (m : STPMode) : string :=
  match m with
  | STPNone => "None"
  | CancelTaker => "CancelTaker"
  | CancelMaker => "CancelMaker"
  | CancelBoth => "CancelBoth"
  end.

Definition OrderStatus_display (s : OrderStatus) : string :=
  match s with
  | Open => "Open"
  | PartiallyFilled original_quantity filled_quantity =>
      "PartiallyFilled(" +:+ pretty filled_quantity +:+ "/" +:+ pretty original_quantity +:+ ")"
  | Filled filled_quantity => "Filled(" +:+ pretty filled_quantity +:+ ")"
  | Cancelled filled_quantity reason =>
      "Cancelled(" +:+ CancelReason_display reason +:+ ", filled=" +:+ pretty filled_quantity +:+ ")"
  | Rejected reason => "Rejected(" +:+ RejectReason_display reason +:+ ")"
  end.

(** ** Metrics *)

Inductive MetricCall :=
| CounterIncrement (name : string) (label : option (string * string)) (n : N)
| GaugeSet (name : string) (levels : N).

Definition REJECTS_TOTAL : string := "orderbook_rejects_total".
Definition DEPTH_LEVELS_BID : string := "orderbook_depth_levels_bid".
Definition DEPTH_LEVELS_ASK : string := "orderbook_depth_levels_ask".
Definition TRADES_TOTAL : string := "orderbook_trades_total".

(** With the [metrics] feature; without it the helpers do nothing. *)
Definition record_reject (reason : RejectReason) (log : list MetricCall) : list MetricCall :=
  log ++ [CounterIncrement REJECTS_TOTAL (Some ("reason", RejectReason_display reason)) 1].
Definition record_depth (bid_levels ask_levels : N) (log : list MetricCall) : list MetricCall :=
  log ++ [GaugeSet DEPTH_LEVELS_BID bid_levels; GaugeSet DEPTH_LEVELS_ASK ask_levels].
Definition record_trades (n : N) (log : list MetricCall) : list MetricCall :=
  if (n =? 0)%N then log else log ++ [CounterIncrement TRADES_TOTAL None n].

(** What the recorder's counter of a name and label stands at. *)
Definition counter_value (name : string) (label : option (string * string)) (log : list MetricCall) : N :=
  sumN (fun c => match c with
                 | CounterIncrement n l k => if decide (n = name /\ l = label) then k else 0
                 | GaugeSet _ _ => 0
                 end) log.

(** ** Texts that end in a number *)

Lemma string_app_cons c (s t : string) : String c s +:+ t = String c (s +:+ t).
Proof. done. Qed.
Lemma string_app_nil (t : string) : EmptyString +:+ t = t.
Proof. done. Qed.
Lemma string_app_assoc (s t u : string) : (s +:+ t) +:+ u = s +:+ (t +:+ u).
Proof. induction s as [|c s IH]; [done|]. rewrite !string_app_cons. by rewrite IH. Qed.

(** Neither text holds the separator: the texts before it agree. *)
Fixpoint lacks (c : Ascii.ascii) (s : string) : bool :=
  match s with EmptyString => true | String d s => negb (bool_decide (c = d)) && lacks c s end.

Lemma lacks_app c s t : lacks c (s +:+ t) = lacks c s && lacks c t.
Proof. induction s as [|d s IH]; [done|]. rewrite string_app_cons. simpl. by rewrite IH, andb_assoc. Qed.

Lemma split_at c s s' t t' : lacks c s = true -> lacks c s' = true ->
  s +:+ String c t = s' +:+ String c t' -> s = s' /\ t = t'.
Proof.
  revert s'. induction s as [|d s IH]; intros [|d' s']; rewrite ?string_app_cons, ?string_app_nil; simpl; intros H1 H2 E.
  - injection E as ->. done.
  - injection E as <- _. by rewrite bool_decide_true in H2.
  - injection E as -> _. by rewrite bool_decide_true in H1.
  - injection E as -> E. apply andb_true_iff in H1 as [_ H1], H2 as [_ H2].
    destruct (IH _ H1 H2 E) as [-> ->]. done.
Qed.

Lemma drop_last_char c s s' : s +:+ String c "" = s' +:+ String c "" -> s = s'.
Proof.
  revert s'. induction s as [|d s IH]; intros [|d' s']; rewrite ?string_app_cons, ?string_app_nil; intros E; [done|..].
  - injection E as -> E. by destruct s'.
  - injection E as -> E. by destruct s.
  - injection E as -> E. f_equal. by apply IH.
Qed.

(** A decimal holds digits only. *)
Lemma lacks_pretty c (n : N) : (forall k, k < 10 -> c <> pretty_N_char k) -> lacks c (pretty n) = true.
Proof.
  intros Hc. unfold pretty, pretty_N. destruct (decide (n = 0)) as [->|Hn].
  { simpl. rewrite bool_decide_false; [done|]. exact (Hc 0 eq_refl). }
  assert (G : forall s, lacks c s = true -> lacks c (pretty_N_go n s) = true); [|by apply G].
  clear Hn. induction (N.lt_wf_0 n) as [n _ IH]. intros s Hs.
  destruct (decide (n = 0)) as [->|Hn]; [by rewrite pretty_N_go_0|].
  rewrite pretty_N_go_step by lia. apply IH; [apply N.div_lt; lia|]. simpl.
  rewrite bool_decide_false by (apply Hc, N.mod_lt; lia). done.
Qed.

Lemma lacks_slash (n : N) : lacks "/"%char (pretty n) = true.
Proof.
  apply lacks_pretty. intros k Hk.
  assert (Hs : k ∈ [0; 1; 2; 3; 4; 5; 6; 7; 8; 9]) by (rewrite !elem_of_cons; lia).
  repeat (apply elem_of_cons in Hs as [->|Hs]; [done|]). by apply elem_of_nil in Hs.
Qed.

(** ** No two values share a text *)

Lemma app_inj_l (s t t' : string) : s +:+ t = s +:+ t' -> t = t'.
Proof. apply (inj _). Qed.

#[global] Instance RejectReason_display_inj : Inj (=) (=) RejectReason_display.
Proof.
  intros r r' E. destruct r as [| | | | | | | | | | | | |code], r' as [| | | | | | | | | | | | |code']; try done.
  apply app_inj_l, drop_last_char in E. f_equal. by apply (inj pretty).
Qed.
#[global] Instance CancelReason_display_inj : Inj (=) (=) CancelReason_display.
Proof. by intros [] []. Qed.
#[global] Instance STPMode_display_inj : Inj (=) (=) STPMode_display.
Proof. by intros [] []. Qed.

Lemma lacks_comma r : lacks ","%char (CancelReason_display r) = true.
Proof. by destruct r. Qed.

(** The printed status of an order tells its status: the texts of two
    statuses agree only when the statuses do, quantities and reasons
    included. *)
Theorem order_status_printed s s' : OrderStatus_display s = OrderStatus_display s' -> s = s'.
Proof.
  destruct s as [|o f|f|f r|r], s' as [|o' f'|f'|f' r'|r']; intros E; try done; apply app_inj_l in E.
  - apply split_at in E as [Hf E]; [|apply lacks_slash..].
    apply drop_last_char in E. by apply (inj pretty) in Hf as ->, E as ->.
  - apply drop_last_char in E. by apply (inj pretty) in E as ->.
  - apply split_at in E as [Hr E]; [|apply lacks_comma..].
    apply (app_inj_l " filled="), drop_last_char in E.
    by apply (inj CancelReason_display) in Hr as ->; apply (inj pretty) in E as ->.
  - apply drop_last_char in E. by apply (inj RejectReason_display) in E as ->.
Qed.

Lemma counter_record name label r log :
  counter_value name label (record_reject r log) =
  (counter_value name label log +
   if decide (REJECTS_TOTAL = name /\ Some ("reason", RejectReason_display r) = label) then 1 else 0)%N.
Proof. unfold counter_value, record_reject. rewrite sumN_app, sumN_cons, sumN_nil. lia. Qed.

(** Every reason has a counter of its own: after any sequence of rejections
    the counter labelled with a reason stands at the number of rejections
    for that reason, and none of them touches the trade counter. *)
Theorem rejects_counted rs r :
  let log := foldl (fun log x => record_reject x log) [] rs in
  counter_value REJECTS_TOTAL (Some ("reason", RejectReason_display r)) log =
    N.of_nat (length (filter (fun x => x = r) rs)) /\
  counter_value TRADES_TOTAL None log = 0.
Proof.
  simpl. induction rs as [|x rs IH] using rev_ind; [done|].
  rewrite foldl_app, filter_app, length_app. simpl. rewrite !counter_record. destruct IH as [-> ->]. split.
  - rewrite filter_cons. destruct (decide (x = r)) as [->|Hne].
    + rewrite decide_True by done. simpl. lia.
    + rewrite decide_False; [simpl; lia|]. intros [_ [= E]]. by apply (inj RejectReason_display) in E.
  - rewrite decide_False; [done|]. by intros [? _].
Qed.
