(* ===== verification/ErrorText.v ===== *)
(** * Errors as values and as text (error.rs)

    [OrderBookError] clones itself field by field, because the errors of the
    pricelevel crate it can carry cannot be cloned, and prints itself for
    logs.  A clone is the same error, and the printed form tells which reject
    code the error has. *)

From S2P Require Import Prelude Types Reject Display.
From Stdlib Require Import Ascii.
From stdpp Require Import strings pretty.
Local Open Scope N_scope.
Local Open Scope string_scope.

(** ** Clone *)

Definition clone_price_level_error (err : PriceLevelError) : PriceLevelError :=
  match err with
  | ParseError message => ParseError message
  | InvalidFormat => InvalidFormat
  | UnknownOrderType s => UnknownOrderType s
  | MissingField s => MissingField s
  | InvalidFieldValue field value => InvalidFieldValue field value
  | PLInvalidOperation message => PLInvalidOperation message
  | PLSerializationError message => PLSerializationError message
  | PLDeserializationError message => PLDeserializationError message
  | PLChecksumMismatch expected actual => PLChecksumMismatch expected actual
  | PLDuplicateOrderId id => PLDuplicateOrderId id
  end.

Definition clone_error (e : OrderBookError) : OrderBookError :=
  match e with
  | EPriceLevelError err => EPriceLevelError (clone_price_level_error err)
  | OrderNotFound s => OrderNotFound s
  | InvalidPriceLevel p => InvalidPriceLevel p
  | PriceCrossing price side opposite_price => PriceCrossing price side opposite_price
  | InsufficientLiquidity side requested available => InsufficientLiquidity side requested available
  | InsufficientLiquidityNotional side requested spent => InsufficientLiquidityNotional side requested spent
  | InvalidOperation message => InvalidOperation message
  | KillSwitchActive => KillSwitchActive
  | SerializationError message => SerializationError message
  | DeserializationError message => DeserializationError message
  | ChecksumMismatch expected actual => ChecksumMismatch expected actual
  | InvalidTickSize price tick_size => InvalidTickSize price tick_size
  | InvalidLotSize quantity lot_size => InvalidLotSize quantity lot_size
  | OrderSizeOutOfRange quantity min max => OrderSizeOutOfRange quantity min max
  | DuplicateOrderId order_id => DuplicateOrderId order_id
  | QuantityOverflow visible hidden => QuantityOverflow visible hidden
  | MissingUserId order_id => MissingUserId order_id
  | SelfTradePrevented mode taker_order_id user_id => SelfTradePrevented mode taker_order_id user_id
  | RiskMaxOpenOrders account current limit => RiskMaxOpenOrders account current limit
  | RiskMaxNotional account current attempted limit => RiskMaxNotional account current attempted limit
  | RiskPriceBand submitted reference deviation_bps limit_bps =>
      RiskPriceBand submitted reference deviation_bps limit_bps
  | NatsPublishError message => NatsPublishError message
  | NatsSerializationError message => NatsSerializationError message
  end.

(** A clone is the error it was made from, whatever it carries. *)
Lemma clone_error_same e : clone_error e = e.
Proof. by destruct e as [[]| | | | | | | | | | | | | | | | | | | | | |]. Qed.

(** ** Display *)

(** How the crates the types come from print them. *)
Class ForeignDisplay := {
  id_text : Id -> string;
  hash_text : Hash32 -> string;
  side_text : Side -> string;
  price_level_error_text : PriceLevelError -> string;
  message_text : Message -> string;
}.

(** A [Hash32] is printed as hexadecimal digits. *)
Class ForeignDisplayLaws `{ForeignDisplay} := {
  hash_text_solid : forall h, lacks " "%char (hash_text h) = true;
}.

(** [{:?}] of an [Option<u64>]. *)
Definition option_debug (o : option N) : string :=
  match o with Some n => "Some(" +:+ pretty n +:+ ")" | None => "None" end.

Section Text.
Context `{FD : ForeignDisplay}.

Definition error_text (e : OrderBookError) : string :=
  match e with
  | EPriceLevelError err => "Price level error: " +:+ price_level_error_text err
  | OrderNotFound id => "Order not found: " +:+ id
  | InvalidPriceLevel price => "Invalid price level: " +:+ pretty price
  | PriceCrossing price side opposite_price =>
      "Price crossing: " +:+ side_text side +:+ " " +:+ pretty price +:+ " would cross opposite at " +:+
      pretty opposite_price
  | InsufficientLiquidity side requested available =>
      "Insufficient liquidity for " +:+ side_text side +:+ " order: requested " +:+ pretty requested +:+
      ", available " +:+ pretty available
  | InsufficientLiquidityNotional side requested spent =>
      "Insufficient liquidity by notional for " +:+ side_text side +:+ " order: requested " +:+
      pretty requested +:+ ", spent " +:+ pretty spent
  | InvalidOperation message => "Invalid operation: " +:+ message_text message
  | KillSwitchActive => "kill switch active: new order entry and modifications are halted"
  | SerializationError message => "Serialization error: " +:+ message_text message
  | DeserializationError message => "Deserialization error: " +:+ message_text message
  | ChecksumMismatch expected actual =>
      "Checksum mismatch: expected " +:+ expected +:+ ", but computed " +:+ actual
  | InvalidTickSize price tick_size =>
      "invalid tick size: price " +:+ pretty price +:+ " is not a multiple of tick size " +:+ pretty tick_size
  | InvalidLotSize quantity lot_size =>
      "invalid lot size: quantity " +:+ pretty quantity +:+ " is not a multiple of lot size " +:+ pretty lot_size
  | OrderSizeOutOfRange quantity min max =>
      "order size out of range: quantity " +:+ pretty quantity +:+ ", min " +:+ option_debug min +:+ ", max " +:+
      option_debug max
  | DuplicateOrderId order_id =>
      "duplicate order id: order " +:+ id_text order_id +:+ " is already resting on the book"
  | MissingUserId order_id =>
      "missing user_id: order " +:+ id_text order_id +:+ " rejected because STP is enabled and user_id is zero"
  | QuantityOverflow visible hidden =>
      "quantity overflow: visible " +:+ pretty visible +:+ " + hidden " +:+ pretty hidden +:+ " exceeds u64"
  | SelfTradePrevented mode taker_order_id user_id =>
      "self-trade prevented (" +:+ STPMode_display mode +:+ "): taker " +:+ id_text taker_order_id +:+ ", user " +:+
      hash_text user_id
  | RiskMaxOpenOrders account current limit =>
      "risk: account " +:+ hash_text account +:+ " has " +:+ pretty current +:+ " open orders (limit " +:+
      pretty limit +:+ ")"
  | RiskMaxNotional account current attempted limit =>
      "risk: account " +:+ hash_text account +:+ " notional " +:+ pretty current +:+ " + attempted " +:+
      pretty attempted +:+ " would exceed limit " +:+ pretty limit
  | RiskPriceBand submitted reference deviation_bps limit_bps =>
      "risk: submitted price " +:+ pretty submitted +:+ " deviates " +:+ pretty deviation_bps +:+
      " bps from reference " +:+ pretty reference +:+ " (limit " +:+ pretty limit_bps +:+ " bps)"
  | NatsPublishError message => "nats publish error: " +:+ message_text message
  | NatsSerializationError message => "nats serialization error: " +:+ message_text message
  end.

(** Errors that print the same are rejected with the same code. *)
Theorem error_text_code `{!ForeignDisplayLaws} e e' :
  error_text e = error_text e' -> reject_reason_from e = reject_reason_from e'.
Proof.
  destruct e, e'; intros E; try reflexivity; try discriminate E;
    apply app_inj_l in E; apply split_at in E as [_ E]; try discriminate E; apply hash_text_solid.
Qed.
End Text.
