(* ===== verification/SkipMap.v ===== *)
(** * Ordered maps

    The book keeps each side in a [crossbeam_skiplist::SkipMap] keyed by
    price.  The model is a finite map together with [sm_iter], its entries in
    ascending key order: what [SkipMap::iter] yields ([rev] for the bids),
    [front]/[next] being the lowest and [back]/[next_back] the highest. *)

From stdpp Require Import sorting.
From S2P Require Import Prelude.

Lemma StronglySorted_mono {A} (R S : relation A) l :
  (forall x y, R x y -> S x y) -> StronglySorted R l -> StronglySorted S l.
Proof.
  intros H. induction 1 as [|x l _ IH Hx]; constructor; [done|]. eapply Forall_impl; [exact Hx|auto].
Qed.

Section SkipMap.
Context {V : Type}.
Implicit Types (m : gmap N V) (l : list (N * V)).

Definition key_le (x y : N * V) : Prop := (x.1 <= y.1)%N.
Definition key_lt (x y : N * V) : Prop := (x.1 < y.1)%N.

#[export] Instance key_le_dec : RelDecision key_le.
Proof. intros x y. unfold key_le. apply _. Defined.
#[export] Instance key_le_trans : Transitive key_le.
Proof. intros x y z. unfold key_le. lia. Qed.
#[export] Instance key_lt_trans : Transitive key_lt.
Proof. intros x y z. unfold key_lt. lia. Qed.
#[export] Instance key_le_total : Total key_le.
Proof. intros x y. unfold key_le. lia. Qed.

Definition sm_iter m : list (N * V) := merge_sort key_le (map_to_list m).
Definition sm_front m : option N := fst <$> head (sm_iter m).
Definition sm_back m : option N := fst <$> last (sm_iter m).

Lemma sm_iter_perm m : sm_iter m ≡ₚ map_to_list m.
Proof. apply merge_sort_Permutation. Qed.

Lemma elem_of_sm_iter m k x : (k, x) ∈ sm_iter m <-> m !! k = Some x.
Proof. rewrite sm_iter_perm. apply elem_of_map_to_list. Qed.

Lemma sm_iter_nil m : sm_iter m = [] <-> m = ∅.
Proof.
  rewrite <- map_to_list_empty_iff. split; intros H.
  - apply Permutation_nil_r. by rewrite <- sm_iter_perm, H.
  - apply Permutation_nil_r. by rewrite sm_iter_perm, H.
Qed.

Lemma sorted_strict l :
  NoDup l.*1 -> StronglySorted key_le l -> StronglySorted key_lt l.
Proof.
  intros Hnd Hs. induction Hs as [|x l Hs IH Hx]; constructor.
  - apply IH. by apply NoDup_cons in Hnd as [_ ?].
  - apply NoDup_cons in Hnd as [Hnin _]. rewrite Forall_forall in Hx |- *.
    intros y Hy. specialize (Hx y Hy). unfold key_le, key_lt in *.
    assert (x.1 <> y.1); [|lia]. intros E. apply Hnin. rewrite E. by apply list_elem_of_fmap_2.
Qed.

Lemma sm_iter_sorted m : StronglySorted key_lt (sm_iter m).
Proof.
  apply sorted_strict; [|apply StronglySorted_merge_sort; apply _].
  rewrite sm_iter_perm. apply NoDup_fst_map_to_list.
Qed.

#[export] Instance key_lt_antisym : AntiSymm (=) key_lt.
Proof. intros x y. unfold key_lt. lia. Qed.

Lemma sm_iter_unique m l :
  StronglySorted key_lt l -> l ≡ₚ map_to_list m -> sm_iter m = l.
Proof.
  intros Hl Hp. apply (StronglySorted_unique key_lt); [apply sm_iter_sorted|done|].
  by rewrite sm_iter_perm.
Qed.

Lemma sm_front_None m : sm_front m = None <-> m = ∅.
Proof.
  unfold sm_front. rewrite <- sm_iter_nil. by destruct (sm_iter m).
Qed.

Lemma elem_of_sm_keys m k : k ∈ (sm_iter m).*1 <-> is_Some (m !! k).
Proof.
  rewrite list_elem_of_fmap. split.
  - intros ([? x] & -> & Hx%elem_of_sm_iter). eauto.
  - intros [x Hx%elem_of_sm_iter]. by exists (k, x).
Qed.

(** The front is the least key, the back the greatest. *)
Lemma sm_front_spec m k :
  sm_front m = Some k <-> is_Some (m !! k) /\ forall k', is_Some (m !! k') -> (k <= k')%N.
Proof.
  setoid_rewrite <- elem_of_sm_keys. unfold sm_front.
  pose proof (sm_iter_sorted m) as Hs. destruct Hs as [|x l Hs Hx]; simpl.
  - split; [done|]. intros [[]%elem_of_nil _].
  - rewrite Forall_forall in Hx. split.
    + intros [= <-]. split; [left|]. intros k' [->|Hk']%elem_of_cons; [lia|].
      apply list_elem_of_fmap in Hk' as (y & -> & Hy). specialize (Hx y Hy). unfold key_lt in Hx. lia.
    + intros [[->|Hk]%elem_of_cons Hmin]; [done|].
      apply list_elem_of_fmap in Hk as (y & -> & Hy). specialize (Hx y Hy). unfold key_lt in Hx.
      specialize (Hmin x.1 ltac:(left)). lia.
Qed.

Lemma sm_back_spec m k :
  sm_back m = Some k <-> is_Some (m !! k) /\ forall k', is_Some (m !! k') -> (k' <= k)%N.
Proof.
  setoid_rewrite <- elem_of_sm_keys. unfold sm_back.
  pose proof (sm_iter_sorted m) as Hs.
  destruct (sm_iter m) as [|x l _] eqn:E using rev_ind; simpl.
  - split; [done|]. intros [[]%elem_of_nil _].
  - rewrite last_snoc, fmap_app. simpl.
    assert (Hx : forall y, y ∈ l -> (y.1 < x.1)%N).
    { intros y Hy. apply (StronglySorted_app_1_elem_of key_lt l [x] y x Hs Hy). by left. }
    split.
    + intros [= <-]. rewrite elem_of_app. split; [right; by left|].
      intros k' [Hk|Hk]%elem_of_app; [apply list_elem_of_fmap in Hk as (y & -> & Hy)
        |apply list_elem_of_singleton in Hk as ->; lia].
      specialize (Hx y Hy). lia.
    + intros [[Hk|Hk]%elem_of_app Hmax]; [apply list_elem_of_fmap in Hk as (y & -> & Hy)
        |by apply list_elem_of_singleton in Hk as ->].
      specialize (Hx y Hy). specialize (Hmax x.1). rewrite elem_of_app in Hmax.
      assert (x.1 <= y.1)%N by (apply Hmax; right; by left). lia.
Qed.

Lemma sm_back_None m : sm_back m = None <-> m = ∅.
Proof.
  unfold sm_back. rewrite <- sm_iter_nil. destruct (sm_iter m) as [|x l _] using rev_ind; [done|].
  rewrite last_snoc. simpl. split; [done|]. by intros [_ ?]%app_eq_nil.
Qed.

(** Inserting past the last key, and at it. *)
Lemma sm_iter_insert_last m k x :
  (forall k', is_Some (m !! k') -> (k' < k)%N) -> sm_iter (<[k := x]> m) = sm_iter m ++ [(k, x)].
Proof.
  intros Hk. apply sm_iter_unique.
  - apply StronglySorted_app. split_and!; [|apply sm_iter_sorted|repeat constructor].
    intros [k1 x1] y H1 ->%list_elem_of_singleton. apply Hk. exists x1. by apply elem_of_sm_iter.
  - rewrite map_to_list_insert; [by rewrite sm_iter_perm, Permutation_app_comm|].
    apply eq_None_not_Some. intros H%Hk. lia.
Qed.

Lemma sm_iter_replace_last m l k x y :
  sm_iter m = l ++ [(k, x)] -> sm_iter (<[k := y]> m) = l ++ [(k, y)].
Proof.
  intros E. assert (Hin : forall k' z, m !! k' = Some z <-> (k', z) ∈ l \/ (k', z) = (k, x)).
  { intros k' z. by rewrite <- elem_of_sm_iter, E, elem_of_app, list_elem_of_singleton. }
  pose proof (sm_iter_sorted m) as Hs. rewrite E in Hs. apply StronglySorted_app in Hs as (H1 & H2 & _).
  apply sm_iter_unique.
  - apply StronglySorted_app. split_and!; [|done|repeat constructor].
    intros z w Hz ->%list_elem_of_singleton. exact (H1 z (k, x) Hz ltac:(by left)).
  - rewrite <- (insert_delete_eq m k y), map_to_list_insert by apply lookup_delete_eq.
    rewrite Permutation_app_comm. simpl. apply Permutation_skip.
    assert (Hm : map_to_list m ≡ₚ (k, x) :: map_to_list (delete k m)).
    { rewrite <- map_to_list_insert by apply lookup_delete_eq. rewrite insert_delete_id; [done|].
      apply Hin. by right. }
    rewrite <- sm_iter_perm, E, Permutation_app_comm in Hm. simpl in Hm. by apply Permutation_cons_inv in Hm.
Qed.
End SkipMap.
