(* ===== verification/Book.v ===== *)
(** * The state of the order book (book.rs, private.rs)

    The record of [OrderBook<T>] and the operations every entry point is
    built from: best prices through the cache, engine sequence numbers and
    listener events, the order indices, the kill switch, expiry and the risk
    gates.  Operations are computations in [ST OrderBook].

    Operations on [&self] run one after the other in the model: the
    submit gate (a reader/writer lock), the shards of the concurrent maps and
    the atomics' orderings are not represented.  The calls of the installed
    listeners are recorded in [events], oldest first; a listener does not call
    back into the book. *)

From S2P Require Import Prelude Types PriceLevel OrderQuantity Fees Stp Clock Cache Risk OrderState Reject SkipMap.
Local Open Scope N_scope.

Section Book.
Context {PA : PriceLevelApi} {WC : WallClock}.

(** What the listeners receive. *)
Inductive BookEvent :=
| LevelChanged (side : Side) (price quantity seq : N)
| TradeEmitted (result : TradeResult).

(** The fields only [&mut self] methods change. *)
Record BookConfig := {
  symbol : string;
  trade_listener : bool;
  price_level_changed_listener : bool;
  tick_size : option N;
  lot_size : option N;
  min_order_size : option N;
  max_order_size : option N;
  stp_mode : STPMode;
  fee_schedule : option FeeSchedule;
}.

(** The resting orders and the indices over them. *)
Record Indices := {
  bids : gmap N PriceLevel;
  asks : gmap N PriceLevel;
  order_locations : gmap Id (N * Side);
  user_orders : gmap Hash32 (list Id);
}.

Record OrderBook := {
  indices : Indices;
  book_config : BookConfig;
  transaction_id_generator : UuidGenerator;
  next_order_id : N;
  engine_seq : N;
  kill_switch : bool;
  risk_state : RiskState;
  last_trade_price : N;
  has_traded : bool;
  market_close_timestamp : N;
  has_market_close : bool;
  cache : PriceLevelCache;
  pegged_orders : gset Id;
  trailing_stops : gset Id;
  order_state_tracker : option OrderStateTracker;
  clock : Clock;
  events : list BookEvent;
}.

Definition set_indices (f : Indices -> Indices) (b : OrderBook) : OrderBook :=
  {| indices := f (indices b); book_config := book_config b;
     transaction_id_generator := transaction_id_generator b; next_order_id := next_order_id b;
     engine_seq := engine_seq b; kill_switch := kill_switch b; risk_state := risk_state b;
     last_trade_price := last_trade_price b; has_traded := has_traded b;
     market_close_timestamp := market_close_timestamp b; has_market_close := has_market_close b;
     cache := cache b; pegged_orders := pegged_orders b; trailing_stops := trailing_stops b;
     order_state_tracker := order_state_tracker b; clock := clock b; events := events b |}.

Definition set_generator (g : UuidGenerator) (b : OrderBook) : OrderBook :=
  {| indices := indices b; book_config := book_config b; transaction_id_generator := g;
     next_order_id := next_order_id b; engine_seq := engine_seq b; kill_switch := kill_switch b;
     risk_state := risk_state b; last_trade_price := last_trade_price b;
     has_traded := has_traded b; market_close_timestamp := market_close_timestamp b;
     has_market_close := has_market_close b; cache := cache b; pegged_orders := pegged_orders b;
     trailing_stops := trailing_stops b; order_state_tracker := order_state_tracker b;
     clock := clock b; events := events b |}.

Definition set_engine_seq (n : N) (b : OrderBook) : OrderBook :=
  {| indices := indices b; book_config := book_config b;
     transaction_id_generator := transaction_id_generator b; next_order_id := next_order_id b;
     engine_seq := n; kill_switch := kill_switch b; risk_state := risk_state b;
     last_trade_price := last_trade_price b; has_traded := has_traded b;
     market_close_timestamp := market_close_timestamp b; has_market_close := has_market_close b;
     cache := cache b; pegged_orders := pegged_orders b; trailing_stops := trailing_stops b;
     order_state_tracker := order_state_tracker b; clock := clock b; events := events b |}.

Definition set_kill_switch (k : bool) (b : OrderBook) : OrderBook :=
  {| indices := indices b; book_config := book_config b;
     transaction_id_generator := transaction_id_generator b; next_order_id := next_order_id b;
     engine_seq := engine_seq b; kill_switch := k; risk_state := risk_state b;
     last_trade_price := last_trade_price b; has_traded := has_traded b;
     market_close_timestamp := market_close_timestamp b; has_market_close := has_market_close b;
     cache := cache b; pegged_orders := pegged_orders b; trailing_stops := trailing_stops b;
     order_state_tracker := order_state_tracker b; clock := clock b; events := events b |}.

Definition set_risk (f : RiskState -> RiskState) (b : OrderBook) : OrderBook :=
  {| indices := indices b; book_config := book_config b;
     transaction_id_generator := transaction_id_generator b; next_order_id := next_order_id b;
     engine_seq := engine_seq b; kill_switch := kill_switch b; risk_state := f (risk_state b);
     last_trade_price := last_trade_price b; has_traded := has_traded b;
     market_close_timestamp := market_close_timestamp b; has_market_close := has_market_close b;
     cache := cache b; pegged_orders := pegged_orders b; trailing_stops := trailing_stops b;
     order_state_tracker := order_state_tracker b; clock := clock b; events := events b |}.

Definition set_last_trade (p : N) (b : OrderBook) : OrderBook :=
  {| indices := indices b; book_config := book_config b;
     transaction_id_generator := transaction_id_generator b; next_order_id := next_order_id b;
     engine_seq := engine_seq b; kill_switch := kill_switch b; risk_state := risk_state b;
     last_trade_price := p; has_traded := true;
     market_close_timestamp := market_close_timestamp b; has_market_close := has_market_close b;
     cache := cache b; pegged_orders := pegged_orders b; trailing_stops := trailing_stops b;
     order_state_tracker := order_state_tracker b; clock := clock b; events := events b |}.

Definition set_market_close (ts : N) (has : bool) (b : OrderBook) : OrderBook :=
  {| indices := indices b; book_config := book_config b;
     transaction_id_generator := transaction_id_generator b; next_order_id := next_order_id b;
     engine_seq := engine_seq b; kill_switch := kill_switch b; risk_state := risk_state b;
     last_trade_price := last_trade_price b; has_traded := has_traded b;
     market_close_timestamp := ts; has_market_close := has; cache := cache b;
     pegged_orders := pegged_orders b; trailing_stops := trailing_stops b;
     order_state_tracker := order_state_tracker b; clock := clock b; events := events b |}.

Definition set_cache (f : PriceLevelCache -> PriceLevelCache) (b : OrderBook) : OrderBook :=
  {| indices := indices b; book_config := book_config b;
     transaction_id_generator := transaction_id_generator b; next_order_id := next_order_id b;
     engine_seq := engine_seq b; kill_switch := kill_switch b; risk_state := risk_state b;
     last_trade_price := last_trade_price b; has_traded := has_traded b;
     market_close_timestamp := market_close_timestamp b; has_market_close := has_market_close b;
     cache := f (cache b); pegged_orders := pegged_orders b; trailing_stops := trailing_stops b;
     order_state_tracker := order_state_tracker b; clock := clock b; events := events b |}.

Definition set_special (peg trail : gset Id -> gset Id) (b : OrderBook) : OrderBook :=
  {| indices := indices b; book_config := book_config b;
     transaction_id_generator := transaction_id_generator b; next_order_id := next_order_id b;
     engine_seq := engine_seq b; kill_switch := kill_switch b; risk_state := risk_state b;
     last_trade_price := last_trade_price b; has_traded := has_traded b;
     market_close_timestamp := market_close_timestamp b; has_market_close := has_market_close b;
     cache := cache b; pegged_orders := peg (pegged_orders b);
     trailing_stops := trail (trailing_stops b); order_state_tracker := order_state_tracker b;
     clock := clock b; events := events b |}.

Definition put_tracker (t : option OrderStateTracker) (b : OrderBook) : OrderBook :=
  {| indices := indices b; book_config := book_config b;
     transaction_id_generator := transaction_id_generator b; next_order_id := next_order_id b;
     engine_seq := engine_seq b; kill_switch := kill_switch b; risk_state := risk_state b;
     last_trade_price := last_trade_price b; has_traded := has_traded b;
     market_close_timestamp := market_close_timestamp b; has_market_close := has_market_close b;
     cache := cache b; pegged_orders := pegged_orders b; trailing_stops := trailing_stops b;
     order_state_tracker := t; clock := clock b; events := events b |}.
Definition set_tracker (f : OrderStateTracker -> OrderStateTracker) (b : OrderBook) : OrderBook :=
  put_tracker (f <$> order_state_tracker b) b.

Definition set_clock (c : Clock) (b : OrderBook) : OrderBook :=
  {| indices := indices b; book_config := book_config b;
     transaction_id_generator := transaction_id_generator b; next_order_id := next_order_id b;
     engine_seq := engine_seq b; kill_switch := kill_switch b; risk_state := risk_state b;
     last_trade_price := last_trade_price b; has_traded := has_traded b;
     market_close_timestamp := market_close_timestamp b; has_market_close := has_market_close b;
     cache := cache b; pegged_orders := pegged_orders b; trailing_stops := trailing_stops b;
     order_state_tracker := order_state_tracker b; clock := c; events := events b |}.

Definition push_event (e : BookEvent) (b : OrderBook) : OrderBook :=
  {| indices := indices b; book_config := book_config b;
     transaction_id_generator := transaction_id_generator b; next_order_id := next_order_id b;
     engine_seq := engine_seq b; kill_switch := kill_switch b; risk_state := risk_state b;
     last_trade_price := last_trade_price b; has_traded := has_traded b;
     market_close_timestamp := market_close_timestamp b; has_market_close := has_market_close b;
     cache := cache b; pegged_orders := pegged_orders b; trailing_stops := trailing_stops b;
     order_state_tracker := order_state_tracker b; clock := clock b; events := events b ++ [e] |}.

Definition set_config_of_book (f : BookConfig -> BookConfig) (b : OrderBook) : OrderBook :=
  {| indices := indices b; book_config := f (book_config b);
     transaction_id_generator := transaction_id_generator b; next_order_id := next_order_id b;
     engine_seq := engine_seq b; kill_switch := kill_switch b; risk_state := risk_state b;
     last_trade_price := last_trade_price b; has_traded := has_traded b;
     market_close_timestamp := market_close_timestamp b; has_market_close := has_market_close b;
     cache := cache b; pegged_orders := pegged_orders b; trailing_stops := trailing_stops b;
     order_state_tracker := order_state_tracker b; clock := clock b; events := events b |}.

Definition set_locations (f : gmap Id (N * Side) -> gmap Id (N * Side)) : OrderBook -> OrderBook :=
  set_indices (fun ix => {| bids := bids ix; asks := asks ix;
                            order_locations := f (order_locations ix);
                            user_orders := user_orders ix |}).
Definition set_user_orders (f : gmap Hash32 (list Id) -> gmap Hash32 (list Id)) :
    OrderBook -> OrderBook :=
  set_indices (fun ix => {| bids := bids ix; asks := asks ix;
                            order_locations := order_locations ix;
                            user_orders := f (user_orders ix) |}).
Definition set_side (side : Side) (f : gmap N PriceLevel -> gmap N PriceLevel) :
    OrderBook -> OrderBook :=
  set_indices (fun ix =>
    match side with
    | Buy => {| bids := f (bids ix); asks := asks ix;
                order_locations := order_locations ix; user_orders := user_orders ix |}
    | Sell => {| bids := bids ix; asks := f (asks ix);
                 order_locations := order_locations ix; user_orders := user_orders ix |}
    end).

(** The levels of a side: [match side { Buy => &self.bids, Sell => &self.asks }]. *)
Definition side_levels (side : Side) (ix : Indices) : gmap N PriceLevel :=
  match side with Buy => bids ix | Sell => asks ix end.
Definition levels (side : Side) (b : OrderBook) : gmap N PriceLevel :=
  side_levels side (indices b).
Definition locations (b : OrderBook) : gmap Id (N * Side) := order_locations (indices b).
Definition users (b : OrderBook) : gmap Hash32 (list Id) := user_orders (indices b).

(** ** Construction and configuration *)

Definition empty_indices : Indices :=
  {| bids := ∅; asks := ∅; order_locations := ∅; user_orders := ∅ |}.

Definition default_config (sym : string) : BookConfig :=
  {| symbol := sym; trade_listener := false; price_level_changed_listener := false;
     tick_size := None; lot_size := None; min_order_size := None; max_order_size := None;
     stp_mode := STPNone; fee_schedule := None |}.

(** [with_clock_and_namespace]; the fresh random namespace of [with_clock] is
    the [namespace] argument. *)
Definition with_clock_and_namespace (sym : string) (c : Clock) (namespace : N) : OrderBook :=
  {| indices := empty_indices; book_config := default_config sym;
     transaction_id_generator := uuid_generator_new namespace;
     next_order_id := 1; engine_seq := 0; kill_switch := false; risk_state := risk_state_new;
     last_trade_price := 0; has_traded := false; market_close_timestamp := 0;
     has_market_close := false; cache := cache_new; pegged_orders := ∅; trailing_stops := ∅;
     order_state_tracker := None; clock := c; events := [] |}.

(** One setter per configuration field. *)
Definition set_trade_listener (on : bool) : OrderBook -> OrderBook :=
  set_config_of_book (fun c =>
    {| symbol := symbol c; trade_listener := on; price_level_changed_listener := price_level_changed_listener c;
       tick_size := tick_size c; lot_size := lot_size c; min_order_size := min_order_size c; max_order_size := max_order_size c;
       stp_mode := stp_mode c; fee_schedule := fee_schedule c |}).
Definition set_price_level_listener (on : bool) : OrderBook -> OrderBook :=
  set_config_of_book (fun c =>
    {| symbol := symbol c; trade_listener := trade_listener c; price_level_changed_listener := on;
       tick_size := tick_size c; lot_size := lot_size c; min_order_size := min_order_size c; max_order_size := max_order_size c;
       stp_mode := stp_mode c; fee_schedule := fee_schedule c |}).
Definition set_tick_size_opt (tick : option N) : OrderBook -> OrderBook :=
  set_config_of_book (fun c =>
    {| symbol := symbol c; trade_listener := trade_listener c; price_level_changed_listener := price_level_changed_listener c;
       tick_size := tick; lot_size := lot_size c; min_order_size := min_order_size c; max_order_size := max_order_size c;
       stp_mode := stp_mode c; fee_schedule := fee_schedule c |}).
Definition set_lot_size_opt (lot : option N) : OrderBook -> OrderBook :=
  set_config_of_book (fun c =>
    {| symbol := symbol c; trade_listener := trade_listener c; price_level_changed_listener := price_level_changed_listener c;
       tick_size := tick_size c; lot_size := lot; min_order_size := min_order_size c; max_order_size := max_order_size c;
       stp_mode := stp_mode c; fee_schedule := fee_schedule c |}).
Definition set_min_order_size (size : N) : OrderBook -> OrderBook :=
  set_config_of_book (fun c =>
    {| symbol := symbol c; trade_listener := trade_listener c; price_level_changed_listener := price_level_changed_listener c;
       tick_size := tick_size c; lot_size := lot_size c; min_order_size := Some size; max_order_size := max_order_size c;
       stp_mode := stp_mode c; fee_schedule := fee_schedule c |}).
Definition set_max_order_size (size : N) : OrderBook -> OrderBook :=
  set_config_of_book (fun c =>
    {| symbol := symbol c; trade_listener := trade_listener c; price_level_changed_listener := price_level_changed_listener c;
       tick_size := tick_size c; lot_size := lot_size c; min_order_size := min_order_size c; max_order_size := Some size;
       stp_mode := stp_mode c; fee_schedule := fee_schedule c |}).
Definition set_stp_mode (mode : STPMode) : OrderBook -> OrderBook :=
  set_config_of_book (fun c =>
    {| symbol := symbol c; trade_listener := trade_listener c; price_level_changed_listener := price_level_changed_listener c;
       tick_size := tick_size c; lot_size := lot_size c; min_order_size := min_order_size c; max_order_size := max_order_size c;
       stp_mode := mode; fee_schedule := fee_schedule c |}).
Definition set_fee_schedule (fees : option FeeSchedule) : OrderBook -> OrderBook :=
  set_config_of_book (fun c =>
    {| symbol := symbol c; trade_listener := trade_listener c; price_level_changed_listener := price_level_changed_listener c;
       tick_size := tick_size c; lot_size := lot_size c; min_order_size := min_order_size c; max_order_size := max_order_size c;
       stp_mode := stp_mode c; fee_schedule := fees |}).

(** [with_trade_listener] and [with_trade_and_price_level_listener]. *)
Definition with_trade_listener (sym : string) (namespace : N) : OrderBook :=
  set_trade_listener true (with_clock_and_namespace sym (MonotonicClock 0) namespace).
Definition with_trade_and_price_level_listener (sym : string) (namespace : N) : OrderBook :=
  set_price_level_listener true (with_trade_listener sym namespace).

Definition set_risk_config (cfg : RiskConfig) : OrderBook -> OrderBook := set_risk (set_config cfg).
Definition disable_risk : OrderBook -> OrderBook := set_risk disable.
Definition engage_kill_switch : OrderBook -> OrderBook := set_kill_switch true.
Definition release_kill_switch : OrderBook -> OrderBook := set_kill_switch false.
Definition set_market_close_timestamp (ts : N) : OrderBook -> OrderBook := set_market_close ts true.
Definition clear_market_close_timestamp (b : OrderBook) : OrderBook :=
  set_market_close (market_close_timestamp b) false b.

(** ** Sequence numbers and events *)

Definition next_engine_seq : ST OrderBook N := fun b =>
  (engine_seq b, set_engine_seq (wrapping_add U64_MAX (engine_seq b) 1) b).

(** The notification every level change goes through. *)
Definition notify_level (side : Side) (level : PriceLevel) : ST OrderBook unit :=
  let! has := sget (fun b => price_level_changed_listener (book_config b)) in
  swhen has
    (let! seq := next_engine_seq in
     smod (push_event (LevelChanged side (pl_price level) (pl_visible_quantity level) seq))).

(** ** Best prices *)

Definition best_bid : ST OrderBook (option N) := fun b =>
  match get_cached_best_bid (cache b) with
  | Some cached_bid => (Some cached_bid, b)
  | None => let best_price := sm_back (levels Buy b) in
            (best_price, set_cache (update_best_bid best_price) b)
  end.

Definition best_ask : ST OrderBook (option N) := fun b =>
  match get_cached_best_ask (cache b) with
  | Some cached_ask => (Some cached_ask, b)
  | None => let best_price := sm_front (levels Sell b) in
            (best_price, set_cache (update_best_ask best_price) b)
  end.

Definition get_last_trade_price (b : OrderBook) : option N :=
  if has_traded b then Some (last_trade_price b) else None.

Definition spread : ST OrderBook (option N) :=
  let! bid := best_bid in
  let! ask := best_ask in
  sret (match bid, ask with Some bid, Some ask => Some (sat_sub ask bid) | _, _ => None end).

Definition will_cross_market (price : N) (side : Side) : ST OrderBook bool :=
  match side with
  | Buy => let! ask := best_ask in
           sret (match ask with Some best_ask => best_ask <=? price | None => false end)
  | Sell => let! bid := best_bid in
            sret (match bid with Some best_bid => price <=? best_bid | None => false end)
  end.

(** ** Expiry *)

Definition market_close_for_expiry (b : OrderBook) : option N :=
  if has_market_close b then Some (market_close_timestamp b) else None.

Definition tif_expired_at (tif : TimeInForce) (now_ms : N) (b : OrderBook) : bool :=
  tif_is_expired tif now_ms (market_close_for_expiry b).

(** [self.clock().now_millis()] *)
Definition clock_now : ST OrderBook N := fun b =>
  let '(t, c') := now_millis (clock b) in (t, set_clock c' b).

Definition has_expired {T} (order : OrderType T) : ST OrderBook bool :=
  let! current_time := clock_now in
  sget (tif_expired_at (o_time_in_force order) current_time).

(** ** The user index *)

Definition track_user_order (user_id : Hash32) (order_id : Id) : OrderBook -> OrderBook :=
  set_user_orders (fun m => <[user_id := default [] (m !! user_id) ++ [order_id]]> m).

Definition untrack_user_order (user_id : Hash32) (order_id : Id) : OrderBook -> OrderBook :=
  set_user_orders (fun m =>
    match m !! user_id with
    | Some ids =>
        let ids' := filter (fun id => id <> order_id) ids in
        if decide (ids' = []) then delete user_id m else <[user_id := ids']> m
    | None => m
    end).

(** The scan of [untrack_order_by_id]: the first user whose list holds the id. *)
Fixpoint find_owner (order_id : Id) (l : list (Hash32 * list Id)) : option (Hash32 * list Id * nat) :=
  match l with
  | [] => None
  | (user, ids) :: l' =>
      match list_find (fun id => id = order_id) ids with
      | Some (pos, _) => Some (user, ids, pos)
      | None => find_owner order_id l'
      end
  end.

Definition untrack_order_by_id (order_id : Id) : OrderBook -> OrderBook :=
  set_user_orders (fun m =>
    match find_owner order_id (map_to_list m) with
    | Some (user, ids, pos) =>
        let ids' := swap_remove pos ids in
        if decide (ids' = []) then delete user m else <[user := ids']> m
    | None => m
    end).

(** ** Lifecycle tracking *)

Definition track_state (order_id : Id) (status : OrderStatus) : OrderBook -> OrderBook :=
  set_tracker (transition order_id status).

Definition set_order_state_tracker (t : OrderStateTracker) : OrderBook -> OrderBook :=
  put_tracker (Some t).
Definition order_status (order_id : Id) (b : OrderBook) : option OrderStatus :=
  t ← order_state_tracker b; get t order_id.
Definition get_order_history (order_id : Id) (b : OrderBook) : option (list (N * OrderStatus)) :=
  t ← order_state_tracker b; get_history t order_id.
Definition active_order_count (b : OrderBook) : nat := from_option active_count 0%nat (order_state_tracker b).
Definition terminal_order_count (b : OrderBook) : nat :=
  from_option terminal_count 0%nat (order_state_tracker b).
Definition purge_terminal_states (older_than : N) : ST OrderBook nat := fun b =>
  match order_state_tracker b with
  | Some t => let '(n, t') := purge_terminal_older_than older_than t in (n, put_tracker (Some t') b)
  | None => (0%nat, b)
  end.

Definition reject_with_risk (order_id : Id) (err : OrderBookError) : OrderBook -> OrderBook :=
  track_state order_id (Rejected (reject_reason_from err)).

(** The fill recorded so far for an order, for its cancellation status. *)
Definition prev_filled (order_id : Id) (b : OrderBook) : N :=
  match order_state_tracker b with
  | Some t => from_option filled_quantity 0 (get t order_id)
  | None => 0
  end.

Definition unregister_special (order_id : Id) : OrderBook -> OrderBook :=
  set_special (fun s => s ∖ {[order_id]}) (fun s => s ∖ {[order_id]}).

(** ** Gates *)

Definition check_kill_switch_or_reject (order_id : Id) : ST OrderBook (Result OrderBookError unit) :=
  let! engaged := sget kill_switch in
  if engaged then
    do! smod (track_state order_id (Rejected RejKillSwitchActive)) in
    sret (Err KillSwitchActive)
  else sret (Ok tt).

Definition check_kill_switch : ST OrderBook (Result OrderBookError unit) :=
  let! engaged := sget kill_switch in
  sret (if engaged then Err KillSwitchActive else Ok tt).

Definition resolve_reference_price (source : ReferencePriceSource) : ST OrderBook (option N) :=
  match source with
  | LastTrade => sget get_last_trade_price
  | Mid =>
      let! bid := best_bid in
      let! ask := best_ask in
      match bid, ask with
      | Some bid, Some ask => sret (Some ((bid + ask) / 2))
      | _, _ => sget get_last_trade_price
      end
  | FixedPrice p => sret (Some p)
  end.

(** Run a computation of the risk layer on the book's risk state. *)
Definition on_risk {A} (c : ST RiskState A) : ST OrderBook A := fun b =>
  let '(a, r) := c (risk_state b) in (a, set_risk (fun _ => r) b).

Definition risk_reference (cfg : RiskConfig) : ST OrderBook (option N) :=
  match reference_price cfg with
  | Some source => resolve_reference_price source
  | None => sret None
  end.

Definition check_risk_limit_admission (a : Hash32) (price quantity : N) :
    ST OrderBook (Result OrderBookError unit) :=
  let! cfg := sget (fun b => config (risk_state b)) in
  match cfg with
  | None => sret (Ok tt)
  | Some cfg =>
      let! reference := risk_reference cfg in
      on_risk (check_limit_admission a price quantity reference)
  end.

Definition check_risk_modify_admission (order_id : Id) (a : Hash32) (new_price new_qty : N) :
    ST OrderBook (Result OrderBookError unit) :=
  let! cfg := sget (fun b => config (risk_state b)) in
  match cfg with
  | None => sret (Ok tt)
  | Some cfg =>
      let! reference := risk_reference cfg in
      on_risk (check_modify_admission order_id a new_price new_qty reference)
  end.

(** ** Lookups *)

(** [get_order]: through the location index, then a scan of the level. *)
Definition get_order {T} (dflt : T) (order_id : Id) (b : OrderBook) : option (OrderType T) :=
  match locations b !! order_id with
  | Some (price, side) =>
      match levels side b !! price with
      | Some level =>
          convert_from_unit_type dflt <$>
            (snd <$> list_find (fun o => o_id o = order_id) (pl_iter_orders level))
      | None => None
      end
  | None => None
  end.

Definition get_orders_at_price {T} (dflt : T) (price : N) (side : Side) (b : OrderBook) :
    list (OrderType T) :=
  match levels side b !! price with
  | Some level => convert_from_unit_type dflt <$> pl_iter_orders level
  | None => []
  end.

Definition get_all_orders {T} (dflt : T) (b : OrderBook) : list (OrderType T) :=
  (kv ← sm_iter (levels Buy b); convert_from_unit_type dflt <$> pl_iter_orders kv.2) ++
  (kv ← sm_iter (levels Sell b); convert_from_unit_type dflt <$> pl_iter_orders kv.2).

(** [place_order_in_book] (private.rs): get or create the level, add, index. *)
Definition place_order_in_book {T} (order : OrderType T) :
    ST OrderBook (Result OrderBookError (OrderType T)) :=
  let side := o_side order in
  let price := o_price order in
  let! level := sget (fun b => default (pl_new price) (levels side b !! price)) in
  do! smod (set_side side <[price := level]>) in
  match pl_add_order level (convert_to_unit_type order) with
  | Err e => sret (Err (EPriceLevelError e))
  | Ok (level', _) =>
      do! smod (set_side side <[price := level']>) in
      do! notify_level side level' in
      do! smod (set_locations <[o_id order := (price, side)]>) in
      do! smod (track_user_order (o_user_id order) (o_id order)) in
      sret (Ok order)
  end.
End Book.
