(* ===== verification/BookInv.v ===== *)
(** * What the book holds: representation and invariant

    The abstract content of a book is a finite map from the ids of the
    resting orders to where each rests and who owns it.  [book_rep b R] says
    that the level maps, the location index and the user index of [b] all
    represent [R], that no empty level is kept and that a cache hit is the
    true best price: it is the invariant of the engine, and the refinement
    relation between the engine and the map [R]. *)

From S2P Require Import Prelude Types PriceLevel OrderQuantity Fees Stp Clock Cache Risk OrderState Reject SkipMap Book.
Local Open Scope N_scope.

(** Price and side of an order, and its owner. *)
Abbreviation Contents := (gmap Id (N * Side * Hash32)).

Section BookInv.
Context {PA : PriceLevelApi} {WC : WallClock}.

Implicit Types (R : Contents) (b : OrderBook).

Definition drop_ids (F : list Id) R : Contents := filter (fun kv => kv.1 ∉ F) R.

Record rests b R : Prop := {
  rests_price : forall s p lv, levels s b !! p = Some lv -> pl_price lv = p;
  rests_nodup : forall s p lv, levels s b !! p = Some lv -> NoDup (queue_ids lv);
  rests_iff : forall id p s u, R !! id = Some (p, s, u) <->
    exists lv, levels s b !! p = Some lv /\ (id, u) ∈ (order_key <$> queue lv);
}.

Record owners (m : gmap Hash32 (list Id)) R : Prop := {
  owners_wf : forall u ids, m !! u = Some ids -> ids <> [] /\ NoDup ids;
  owners_iff : forall u id, (exists ids, m !! u = Some ids /\ id ∈ ids) <->
    exists loc, R !! id = Some (loc, u);
}.

Definition indexed b R : Prop := locations b = fst <$> R /\ owners (users b) R.

(** The orders resting at a price, oldest first. *)
Definition queue_at (s : Side) (p : N) b : list (OrderType unit) :=
  from_option queue [] (levels s b !! p).

Definition no_empty_level b : Prop :=
  forall s p lv, levels s b !! p = Some lv -> queue lv <> [].

Definition cache_ok b : Prop :=
  coherent (sm_back (levels Buy b)) (sm_front (levels Sell b)) (cache b).

Record book_rep b R : Prop := {
  rep_rests : rests b R;
  rep_indexed : indexed b R;
  rep_no_empty : no_empty_level b;
  rep_cache : cache_ok b;
}.

(** ** Effects that leave the content alone *)

Definition same_core b b' : Prop :=
  indices b' = indices b /\ book_config b' = book_config b.

(** Nothing observable through the indices changes and the cache stays right. *)
Definition quiet b b' : Prop :=
  same_core b b' /\ (cache_ok b -> cache_ok b').

#[export] Instance same_core_preorder : PreOrder same_core.
Proof. split; [by intros ?|]. intros ??? [??] [??]. split; congruence. Qed.
#[export] Instance quiet_preorder : PreOrder quiet.
Proof.
  split; [by intros ?|]. intros x y z [H1 H2] [H3 H4]. split; [by etransitivity|auto].
Qed.

Lemma same_core_levels b b' s : same_core b b' -> levels s b' = levels s b.
Proof. intros [Hi _]. unfold levels. by rewrite Hi. Qed.
Lemma same_core_locations b b' : same_core b b' -> locations b' = locations b.
Proof. intros [Hi _]. unfold locations. by rewrite Hi. Qed.
Lemma same_core_users b b' : same_core b b' -> users b' = users b.
Proof. intros [Hi _]. unfold users. by rewrite Hi. Qed.

Lemma queue_at_levels b b' s p :
  levels s b' !! p = levels s b !! p -> queue_at s p b' = queue_at s p b.
Proof. unfold queue_at. by intros ->. Qed.

#[export] Instance rests_proper : Proper (same_core ==> (=) ==> impl) rests.
Proof.
  intros b b' Hc R ? <- [H1 H2 H3]. split; intros *; rewrite !(same_core_levels _ _ _ Hc); eauto.
Qed.
#[export] Instance indexed_proper : Proper (same_core ==> (=) ==> impl) indexed.
Proof.
  intros b b' Hc R ? <- [H1 H2]. split.
  - by rewrite (same_core_locations _ _ Hc).
  - by rewrite (same_core_users _ _ Hc).
Qed.
#[export] Instance no_empty_proper : Proper (same_core ==> impl) no_empty_level.
Proof. intros b b' Hc Hn s p lv. rewrite (same_core_levels _ _ _ Hc). apply Hn. Qed.

Lemma rests_core b b' R : same_core b b' -> rests b R -> rests b' R.
Proof. intros Hc. exact (rests_proper _ _ Hc _ _ eq_refl). Qed.
Lemma indexed_core b b' R : same_core b b' -> indexed b R -> indexed b' R.
Proof. intros Hc. exact (indexed_proper _ _ Hc _ _ eq_refl). Qed.

Lemma indexed_same b b' R :
  locations b' = locations b -> users b' = users b -> indexed b R -> indexed b' R.
Proof. intros Hl Hu [H1 H2]. split; congruence. Qed.

Lemma rests_same_levels b b' R :
  (forall s, levels s b' = levels s b) -> rests b R -> rests b' R.
Proof. intros Hl [H1 H2 H3]. split; intros *; rewrite !Hl; eauto. Qed.

Lemma book_rep_quiet b b' R : quiet b b' -> book_rep b R -> book_rep b' R.
Proof.
  intros [Hc Hk] [H1 H2 H3 H4]. split; [..|auto].
  - exact (rests_proper _ _ Hc _ _ eq_refl H1).
  - exact (indexed_proper _ _ Hc _ _ eq_refl H2).
  - exact (no_empty_proper _ _ Hc H3).
Qed.

(** ** The helpers of the book are quiet *)

Lemma quiet_same b b' :
  indices b' = indices b -> book_config b' = book_config b -> cache b' = cache b -> quiet b b'.
Proof.
  intros Hi Hc Hk. split; [done|]. unfold cache_ok, levels. by rewrite Hi, Hk.
Qed.

Lemma quiet_invalidate b : quiet b (set_cache invalidate b).
Proof. split; [done|]. intros _. apply coherent_invalidate. Qed.

(** With a coherent cache the best prices are the true ones. *)
Lemma best_bid_exact b : cache_ok b -> (best_bid b).1 = sm_back (levels Buy b).
Proof.
  intros [Hb _]. unfold best_bid. destruct (get_cached_best_bid (cache b)) as [p|] eqn:E; [|done].
  symmetry. by apply Hb.
Qed.
Lemma best_ask_exact b : cache_ok b -> (best_ask b).1 = sm_front (levels Sell b).
Proof.
  intros [_ Ha]. unfold best_ask. destruct (get_cached_best_ask (cache b)) as [p|] eqn:E; [|done].
  symmetry. by apply Ha.
Qed.

Lemma quiet_best_bid : runs_in quiet best_bid.
Proof.
  intros b. unfold best_bid. destruct (get_cached_best_bid _); simpl; [reflexivity|].
  split; [done|]. intros Hc. by apply coherent_update_bid.
Qed.
Lemma quiet_best_ask : runs_in quiet best_ask.
Proof.
  intros b. unfold best_ask. destruct (get_cached_best_ask _); simpl; [reflexivity|].
  split; [done|]. intros Hc. by apply coherent_update_ask.
Qed.

Lemma quiet_next_engine_seq : runs_in quiet next_engine_seq.
Proof. intros b. by apply quiet_same. Qed.
Lemma quiet_clock_now : runs_in quiet clock_now.
Proof. intros b. unfold clock_now. destruct (now_millis _). by apply quiet_same. Qed.
Lemma quiet_on_risk {A} (c : ST RiskState A) : runs_in quiet (on_risk c).
Proof. intros b. unfold on_risk. destruct (c _). by apply quiet_same. Qed.

Lemma quiet_mod (f : OrderBook -> OrderBook) :
  (forall b, indices (f b) = indices b) -> (forall b, book_config (f b) = book_config b) ->
  (forall b, cache (f b) = cache b) -> runs_in quiet (smod f).
Proof. intros H1 H2 H3 b. apply quiet_same; simpl; auto. Qed.

Lemma quiet_track_state id st : runs_in quiet (smod (track_state id st)).
Proof. by apply quiet_mod. Qed.
Lemma quiet_push_event e : runs_in quiet (smod (push_event e)).
Proof. by apply quiet_mod. Qed.
Lemma quiet_set_risk f : runs_in quiet (smod (set_risk f)).
Proof. by apply quiet_mod. Qed.
Lemma quiet_set_last_trade p : runs_in quiet (smod (set_last_trade p)).
Proof. by apply quiet_mod. Qed.
Lemma quiet_set_special f g : runs_in quiet (smod (set_special f g)).
Proof. by apply quiet_mod. Qed.
Lemma quiet_unregister id : runs_in quiet (smod (unregister_special id)).
Proof. by apply quiet_mod. Qed.
Lemma quiet_invalidate_op : runs_in quiet (smod (set_cache invalidate)).
Proof. intros b. apply quiet_invalidate. Qed.
End BookInv.

#[export] Hint Resolve quiet_best_bid quiet_best_ask quiet_next_engine_seq quiet_clock_now
  quiet_on_risk quiet_track_state quiet_push_event quiet_set_risk quiet_set_last_trade
  quiet_set_special quiet_unregister quiet_invalidate_op : runs.

Section Quiet.
Context {PA : PriceLevelApi} {WC : WallClock}.

Lemma quiet_notify_level s lv : runs_in quiet (notify_level s lv).
Proof. unfold notify_level. runs. Qed.
Lemma quiet_will_cross p s : runs_in quiet (will_cross_market p s).
Proof. unfold will_cross_market. runs. Qed.
Lemma quiet_has_expired {T} (o : OrderType T) : runs_in quiet (has_expired o).
Proof. unfold has_expired. runs. Qed.
Lemma quiet_resolve src : runs_in quiet (resolve_reference_price src).
Proof. unfold resolve_reference_price. runs. Qed.
Lemma quiet_risk_limit a p q : runs_in quiet (check_risk_limit_admission a p q).
Proof. unfold check_risk_limit_admission, risk_reference. pose proof quiet_resolve. runs. Qed.
Lemma quiet_risk_modify id a p q : runs_in quiet (check_risk_modify_admission id a p q).
Proof. unfold check_risk_modify_admission, risk_reference. pose proof quiet_resolve. runs. Qed.
Lemma quiet_kill_or_reject id : runs_in quiet (check_kill_switch_or_reject id).
Proof. unfold check_kill_switch_or_reject. runs. Qed.
Lemma quiet_kill : runs_in quiet check_kill_switch.
Proof. unfold check_kill_switch. runs. Qed.
End Quiet.

#[export] Hint Resolve quiet_notify_level quiet_will_cross quiet_has_expired quiet_risk_limit
  quiet_risk_modify quiet_kill_or_reject quiet_kill : runs.

(** ** Changing the levels *)

Section Levels.
Context {PA : PriceLevelApi} {PL : PriceLevelLaws} {WC : WallClock}.
Implicit Types (R : Contents) (b : OrderBook).

Lemma levels_set_side s s' f b :
  levels s' (set_side s f b) = if decide (s' = s) then f (levels s b) else levels s' b.
Proof. by destruct s, s'. Qed.
Lemma levels_insert_eq s p lv b : levels s (set_side s <[p:=lv]> b) !! p = Some lv.
Proof. rewrite levels_set_side, decide_True by done. apply lookup_insert_eq. Qed.
Lemma levels_insert_ne s s' p p' lv b :
  (s', p') <> (s, p) -> levels s' (set_side s <[p:=lv]> b) !! p' = levels s' b !! p'.
Proof.
  intros Hne. rewrite levels_set_side. case_decide as Hs; [subst|done].
  apply lookup_insert_ne. congruence.
Qed.
Lemma levels_insert_Some s s' p p' lv lv' b :
  levels s' (set_side s <[p:=lv]> b) !! p' = Some lv' <->
  (s', p') = (s, p) /\ lv' = lv \/ (s', p') <> (s, p) /\ levels s' b !! p' = Some lv'.
Proof.
  destruct (decide ((s', p') = (s, p))) as [[= -> ->]|Hne].
  - rewrite levels_insert_eq. naive_solver.
  - rewrite levels_insert_ne by done. naive_solver.
Qed.
Lemma levels_delete_Some s s' p p' lv' b :
  levels s' (set_side s (delete p) b) !! p' = Some lv' <->
  (s', p') <> (s, p) /\ levels s' b !! p' = Some lv'.
Proof.
  rewrite levels_set_side. case_decide as Hs; [subst|].
  - rewrite lookup_delete_Some. naive_solver.
  - naive_solver.
Qed.

Lemma locations_set_side s f b : locations (set_side s f b) = locations b.
Proof. by destruct s. Qed.
Lemma users_set_side s f b : users (set_side s f b) = users b.
Proof. by destruct s. Qed.
Lemma indexed_set_side s f b R : indexed b R -> indexed (set_side s f b) R.
Proof. intros [H1 H2]. split; [by rewrite locations_set_side|by rewrite users_set_side]. Qed.

(** Replace (or create) the level at one price: the content changes at that
    price only. *)
Lemma rests_replace b R R' s p lv' :
  rests b R -> pl_price lv' = p -> NoDup (queue_ids lv') ->
  (forall id u, R' !! id = Some (p, s, u) <-> (id, u) ∈ (order_key <$> queue lv')) ->
  (forall id p' s' u, (s', p') <> (s, p) ->
     R' !! id = Some (p', s', u) <-> R !! id = Some (p', s', u)) ->
  rests (set_side s <[p:=lv']> b) R'.
Proof.
  intros [Hp Hnd Hiff] Hp' Hnd' Hin Hout. split.
  - intros s1 p1 lv1 [[[= -> ->] ->]|[_ H1]]%levels_insert_Some; eauto.
  - intros s1 p1 lv1 [[[= -> ->] ->]|[_ H1]]%levels_insert_Some; eauto.
  - intros id p1 s1 u. destruct (decide ((s1, p1) = (s, p))) as [[= -> ->]|Hne].
    + rewrite Hin, levels_insert_eq. naive_solver.
    + by rewrite Hout, levels_insert_ne, Hiff.
Qed.

(** Remove a level whose queue is empty. *)
Lemma rests_remove_empty b R s p lv :
  rests b R -> levels s b !! p = Some lv -> queue lv = [] ->
  rests (set_side s (delete p) b) R.
Proof.
  intros [Hp Hnd Hiff] Hlv Hq. split.
  - intros s1 p1 lv1 [_ H1]%levels_delete_Some. eauto.
  - intros s1 p1 lv1 [_ H1]%levels_delete_Some. eauto.
  - intros id p1 s1 u. rewrite Hiff. split; intros (lv1 & H1 & Hin).
    + exists lv1. rewrite levels_delete_Some. split; [|done]. split; [|done].
      intros [= -> ->]. rewrite Hlv in H1. simplify_eq. rewrite Hq in Hin. by apply elem_of_nil in Hin.
    + apply levels_delete_Some in H1 as [_ H1]. eauto.
Qed.

Lemma drop_ids_Some F R id x : drop_ids F R !! id = Some x <-> R !! id = Some x /\ id ∉ F.
Proof. unfold drop_ids. by rewrite map_lookup_filter_Some. Qed.

Lemma drop_ids_nil R : drop_ids [] R = R.
Proof. apply map_eq. intros id. apply option_eq. intros x. rewrite drop_ids_Some. set_solver. Qed.

Lemma drop_ids_app F G R : drop_ids (F ++ G) R = drop_ids G (drop_ids F R).
Proof.
  apply map_eq. intros id. apply option_eq. intros x. rewrite !drop_ids_Some, elem_of_app. tauto.
Qed.

Lemma drop_ids_cons id F R : drop_ids (id :: F) R = drop_ids F (delete id R).
Proof.
  apply map_eq. intros i. apply option_eq. intros x.
  rewrite !drop_ids_Some, lookup_delete_Some, elem_of_cons. naive_solver.
Qed.

Lemma drop_ids_singleton id R : drop_ids [id] R = delete id R.
Proof. by rewrite drop_ids_cons, drop_ids_nil. Qed.

Lemma drop_ids_delete id F R : drop_ids F (delete id R) = delete id (drop_ids F R).
Proof.
  apply map_eq. intros i. apply option_eq. intros x.
  rewrite drop_ids_Some, !lookup_delete_Some, drop_ids_Some. tauto.
Qed.

(** A level whose queue loses exactly the ids of [F]. *)
Lemma rests_shrink b R s p lv lv' F :
  rests b R -> levels s b !! p = Some lv -> pl_price lv' = pl_price lv ->
  (order_key <$> queue lv') ≡ₚ filter (fun k => k.1 ∉ F) (order_key <$> queue lv) ->
  (forall id, id ∈ F -> id ∈ queue_ids lv) ->
  rests (set_side s <[p:=lv']> b) (drop_ids F R).
Proof.
  intros Hr Hlv Hp Hq HF. pose proof Hr as [Hp0 Hnd Hiff]. apply (rests_replace b R); [done|..].
  - rewrite Hp. eauto.
  - rewrite queue_ids_keys, Hq. specialize (Hnd _ _ _ Hlv). rewrite queue_ids_keys in Hnd.
    eapply sublist_NoDup; [exact Hnd|]. apply fmap_sublist, sublist_filter.
  - intros id u. rewrite drop_ids_Some, Hiff, Hq, list_elem_of_filter. simpl. naive_solver.
  - intros id p' s' u Hne. rewrite drop_ids_Some. split; [tauto|]. intros HR. split; [done|].
    intros HF'. apply HF in HF'. rewrite queue_ids_keys, list_elem_of_fmap in HF'.
    destruct HF' as ([id' u'] & -> & Hin).
    assert (R !! id' = Some (p, s, u')) by (apply Hiff; eauto). simpl in *. congruence.
Qed.

(** A resting id belongs to one level, with one owner. *)
Lemma rests_level b R s p lv id :
  rests b R -> levels s b !! p = Some lv -> id ∈ queue_ids lv ->
  exists u, R !! id = Some (p, s, u) /\ (id, u) ∈ (order_key <$> queue lv).
Proof.
  intros [_ _ Hiff] Hlv Hin. rewrite queue_ids_keys, list_elem_of_fmap in Hin.
  destruct Hin as ([id' u] & -> & Hin). exists u. rewrite Hiff. simpl. eauto.
Qed.

(** ** Cancelling at a level *)

Lemma head_filter_id (l : list (OrderType unit)) id :
  match head (filter (fun o => o_id o = id) l) with
  | Some o => o ∈ l /\ o_id o = id
  | None => id ∉ (o_id <$> l)
  end.
Proof.
  induction l as [|o l IH]; [by intros ?%elem_of_nil|].
  rewrite filter_cons. case_decide; simpl; [by split; [left|]|].
  destruct (head _); [destruct IH; split; [by right|done]|].
  intros [?|?]%elem_of_cons; [congruence|by apply IH].
Qed.

Lemma cancel_keys lv lv' r id :
  pl_update_order lv (Cancel id) = (lv', r) ->
  (order_key <$> queue lv') = filter (fun k => k.1 ∉ [id]) (order_key <$> queue lv).
Proof.
  intros (_ & -> & _)%pl_cancel_spec. rewrite list_filter_fmap. f_equal.
  apply list_filter_ext. intros o _. simpl. rewrite list_elem_of_singleton. tauto.
Qed.

Lemma rests_cancel b R s p lv lv' r id :
  rests b R -> levels s b !! p = Some lv ->
  pl_update_order lv (Cancel id) = (lv', r) ->
  match r with
  | Ok (Some o) => rests (set_side s <[p:=lv']> b) (delete id R) /\
      o_id o = id /\ R !! id = Some (p, s, o_user_id o)
  | Ok None => rests (set_side s <[p:=lv']> b) R /\ (id ∉ queue_ids lv) /\ queue lv' = queue lv
  | Err _ => False
  end.
Proof.
  intros Hr Hlv Hu. pose proof (cancel_keys _ _ _ _ Hu) as Hk.
  apply pl_cancel_spec in Hu as (-> & Hq & Hp). pose proof (head_filter_id (queue lv) id) as Hh.
  destruct (head _) as [o|].
  - destruct Hh as [Hin Hid]. rewrite <- drop_ids_singleton. split_and!; [|done|].
    + eapply rests_shrink; [done..|by rewrite Hk|]. intros i ->%list_elem_of_singleton.
      apply list_elem_of_fmap. eauto.
    + destruct Hr as [_ _ Hiff]. apply Hiff. exists lv. split; [done|].
      apply list_elem_of_fmap. exists o. by rewrite <- Hid.
  - assert (Hq' : queue lv' = queue lv).
    { rewrite Hq. apply list_filter_all. intros o Ho Hid. apply Hh.
      rewrite <- Hid. by apply list_elem_of_fmap_2. }
    split_and!; [|done|done]. rewrite <- (drop_ids_nil R).
    eapply rests_shrink; [done..| |by intros ? ?%elem_of_nil].
    rewrite Hq'. rewrite list_filter_all; [done|]. intros ? _. apply not_elem_of_nil.
Qed.

(** ** The user index *)

Lemma owners_remove m R u ids ids' id :
  owners m R -> m !! u = Some ids -> NoDup ids' ->
  (forall i, i ∈ ids' <-> i ∈ ids /\ i <> id) -> id ∈ ids ->
  owners (if decide (ids' = []) then delete u m else <[u:=ids']> m) (delete id R).
Proof.
  intros [Hwf Hiff] Hu Hnd Hids Hid.
  assert (Hother : forall u', u' <> u ->
    (if decide (ids' = []) then delete u m else <[u:=ids']> m) !! u' = m !! u')
    by (intros u' Hne; case_decide; [by rewrite lookup_delete_ne|by rewrite lookup_insert_ne]).
  assert (Hself : forall l, (if decide (ids' = []) then delete u m else <[u:=ids']> m) !! u = Some l <->
    l = ids' /\ ids' <> []).
  { intros l. case_decide; [rewrite lookup_delete_eq|rewrite lookup_insert_eq]; naive_solver. }
  split.
  - intros u' l Hl. destruct (decide (u' = u)) as [->|Hne]; [apply Hself in Hl as [-> ?]; done|].
    rewrite Hother in Hl by done. eauto.
  - intros u' i. destruct (decide (u' = u)) as [->|Hne].
    + transitivity (i ∈ ids').
      * setoid_rewrite Hself. split; [naive_solver|]. intros Hi. exists ids'.
        split_and!; [done|by intros ->; apply elem_of_nil in Hi|done].
      * rewrite Hids. setoid_rewrite lookup_delete_Some.
        pose proof (Hiff u i) as Hi. rewrite Hu in Hi. split.
        -- intros [Hin Hne]. destruct (proj1 Hi) as [loc Hloc]; eauto.
        -- intros (loc & Hne & Hloc). destruct (proj2 Hi) as (l & [= <-] & Hin); eauto.
    + rewrite Hother by done. rewrite Hiff. setoid_rewrite lookup_delete_Some. split.
      * intros [loc Hloc]. exists loc. split; [|done]. intros <-.
        destruct (proj1 (Hiff u id)) as [loc' Hloc']; [eauto|]. congruence.
      * naive_solver.
Qed.

Lemma NoDup_swap_remove {A} (l : list A) i x :
  NoDup l -> l !! i = Some x ->
  NoDup (swap_remove i l) /\ forall y, y ∈ swap_remove i l <-> y ∈ l /\ y <> x.
Proof.
  intros Hnd Hi. pose proof (swap_remove_perm l i x Hi) as Hp.
  rewrite <- Hp in Hnd. apply NoDup_cons in Hnd as [Hx Hnd]. split; [done|].
  intros y. assert (Hy : y ∈ l <-> y ∈ x :: swap_remove i l) by (by rewrite Hp).
  rewrite Hy, elem_of_cons. split; [intros; split; [auto|congruence]|naive_solver].
Qed.

Lemma owners_untrack_user R id u loc b :
  owners (users b) R -> R !! id = Some (loc, u) ->
  owners (users (untrack_user_order u id b)) (delete id R).
Proof.
  intros Ho HR. pose proof Ho as [Hwf Hiff].
  destruct (proj2 (Hiff u id)) as (ids & Hu & Hin); [eauto|].
  change (users (untrack_user_order u id b)) with
    (match users b !! u with
     | Some ids => let ids' := filter (fun i => i <> id) ids in
         if decide (ids' = []) then delete u (users b) else <[u := ids']> (users b)
     | None => users b end).
  rewrite Hu. simpl. eapply owners_remove; [done|done|apply NoDup_filter; by eapply Hwf| |done].
  intros i. rewrite list_elem_of_filter. tauto.
Qed.

Lemma find_owner_Some id l u ids pos :
  find_owner id l = Some (u, ids, pos) -> (u, ids) ∈ l /\ ids !! pos = Some id.
Proof.
  induction l as [|[u' ids'] l IH]; simpl; [done|].
  destruct (list_find _ ids') as [[i x]|] eqn:E.
  - intros [= -> -> ->]. apply list_find_Some in E as (Hi & -> & _). split; [left|done].
  - intros [? ?]%IH. split; [by right|done].
Qed.
Lemma find_owner_None id l :
  find_owner id l = None -> forall u ids, (u, ids) ∈ l -> id ∉ ids.
Proof.
  induction l as [|[u' ids'] l IH]; simpl; [by intros _ ? ? ?%elem_of_nil|].
  destruct (list_find _ ids') as [[i x]|] eqn:E; [done|].
  intros Hn u ids [[= -> ->]|Hin]%elem_of_cons; [|by eapply IH].
  apply list_find_None in E. rewrite Forall_forall in E. intros Hid. by apply (E _ Hid).
Qed.

Lemma owners_untrack_id R id b :
  owners (users b) R -> owners (users (untrack_order_by_id id b)) (delete id R).
Proof.
  intros Ho. pose proof Ho as [Hwf Hiff].
  change (users (untrack_order_by_id id b)) with
    (match find_owner id (map_to_list (users b)) with
     | Some (user, ids, pos) => let ids' := swap_remove pos ids in
         if decide (ids' = []) then delete user (users b) else <[user := ids']> (users b)
     | None => users b end).
  destruct (find_owner _ _) as [[[u ids] pos]|] eqn:E.
  - apply find_owner_Some in E as [Hu%elem_of_map_to_list Hpos].
    destruct (Hwf _ _ Hu) as [_ Hnd]. destruct (NoDup_swap_remove _ _ _ Hnd Hpos) as [Hnd' Hin].
    cbv zeta. eapply owners_remove; [done..|]. by eapply list_elem_of_lookup_2.
  - rewrite delete_id; [done|]. destruct (R !! id) as [[loc u]|] eqn:ER; [|done]. exfalso.
    destruct (proj2 (Hiff u id)) as (ids & Hu & Hin); [eauto|].
    apply (find_owner_None _ _ E u ids); [by apply elem_of_map_to_list|done].
Qed.

Lemma owners_track R id u loc b :
  owners (users b) R -> R !! id = None ->
  owners (users (track_user_order u id b)) (<[id:=(loc, u)]> R).
Proof.
  intros [Hwf Hiff] HR.
  change (users (track_user_order u id b)) with
    (<[u := default [] (users b !! u) ++ [id]]> (users b)).
  assert (Hold : forall i, i ∈ default [] (users b !! u) <-> exists loc, R !! i = Some (loc, u)).
  { intros i. rewrite <- Hiff. destruct (users b !! u); simpl; [naive_solver|].
    split; [by intros ?%elem_of_nil|naive_solver]. }
  assert (Hnew : id ∉ default [] (users b !! u)).
  { rewrite Hold. intros [? ?]. congruence. }
  split.
  - intros u' l. destruct (decide (u' = u)) as [->|Hne].
    + rewrite lookup_insert_eq. intros [= <-]. split; [by destruct (default _ _)|].
      apply NoDup_app. split_and!; [|set_solver|apply NoDup_singleton].
      destruct (users b !! u) eqn:E; simpl; [by eapply Hwf|constructor].
    + rewrite lookup_insert_ne by done. apply Hwf.
  - intros u' i. destruct (decide (u' = u)) as [->|Hne].
    + rewrite lookup_insert_eq. transitivity (i ∈ default [] (users b !! u) \/ i = id).
      { split; [intros (l & [= <-] & Hi)|intros Hi; eexists; split; [done|]];
          rewrite elem_of_app, list_elem_of_singleton in *; done. }
      rewrite Hold. destruct (decide (i = id)) as [->|Hi].
      * rewrite lookup_insert_eq. naive_solver.
      * rewrite lookup_insert_ne by done. naive_solver.
    + rewrite lookup_insert_ne by done. rewrite Hiff. destruct (decide (i = id)) as [->|Hi].
      * rewrite lookup_insert_eq, HR. naive_solver.
      * by rewrite lookup_insert_ne.
Qed.

(** ** The content as a function *)

(** The content read off the levels. *)
Definition level_entries (s : Side) b : list (Id * (N * Side * Hash32)) :=
  kv ← map_to_list (levels s b); (fun o => (o_id o, (kv.1, s, o_user_id o))) <$> queue kv.2.
Definition content b : Contents := list_to_map (level_entries Buy b ++ level_entries Sell b).

Lemma level_entries_elem s b id x :
  (id, x) ∈ level_entries s b <->
  exists p lv u, levels s b !! p = Some lv /\ (id, u) ∈ (order_key <$> queue lv) /\ x = (p, s, u).
Proof.
  unfold level_entries. rewrite list_elem_of_bind. split.
  - intros ([p lv] & Hin & Hlv%elem_of_map_to_list). apply list_elem_of_fmap in Hin as (o & [= -> ->] & Ho).
    exists p, lv, (o_user_id o). split_and!; [done| |done]. apply list_elem_of_fmap. by exists o.
  - intros (p & lv & u & Hlv & Hin & ->). apply list_elem_of_fmap in Hin as (o & [= -> ->] & Ho).
    exists (p, lv). split; [|by apply elem_of_map_to_list]. apply list_elem_of_fmap. by exists o.
Qed.

(** A book represents one content only, and it can be computed. *)
Lemma rests_content b R : rests b R -> R = content b.
Proof.
  intros [_ _ Hiff].
  assert (Hel : forall id x, (id, x) ∈ level_entries Buy b ++ level_entries Sell b <-> R !! id = Some x).
  { intros id [[p s] u]. rewrite elem_of_app, !level_entries_elem, Hiff. split.
    - intros [(? & lv & ? & ? & ? & [= <- -> <-])|(? & lv & ? & ? & ? & [= <- -> <-])]; eauto.
    - intros (lv & Hlv & Hin). destruct s; [left|right]; exists p, lv, u; done. }
  apply map_eq. intros id. apply option_eq. intros x. rewrite <- Hel. unfold content. split.
  - intros Hx. apply elem_of_list_to_map_1'; [|done]. intros y Hy%Hel. apply Hel in Hx. congruence.
  - apply elem_of_list_to_map_2.
Qed.
End Levels.
