(* ===== verification/Matching.v ===== *)
(** * The matching engine (matching.rs)

    One walk over the opposite side of the book, best price first, drives
    both the base-quantity and the quote-notional matches.  The walk's local
    variables are the record [Walk]; the book is the state of the
    computation.  [peek_match] and [fok_fillable_quantity] are the dry runs
    over the same levels. *)

From S2P Require Import Prelude Types PriceLevel OrderQuantity Fees Stp Clock Cache Risk OrderState Reject SkipMap Book.
Local Open Scope N_scope.

Inductive MatchMode :=
| BaseQty (quantity : N) (limit_price : option N)
| QuoteAmount (amount : N).

Definition limit_price (mode : MatchMode) : option N :=
  match mode with BaseQty _ limit => limit | QuoteAmount _ => None end.

Definition initial_match_quantity (mode : MatchMode) : N :=
  match mode with BaseQty q _ => q | QuoteAmount _ => U64_MAX end.

Inductive StopCondition :=
| StopBase (remaining : N)
| StopQuote (remaining : N).

Definition from_mode (mode : MatchMode) : StopCondition :=
  match mode with BaseQty q _ => StopBase q | QuoteAmount amount => StopQuote amount end.

Definition round_down_to_lot (lot raw : N) : N :=
  if lot <=? 1 then raw else raw - raw mod lot.

Definition level_qty_cap (stop : StopCondition) (level_price lot : N) : N :=
  match stop with
  | StopBase remaining => round_down_to_lot lot remaining
  | StopQuote remaining =>
      if (level_price =? 0) || (remaining <? level_price) then 0
      else round_down_to_lot lot (N.min (remaining / level_price) U64_MAX)
  end.

Definition consume (stop : StopCondition) (executed_qty level_price : N) : StopCondition :=
  match stop with
  | StopBase remaining => StopBase (sat_sub remaining executed_qty)
  | StopQuote remaining =>
      StopQuote (sat_sub remaining (sat_mul U128_MAX level_price executed_qty))
  end.

Definition is_done (stop : StopCondition) : bool :=
  match stop with StopBase remaining => remaining =? 0 | StopQuote remaining => remaining =? 0 end.

(** The price limit of a level walk: past it, the walk stops. *)
Definition beyond_limit (side : Side) (limit : option N) (price : N) : bool :=
  match limit with
  | Some limit => match side with Buy => limit <? price | Sell => price <? limit end
  | None => false
  end.

Section Matching.
Context {PA : PriceLevelApi} {WC : WallClock}.

Record MatchOutcome := {
  result : MatchResult;
  taker_stp_cancelled : bool;
  taker_post_only_rejected : bool;
}.

Definition resting (r : MatchResult) : MatchOutcome :=
  {| result := r; taker_stp_cancelled := false; taker_post_only_rejected := false |}.

(** The local variables of the walk. *)
Record Walk := {
  match_result : MatchResult;
  stop : StopCondition;
  filled_orders : list (Id * N);
  empty_price_levels : list N;
  stp_taker_cancelled : bool;
  post_only_rejected : bool;
}.

Definition walk_start (order_id : Id) (mode : MatchMode) : Walk :=
  {| match_result := mr_new order_id (initial_match_quantity mode); stop := from_mode mode;
     filled_orders := []; empty_price_levels := [];
     stp_taker_cancelled := false; post_only_rejected := false |}.

Definition set_stop (s : StopCondition) (w : Walk) : Walk :=
  {| match_result := match_result w; stop := s; filled_orders := filled_orders w;
     empty_price_levels := empty_price_levels w; stp_taker_cancelled := stp_taker_cancelled w;
     post_only_rejected := post_only_rejected w |}.
Definition mark_empty (price : N) (w : Walk) : Walk :=
  {| match_result := match_result w; stop := stop w; filled_orders := filled_orders w;
     empty_price_levels := empty_price_levels w ++ [price];
     stp_taker_cancelled := stp_taker_cancelled w; post_only_rejected := post_only_rejected w |}.
Definition mark_stp (w : Walk) : Walk :=
  {| match_result := match_result w; stop := stop w; filled_orders := filled_orders w;
     empty_price_levels := empty_price_levels w; stp_taker_cancelled := true;
     post_only_rejected := post_only_rejected w |}.
Definition mark_post_only (w : Walk) : Walk :=
  {| match_result := match_result w; stop := stop w; filled_orders := filled_orders w;
     empty_price_levels := empty_price_levels w; stp_taker_cancelled := stp_taker_cancelled w;
     post_only_rejected := true |}.

(** The entries of a side in the order the sweep visits them. *)
Definition sweep_entries (side : Side) (b : OrderBook) : list (N * PriceLevel) :=
  match side with
  | Buy => sm_iter (levels Sell b)
  | Sell => reverse (sm_iter (levels Buy b))
  end.

(** [cancel_resting_maker_on_level] (modifications.rs): the level is the
    shared object stored at [price]; the cancelled level is written back. *)
Definition cancel_resting_maker_on_level (price : N) (level : PriceLevel) (side : Side)
    (order_id : Id) (reason : CancelReason) : ST OrderBook PriceLevel :=
  let '(level', r) := pl_update_order level (Cancel order_id) in
  do! smod (set_side side <[price := level']>) in
  match r with
  | Ok (Some cancelled) =>
      do! smod (set_cache invalidate) in
      do! notify_level side level' in
      let! filled := sget (prev_filled order_id) in
      do! smod (track_state order_id (Cancelled filled reason)) in
      do! smod (set_locations (delete order_id)) in
      do! smod (set_risk (on_cancel order_id)) in
      do! smod (untrack_user_order (o_user_id cancelled) order_id) in
      do! smod (unregister_special order_id) in
      sret level'
  | _ => sret level'
  end.

(** The CancelMaker arm's loop over the snapshot of the level. *)
Fixpoint cancel_own_makers (price : N) (level : PriceLevel) (side : Side) (user : Hash32)
    (orders : list (OrderType unit)) : ST OrderBook PriceLevel :=
  match orders with
  | [] => sret level
  | o :: orders' =>
      let! level' :=
        (if decide (o_user_id o = user)
         then cancel_resting_maker_on_level price level side (o_id o) SelfTradePrevention
         else sret level) in
      cancel_own_makers price level' side user orders'
  end.

(** [price_level.match_order(..)] on the level stored at [price] of the
    opposite side. *)
Definition match_level (side : Side) (price : N) (level : PriceLevel) (qty : N) (order_id : Id)
    (kind : TakerKind) (ts : N) : ST OrderBook (PriceLevel * MatchResult) := fun b =>
  let '(level', gen', m) :=
    pl_match_order level qty order_id Gtc kind ts (transaction_id_generator b) in
  ((level', m), set_generator gen' (set_side (opposite side) <[price := level']> b)).

(** [let _ = match_result.add_trade(..)] for every trade: an error is ignored. *)
Definition add_trades (m : MatchResult) (trades : list Trade) : MatchResult :=
  foldl (fun m t => default m (mr_add_trade m t)) m trades.

(** The true filled quantity of a maker, from the trades of one level. *)
Definition maker_filled (plm : MatchResult) (id : Id) : N :=
  sumN trade_quantity (filter (fun t => trade_maker_order_id t = id) (mr_trades plm)).

Definition process_level_match (w : Walk) (plm : MatchResult) (price : N) (level : PriceLevel)
    (side : Side) : ST OrderBook Walk :=
  do! swhen (negb (bool_decide (mr_trades plm = [])))
    (do! smod (set_last_trade price) in
     do! siter (fun t => smod (set_risk (on_fill (trade_maker_order_id t) (trade_quantity t)
                                                 (trade_price t)))) (mr_trades plm) in
     notify_level (opposite side) level) in
  let w' :=
    {| match_result :=
         foldl mr_add_filled_order_id (add_trades (match_result w) (mr_trades plm))
               (mr_filled_order_ids plm);
       stop := stop w;
       filled_orders := filled_orders w ++
         ((fun id => (id, maker_filled plm id)) <$> mr_filled_order_ids plm);
       empty_price_levels := empty_price_levels w;
       stp_taker_cancelled := stp_taker_cancelled w;
       post_only_rejected := post_only_rejected w |} in
  sret (if decide (pl_order_count level = 0%nat) then mark_empty price w' else w').

(** Match [qty] at a level, account for it and charge the budget. *)
Definition fill_level (w : Walk) (side : Side) (price : N) (level : PriceLevel) (qty : N)
    (order_id : Id) (ts : N) : ST OrderBook (Walk * PriceLevel) :=
  let! (level', plm) := match_level side price level qty order_id TakerStandard ts in
  let executed := sat_sub qty (mr_remaining_quantity plm) in
  let! w' := process_level_match w plm price level' side in
  sret (set_stop (consume (stop w') executed price) w', level').

(** The part of the CancelTaker and CancelBoth arms that fills up to the safe
    quantity. *)
Definition fill_safe (w : Walk) (side : Side) (price : N) (level : PriceLevel)
    (qty_cap safe_quantity : N) (order_id : Id) (ts : N) : ST OrderBook (Walk * PriceLevel) :=
  if 0 <? safe_quantity then
    let match_qty := N.min qty_cap safe_quantity in
    if 0 <? match_qty then fill_level w side price level match_qty order_id ts
    else sret (w, level)
  else sret (w, level).

(** What does not change during a walk. *)
Record Taker := {
  t_order_id : Id;
  t_side : Side;
  t_limit : option N;
  t_lot : N;
  t_user : Hash32;
  t_kind : TakerKind;
  t_ts : N;
  t_stp : STPMode;
}.

Definition stp_active (tk : Taker) : bool :=
  is_enabled (t_stp tk) && negb (bool_decide (t_user tk = Hash32_zero)).

(** The normal match of a level, and whether the walk goes on. *)
Definition normal_match (tk : Taker) (w : Walk) (price : N) (level : PriceLevel) (qty_cap : N) :
    ST OrderBook (Walk * bool) :=
  let! (w', _) := fill_level w (t_side tk) price level qty_cap (t_order_id tk) (t_ts tk) in
  sret (w', negb (is_done (stop w'))).

(** One iteration of the loop over the levels; [false] is its [break]. *)
Definition level_step (tk : Taker) (w : Walk) (price : N) (level : PriceLevel) :
    ST OrderBook (Walk * bool) :=
  if beyond_limit (t_side tk) (t_limit tk) price then sret (w, false)
  else
  let qty_cap := level_qty_cap (stop w) price (t_lot tk) in
  if qty_cap =? 0 then sret (w, false)
  else if decide (t_kind tk = TakerPostOnly) then
    let! (_, probe) :=
      match_level (t_side tk) price level qty_cap (t_order_id tk) (t_kind tk) (t_ts tk) in
    sret (if mr_was_rejected probe then (mark_post_only w, false) else (w, true))
  else if stp_active tk then
    let stp_orders := pl_snapshot_by_insertion_seq level in
    match check_stp_at_level stp_orders (t_user tk) (t_stp tk) with
    | NoConflict => normal_match tk w price level qty_cap
    | ActCancelTaker safe_quantity =>
        let! (w', _) :=
          fill_safe w (t_side tk) price level qty_cap safe_quantity (t_order_id tk) (t_ts tk) in
        sret (mark_stp w', false)
    | ActCancelMaker =>
        let! level' :=
          cancel_own_makers price level (opposite (t_side tk)) (t_user tk) stp_orders in
        if decide (pl_order_count level' = 0%nat) then sret (mark_empty price w, true)
        else normal_match tk w price level' qty_cap
    | ActCancelBoth safe_quantity maker_order_id =>
        let! (w', level') :=
          fill_safe w (t_side tk) price level qty_cap safe_quantity (t_order_id tk) (t_ts tk) in
        let! level'' :=
          cancel_resting_maker_on_level price level' (opposite (t_side tk)) maker_order_id
            SelfTradePrevention in
        let w'' := if decide (pl_order_count level'' = 0%nat) then mark_empty price w' else w' in
        sret (mark_stp w'', false)
    end
  else normal_match tk w price level qty_cap.

Fixpoint walk_levels (tk : Taker) (w : Walk) (entries : list (N * PriceLevel)) : ST OrderBook Walk :=
  match entries with
  | [] => sret w
  | (price, level) :: entries' =>
      let! (w', go) := level_step tk w price level in
      if go : bool then walk_levels tk w' entries' else sret w'
  end.

Definition no_liquidity (side : Side) (mode : MatchMode) : option OrderBookError :=
  match mode with
  | BaseQty quantity None => Some (InsufficientLiquidity side quantity 0)
  | QuoteAmount amount => Some (InsufficientLiquidityNotional side amount 0)
  | BaseQty _ (Some _) => None
  end.

Definition empty_book_result (side : Side) (mode : MatchMode) (m : MatchResult) :
    Result OrderBookError MatchResult :=
  match no_liquidity side mode with Some e => Err e | None => Ok m end.

Definition add_all_trades (m : MatchResult) (trades : list Trade) : option MatchResult :=
  foldl (fun om t => m ← om; mr_add_trade m t) (Some m) trades.

Definition normalize_notional_match_result (order_id : Id) (src : MatchResult) : MatchResult :=
  let executed_qty := sat_sum U64_MAX trade_quantity (mr_trades src) in
  match add_all_trades (mr_new order_id executed_qty) (mr_trades src) with
  | None => src
  | Some rebuilt => foldl mr_add_filled_order_id rebuilt (mr_filled_order_ids src)
  end.

(** The bookkeeping after the walk: empty levels leave the map, filled makers
    leave the indices. *)
Definition finish_walk (side : Side) (w : Walk) : ST OrderBook unit :=
  do! siter (fun price => smod (set_side (opposite side) (delete price))) (empty_price_levels w) in
  siter (fun '(filled_id, filled_quantity) =>
           do! smod (track_state filled_id (Filled filled_quantity)) in
           do! smod (set_locations (delete filled_id)) in
           smod (untrack_order_by_id filled_id)) (filled_orders w).

Definition match_order_inner (order_id : Id) (side : Side) (mode : MatchMode)
    (taker_user_id : Hash32) (taker_kind : TakerKind) :
    ST OrderBook (Result OrderBookError MatchOutcome) :=
  do! smod (set_cache invalidate) in
  let! cfg := sget book_config in
  let! taker_ts := clock_now in
  let! entries := sget (sweep_entries side) in
  let w0 := walk_start order_id mode in
  match entries with
  | [] => sret (result_map resting (empty_book_result side mode (match_result w0)))
  | _ =>
      let tk := {| t_order_id := order_id; t_side := side; t_limit := limit_price mode;
                   t_lot := default 1 (lot_size cfg); t_user := taker_user_id;
                   t_kind := taker_kind; t_ts := taker_ts; t_stp := stp_mode cfg |} in
      let! w := walk_levels tk w0 entries in
      do! finish_walk side w in
      let no_fills := bool_decide (mr_trades (match_result w) = []) in
      if stp_taker_cancelled w && no_fills then
        do! smod (track_state order_id (Cancelled 0 SelfTradePrevention)) in
        sret (Err (SelfTradePrevented (stp_mode cfg) order_id taker_user_id))
      else
        match (if no_fills then no_liquidity side mode else None) with
        | Some e => sret (Err e)
        | None =>
            let m := match mode with
                     | QuoteAmount _ => normalize_notional_match_result order_id (match_result w)
                     | BaseQty _ _ => match_result w
                     end in
            sret (Ok {| result := m; taker_stp_cancelled := stp_taker_cancelled w;
                        taker_post_only_rejected := post_only_rejected w |})
        end
  end.

(** ** Entry points *)

Definition match_order_with_user_outcome (order_id : Id) (side : Side) (quantity : N)
    (limit : option N) (taker_user_id : Hash32) (kind : TakerKind) :
    ST OrderBook (Result OrderBookError MatchOutcome) :=
  match_order_inner order_id side (BaseQty quantity limit) taker_user_id kind.

Definition match_order_with_user (order_id : Id) (side : Side) (quantity : N)
    (limit : option N) (taker_user_id : Hash32) : ST OrderBook (Result OrderBookError MatchResult) :=
  let? o := match_order_with_user_outcome order_id side quantity limit taker_user_id TakerStandard in
  sret (Ok (result o)).

Definition match_order (order_id : Id) (side : Side) (quantity : N) (limit : option N) :
    ST OrderBook (Result OrderBookError MatchResult) :=
  let? o := match_order_with_user_outcome order_id side quantity limit Hash32_zero TakerStandard in
  sret (Ok (result o)).

Definition match_order_by_amount_with_user (order_id : Id) (side : Side) (amount : N)
    (taker_user_id : Hash32) : ST OrderBook (Result OrderBookError MatchResult) :=
  let? o := match_order_inner order_id side (QuoteAmount amount) taker_user_id TakerStandard in
  sret (Ok (result o)).

(** The emission shared by the market and limit entry points of book.rs: a
    listener receives the result stamped with a fresh engine sequence. *)
Definition emit_trade_result (m : MatchResult) : ST OrderBook unit :=
  let! cfg := sget book_config in
  swhen (negb (bool_decide (mr_trades m = [])) && trade_listener cfg)
    (let! seq := next_engine_seq in
     let tr := with_fees (symbol cfg) m (fee_schedule cfg) in
     smod (push_event (TradeEmitted
       {| tr_symbol := tr_symbol tr; tr_match_result := tr_match_result tr;
          tr_total_maker_fees := tr_total_maker_fees tr;
          tr_total_taker_fees := tr_total_taker_fees tr; tr_engine_seq := seq;
          tr_quote_notional := tr_quote_notional tr |}))).

Definition match_market_order_with_user (order_id : Id) (quantity : N) (side : Side)
    (user_id : Hash32) : ST OrderBook (Result OrderBookError MatchResult) :=
  let? m := match_order_with_user order_id side quantity None user_id in
  do! emit_trade_result m in sret (Ok m).

Definition match_market_order (order_id : Id) (quantity : N) (side : Side) :
    ST OrderBook (Result OrderBookError MatchResult) :=
  match_market_order_with_user order_id quantity side Hash32_zero.

Definition match_market_order_by_amount_with_user (order_id : Id) (amount : N) (side : Side)
    (user_id : Hash32) : ST OrderBook (Result OrderBookError MatchResult) :=
  let? m := match_order_by_amount_with_user order_id side amount user_id in
  do! emit_trade_result m in sret (Ok m).

Definition match_market_order_by_amount (order_id : Id) (amount : N) (side : Side) :
    ST OrderBook (Result OrderBookError MatchResult) :=
  match_market_order_by_amount_with_user order_id amount side Hash32_zero.

Definition match_limit_order_with_user (order_id : Id) (quantity : N) (side : Side) (limit : N)
    (user_id : Hash32) : ST OrderBook (Result OrderBookError MatchResult) :=
  let? m := match_order_with_user order_id side quantity (Some limit) user_id in
  do! emit_trade_result m in sret (Ok m).

Definition match_limit_order (order_id : Id) (quantity : N) (side : Side) (limit : N) :
    ST OrderBook (Result OrderBookError MatchResult) :=
  match_limit_order_with_user order_id quantity side limit Hash32_zero.

Fixpoint match_orders_batch (orders : list (Id * Side * N * option N)) :
    ST OrderBook (list (Result OrderBookError MatchResult)) :=
  match orders with
  | [] => sret []
  | (order_id, side, quantity, limit) :: orders' =>
      let! r := match_order order_id side quantity limit in
      let! rs := match_orders_batch orders' in
      sret (r :: rs)
  end.

(** ** Dry runs *)

Fixpoint peek_levels (side : Side) (quantity : N) (limit : option N)
    (entries : list (N * PriceLevel)) (matched_quantity : N) : N :=
  match entries with
  | [] => matched_quantity
  | (price, level) :: entries' =>
      if quantity <=? matched_quantity then matched_quantity
      else if beyond_limit side limit price then matched_quantity
      else
        let available := match pl_total_quantity level with Ok q => q | Err _ => 0 end in
        let needed := sat_sub quantity matched_quantity in
        peek_levels side quantity limit entries'
          (sat_add U64_MAX matched_quantity (N.min needed available))
  end.

Definition peek_match (side : Side) (quantity : N) (price_limit : option N) (b : OrderBook) : N :=
  peek_levels side quantity price_limit (sweep_entries side b) 0.

(** The depth a level offers to the taker, and whether the walk ends there.
    The sum over the makers of other users is an unchecked u64 sum. *)
Definition fok_reachable (stp : STPMode) (active : bool) (user : Hash32) (taker_id : Id)
    (level : PriceLevel) (cap : N) : N * bool :=
  if active then
    let orders := pl_snapshot_by_insertion_seq level in
    match check_stp_at_level orders user stp with
    | NoConflict => (pl_matchable_quantity level cap taker_id, false)
    | ActCancelMaker =>
        (sumN order_matchable_qty (filter (fun o => o_user_id o <> user) orders) mod (U64_MAX + 1),
         false)
    | ActCancelTaker safe | ActCancelBoth safe _ => (safe, true)
    end
  else (pl_matchable_quantity level cap taker_id, false).

Fixpoint fok_levels (stp : STPMode) (active : bool) (side : Side) (quantity : N)
    (limit : option N) (lot : N) (user : Hash32) (taker_id : Id)
    (entries : list (N * PriceLevel)) (matched : N) : N :=
  match entries with
  | [] => matched
  | (price, level) :: entries' =>
      if quantity <=? matched then matched
      else if beyond_limit side limit price then matched
      else
        let needed := quantity - matched in
        let cap := round_down_to_lot lot needed in
        if cap =? 0 then matched
        else
          let '(reachable, stop_after) := fok_reachable stp active user taker_id level cap in
          let matched' := sat_add U64_MAX matched (N.min cap reachable) in
          if stop_after : bool then matched'
          else fok_levels stp active side quantity limit lot user taker_id entries' matched'
  end.

Definition fok_fillable_quantity (side : Side) (quantity : N) (price_limit : option N)
    (taker_user_id : Hash32) (taker_id : Id) (b : OrderBook) : N :=
  if quantity =? 0 then 0
  else
    let cfg := book_config b in
    let active := is_enabled (stp_mode cfg) && negb (bool_decide (taker_user_id = Hash32_zero)) in
    fok_levels (stp_mode cfg) active side quantity price_limit (default 1 (lot_size cfg))
      taker_user_id taker_id (sweep_entries side b) 0.
End Matching.
