(* ===== verification/MatchingInv.v ===== *)
(** * The sweep keeps the book's invariant

    During a walk the makers already filled have left the levels but are
    still indexed, and exhausted levels are still in the map: [walk_core] is
    the invariant of that intermediate state, [match_order_inner_rep] the
    invariant of the whole operation. *)

From S2P Require Import Prelude Types PriceLevel OrderQuantity Fees Stp Clock Cache Risk OrderState Reject SkipMap Book BookInv Matching.
Local Open Scope N_scope.

Section MatchingInv.
Context {PA : PriceLevelApi} {PL : PriceLevelLaws} {WC : WallClock}.
Implicit Types (R L : Contents) (b : OrderBook) (w : Walk).

(** ** Effects that touch neither the content nor an invalid cache *)

Definition cache_clear b : Prop := bid_valid (cache b) = false /\ ask_valid (cache b) = false.

Lemma cache_clear_ok b : cache_clear b -> cache_ok b.
Proof.
  intros [Hb Ha]. unfold cache_ok, coherent, get_cached_best_bid, get_cached_best_ask.
  by rewrite Hb, Ha.
Qed.

Definition still b b' : Prop := same_core b b' /\ (cache_clear b -> cache_clear b').

#[export] Instance still_preorder : PreOrder still.
Proof. split; [by intros ?|]. intros x y z [H1 H2] [H3 H4]. split; [by etransitivity|auto]. Qed.

Lemma still_same b b' :
  indices b' = indices b -> book_config b' = book_config b -> cache b' = cache b -> still b b'.
Proof. intros H1 H2 H3. split; [done|]. unfold cache_clear. by rewrite H3. Qed.

Lemma still_notify s lv : runs_in still (notify_level s lv).
Proof. unfold notify_level. runs; [intros ?|]; by apply still_same. Qed.
Local Hint Resolve still_notify : runs.

Lemma rests_still b b' R : still b b' -> rests b R -> rests b' R.
Proof. intros [Hc _]. exact (rests_proper _ _ Hc _ _ eq_refl). Qed.
Lemma indexed_still b b' R : still b b' -> indexed b R -> indexed b' R.
Proof. intros [Hc _]. exact (indexed_proper _ _ Hc _ _ eq_refl). Qed.
Lemma levels_still b b' s : still b b' -> levels s b' = levels s b.
Proof. intros [Hc _]. by apply same_core_levels. Qed.

(** ** What one level contributes *)

(** The walk after the trades of a level have been accounted for. *)
Definition absorb (w : Walk) (plm : MatchResult) (price : N) (level : PriceLevel) : Walk :=
  let w' :=
    {| match_result :=
         foldl mr_add_filled_order_id (add_trades (match_result w) (mr_trades plm))
               (mr_filled_order_ids plm);
       stop := stop w;
       filled_orders := filled_orders w ++
         ((fun id => (id, maker_filled plm id)) <$> mr_filled_order_ids plm);
       empty_price_levels := empty_price_levels w;
       stp_taker_cancelled := stp_taker_cancelled w;
       post_only_rejected := post_only_rejected w |} in
  if decide (pl_order_count level = 0%nat) then mark_empty price w' else w'.

Lemma process_level_match_spec w plm p lv side b w' b' :
  process_level_match w plm p lv side b = (w', b') -> still b b' /\ w' = absorb w plm p lv.
Proof.
  intros Hrun. unfold process_level_match in Hrun. st_inv Hrun. split; [|done].
  eapply (runs_in_inv still); [|exact E]. apply runs_in_when; [apply _|].
  runs; by apply still_same.
Qed.

(** The book after a level has been swept. *)
Definition swept (side : Side) (p : N) (lv' : PriceLevel) (gen' : UuidGenerator) b : OrderBook :=
  set_generator gen' (set_side (opposite side) <[p:=lv']> b).

Lemma fill_level_spec w side p lv q id ts b w' lv' b' :
  fill_level w side p lv q id ts b = ((w', lv'), b') ->
  exists gen' plm,
    pl_match_order lv q id Gtc TakerStandard ts (transaction_id_generator b) = (lv', gen', plm) /\
    w' = set_stop (consume (stop w) (sat_sub q (mr_remaining_quantity plm)) p) (absorb w plm p lv') /\
    still (swept side p lv' gen' b) b'.
Proof.
  intros Hrun. unfold fill_level, match_level in Hrun. apply sbind_inv in Hrun as ([lv1 plm] & b1 & E & Hrun).
  destruct (pl_match_order _ _ _ _ _ _ _) as [[lv2 gen'] m] eqn:Em. simplify_eq.
  st_inv Hrun. apply process_level_match_spec in E as [Hs ->]. simplify_eq.
  exists gen', plm. split_and!; [done| |done].
  f_equal. f_equal. unfold absorb. by case_decide.
Qed.

(** ** The invariant of the walk *)

Record walk_core (side : Side) w b L : Prop := {
  wc_rests : rests b (drop_ids (filled_orders w).*1 L);
  wc_indexed : indexed b L;
  wc_clear : cache_clear b;
  wc_marked : forall q, q ∈ empty_price_levels w ->
    exists lv, levels (opposite side) b !! q = Some lv /\ queue lv = [];
}.

(** A step at price [p] changes no other level. *)
Record frame (side : Side) (p : N) w b w' b' : Prop := {
  fr_levels : forall s q, (s, q) <> (opposite side, p) -> levels s b' !! q = levels s b !! q;
  fr_config : book_config b' = book_config b;
  fr_marked : forall q, q ∈ empty_price_levels w' -> q ∈ empty_price_levels w \/ q = p;
  fr_keep : forall q, q ∈ empty_price_levels w -> q ∈ empty_price_levels w';
}.

Lemma frame_trans side p w1 b1 w2 b2 w3 b3 :
  frame side p w1 b1 w2 b2 -> frame side p w2 b2 w3 b3 -> frame side p w1 b1 w3 b3.
Proof.
  intros [F1 F2 F3 F4] [G1 G2 G3 G4]. split; [|congruence| |auto].
  - intros s q Hne. by rewrite G1, F1.
  - intros q [Hq| ->]%G3; auto.
Qed.

Lemma absorb_empty w plm p lv q :
  q ∈ empty_price_levels (absorb w plm p lv) <->
  q ∈ empty_price_levels w \/ (q = p /\ pl_order_count lv = 0%nat).
Proof.
  unfold absorb. case_decide; simpl; [rewrite elem_of_app, list_elem_of_singleton|]; naive_solver.
Qed.

Lemma absorb_filled w plm p lv :
  (filled_orders (absorb w plm p lv)).*1 = (filled_orders w).*1 ++ mr_filled_order_ids plm.
Proof.
  assert (E : filled_orders (absorb w plm p lv) = filled_orders w ++
    ((fun id => (id, maker_filled plm id)) <$> mr_filled_order_ids plm))
    by (unfold absorb; by case_decide).
  rewrite E, fmap_app, <- list_fmap_compose. f_equal. unfold compose. simpl. apply list_fmap_id.
Qed.

Lemma order_count_zero lv : pl_order_count lv = 0%nat <-> queue lv = [].
Proof. rewrite pl_order_count_spec. apply length_zero_iff_nil. Qed.

Lemma fill_level_core side w b L p lv q id ts w' lv' b' :
  walk_core side w b L -> levels (opposite side) b !! p = Some lv ->
  p ∉ empty_price_levels w ->
  fill_level w side p lv q id ts b = ((w', lv'), b') ->
  walk_core side w' b' L /\ frame side p w b w' b' /\
  levels (opposite side) b' !! p = Some lv' /\
  (queue lv' = [] -> p ∈ empty_price_levels w').
Proof.
  intros [Hr Hi Hc Hm] Hlv Hp Hrun.
  apply fill_level_spec in Hrun as (gen' & plm & Hmatch & -> & Hstill).
  pose proof (pl_match_price _ _ _ _ _ _ _ _ Hmatch) as [Hprice Htr].
  destruct (pl_match_survivors _ _ _ _ _ _ _ _ Hmatch) as [Hq Hfilled]; [by eapply rests_nodup|].
  assert (Hlevels : forall s, levels s b' = levels s (set_side (opposite side) <[p:=lv']> b))
    by (intros s; by rewrite (levels_still _ _ _ Hstill)).
  assert (Hcount : queue lv' = [] <-> pl_order_count lv' = 0%nat) by (by rewrite order_count_zero).
  split_and!.
  - split.
    + eapply rests_still; [done|]. change (filled_orders (set_stop _ ?x)) with (filled_orders x).
      rewrite absorb_filled, drop_ids_app.
      apply (rests_core (set_side (opposite side) <[p:=lv']> b)); [done|].
      eapply rests_shrink; [done|done|by rewrite Hprice|done|].
      intros i (t & Ht & <-)%Hfilled. by apply Htr.
    + eapply indexed_still; [done|]. by apply (indexed_core (set_side (opposite side) <[p:=lv']> b)), indexed_set_side.
    + apply Hstill. by destruct side.
    + intros q' [Hq'|[-> Hz]]%absorb_empty.
      * destruct (Hm q' Hq') as (lv1 & Hlv1 & Hq1). exists lv1.
        rewrite Hlevels, levels_insert_ne by (intros [= ->]; done). done.
      * exists lv'. rewrite Hlevels, levels_insert_eq. by rewrite Hcount.
  - split.
    + intros s q' Hne. by rewrite Hlevels, levels_insert_ne.
    + destruct Hstill as [[_ ->] _]. by destruct side.
    + intros q' [?|[-> ?]]%absorb_empty; auto.
    + intros q' ?. apply absorb_empty. auto.
  - by rewrite Hlevels, levels_insert_eq.
  - intros Hz. apply absorb_empty. right. by rewrite <- Hcount.
Qed.

(** ** Cancelling makers of the taker's own user *)

Lemma cancel_maker_inv p lv side id reason b lv' b' :
  cancel_resting_maker_on_level p lv side id reason b = (lv', b') ->
  exists r, pl_update_order lv (Cancel id) = (lv', r) /\
  match r with
  | Ok (Some o) => still
      (untrack_user_order (o_user_id o) id
         (set_locations (delete id) (set_side side <[p:=lv']> b))) b'
  | _ => b' = set_side side <[p:=lv']> b
  end.
Proof.
  unfold cancel_resting_maker_on_level. destruct (pl_update_order _ _) as [lv1 r] eqn:E.
  intros Hrun. st_inv Hrun. exists r.
  destruct r as [[o|]|e]; [|st_inv Hrun; simplify_eq; done|st_inv Hrun; simplify_eq; done].
  st_inv Hrun. split; [done|]. apply (runs_in_inv _ _ _ _ _ (still_notify side lv1)) in E0.
  destruct E0 as [[Hix Hcf] Hclear]. split.
  - split; [|by destruct side]. simpl. rewrite Hix. by destruct side.
  - intros _. split; apply Hclear; by split.
Qed.

Lemma indexed_delete_user b L id loc u :
  indexed b L -> L !! id = Some (loc, u) ->
  indexed (untrack_user_order u id (set_locations (delete id) b)) (delete id L).
Proof.
  intros [Hl Ho] HL. split.
  - change (delete id (locations b) = fst <$> delete id L). by rewrite Hl, fmap_delete.
  - by apply (owners_untrack_user L id u loc (set_locations (delete id) b)).
Qed.

Lemma indexed_delete_id b L id :
  indexed b L -> indexed (untrack_order_by_id id (set_locations (delete id) b)) (delete id L).
Proof.
  intros [Hl Ho]. split.
  - change (delete id (locations b) = fst <$> delete id L). by rewrite Hl, fmap_delete.
  - by apply (owners_untrack_id L id (set_locations (delete id) b)).
Qed.

Lemma cancel_maker_core side w b L p lv id reason lv' b' :
  walk_core side w b L -> levels (opposite side) b !! p = Some lv ->
  cancel_resting_maker_on_level p lv (opposite side) id reason b = (lv', b') ->
  (walk_core side w b' L \/
   walk_core side w b' (delete id L) /\ exists loc u, L !! id = Some (loc, u)) /\
  frame side p w b w b' /\ levels (opposite side) b' !! p = Some lv' /\
  queue lv' = filter (fun o => o_id o <> id) (queue lv).
Proof.
  intros [Hr Hi Hc Hm] Hlv (r & Hu & Hb)%cancel_maker_inv.
  pose proof (rests_cancel _ _ _ _ _ _ _ _ Hr Hlv Hu) as Hrc.
  destruct (pl_cancel_spec _ _ _ _ Hu) as (_ & Hq & _).
  assert (Hlevels : forall s, levels s b' = levels s (set_side (opposite side) <[p:=lv']> b)).
  { intros s. destruct r as [[o|]|]; [|by rewrite Hb..].
    rewrite (levels_still _ _ _ Hb). by destruct s, side. }
  assert (Hmark : forall q, q ∈ empty_price_levels w ->
    exists lv, levels (opposite side) b' !! q = Some lv /\ queue lv = []).
  { intros q (lv1 & Hlv1 & Hq1)%Hm. rewrite Hlevels.
    destruct (decide (q = p)) as [->|Hne].
    - exists lv'. rewrite levels_insert_eq, Hq. simplify_eq. by rewrite Hq1.
    - exists lv1. by rewrite levels_insert_ne by congruence. }
  assert (Hfr : frame side p w b w b').
  { split; [|..|auto|auto].
    - intros s q Hne. by rewrite Hlevels, levels_insert_ne.
    - destruct r as [[o|]|]; [destruct Hb as [[_ ->] _]|rewrite Hb..]; by destruct side. }
  split_and!; [|done|by rewrite Hlevels, levels_insert_eq|done].
  destruct r as [[o|]|e]; [|left; subst b'|done].
  - destruct Hrc as (Hrc & Hid & HR). right. apply drop_ids_Some in HR as [HL _]. split; [|eauto].
    split; [| |apply Hb; by destruct side|done].
    + eapply rests_still; [done|]. rewrite drop_ids_delete.
      apply (rests_same_levels (set_side (opposite side) <[p:=lv']> b)); [|done].
      intros s. by destruct s, side.
    + eapply indexed_still; [done|]. eapply indexed_delete_user; [|done].
      by apply indexed_set_side.
  - split; [apply Hrc|by apply indexed_set_side|by destruct side|done].
Qed.

(** The content of the book at the start of the walk is [L0]; the makers
    cancelled since then belonged to the taker's user. *)
Definition walk_inv (side : Side) (user : Hash32) L0 w b : Prop :=
  exists C, (forall id, id ∈ C -> exists loc, L0 !! id = Some (loc, user)) /\
            walk_core side w b (drop_ids C L0).

Lemma cancel_maker_walk side user L0 w b p lv id reason lv' b' loc :
  walk_inv side user L0 w b -> levels (opposite side) b !! p = Some lv ->
  L0 !! id = Some (loc, user) ->
  cancel_resting_maker_on_level p lv (opposite side) id reason b = (lv', b') ->
  walk_inv side user L0 w b' /\ frame side p w b w b' /\
  levels (opposite side) b' !! p = Some lv' /\
  queue lv' = filter (fun o => o_id o <> id) (queue lv).
Proof.
  intros (C & HC & Hw) Hlv Hid Hrun.
  destruct (cancel_maker_core _ _ _ _ _ _ _ _ _ _ Hw Hlv Hrun) as (Hw' & Hrest).
  split; [|done]. destruct Hw' as [Hw'|[Hw' _]]; [by exists C|].
  exists (C ++ [id]). rewrite drop_ids_app, drop_ids_singleton. split; [|done].
  intros i [?|Hi]%elem_of_app; [by apply HC|]. apply list_elem_of_singleton in Hi as ->. eauto.
Qed.

Definition own_ids (user : Hash32) (orders : list (OrderType unit)) : list Id :=
  o_id <$> filter (fun o => o_user_id o = user) orders.

Lemma frame_refl side p w b : frame side p w b w b.
Proof. by split; auto. Qed.

Lemma cancel_own_makers_walk side user L0 w p orders : forall lv b lv' b',
  walk_inv side user L0 w b -> levels (opposite side) b !! p = Some lv ->
  (forall o, o ∈ orders -> o_user_id o = user -> exists loc, L0 !! o_id o = Some (loc, user)) ->
  cancel_own_makers p lv (opposite side) user orders b = (lv', b') ->
  walk_inv side user L0 w b' /\ frame side p w b w b' /\
  levels (opposite side) b' !! p = Some lv' /\
  queue lv' = filter (fun o => o_id o ∉ own_ids user orders) (queue lv).
Proof.
  induction orders as [|o orders IH]; intros lv b lv' b' Hw Hlv Hown Hrun; simpl in Hrun.
  - st_inv Hrun. split_and!; [done|apply frame_refl|done|].
    rewrite list_filter_all; [done|]. intros ? _. apply not_elem_of_nil.
  - apply sbind_inv in Hrun as (lv1 & b1 & E & Hrun).
    assert (H1 : walk_inv side user L0 w b1 /\ frame side p w b w b1 /\
      levels (opposite side) b1 !! p = Some lv1 /\
      queue lv1 = filter (fun o' => o_id o' ∉ own_ids user [o]) (queue lv)).
    { unfold own_ids. rewrite filter_cons. case_decide as Hu.
      - destruct (Hown o ltac:(left) Hu) as [loc Hloc].
        destruct (cancel_maker_walk _ _ _ _ _ _ _ _ _ _ _ _ Hw Hlv Hloc E) as (? & ? & ? & ->).
        split_and!; [done..|]. apply list_filter_ext. intros o' _. simpl.
        rewrite list_elem_of_singleton. tauto.
      - st_inv E. split_and!; [done|apply frame_refl|done|].
        rewrite list_filter_all; [done|]. intros ? _. apply not_elem_of_nil. }
    destruct H1 as (Hw1 & Hf1 & Hlv1 & Hq1).
    destruct (IH _ _ _ _ Hw1 Hlv1 (fun o' Ho' => Hown o' ltac:(by right)) Hrun)
      as (Hw2 & Hf2 & Hlv2 & Hq2).
    split_and!; [done|by eapply frame_trans|done|].
    rewrite Hq2, Hq1, list_filter_conj. apply list_filter_ext. intros o' _.
    unfold own_ids. rewrite !filter_cons. case_decide; simpl; rewrite ?not_elem_of_cons, ?filter_nil;
      simpl; pose proof (not_elem_of_nil (o_id o')); tauto.
Qed.

(** ** One iteration *)

Lemma fill_level_walk side user L0 w b p lv q id ts w' lv' b' :
  walk_inv side user L0 w b -> levels (opposite side) b !! p = Some lv ->
  p ∉ empty_price_levels w ->
  fill_level w side p lv q id ts b = ((w', lv'), b') ->
  walk_inv side user L0 w' b' /\ frame side p w b w' b' /\
  levels (opposite side) b' !! p = Some lv' /\
  (queue lv' = [] -> p ∈ empty_price_levels w').
Proof.
  intros (C & HC & Hw) Hlv Hp Hrun.
  destruct (fill_level_core _ _ _ _ _ _ _ _ _ _ _ _ Hw Hlv Hp Hrun) as (Hw' & Hrest).
  split; [|done]. by exists C.
Qed.

Lemma fill_safe_walk side user L0 w b p lv cap safe id ts w' lv' b' :
  walk_inv side user L0 w b -> levels (opposite side) b !! p = Some lv ->
  p ∉ empty_price_levels w -> queue lv <> [] ->
  fill_safe w side p lv cap safe id ts b = ((w', lv'), b') ->
  walk_inv side user L0 w' b' /\ frame side p w b w' b' /\
  levels (opposite side) b' !! p = Some lv' /\
  (queue lv' = [] -> p ∈ empty_price_levels w').
Proof.
  intros Hw Hlv Hp Hq. unfold fill_safe.
  repeat case_match; [by apply fill_level_walk|..]; intros Hrun; st_inv Hrun; simplify_eq;
    (split_and!; [done|apply frame_refl|done|done]).
Qed.

(** What an iteration guarantees. *)
Definition step_post (side : Side) (user : Hash32) L0 (p : N) w b w' b' : Prop :=
  walk_inv side user L0 w' b' /\ frame side p w b w' b' /\
  exists lv', levels (opposite side) b' !! p = Some lv' /\
    (queue lv' = [] -> p ∈ empty_price_levels w').

Lemma step_post_same side user L0 p w b w' b' lv :
  walk_inv side user L0 w b -> levels (opposite side) b !! p = Some lv -> queue lv <> [] ->
  match_result w' = match_result w -> filled_orders w' = filled_orders w ->
  empty_price_levels w' = empty_price_levels w -> same_core b b' -> cache_clear b' ->
  step_post side user L0 p w b w' b'.
Proof.
  intros (C & HC & [Hr Hi Hc Hm]) Hlv Hq Hmr Hf He Hcore Hclear.
  pose proof (same_core_levels _ _ (opposite side) Hcore) as Hl.
  split_and!.
  - exists C. split; [done|]. split; rewrite ?Hf, ?He, ?Hl; [|by eapply indexed_core|done|].
    + by eapply rests_core.
    + intros q Hq'. by apply Hm.
  - split; [intros; by rewrite (same_core_levels _ _ _ Hcore)|apply Hcore|..]; rewrite He; auto.
  - exists lv. by rewrite Hl.
Qed.

Lemma normal_match_walk tk L0 w b p lv cap w' go b' :
  walk_inv (t_side tk) (t_user tk) L0 w b -> levels (opposite (t_side tk)) b !! p = Some lv ->
  p ∉ empty_price_levels w ->
  normal_match tk w p lv cap b = ((w', go), b') ->
  step_post (t_side tk) (t_user tk) L0 p w b w' b'.
Proof.
  intros Hw Hlv Hp Hrun. unfold normal_match in Hrun.
  apply sbind_inv in Hrun as ([w1 lv1] & b1 & E & Hrun). st_inv Hrun. simplify_eq.
  destruct (fill_level_walk _ _ _ _ _ _ _ _ _ _ _ _ _ Hw Hlv Hp E) as (H1 & H2 & H3 & H4).
  split_and!; [done|done|]. eauto.
Qed.

Lemma set_side_id s p lv b : levels s b !! p = Some lv -> indices (set_side s <[p:=lv]> b) = indices b.
Proof.
  unfold levels, side_levels. destruct s, (indices b) eqn:E; simpl; rewrite E; simpl;
    intros Hlv; by rewrite insert_id.
Qed.

(** The post-only probe leaves the book as it is. *)
Lemma probe_spec side p lv q id ts b lv' plm b' :
  levels (opposite side) b !! p = Some lv ->
  match_level side p lv q id TakerPostOnly ts b = ((lv', plm), b') ->
  same_core b b' /\ cache b' = cache b /\ mr_trades plm = [] /\
  mr_was_rejected plm = (0 <? pl_matchable_quantity lv q id).
Proof.
  intros Hlv Hrun. unfold match_level in Hrun.
  destruct (pl_match_order _ _ _ _ _ _ _) as [[lv1 gen'] m] eqn:Em. simplify_eq.
  destruct (pl_match_post_only _ _ _ _ _ _ _ _ Em) as (-> & -> & Ht & Hrej).
  split_and!; [|by destruct side|done|done]. split; [|by destruct side].
  exact (set_side_id (opposite side) p lv b Hlv).
Qed.

(** A resting order of the walked level was in the content from the start. *)
Lemma walk_owned side user L0 w b p lv o :
  walk_inv side user L0 w b -> levels (opposite side) b !! p = Some lv -> o ∈ queue lv ->
  exists loc, L0 !! o_id o = Some (loc, o_user_id o).
Proof.
  intros (C & _ & [Hr _ _ _]) Hlv Ho.
  assert (HR : drop_ids (filled_orders w).*1 (drop_ids C L0) !! o_id o = Some (p, opposite side, o_user_id o)).
  { apply (rests_iff _ _ Hr). exists lv. split; [done|]. apply list_elem_of_fmap. by exists o. }
  apply drop_ids_Some in HR as [[HL _]%drop_ids_Some _]. eauto.
Qed.

Lemma cancel_both_walk tk L0 w b p lv cap safe id w' go b' o :
  walk_inv (t_side tk) (t_user tk) L0 w b -> levels (opposite (t_side tk)) b !! p = Some lv ->
  p ∉ empty_price_levels w -> queue lv <> [] ->
  o ∈ queue lv -> o_id o = id -> o_user_id o = t_user tk ->
  (let! (w', level') :=
     fill_safe w (t_side tk) p lv cap safe (t_order_id tk) (t_ts tk) in
   let! level'' :=
     cancel_resting_maker_on_level p level' (opposite (t_side tk)) id SelfTradePrevention in
   let w'' := if decide (pl_order_count level'' = 0%nat) then mark_empty p w' else w' in
   sret (mark_stp w'', false)) b = ((w', go), b') ->
  step_post (t_side tk) (t_user tk) L0 p w b w' b'.
Proof.
  intros Hw Hlv Hp Hq Ho <- Hu Hrun.
  destruct (walk_owned _ _ _ _ _ _ _ _ Hw Hlv Ho) as [loc Hloc]. rewrite Hu in Hloc.
  apply sbind_inv in Hrun as ([w1 lv1] & b1 & E1 & Hrun).
  apply sbind_inv in Hrun as (lv2 & b2 & E2 & Hrun). st_inv Hrun. simplify_eq.
  destruct (fill_safe_walk _ _ _ _ _ _ _ _ _ _ _ _ _ _ Hw Hlv Hp Hq E1) as (Hw1 & Hf1 & Hlv1 & Hz1).
  destruct (cancel_maker_walk _ _ _ _ _ _ _ _ _ _ _ _ Hw1 Hlv1 Hloc E2) as ((C & HC & [Hr Hi Hc Hm]) & Hf2 & Hlv2 & Hq2).
  assert (Hem : forall q, q ∈ empty_price_levels (mark_stp (if decide (pl_order_count lv2 = 0%nat)
    then mark_empty p w1 else w1)) <-> q ∈ empty_price_levels w1 \/ (q = p /\ queue lv2 = [])).
  { intros q. rewrite <- order_count_zero. case_decide; simpl;
      [rewrite elem_of_app, list_elem_of_singleton|]; naive_solver. }
  split_and!.
  - exists C. split; [done|]. split; [|done|done|].
    + by case_decide.
    + intros q [Hq'|[-> Hz]]%Hem; [by apply Hm|]. eauto.
  - eapply frame_trans; [exact Hf1|]. destruct Hf2 as [F1 F2 F3 F4]. split; [done|done|..].
    + intros q [?|[-> ?]]%Hem; auto.
    + intros q ?. apply Hem. auto.
  - exists lv2. split; [done|]. intros Hz. apply Hem. auto.
Qed.

Lemma cancel_maker_step tk L0 w b p lv cap w' go b' :
  walk_inv (t_side tk) (t_user tk) L0 w b -> levels (opposite (t_side tk)) b !! p = Some lv ->
  p ∉ empty_price_levels w ->
  (let! level' := cancel_own_makers p lv (opposite (t_side tk)) (t_user tk) (queue lv) in
   if decide (pl_order_count level' = 0%nat) then sret (mark_empty p w, true)
   else normal_match tk w p level' cap) b = ((w', go), b') ->
  step_post (t_side tk) (t_user tk) L0 p w b w' b'.
Proof.
  intros Hw Hlv Hp Hrun. apply sbind_inv in Hrun as (lv1 & b1 & E & Hrun).
  destruct (cancel_own_makers_walk _ _ _ _ _ _ _ _ _ _ Hw Hlv
    (fun o Ho Hu => eq_rect _ (fun u => exists loc, L0 !! o_id o = Some (loc, u))
                      (walk_owned _ _ _ _ _ _ _ _ Hw Hlv Ho) _ Hu) E)
    as (Hw1 & Hf1 & Hlv1 & Hq1).
  case_decide as Hz.
  - st_inv Hrun. simplify_eq. apply order_count_zero in Hz.
    destruct Hw1 as (C & HC & [Hr Hi Hc Hm]). split_and!.
    + exists C. split; [done|]. split; [done|done|done|]. simpl.
      intros q [Hq|Hq]%elem_of_app; [by apply Hm|]. apply list_elem_of_singleton in Hq as ->. eauto.
    + destruct Hf1 as [F1 F2 F3 F4]. split; [done|done|..]; simpl;
        intros q; rewrite elem_of_app, list_elem_of_singleton; tauto.
    + exists lv1. split; [done|]. intros _. simpl. rewrite elem_of_app, list_elem_of_singleton. auto.
  - destruct (normal_match_walk _ _ _ _ _ _ _ _ _ _ Hw1 Hlv1 Hp Hrun) as (Hw2 & Hf2 & H2).
    split_and!; [done|by eapply frame_trans|done].
Qed.

Lemma level_step_walk tk L0 w b p lv w' go b' :
  walk_inv (t_side tk) (t_user tk) L0 w b -> levels (opposite (t_side tk)) b !! p = Some lv ->
  p ∉ empty_price_levels w -> queue lv <> [] ->
  level_step tk w p lv b = ((w', go), b') ->
  step_post (t_side tk) (t_user tk) L0 p w b w' b'.
Proof.
  intros Hw Hlv Hp Hq Hrun. pose proof Hw as (C & _ & [_ _ Hclear _]). unfold level_step in Hrun.
  destruct (beyond_limit _ _ _); [st_inv Hrun; simplify_eq; by eapply step_post_same|].
  destruct (_ =? 0); [st_inv Hrun; simplify_eq; by eapply step_post_same|].
  case_decide as Hkind.
  { apply sbind_inv in Hrun as ([lv1 plm] & b1 & E & Hrun). rewrite Hkind in E.
    apply probe_spec in E as (Hcore & Hcache & _); [|done]. st_inv Hrun.
    assert (cache_clear b1) by (unfold cache_clear; by rewrite Hcache).
    destruct (mr_was_rejected plm); simplify_eq; by eapply step_post_same. }
  destruct (stp_active tk); [|by eapply normal_match_walk].
  pose proof (check_stp_at_level_spec (queue lv) (t_user tk) (t_stp tk)) as Hstp.
  fold (queue lv) in Hrun. destruct (check_stp_at_level _ _ _) as [|safe| |safe id].
  - by eapply normal_match_walk.
  - apply sbind_inv in Hrun as ([w1 lv1] & b1 & E & Hrun). st_inv Hrun. simplify_eq.
    destruct (fill_safe_walk _ _ _ _ _ _ _ _ _ _ _ _ _ _ Hw Hlv Hp Hq E) as (H1 & H2 & H3 & H4).
    destruct H1 as (C1 & HC1 & [Hr Hi Hc Hm]), H2 as [F1 F2 F3 F4].
    split_and!; [exists C1; by split|by split|by exists lv1].
  - by eapply cancel_maker_step.
  - destruct Hstp as (_ & _ & pre & o & post & (Hl & Hu & _) & Hid & _).
    eapply (cancel_both_walk _ _ _ _ _ _ _ _ id _ _ _ o); try done.
    rewrite Hl. set_solver.
Qed.

(** ** The whole walk *)

Definition entries_ok (side : Side) (entries : list (N * PriceLevel)) w b : Prop :=
  NoDup entries.*1 /\
  Forall (fun '(p, lv) => levels (opposite side) b !! p = Some lv /\ queue lv <> [] /\
                          p ∉ empty_price_levels w) entries.

Definition only_marked_empty (side : Side) w b : Prop :=
  forall s p lv, levels s b !! p = Some lv -> queue lv = [] ->
    s = opposite side /\ p ∈ empty_price_levels w.

Lemma step_entries side user L0 p w b w' b' entries :
  step_post side user L0 p w b w' b' -> only_marked_empty side w b ->
  p ∉ entries.*1 -> entries_ok side entries w b ->
  only_marked_empty side w' b' /\ entries_ok side entries w' b' /\ book_config b' = book_config b.
Proof.
  intros (_ & [F1 F2 F3 F4] & lv' & Hlv' & Hz) Hom Hp [Hnd Hall]. split_and!; [| |done].
  - intros s q lv Hlv Hq. destruct (decide ((s, q) = (opposite side, p))) as [[= -> ->]|Hne].
    + split; [done|]. apply Hz. congruence.
    + rewrite F1 in Hlv by done. destruct (Hom _ _ _ Hlv Hq). auto.
  - split; [done|]. rewrite Forall_forall in Hall |- *. intros [q lv] Hin.
    destruct (Hall _ Hin) as (H1 & H2 & H3).
    assert (q <> p) by (intros ->; apply Hp, list_elem_of_fmap; by exists (p, lv)).
    split_and!; [rewrite F1; [done|congruence]|done|]. intros [?|?]%F3; done.
Qed.

Lemma walk_levels_inv tk L0 entries : forall w b w' b',
  walk_inv (t_side tk) (t_user tk) L0 w b -> only_marked_empty (t_side tk) w b ->
  entries_ok (t_side tk) entries w b ->
  walk_levels tk w entries b = (w', b') ->
  walk_inv (t_side tk) (t_user tk) L0 w' b' /\ only_marked_empty (t_side tk) w' b' /\
  book_config b' = book_config b.
Proof.
  induction entries as [|[p lv] entries IH]; intros w b w' b' Hw Hom Hok Hrun; simpl in Hrun.
  - by st_inv Hrun.
  - destruct Hok as [Hnd Hall]. apply NoDup_cons in Hnd as [Hp Hnd].
    apply Forall_cons in Hall as [(Hlv & Hq & He) Hall].
    apply sbind_inv in Hrun as ([w1 go] & b1 & E & Hrun).
    pose proof (level_step_walk _ _ _ _ _ _ _ _ _ Hw Hlv He Hq E) as Hpost.
    destruct (step_entries _ _ _ _ _ _ _ _ entries Hpost Hom Hp) as (H1 & H2 & H3); [by split|].
    destruct go.
    + destruct (IH _ _ _ _ (proj1 Hpost) H1 H2 Hrun) as (? & ? & ?). split_and!; [done|done|congruence].
    + st_inv Hrun. by split_and!; [apply Hpost|..].
Qed.

(** ** After the walk *)

Lemma rests_delete_empty b R s p :
  rests b R -> (forall lv, levels s b !! p = Some lv -> queue lv = []) ->
  rests (set_side s (delete p) b) R.
Proof.
  intros Hr Hq. destruct (levels s b !! p) as [lv|] eqn:E; [by eapply rests_remove_empty; eauto|].
  apply (rests_same_levels b); [|done]. intros s'. rewrite levels_set_side.
  case_decide as Hs; [subst|done]. by apply delete_id.
Qed.

Lemma remove_levels_spec s E : forall b b' u R,
  rests b R -> cache_clear b ->
  (forall q lv, q ∈ E -> levels s b !! q = Some lv -> queue lv = []) ->
  siter (fun price => smod (set_side s (delete price))) E b = (u, b') ->
  rests b' R /\ cache_clear b' /\ locations b' = locations b /\ users b' = users b /\
  book_config b' = book_config b /\
  (forall s' q lv, levels s' b' !! q = Some lv <->
     levels s' b !! q = Some lv /\ (s' = s -> q ∉ E)).
Proof.
  induction E as [|p E IH]; intros b b' u R Hr Hc Hq Hrun; simpl in Hrun.
  - st_inv Hrun. split_and!; try done. intros s' q lv.
    pose proof (not_elem_of_nil q). tauto.
  - st_inv Hrun. destruct (IH (set_side s (delete p) b) b' u R) as (H1 & H2 & H3 & H4 & H5 & H6);
      [by apply rests_delete_empty; [|intros; eapply Hq; [left|]]|by destruct s| |done|].
    + intros q lv Hin [_ Hlv]%levels_delete_Some. eapply Hq; [by right|done].
    + rewrite H3, H4, H5, locations_set_side, users_set_side.
      split_and!; [done|done|done|done|by destruct s|]. intros s' q lv.
      rewrite H6, levels_delete_Some. split.
      * intros [[Hne ?] HE]. split; [done|]. intros ->. apply not_elem_of_cons.
        split; [congruence|auto].
      * intros [? HE]. setoid_rewrite not_elem_of_cons in HE.
        split; [split; [intros [= -> ->]; by destruct (HE eq_refl)|done]|intros ->; by apply HE].
Qed.

Definition untrack_filled (fo : Id * N) : ST OrderBook unit :=
  let '(filled_id, filled_quantity) := fo in
  do! smod (track_state filled_id (Filled filled_quantity)) in
  do! smod (set_locations (delete filled_id)) in
  smod (untrack_order_by_id filled_id).

Lemma untrack_filled_spec fs : forall b b' u L,
  indexed b L -> siter untrack_filled fs b = (u, b') ->
  indexed b' (drop_ids fs.*1 L) /\ (forall s, levels s b' = levels s b) /\
  cache b' = cache b /\ book_config b' = book_config b.
Proof.
  induction fs as [|[id q] fs IH]; intros b b' u L Hi Hrun; cbn [siter] in Hrun.
  - st_inv Hrun. rewrite drop_ids_nil. by split_and!.
  - apply sbind_inv in Hrun as (? & b1 & E & Hrun). unfold untrack_filled in E. st_inv E.
    eapply (IH _ _ _ (delete id L)) in Hrun as (H1 & H2 & H3 & H4).
    + rewrite fmap_cons. simpl. rewrite drop_ids_cons. split_and!; [done| |done|done].
      intros s. by rewrite H2.
    + apply (indexed_delete_id (track_state id (Filled q) b)). by apply (indexed_core b).
Qed.

Lemma finish_walk_core side L w b u b' :
  walk_core side w b L -> only_marked_empty side w b ->
  finish_walk side w b = (u, b') ->
  book_rep b' (drop_ids (filled_orders w).*1 L) /\ cache_clear b' /\ book_config b' = book_config b.
Proof.
  intros [Hr Hi Hc Hm] Hom Hrun. unfold finish_walk in Hrun.
  apply sbind_inv in Hrun as (u1 & b1 & E & Hrun).
  eapply remove_levels_spec in E as (H1 & H2 & H3 & H4 & H5 & H6); [|done|done|].
  2: { intros q lv (lv1 & Hlv1 & Hq1)%Hm Hlv. congruence. }
  assert (Hi1 : indexed b1 L) by (destruct Hi; split; congruence).
  change (siter untrack_filled (filled_orders w) b1 = (u, b')) in Hrun.
  apply (untrack_filled_spec _ _ _ _ _ Hi1) in Hrun as (G1 & G2 & G3 & G4).
  assert (Hclear : cache_clear b') by (unfold cache_clear; by rewrite G3).
  split_and!; [|done|congruence]. split.
  - by apply (rests_same_levels b1).
  - done.
  - intros s p lv Hlv Hq. rewrite G2, H6 in Hlv. destruct Hlv as [Hlv Hnot].
    destruct (Hom _ _ _ Hlv Hq) as [-> Hin]. by apply Hnot.
  - by apply cache_clear_ok.
Qed.

(** The book at the start of the walk. *)
Lemma elem_of_sweep_entries side b p lv :
  (p, lv) ∈ sweep_entries side b <-> levels (opposite side) b !! p = Some lv.
Proof.
  unfold sweep_entries. destruct side; [|rewrite reverse_Permutation]; apply elem_of_sm_iter.
Qed.

Lemma NoDup_sm_keys {V} (m : gmap N V) : NoDup (sm_iter m).*1.
Proof. rewrite sm_iter_perm. apply NoDup_fst_map_to_list. Qed.

Lemma NoDup_sweep_keys side b : NoDup (sweep_entries side b).*1.
Proof.
  unfold sweep_entries. destruct side; [apply NoDup_sm_keys|].
  rewrite fmap_reverse, reverse_Permutation. apply NoDup_sm_keys.
Qed.

Lemma walk_start_inv side user id mode b R :
  book_rep b R -> cache_clear b ->
  walk_inv side user R (walk_start id mode) b /\ only_marked_empty side (walk_start id mode) b /\
  entries_ok side (sweep_entries side b) (walk_start id mode) b.
Proof.
  intros [Hr Hi Hne Hc] Hclear. split_and!.
  - exists []. rewrite drop_ids_nil. split; [by intros ? ?%elem_of_nil|].
    split; simpl; rewrite ?drop_ids_nil; try done. by intros ? ?%elem_of_nil.
  - intros s p lv Hlv Hq. by destruct (Hne _ _ _ Hlv).
  - split; [apply NoDup_sweep_keys|]. apply Forall_forall. intros [p lv] Hin%elem_of_sweep_entries.
    split_and!; [done|by eapply Hne|apply not_elem_of_nil].
Qed.

(** The sweep proper: what happened between the entry and the verdict. *)
Definition sweep_run (tk : Taker) (mode : MatchMode) b w b' : Prop :=
  exists b0 u b1, same_core b b0 /\ cache_clear b0 /\
    walk_levels tk (walk_start (t_order_id tk) mode) (sweep_entries (t_side tk) b) b0 = (w, b1) /\
    finish_walk (t_side tk) w b1 = (u, b').

Definition taker_of b (order_id : Id) (side : Side) (mode : MatchMode) (user : Hash32)
    (kind : TakerKind) : Taker :=
  {| t_order_id := order_id; t_side := side; t_limit := limit_price mode;
     t_lot := default 1 (lot_size (book_config b)); t_user := user; t_kind := kind;
     t_ts := (now_millis (clock b)).1; t_stp := stp_mode (book_config b) |}.

Definition outcome_of (order_id : Id) (mode : MatchMode) w : MatchOutcome :=
  {| result := match mode with
               | QuoteAmount _ => normalize_notional_match_result order_id (match_result w)
               | BaseQty _ _ => match_result w
               end;
     taker_stp_cancelled := stp_taker_cancelled w;
     taker_post_only_rejected := post_only_rejected w |}.

(** Every run of [match_order_inner] is a sweep followed by a verdict. *)
Lemma match_order_inner_inv order_id side mode user kind b r b' :
  match_order_inner order_id side mode user kind b = (r, b') ->
  exists w b1, sweep_run (taker_of b order_id side mode user kind) mode b w b1 /\ quiet b1 b' /\
    (cache_clear b1 -> cache_clear b') /\
    match r with
    | Ok out => out = outcome_of order_id mode w /\
        (mr_trades (match_result w) = [] -> no_liquidity side mode = None /\ stp_taker_cancelled w = false)
    | Err e => mr_trades (match_result w) = [] /\
        (stp_taker_cancelled w = true /\ e = SelfTradePrevented (stp_mode (book_config b)) order_id user
         \/ no_liquidity side mode = Some e)
    end.
Proof.
  intros Hrun. unfold match_order_inner in Hrun. st_inv Hrun.
  match goal with H : clock_now _ = _ |- _ => unfold clock_now in H end.
  destruct (now_millis (clock _)) as [ts c'] eqn:Ets.
  match goal with H : (ts, _) = _ |- _ => injection H as <- <- end.
  set (b0 := set_clock c' (set_cache invalidate b)) in *.
  set (tk := taker_of b order_id side mode user kind).
  assert (Hts : ts = t_ts tk) by (unfold tk; simpl; simpl in Ets; by rewrite Ets).
  destruct (sweep_entries side b0) as [|e es] eqn:Es.
  - st_inv Hrun. exists (walk_start order_id mode), b0. split_and!; [|reflexivity|done|].
    + exists b0, tt, b0. split_and!; [done|done| |done].
      assert (Hnil : sweep_entries (t_side tk) b = []) by (exact Es). by rewrite Hnil.
    + assert (Htr : mr_trades (mr_new order_id (initial_match_quantity mode)) = []) by apply mr_new_spec.
      unfold empty_book_result, outcome_of. destruct mode as [q [l|]|amt]; simpl; rewrite ?Htr; auto 6.
  - apply sbind_inv in Hrun as (w & b1 & Ew & Hrun). apply sbind_inv in Hrun as (u & b2 & Ef & Hrun).
    exists w, b2. split.
    { exists b0, u, b1. split_and!; [done|done| |done]. rewrite <- Ew, Hts.
      f_equal. exact Es. }
    destruct (decide (mr_trades (match_result w) = [])) as [Ht|Ht].
    + rewrite bool_decide_true, andb_true_r in Hrun by done.
      destruct (stp_taker_cancelled w) eqn:Estp.
      * st_inv Hrun. split_and!; [by apply quiet_same|done|done|]. by left.
      * destruct (no_liquidity side mode) eqn:El; st_inv Hrun; (split_and!; [reflexivity|done|..]); auto.
        unfold outcome_of. by rewrite Estp.
    + rewrite bool_decide_false, andb_false_r in Hrun by done. st_inv Hrun.
      by split_and!; [reflexivity|..].
Qed.
End MatchingInv.
