(* ===== verification/MatchingSteps.v ===== *)
(** * What one level of the sweep does

    [level_effect] describes an iteration of the matching loop without the
    book: either no trade, or one call of the level's [match_order] on a
    quantity and a queue that respect the limit, the budget and self-trade
    prevention, with its trades appended to the result. *)

From S2P Require Import Prelude Types PriceLevel OrderQuantity Fees Stp Clock Cache Risk OrderState Reject SkipMap Book BookInv Matching MatchingInv.
Local Open Scope N_scope.

Section MatchingSteps.
Context {PA : PriceLevelApi} {PL : PriceLevelLaws} {WC : WallClock}.
Implicit Types (b : OrderBook) (w : Walk).

(** ** Accumulating trades *)

Lemma add_filled_fields ids : forall m,
  mr_trades (foldl mr_add_filled_order_id m ids) = mr_trades m /\
  mr_filled_order_ids (foldl mr_add_filled_order_id m ids) = mr_filled_order_ids m ++ ids /\
  mr_remaining_quantity (foldl mr_add_filled_order_id m ids) = mr_remaining_quantity m.
Proof.
  induction ids as [|id ids IH]; intros m; simpl; [by rewrite app_nil_r|].
  destruct (IH (mr_add_filled_order_id m id)) as (-> & -> & ->).
  destruct (mr_add_filled_spec m id) as (-> & -> & ->). by rewrite <- app_assoc.
Qed.

Lemma add_trades_ok ts : forall m,
  sumN trade_quantity ts <= mr_remaining_quantity m ->
  mr_trades (add_trades m ts) = mr_trades m ++ ts /\
  mr_filled_order_ids (add_trades m ts) = mr_filled_order_ids m /\
  mr_remaining_quantity (add_trades m ts) = mr_remaining_quantity m - sumN trade_quantity ts.
Proof.
  unfold add_trades. induction ts as [|t ts IH]; intros m; simpl; rewrite ?sumN_nil, ?sumN_cons.
  - intros _. rewrite app_nil_r. split_and!; [done|done|lia].
  - intros Hs. pose proof (mr_add_trade_spec m t) as Ha.
    destruct (mr_add_trade m t) as [m'|]; [|lia]. simpl.
    destruct Ha as (_ & Ht & Hf & Hr).
    destruct (IH m') as (-> & -> & ->); [lia|]. rewrite Ht, Hf, Hr, <- app_assoc.
    split_and!; [done|done|lia].
Qed.

Lemma add_filled_in_trades m ids :
  mr_filled_order_ids (foldl mr_add_filled_order_id m ids) = mr_filled_order_ids m ++ ids.
Proof. apply add_filled_fields. Qed.

Lemma add_trades_filled ts : forall m,
  mr_filled_order_ids (add_trades m ts) = mr_filled_order_ids m.
Proof.
  unfold add_trades. induction ts as [|t ts IH]; intros m; simpl; [done|]. rewrite IH.
  pose proof (mr_add_trade_spec m t) as Ha. destruct (mr_add_trade m t); simpl; [|done]. apply Ha.
Qed.

Lemma absorb_match w plm p lv :
  match_result (absorb w plm p lv) =
    foldl mr_add_filled_order_id (add_trades (match_result w) (mr_trades plm)) (mr_filled_order_ids plm).
Proof. unfold absorb. by case_decide. Qed.

Lemma absorb_flags w plm p lv :
  stop (absorb w plm p lv) = stop w /\
  stp_taker_cancelled (absorb w plm p lv) = stp_taker_cancelled w /\
  post_only_rejected (absorb w plm p lv) = post_only_rejected w.
Proof. unfold absorb. by case_decide. Qed.

(** ** The queue a level is matched on *)

Lemma cancel_maker_level p lv side id reason b lv' b' :
  cancel_resting_maker_on_level p lv side id reason b = (lv', b') ->
  queue lv' = filter (fun o => o_id o <> id) (queue lv) /\ pl_price lv' = pl_price lv.
Proof. intros (r & Hu & _)%cancel_maker_inv. by apply pl_cancel_spec in Hu as (_ & ? & ?). Qed.

Lemma cancel_own_makers_level p side user orders : forall lv b lv' b',
  cancel_own_makers p lv side user orders b = (lv', b') ->
  queue lv' = filter (fun o => o_id o ∉ own_ids user orders) (queue lv) /\ pl_price lv' = pl_price lv.
Proof.
  induction orders as [|o orders IH]; intros lv b lv' b' Hrun; simpl in Hrun.
  - st_inv Hrun. split; [|done]. symmetry. apply list_filter_all. intros ? _. apply not_elem_of_nil.
  - apply sbind_inv in Hrun as (lv1 & b1 & E & Hrun).
    apply IH in Hrun as [Hq Hp]. rewrite Hq, Hp. unfold own_ids. rewrite filter_cons.
    case_decide.
    + apply cancel_maker_level in E as [Hq1 Hp1]. split; [|done]. rewrite Hq1, list_filter_conj.
      apply list_filter_ext. intros o' _. rewrite fmap_cons, not_elem_of_cons. tauto.
    + by st_inv E.
Qed.

(** How much may be matched on which queue, under self-trade prevention. *)
Inductive fill_source (tk : Taker) (lv lv0 : PriceLevel) (qty : N) : Prop :=
| FillPlain :
    lv0 = lv -> (stp_active tk = true -> Forall (fun o => o_user_id o <> t_user tk) (queue lv)) ->
    fill_source tk lv lv0 qty
| FillCleaned :
    queue lv0 = filter (fun o => o_id o ∉ own_ids (t_user tk) (queue lv)) (queue lv) ->
    pl_price lv0 = pl_price lv -> fill_source tk lv lv0 qty
| FillSafe pre o post :
    lv0 = lv -> split_at_user (queue lv) pre o post (t_user tk) ->
    qty <= N.min U64_MAX (sumN visible_quantity pre) -> fill_source tk lv lv0 qty.

Record filled_at (tk : Taker) (p : N) (lv : PriceLevel) w w' (lv0 : PriceLevel) (qty : N)
    (plm : MatchResult) : Prop := {
  fa_match : exists gen gen' lv1,
    pl_match_order lv0 qty (t_order_id tk) Gtc TakerStandard (t_ts tk) gen = (lv1, gen', plm);
  fa_source : fill_source tk lv lv0 qty;
  fa_limit : beyond_limit (t_side tk) (t_limit tk) p = false;
  fa_cap : qty <= level_qty_cap (stop w) p (t_lot tk);
  fa_result : match_result w' =
    foldl mr_add_filled_order_id (add_trades (match_result w) (mr_trades plm)) (mr_filled_order_ids plm);
  fa_filled : (filled_orders w').*1 = (filled_orders w).*1 ++ mr_filled_order_ids plm;
  fa_stop : stop w' = consume (stop w) (sat_sub qty (mr_remaining_quantity plm)) p;
}.

Definition level_effect (tk : Taker) (p : N) (lv : PriceLevel) w w' : Prop :=
  (match_result w' = match_result w /\ stop w' = stop w /\ filled_orders w' = filled_orders w) \/
  (t_kind tk = TakerStandard /\ exists lv0 qty plm, filled_at tk p lv w w' lv0 qty plm).

Lemma fill_level_filled tk w p lv lv0 q b w' lv' b' :
  fill_level w (t_side tk) p lv0 q (t_order_id tk) (t_ts tk) b = ((w', lv'), b') ->
  fill_source tk lv lv0 q -> beyond_limit (t_side tk) (t_limit tk) p = false ->
  q <= level_qty_cap (stop w) p (t_lot tk) ->
  exists plm, filled_at tk p lv w w' lv0 q plm.
Proof.
  intros (gen' & plm & Hm & -> & _)%fill_level_spec Hsrc Hlim Hcap. exists plm. split; eauto.
  - simpl. apply absorb_match.
  - apply absorb_filled.
Qed.

Lemma no_conflict_plain tk lv qty :
  (t_stp tk = STPNone \/ t_user tk = Hash32_zero \/
   Forall (fun o => o_user_id o <> t_user tk) (queue lv)) ->
  fill_source tk lv lv qty.
Proof.
  intros Hc. apply FillPlain; [done|]. unfold stp_active, is_enabled.
  intros [H1 H2]%andb_true_iff. apply bool_decide_eq_true in H1.
  apply negb_true_iff, bool_decide_eq_false in H2. tauto.
Qed.

Lemma normal_match_effect tk w p lv lv0 cap b w' go b' :
  normal_match tk w p lv0 cap b = ((w', go), b') ->
  t_kind tk <> TakerPostOnly ->
  fill_source tk lv lv0 cap -> beyond_limit (t_side tk) (t_limit tk) p = false ->
  cap <= level_qty_cap (stop w) p (t_lot tk) ->
  level_effect tk p lv w w' /\ go = negb (is_done (stop w')).
Proof.
  intros Hrun Hk Hsrc Hlim Hcap. unfold normal_match in Hrun.
  apply sbind_inv in Hrun as ([w1 lv1] & b1 & E & Hrun). st_inv Hrun. simplify_eq.
  destruct (fill_level_filled _ _ _ _ _ _ _ _ _ _ E Hsrc Hlim Hcap) as [plm Hf].
  split; [|done]. right. split; [by destruct (t_kind tk)|]. eauto.
Qed.

(** Marking the walk does not change its account. *)
Definition same_account w w' : Prop :=
  match_result w' = match_result w /\ stop w' = stop w /\ filled_orders w' = filled_orders w.

Lemma level_effect_same tk p lv w w1 w2 :
  level_effect tk p lv w w1 -> same_account w1 w2 -> level_effect tk p lv w w2.
Proof.
  intros He (H1 & H2 & H3). destruct He as [(G1 & G2 & G3)|(Hk & lv0 & qty & plm & [])].
  - left. split_and!; congruence.
  - right. split; [done|]. exists lv0, qty, plm. split; try done; congruence.
Qed.

Lemma fill_safe_effect tk w p lv cap safe b w' lv' b' pre o post :
  fill_safe w (t_side tk) p lv cap safe (t_order_id tk) (t_ts tk) b = ((w', lv'), b') ->
  t_kind tk <> TakerPostOnly -> beyond_limit (t_side tk) (t_limit tk) p = false ->
  cap <= level_qty_cap (stop w) p (t_lot tk) ->
  split_at_user (queue lv) pre o post (t_user tk) ->
  safe = N.min U64_MAX (sumN visible_quantity pre) ->
  level_effect tk p lv w w'.
Proof.
  intros Hrun Hk Hlim Hcap Hsp ->. unfold fill_safe in Hrun.
  destruct (0 <? N.min U64_MAX (sumN visible_quantity pre));
    [|st_inv Hrun; simplify_eq; by left].
  destruct (0 <? _); [|st_inv Hrun; simplify_eq; by left].
  eapply (fill_level_filled tk w p lv lv) in Hrun as [plm Hf]; [| |done|lia].
  - right. split; [by destruct (t_kind tk)|]. eauto.
  - eapply FillSafe; [done|done|lia].
Qed.

Lemma level_step_effect tk w p lv b w' go b' :
  level_step tk w p lv b = ((w', go), b') -> level_effect tk p lv w w'.
Proof.
  intros Hrun. unfold level_step in Hrun.
  destruct (beyond_limit _ _ _) eqn:Hlim; [st_inv Hrun; simplify_eq; by left|].
  destruct (_ =? 0); [st_inv Hrun; simplify_eq; by left|].
  case_decide as Hk.
  { apply sbind_inv in Hrun as ([lv1 plm] & b1 & E & Hrun). st_inv Hrun.
    destruct (mr_was_rejected plm); simplify_eq; by left. }
  destruct (stp_active tk) eqn:Hact.
  2: { eapply normal_match_effect; [exact Hrun|done| |done|lia]. apply FillPlain; [done|]. congruence. }
  fold (queue lv) in Hrun.
  pose proof (check_stp_at_level_spec (queue lv) (t_user tk) (t_stp tk)) as Hstp.
  destruct (check_stp_at_level _ _ _) as [|safe| |safe id].
  - eapply normal_match_effect; [exact Hrun|done| |done|lia]. by apply no_conflict_plain.
  - destruct Hstp as (_ & _ & pre & o & post & Hsp & Hsafe).
    apply sbind_inv in Hrun as ([w1 lv1] & b1 & E & Hrun). st_inv Hrun. simplify_eq.
    eapply level_effect_same; [by eapply fill_safe_effect|by split_and!].
  - apply sbind_inv in Hrun as (lv1 & b1 & E & Hrun).
    apply cancel_own_makers_level in E as [Hq Hp].
    case_decide; [st_inv Hrun; simplify_eq; by left|].
    eapply normal_match_effect; [exact Hrun|done|by apply FillCleaned|done|lia].
  - destruct Hstp as (_ & _ & pre & o & post & Hsp & _ & Hsafe).
    apply sbind_inv in Hrun as ([w1 lv1] & b1 & E & Hrun).
    apply sbind_inv in Hrun as (lv2 & b2 & E2 & Hrun). st_inv Hrun. simplify_eq.
    eapply level_effect_same; [by eapply fill_safe_effect|]. case_decide; by split_and!.
Qed.

(** ** Induction along a walk *)

(** [P] holds of a walk's account when every level of the side preserves it. *)
Lemma walk_levels_ind (P : Walk -> Prop) tk entries : forall w b w' b',
  (forall p lv w1 w2, (p, lv) ∈ entries -> P w1 -> level_effect tk p lv w1 w2 -> P w2) ->
  P w -> walk_levels tk w entries b = (w', b') -> P w'.
Proof.
  induction entries as [|[p lv] entries IH]; intros w b w' b' Hstep Hw Hrun; simpl in Hrun.
  - by st_inv Hrun.
  - apply sbind_inv in Hrun as ([w1 go] & b1 & E & Hrun). apply level_step_effect in E.
    assert (H1 : P w1) by (eapply Hstep; [left|..]; done).
    destruct go; [|by st_inv Hrun].
    eapply IH; [|done|done]. intros p' lv' w2 w3 Hin. apply Hstep. by right.
Qed.
End MatchingSteps.
