(* ===== verification/SweepFrame.v ===== *)
(** * What a sweep leaves alone

    The frame of the matching engine: the taker's own side and the levels
    beyond its limit are not touched, and the location index loses an order
    during the walk only when self-trade prevention cancels makers. *)

From S2P Require Import Prelude Types PriceLevel OrderQuantity Fees Stp Clock Cache Risk OrderState Reject SkipMap Book BookInv Matching MatchingInv MatchingSteps.
Local Open Scope N_scope.

Section SweepFrame.
Context {PA : PriceLevelApi} {PL : PriceLevelLaws} {WC : WallClock}.
Implicit Types (R L : Contents) (b : OrderBook) (w : Walk).

(** A level the sweep of a taker cannot reach. *)
Definition out_of_reach (side : Side) (limit : option N) (s : Side) (p : N) : Prop :=
  s = side \/ beyond_limit side limit p = true.

(** The mode and the taker for which the sweep cancels resting makers. *)
Definition cancels_makers (mode : STPMode) (user : Hash32) : bool :=
  bool_decide (mode = CancelMaker \/ mode = CancelBoth) && negb (bool_decide (user = Hash32_zero)).

Lemma level_step_frame tk w b p w' go b' L0 lv :
  walk_inv (t_side tk) (t_user tk) L0 w b -> levels (opposite (t_side tk)) b !! p = Some lv ->
  p ∉ empty_price_levels w -> queue lv <> [] ->
  level_step tk w p lv b = ((w', go), b') ->
  (forall s q, out_of_reach (t_side tk) (t_limit tk) s q -> levels s b' !! q = levels s b !! q) /\
  (forall q, q ∈ empty_price_levels w' ->
     q ∈ empty_price_levels w \/ beyond_limit (t_side tk) (t_limit tk) q = false).
Proof.
  intros Hw Hlv Hp Hq Hrun.
  destruct (beyond_limit (t_side tk) (t_limit tk) p) eqn:Hlim.
  { unfold level_step in Hrun. rewrite Hlim in Hrun. st_inv Hrun. simplify_eq. auto. }
  destruct (level_step_walk _ _ _ _ _ _ _ _ _ Hw Hlv Hp Hq Hrun) as (_ & [F1 _ F3 _] & _). split.
  - intros s q Hout. apply F1. intros [= -> ->]. destruct Hout as [Ho|Ho]; [|congruence].
    by destruct (t_side tk).
  - intros q [?| ->]%F3; auto.
Qed.

Lemma walk_levels_frame tk L0 entries : forall w b w' b',
  walk_inv (t_side tk) (t_user tk) L0 w b -> only_marked_empty (t_side tk) w b ->
  entries_ok (t_side tk) entries w b ->
  walk_levels tk w entries b = (w', b') ->
  (forall s q, out_of_reach (t_side tk) (t_limit tk) s q -> levels s b' !! q = levels s b !! q) /\
  (forall q, q ∈ empty_price_levels w' ->
     q ∈ empty_price_levels w \/ beyond_limit (t_side tk) (t_limit tk) q = false).
Proof.
  induction entries as [|[p lv] entries IH]; intros w b w' b' Hw Hom Hok Hrun; simpl in Hrun.
  { st_inv Hrun. auto. }
  destruct Hok as [Hnd Hall]. apply NoDup_cons in Hnd as [Hp Hnd].
  apply Forall_cons in Hall as [(Hlv & Hq & He) Hall].
  apply sbind_inv in Hrun as ([w1 go] & b1 & E & Hrun).
  pose proof (level_step_walk _ _ _ _ _ _ _ _ _ Hw Hlv He Hq E) as Hpost.
  destruct (level_step_frame _ _ _ _ _ _ _ _ _ Hw Hlv He Hq E) as [F1 F2].
  destruct (step_entries _ _ _ _ _ _ _ _ entries Hpost Hom Hp) as (H1 & H2 & H3); [by split|].
  destruct go; [|by st_inv Hrun].
  destruct (IH _ _ _ _ (proj1 Hpost) H1 H2 Hrun) as [G1 G2]. split.
  - intros s q Hout. by rewrite G1, F1.
  - intros q [[?|?]%F2|?]%G2; auto.
Qed.

Lemma delete_levels_frame s E : forall b u b',
  siter (fun price => smod (set_side s (delete price))) E b = (u, b') ->
  forall s' q, (s' = s -> q ∉ E) -> levels s' b' !! q = levels s' b !! q.
Proof.
  induction E as [|p E IH]; intros b u b' Hrun s' q Hout; simpl in Hrun; st_inv Hrun; [done|].
  erewrite IH; [|done|set_solver]. rewrite levels_set_side. case_decide as Hs; [|done].
  subst. apply lookup_delete_ne. set_solver.
Qed.

Lemma finish_walk_frame side w b u b' :
  finish_walk side w b = (u, b') ->
  forall s q, (s = opposite side -> q ∉ empty_price_levels w) -> levels s b' !! q = levels s b !! q.
Proof.
  unfold finish_walk. intros (u1 & b1 & E & Hrun)%sbind_inv s q Hout.
  rewrite <- (delete_levels_frame _ _ _ _ _ E s q Hout).
  change (siter untrack_filled (filled_orders w) b1 = (u, b')) in Hrun. clear -Hrun.
  revert b1 u b' Hrun. induction (filled_orders w) as [|[id n] fs IH]; intros b1 u b' Hrun;
    cbn [siter] in Hrun; [by st_inv Hrun|].
  apply sbind_inv in Hrun as (? & b2 & E & Hrun). unfold untrack_filled in E. st_inv E.
  by rewrite (IH _ _ _ Hrun).
Qed.

(** The frame of a sweep. *)
Lemma sweep_frame order_id side mode user kind b R r b' :
  book_rep b R ->
  match_order_inner order_id side mode user kind b = (r, b') ->
  forall s q, out_of_reach side (limit_price mode) s q -> levels s b' !! q = levels s b !! q.
Proof.
  intros Hrep (w & b1 & (b0 & u & b2 & Hcore & Hclear & Hwalk & Hfin) & Hquiet & _)%match_order_inner_inv
    s q Hout.
  assert (Hrep0 : book_rep b0 R).
  { eapply book_rep_quiet; [|exact Hrep]. split; [done|]. intros _. by apply cache_clear_ok. }
  destruct (walk_start_inv side user order_id mode b0 R Hrep0 Hclear) as (H1 & H2 & H3).
  assert (Hsw : sweep_entries side b = sweep_entries side b0).
  { unfold sweep_entries. by rewrite (same_core_levels _ _ Buy Hcore), (same_core_levels _ _ Sell Hcore). }
  simpl in Hwalk. rewrite Hsw in Hwalk.
  destruct (walk_levels_frame (taker_of b order_id side mode user kind) R _ _ _ _ _ H1 H2 H3 Hwalk)
    as [F1 F2]. simpl in F1, F2.
  rewrite (same_core_levels _ _ _ (proj1 Hquiet)), (finish_walk_frame _ _ _ _ _ Hfin), F1; [|done|].
  { by rewrite (same_core_levels _ _ _ Hcore). }
  intros -> [Hx|Hx]%F2; [by apply elem_of_nil in Hx|].
  destruct Hout as [Ho|Ho]; [by destruct side|congruence].
Qed.

(** ** The location index during the walk *)

Lemma still_locations b b' : still b b' -> locations b' = locations b.
Proof. intros [Hc _]. by apply same_core_locations. Qed.

Lemma fill_level_locations w side p lv q id ts b w' lv' b' :
  fill_level w side p lv q id ts b = ((w', lv'), b') -> locations b' = locations b.
Proof.
  intros (gen' & plm & _ & _ & Hs)%fill_level_spec. rewrite (still_locations _ _ Hs).
  by apply locations_set_side.
Qed.

Lemma normal_match_locations tk w p lv cap b w' go b' :
  normal_match tk w p lv cap b = ((w', go), b') -> locations b' = locations b.
Proof.
  unfold normal_match. intros ([w1 lv1] & b1 & E & Hrun)%sbind_inv. st_inv Hrun.
  by eapply fill_level_locations.
Qed.

Lemma level_step_locations tk w p lv b w' go b' :
  levels (opposite (t_side tk)) b !! p = Some lv ->
  cancels_makers (t_stp tk) (t_user tk) = false ->
  level_step tk w p lv b = ((w', go), b') -> locations b' = locations b.
Proof.
  intros Hlv Hno Hrun. unfold level_step in Hrun.
  destruct (beyond_limit _ _ _); [by st_inv Hrun|]. destruct (_ =? 0); [by st_inv Hrun|].
  case_decide as Hk.
  { apply sbind_inv in Hrun as ([lv1 plm] & b1 & E & Hrun). rewrite Hk in E.
    apply probe_spec in E as (Hcore & _); [|done]. st_inv Hrun. by apply same_core_locations. }
  destruct (stp_active tk) eqn:Hact; [|by eapply normal_match_locations].
  pose proof (check_stp_at_level_spec (queue lv) (t_user tk) (t_stp tk)) as Hstp.
  fold (queue lv) in Hrun. unfold cancels_makers in Hno. destruct (check_stp_at_level _ _ _) as [|safe| |safe id].
  - by eapply normal_match_locations.
  - apply sbind_inv in Hrun as ([w1 lv1] & b1 & E & Hrun). st_inv Hrun. unfold fill_safe in E.
    repeat (case_match; try (by st_inv E)). by eapply fill_level_locations.
  - destruct Hstp as (Hm & Hu & _). by rewrite Hm, bool_decide_true, bool_decide_false in Hno by auto.
  - destruct Hstp as (Hm & Hu & _). by rewrite Hm, bool_decide_true, bool_decide_false in Hno by auto.
Qed.

Lemma walk_levels_locations tk L0 entries : forall w b w' b',
  cancels_makers (t_stp tk) (t_user tk) = false ->
  walk_inv (t_side tk) (t_user tk) L0 w b -> only_marked_empty (t_side tk) w b ->
  entries_ok (t_side tk) entries w b ->
  walk_levels tk w entries b = (w', b') -> locations b' = locations b.
Proof.
  induction entries as [|[p lv] entries IH]; intros w b w' b' Hno Hw Hom Hok Hrun; simpl in Hrun.
  { by st_inv Hrun. }
  destruct Hok as [Hnd Hall]. apply NoDup_cons in Hnd as [Hp Hnd].
  apply Forall_cons in Hall as [(Hlv & Hq & He) Hall].
  apply sbind_inv in Hrun as ([w1 go] & b1 & E & Hrun).
  pose proof (level_step_walk _ _ _ _ _ _ _ _ _ Hw Hlv He Hq E) as Hpost.
  destruct (step_entries _ _ _ _ _ _ _ _ entries Hpost Hom Hp) as (H1 & H2 & H3); [by split|].
  rewrite <- (level_step_locations _ _ _ _ _ _ _ _ Hlv Hno E).
  destruct go; [|by st_inv Hrun]. exact (IH _ _ _ _ Hno (proj1 Hpost) H1 H2 Hrun).
Qed.

(** If every order is still located, no maker was cancelled. *)
Lemma walk_inv_none side user L0 w b :
  walk_inv side user L0 w b -> locations b = fst <$> L0 -> walk_core side w b L0.
Proof.
  intros (C & _ & Hw) Hloc. destruct (wc_indexed _ _ _ _ Hw) as [Hl _].
  assert (E : drop_ids C L0 = L0); [|by rewrite E in Hw].
  apply map_eq. intros id. apply option_eq. intros x. rewrite drop_ids_Some. split; [tauto|].
  intros Hx. split; [done|]. intros Hin. rewrite Hl in Hloc.
  apply (f_equal (lookup id)) in Hloc. rewrite !lookup_fmap, Hx in Hloc.
  destruct (drop_ids C L0 !! id) eqn:E; [|done]. by apply drop_ids_Some in E as [_ ?].
Qed.

(** The same invariant, with the makers cancelled only when the mode says so. *)
Lemma walk_inv_cancels tk L0 w b w' b' entries :
  walk_inv (t_side tk) (t_user tk) L0 w b -> only_marked_empty (t_side tk) w b ->
  entries_ok (t_side tk) entries w b -> locations b = fst <$> L0 ->
  walk_levels tk w entries b = (w', b') ->
  exists C, (C <> [] -> cancels_makers (t_stp tk) (t_user tk) = true) /\
    (forall id, id ∈ C -> exists loc, L0 !! id = Some (loc, t_user tk)) /\
    walk_core (t_side tk) w' b' (drop_ids C L0).
Proof.
  intros Hw Hom Hok Hl Hrun.
  destruct (walk_levels_inv _ _ _ _ _ _ _ Hw Hom Hok Hrun) as (Hw' & _).
  destruct (cancels_makers (t_stp tk) (t_user tk)) eqn:E.
  - destruct Hw' as (C & HC & Hcore). by exists C.
  - exists []. rewrite drop_ids_nil. split_and!; [done|by intros ? ?%elem_of_nil|].
    eapply walk_inv_none; [done|].
    by rewrite (walk_levels_locations _ _ _ _ _ _ _ E Hw Hom Hok Hrun).
Qed.
End SweepFrame.
