(* ===== verification/MatchingProps.v ===== *)
(** * Properties of the matching engine

    Conservation of quantity, price limit and price priority, the budget of a
    notional order, self-trade prevention, the post-only guarantee, the
    invariant of the book, and the exactness of the fill-or-kill dry run. *)

From stdpp Require Import sorting.
From S2P Require Import Prelude Types PriceLevel OrderQuantity Fees Stp Clock Cache Risk OrderState Reject SkipMap Book BookInv Matching MatchingInv MatchingSteps SweepFrame.
Local Open Scope N_scope.

Section MatchingProps.
Context {PA : PriceLevelApi} {PL : PriceLevelLaws} {WC : WallClock}.
Implicit Types (b : OrderBook) (w : Walk) (R : Contents).

(** ** Quantities *)

Lemma round_down_le lot raw : round_down_to_lot lot raw <= raw.
Proof. unfold round_down_to_lot. case_match; [lia|apply N.le_sub_l]. Qed.

Lemma filled_at_executed tk p lv w w' lv0 qty plm :
  filled_at tk p lv w w' lv0 qty plm ->
  executed_quantity plm = pl_matchable_quantity lv0 qty (t_order_id tk) /\
  executed_quantity plm <= qty /\
  sat_sub qty (mr_remaining_quantity plm) = executed_quantity plm.
Proof.
  intros [(gen & gen' & lv1 & Hm) _ _ _ _ _ _]. apply pl_match_quantity in Hm as [Hx Hr].
  pose proof (matchable_le lv0 qty (t_order_id tk)). unfold sat_sub. lia.
Qed.

Lemma walk_start_trades id mode : mr_trades (match_result (walk_start id mode)) = [].
Proof. apply mr_new_spec. Qed.

(** The account of a base-quantity walk. *)
Definition base_account (q : N) w : Prop :=
  exists r, stop w = StopBase r /\ mr_remaining_quantity (match_result w) = r /\
    executed_quantity (match_result w) + r = q.

Lemma base_start id q limit : base_account q (walk_start id (BaseQty q limit)).
Proof.
  exists q. destruct (mr_new_spec id q) as (Ht & _ & Hr). simpl. split_and!; [done|done|].
  unfold executed_quantity. by rewrite Ht, sumN_nil.
Qed.

Lemma filled_at_base tk p lv w w' lv0 qty plm r :
  filled_at tk p lv w w' lv0 qty plm -> stop w = StopBase r ->
  mr_remaining_quantity (match_result w) = r ->
  executed_quantity plm <= r /\ mr_trades (match_result w') = mr_trades (match_result w) ++ mr_trades plm /\
  stop w' = StopBase (r - executed_quantity plm) /\
  mr_remaining_quantity (match_result w') = r - executed_quantity plm.
Proof.
  intros Hf Hs Hr. destruct (filled_at_executed _ _ _ _ _ _ _ _ Hf) as (_ & Hle & Hsub).
  destruct Hf as [_ _ _ Hcap Hres _ Hstop]. rewrite Hs in Hcap, Hstop. simpl in Hcap, Hstop.
  pose proof (round_down_le (t_lot tk) r).
  assert (Hx : executed_quantity plm <= r) by lia.
  destruct (add_filled_fields (mr_filled_order_ids plm) (add_trades (match_result w) (mr_trades plm)))
    as (Ht & _ & Hrem).
  destruct (add_trades_ok (mr_trades plm) (match_result w)) as (Ht' & _ & Hrem');
    [by rewrite Hr|].
  rewrite Hstop, Hsub, Hres, Ht, Ht', Hrem, Hrem', Hr. unfold sat_sub. by split_and!.
Qed.

Lemma base_account_step q tk p lv w w' :
  base_account q w -> level_effect tk p lv w w' -> base_account q w'.
Proof.
  intros (r & Hs & Hr & Hq) [(H1 & H2 & H3)|(_ & lv0 & qty & plm & Hf)].
  - exists r. by rewrite H1, H2.
  - destruct (filled_at_base _ _ _ _ _ _ _ _ _ Hf Hs Hr) as (Hx & Ht & Hst & Hrem).
    exists (r - executed_quantity plm). split_and!; [done|done|].
    unfold executed_quantity in *. rewrite Ht, sumN_app. lia.
Qed.

Lemma base_account_walk q limit id tk entries b w b' :
  walk_levels tk (walk_start id (BaseQty q limit)) entries b = (w, b') -> base_account q w.
Proof.
  intros Hrun. eapply (walk_levels_ind (base_account q)); [|apply base_start|exact Hrun].
  intros; by eapply base_account_step.
Qed.

Lemma match_conserves order_id side q limit user kind b out b' :
  match_order_inner order_id side (BaseQty q limit) user kind b = (Ok out, b') ->
  executed_quantity (result out) + mr_remaining_quantity (result out) = q.
Proof.
  intros (w & b1 & (b0 & u & b2 & _ & _ & Hwalk & _) & _ & _ & -> & _)%match_order_inner_inv.
  apply base_account_walk in Hwalk as (r & _ & Hr & Hq). simpl. by rewrite Hr.
Qed.

(** ** Prices *)

(** The levels of a side, keyed by their own price. *)
Definition levels_priced (side : Side) b : Prop :=
  forall p lv, levels side b !! p = Some lv -> pl_price lv = p.

(** What the trades of a level look like. *)
Lemma filled_at_trades tk p lv w w' lv0 qty plm t :
  filled_at tk p lv w w' lv0 qty plm -> pl_price lv = p -> t ∈ mr_trades plm ->
  trade_price t = p /\ 0 < trade_quantity t /\ trade_taker_order_id t = t_order_id tk /\
  trade_maker_order_id t ∈ queue_ids lv /\ beyond_limit (t_side tk) (t_limit tk) p = false.
Proof.
  intros [(gen & gen' & lv1 & Hm) Hsrc Hlim _ _ _ _] Hp Ht.
  apply pl_match_price in Hm as [_ Htr]. destruct (Htr t Ht) as (H1 & H2 & H3 & H4).
  destruct Hsrc as [-> _|Hq Hp0|pre o post -> _ _]; split_and!; try done; [congruence|..].
  - by rewrite H1, Hp0.
  - unfold queue_ids in *. rewrite Hq, list_elem_of_fmap in H4.
    destruct H4 as (o & -> & [_ Ho]%list_elem_of_filter). by apply list_elem_of_fmap_2.
  - congruence.
Qed.

(** The trades an effect adds are some of the level's. *)
Lemma add_trades_sublist ts : forall m, exists ts',
  mr_trades (add_trades m ts) = mr_trades m ++ ts' /\ ts' `sublist_of` ts.
Proof.
  unfold add_trades. induction ts as [|t ts IH]; intros m; simpl.
  - exists []. by rewrite app_nil_r.
  - pose proof (mr_add_trade_spec m t) as Ha. destruct (mr_add_trade m t) as [m'|]; simpl.
    + destruct (IH m') as (ts' & -> & Hsub). destruct Ha as (_ & -> & _).
      exists (t :: ts'). rewrite <- app_assoc. split; [done|]. by constructor.
    + destruct (IH m) as (ts' & -> & Hsub). exists ts'. split; [done|]. by constructor.
Qed.

Lemma filled_at_new tk p lv w w' lv0 qty plm :
  filled_at tk p lv w w' lv0 qty plm ->
  exists ts, mr_trades (match_result w') = mr_trades (match_result w) ++ ts /\
             ts `sublist_of` mr_trades plm.
Proof.
  intros [_ _ _ _ Hres _ _]. rewrite Hres.
  destruct (add_filled_fields (mr_filled_order_ids plm) (add_trades (match_result w) (mr_trades plm)))
    as (-> & _). apply add_trades_sublist.
Qed.

Lemma sublist_elem {A} (x : A) l k : l `sublist_of` k -> x ∈ l -> x ∈ k.
Proof. intros H. by apply sublist_subseteq in H; apply H. Qed.

(** A sound trade of a taker: at the price of a level within the limit, with
    an order resting there. *)
Definition sound_trade (tk : Taker) (entries : list (N * PriceLevel)) (t : Trade) : Prop :=
  0 < trade_quantity t /\ trade_taker_order_id t = t_order_id tk /\
  beyond_limit (t_side tk) (t_limit tk) (trade_price t) = false /\
  exists lv, (trade_price t, lv) ∈ entries /\ trade_maker_order_id t ∈ queue_ids lv.

Lemma sound_trades_walk tk id mode entries b w b' :
  (forall p lv, (p, lv) ∈ entries -> pl_price lv = p) ->
  walk_levels tk (walk_start id mode) entries b = (w, b') ->
  Forall (sound_trade tk entries) (mr_trades (match_result w)).
Proof.
  intros Hpr Hrun.
  eapply (walk_levels_ind (fun w => Forall (sound_trade tk entries) (mr_trades (match_result w))));
    [|rewrite walk_start_trades; constructor|exact Hrun].
  intros p lv w1 w2 Hin Hw [(-> & _)|(_ & lv0 & qty & plm & Hf)]; [done|].
  destruct (filled_at_new _ _ _ _ _ _ _ _ Hf) as (ts & -> & Hsub).
  apply Forall_app. split; [done|]. apply Forall_forall. intros t Ht%(sublist_elem t _ _ Hsub).
  destruct (filled_at_trades _ _ _ _ _ _ _ _ _ Hf (Hpr _ _ Hin) Ht) as (Htp & ? & ? & ? & ?).
  unfold sound_trade. rewrite Htp. split_and!; [done..|]. eauto.
Qed.

(** ** Price priority *)

(** [better side p q]: a taker of [side] prefers price [p] to [q], or is
    indifferent. *)
Definition better (side : Side) (p q : N) : Prop :=
  match side with Buy => p <= q | Sell => q <= p end.

Lemma sweep_entries_sorted side b :
  StronglySorted (fun x y : N * PriceLevel => better side x.1 y.1) (sweep_entries side b).
Proof.
  unfold sweep_entries. destruct side.
  - eapply StronglySorted_mono; [|apply sm_iter_sorted]. intros x y. unfold key_lt. simpl. lia.
  - pose proof (sm_iter_sorted (levels Buy b)) as Hs.
    induction Hs as [|x l Hs IH Hx]; [constructor|].
    rewrite reverse_cons. apply StronglySorted_app. split_and!; [|done|repeat constructor].
    intros y z Hy Hz. rewrite elem_of_reverse in Hy. apply list_elem_of_singleton in Hz as ->.
    rewrite Forall_forall in Hx. specialize (Hx y Hy). unfold key_lt in Hx. simpl. lia.
Qed.

Lemma walk_levels_priority tk entries : forall w b w' b',
  (forall p lv, (p, lv) ∈ entries -> pl_price lv = p) ->
  StronglySorted (fun x y : N * PriceLevel => better (t_side tk) x.1 y.1) entries ->
  StronglySorted (fun t u => better (t_side tk) (trade_price t) (trade_price u))
    (mr_trades (match_result w)) ->
  Forall (fun t => Forall (fun e : N * PriceLevel => better (t_side tk) (trade_price t) e.1) entries)
    (mr_trades (match_result w)) ->
  walk_levels tk w entries b = (w', b') ->
  StronglySorted (fun t u => better (t_side tk) (trade_price t) (trade_price u))
    (mr_trades (match_result w')).
Proof.
  induction entries as [|[p lv] entries IH]; intros w b w' b' Hpr Hs Hw Hb Hrun; simpl in Hrun.
  { by st_inv Hrun. }
  apply sbind_inv in Hrun as ([w1 go] & b1 & E & Hrun). apply level_step_effect in E.
  apply StronglySorted_cons in Hs as [Hp Hs].
  assert (Hnew : exists ts, mr_trades (match_result w1) = mr_trades (match_result w) ++ ts /\
                            Forall (fun t => trade_price t = p) ts).
  { destruct E as [(-> & _)|(_ & lv0 & qty & plm & Hf)]; [exists []; by rewrite app_nil_r|].
    destruct (filled_at_new _ _ _ _ _ _ _ _ Hf) as (ts & -> & Hsub). exists ts. split; [done|].
    apply Forall_forall. intros t Ht%(sublist_elem t _ _ Hsub).
    by eapply filled_at_trades; [done|apply Hpr; left|]. }
  destruct Hnew as (ts & Hts & Hprice). rewrite Forall_forall in Hb, Hprice.
  assert (Hrefl : forall x, better (t_side tk) x x) by (intros x; destruct (t_side tk); simpl; lia).
  assert (Hw1 : StronglySorted (fun t u => better (t_side tk) (trade_price t) (trade_price u))
    (mr_trades (match_result w1))).
  { rewrite Hts. apply StronglySorted_app. split_and!; [|done|].
    - intros t u Ht Hu. rewrite (Hprice u Hu). specialize (Hb t Ht). by apply Forall_cons in Hb as [? _].
    - clear Hts. induction ts as [|t ts IHts]; constructor.
      + apply IHts. intros; apply Hprice; by right.
      + apply Forall_forall. intros u Hu.
        by rewrite (Hprice t ltac:(left)), (Hprice u ltac:(by right)). }
  destruct go; [|st_inv Hrun; done].
  eapply IH; [|done|exact Hw1| |exact Hrun]; [intros; apply Hpr; by right|].
  rewrite Hts. apply Forall_app. split; apply Forall_forall; intros t Ht.
  - specialize (Hb t Ht). by apply Forall_cons in Hb as [_ ?].
  - rewrite (Hprice t Ht). done.
Qed.

Lemma priced_entries side b R p lv :
  rests b R -> (p, lv) ∈ sweep_entries side b -> pl_price lv = p.
Proof. intros Hr Hin%elem_of_sweep_entries. by eapply rests_price. Qed.

(** C17.  Price limit and price priority.  Every trade of a successful match
    by quantity, with or without a limit price, is struck at the price of a level of the opposite side, with an order that
    was resting at that level, for a positive quantity, never beyond the
    taker's limit; and the trades come best price first. *)
Theorem match_prices_sound order_id side q limit user kind b R out b' :
  book_rep b R ->
  match_order_inner order_id side (BaseQty q limit) user kind b = (Ok out, b') ->
  StronglySorted (fun t u => better side (trade_price t) (trade_price u)) (mr_trades (result out)) /\
  forall t, t ∈ mr_trades (result out) ->
    0 < trade_quantity t /\ trade_taker_order_id t = order_id /\
    beyond_limit side limit (trade_price t) = false /\
    exists lv, levels (opposite side) b !! trade_price t = Some lv /\
               trade_maker_order_id t ∈ queue_ids lv.
Proof.
  intros [Hr _ _ _] (w & b1 & (b0 & u & b2 & _ & _ & Hwalk & _) & _ & _ & -> & _)%match_order_inner_inv.
  simpl in Hwalk |- *. split.
  - eapply (walk_levels_priority (taker_of b order_id side (BaseQty q limit) user kind));
      [by intros; eapply priced_entries|apply sweep_entries_sorted|..|exact Hwalk];
      rewrite walk_start_trades; constructor.
  - intros t Ht. apply sound_trades_walk in Hwalk; [|by intros; eapply priced_entries].
    rewrite Forall_forall in Hwalk. destruct (Hwalk t Ht) as (? & ? & ? & lv & Hin & ?).
    split_and!; [done..|]. exists lv. by rewrite <- elem_of_sweep_entries.
Qed.

(** ** Notional budget *)

Definition spent (m : MatchResult) : N :=
  sumN (fun t => trade_price t * trade_quantity t) (mr_trades m).

Definition quote_account (amount : N) w : Prop :=
  exists r, stop w = StopQuote r /\ spent (match_result w) + r <= amount.

Lemma sumN_sublist {A} (f : A -> N) l k : l `sublist_of` k -> sumN f l <= sumN f k.
Proof. induction 1; rewrite ?sumN_nil, ?sumN_cons; lia. Qed.

Lemma quote_account_step amount tk p lv w w' :
  amount <= U128_MAX -> pl_price lv = p ->
  quote_account amount w -> level_effect tk p lv w w' -> quote_account amount w'.
Proof.
  intros Ham Hpr (r & Hs & Hsp) [(H1 & H2 & _)|(_ & lv0 & qty & plm & Hf)].
  { exists r. by rewrite H1, H2. }
  destruct (filled_at_executed _ _ _ _ _ _ _ _ Hf) as (_ & Hle & Hsub).
  destruct (filled_at_new _ _ _ _ _ _ _ _ Hf) as (ts & Hts & Hsl).
  assert (Hlvl : sumN (fun t => trade_price t * trade_quantity t) ts <= p * executed_quantity plm).
  { etransitivity; [apply (sumN_sublist _ _ _ Hsl)|]. unfold executed_quantity.
    assert (Hp : forall t, t ∈ mr_trades plm -> trade_price t = p)
      by (intros t Ht; by eapply filled_at_trades).
    clear -Hp. induction (mr_trades plm) as [|t l IH]; rewrite ?sumN_nil, ?sumN_cons; [lia|].
    rewrite (Hp t) by left. assert (forall t, t ∈ l -> trade_price t = p) by (intros; apply Hp; by right).
    specialize (IH H). nia. }
  destruct Hf as [_ _ _ Hcap _ _ Hstop]. rewrite Hs in Hcap, Hstop. simpl in Hcap, Hstop.
  exists (r - p * executed_quantity plm).
  assert (Hbud : p * executed_quantity plm <= r).
  { destruct ((p =? 0) || (r <? p)) eqn:E; bool_prop; [nia|].
    pose proof (round_down_le (t_lot tk) (N.min (r / p) U64_MAX)).
    assert (executed_quantity plm <= r / p) by lia.
    pose proof (N.Div0.mul_div_le r p). nia. }
  split.
  - rewrite Hstop, Hsub. unfold sat_sub, sat_mul. f_equal. lia.
  - unfold spent in *. rewrite Hts, sumN_app. lia.
Qed.

(** [executed + remaining] of a result never changes. *)
Lemma add_trades_total ts : forall m,
  executed_quantity (add_trades m ts) + mr_remaining_quantity (add_trades m ts) =
  executed_quantity m + mr_remaining_quantity m.
Proof.
  unfold add_trades, executed_quantity.
  induction ts as [|t ts IH]; intros m; simpl; [done|]. rewrite IH.
  pose proof (mr_add_trade_spec m t) as Ha. destruct (mr_add_trade m t) as [m'|]; simpl; [|done].
  destruct Ha as (Hle & -> & _ & ->). rewrite sumN_app, sumN_cons, sumN_nil. lia.
Qed.

Lemma total_walk tk id mode entries b w b' :
  walk_levels tk (walk_start id mode) entries b = (w, b') ->
  executed_quantity (match_result w) + mr_remaining_quantity (match_result w) =
    initial_match_quantity mode.
Proof.
  intros Hrun. eapply (walk_levels_ind (fun w => executed_quantity (match_result w) +
    mr_remaining_quantity (match_result w) = initial_match_quantity mode)); [| |exact Hrun].
  - intros p lv w1 w2 _ Hw [(-> & _)|(_ & lv0 & qty & plm & [_ _ _ _ Hres _ _])]; [done|].
    rewrite Hres. destruct (add_filled_fields (mr_filled_order_ids plm)
      (add_trades (match_result w1) (mr_trades plm))) as (Ht & _ & Hr).
    etransitivity; [|exact (eq_trans (add_trades_total (mr_trades plm) _) Hw)].
    unfold executed_quantity. by rewrite Ht, Hr.
  - destruct (mr_new_spec id (initial_match_quantity mode)) as (Ht & _ & Hr).
    unfold executed_quantity. rewrite walk_start_trades. rewrite sumN_nil. exact Hr.
Qed.

Lemma add_all_trades_spec ts : forall m,
  match add_all_trades m ts with
  | Some m' => sumN trade_quantity ts <= mr_remaining_quantity m /\
      mr_trades m' = mr_trades m ++ ts /\
      mr_filled_order_ids m' = mr_filled_order_ids m /\
      mr_remaining_quantity m' = mr_remaining_quantity m - sumN trade_quantity ts
  | None => mr_remaining_quantity m < sumN trade_quantity ts
  end.
Proof.
  unfold add_all_trades. induction ts as [|t ts IH]; intros m; simpl.
  - rewrite sumN_nil, app_nil_r. split_and!; [lia|done|done|lia].
  - rewrite sumN_cons. pose proof (mr_add_trade_spec m t) as Ha.
    destruct (mr_add_trade m t) as [m'|]; simpl.
    + destruct Ha as (Hle & Ht & Hf & Hr). specialize (IH m').
      destruct (foldl _ (Some m') ts) as [m2|].
      * destruct IH as (? & -> & -> & ->). rewrite Ht, Hf, Hr, <- app_assoc.
        split_and!; [lia|done|done|lia].
      * lia.
    + assert (Hn : foldl (fun om t => m ← om; mr_add_trade m t) None ts = None)
        by (clear; induction ts; done). rewrite Hn. lia.
Qed.

Lemma normalize_spec id src :
  executed_quantity src <= U64_MAX ->
  mr_trades (normalize_notional_match_result id src) = mr_trades src /\
  mr_filled_order_ids (normalize_notional_match_result id src) = mr_filled_order_ids src /\
  mr_remaining_quantity (normalize_notional_match_result id src) = 0.
Proof.
  intros Hle. unfold normalize_notional_match_result. rewrite sat_sum_spec.
  fold (executed_quantity src). rewrite N.min_r by done.
  destruct (mr_new_spec id (executed_quantity src)) as (Ht & Hf & Hr).
  pose proof (add_all_trades_spec (mr_trades src) (mr_new id (executed_quantity src))) as Ha.
  unfold executed_quantity in *. destruct (add_all_trades _ _) as [m|].
  - destruct Ha as (_ & Ht' & Hf' & Hr'). destruct (add_filled_fields (mr_filled_order_ids src) m)
      as (-> & -> & ->). rewrite Ht', Hf', Hr', Ht, Hf, Hr. split_and!; [done|done|lia].
  - lia.
Qed.

(** The trades and the filled ids an outcome reports are the walk's. *)
Lemma outcome_trades tk id mode entries b w b' :
  walk_levels tk (walk_start id mode) entries b = (w, b') ->
  mr_trades (result (outcome_of id mode w)) = mr_trades (match_result w) /\
  mr_filled_order_ids (result (outcome_of id mode w)) = mr_filled_order_ids (match_result w).
Proof.
  intros Hrun. apply total_walk in Hrun. destruct mode; simpl in *; [done|].
  destruct (normalize_spec id (match_result w)) as (? & ? & _); [lia|done].
Qed.

(** C22.  A notional order never overspends.  A quote-amount match that
    succeeds has at least one trade, spends at most the requested amount over
    all its trades, and reports no residual base quantity. *)
Theorem notional_never_overspends order_id side amount user b R out b' :
  book_rep b R -> amount <= U128_MAX ->
  match_order_inner order_id side (QuoteAmount amount) user TakerStandard b = (Ok out, b') ->
  mr_trades (result out) <> [] /\ spent (result out) <= amount /\
  mr_remaining_quantity (result out) = 0.
Proof.
  intros [Hr _ _ _] Ham (w & b1 & (b0 & u & b2 & _ & _ & Hwalk & _) & _ & _ & -> & Hne)%match_order_inner_inv.
  pose proof (total_walk _ _ _ _ _ _ _ Hwalk) as Htot. simpl in Htot.
  destruct (normalize_spec order_id (match_result w)) as (Ht & _ & Hrem); [lia|].
  simpl. unfold spent. rewrite Ht, Hrem. split_and!; [|..|done].
  - intros E. by destruct (Hne E).
  - assert (Hacc : quote_account amount w); [|destruct Hacc as (r & _ & Hsp); unfold spent in Hsp; lia].
    eapply (walk_levels_ind (quote_account amount)); [| |exact Hwalk].
    + intros p lv w1 w2 Hin. apply quote_account_step; [done|]. by eapply priced_entries.
    + exists amount. split; [done|]. unfold spent. rewrite walk_start_trades, sumN_nil. lia.
Qed.

(** ** Self-trade prevention *)

Definition visible_u64 b : Prop :=
  forall s p lv, levels s b !! p = Some lv -> Forall (fun o => is_u64 (visible_quantity o)) (queue lv).

(** The makers of a level's trades never belong to the taker's user. *)
Lemma filled_at_no_self tk p lv w w' lv0 qty plm t :
  filled_at tk p lv w w' lv0 qty plm -> stp_active tk = true ->
  t_order_id tk ∉ queue_ids lv -> Forall (fun o => is_u64 (visible_quantity o)) (queue lv) ->
  t ∈ mr_trades plm ->
  exists o, o ∈ queue lv /\ o_id o = trade_maker_order_id t /\ o_user_id o <> t_user tk.
Proof.
  intros [(gen & gen' & lv1 & Hm) Hsrc _ _ _ _ _] Hact Hfresh Hvis Ht.
  pose proof (pl_match_price _ _ _ _ _ _ _ _ Hm) as [_ Htr].
  destruct (Htr t Ht) as (_ & _ & _ & Hin). unfold queue_ids in Hin, Hfresh.
  destruct Hsrc as [-> Hno|Hq _|pre o post -> (Hsp & _ & Hpre) Hqty].
  - apply list_elem_of_fmap in Hin as (o & Hid & Ho). exists o. split_and!; [done|done|].
    specialize (Hno Hact). rewrite Forall_forall in Hno. by apply Hno.
  - rewrite Hq in Hin. apply list_elem_of_fmap in Hin as (o & Hid & [Hown Ho]%list_elem_of_filter).
    exists o. split_and!; [done|done|]. intros Hu. apply Hown. apply list_elem_of_fmap.
    exists o. split; [done|]. by apply list_elem_of_filter.
  - rewrite Hsp in Hvis, Hfresh. apply Forall_app in Hvis as [Hvis _].
    assert (Hf : trade_maker_order_id t ∈ (o_id <$> pre)).
    { eapply pl_match_fifo; [exact Hm|exact Hsp| |done|lia|done].
      intros Hx. apply Hfresh. rewrite fmap_app. apply elem_of_app. by left. }
    apply list_elem_of_fmap in Hf as (o' & Hid & Ho'). exists o'. split_and!; [|done|].
    + rewrite Hsp. apply elem_of_app. by left.
    + rewrite Forall_forall in Hpre. by apply Hpre.
Qed.

(** C18.  Self-trade prevention.  On a well-formed book whose visible
    quantities are u64, when STP is enabled, the taker names its user and the
    taker's id does not itself rest in the book, no trade of the match —
    base-quantity or notional, in any mode — is made with a resting order of
    that same user.  The condition on the id is needed: [add_order] checks it,
    the market entry points do not, and [reused_id_self_trades] is a
    self-trade under a reused id. *)
Theorem match_no_self_trade order_id side mode user b R out b' :
  book_rep b R -> visible_u64 b -> R !! order_id = None ->
  stp_mode (book_config b) <> STPNone -> user <> Hash32_zero ->
  match_order_inner order_id side mode user TakerStandard b = (Ok out, b') ->
  forall t, t ∈ mr_trades (result out) ->
    exists loc u, R !! trade_maker_order_id t = Some (loc, u) /\ u <> user.
Proof.
  intros [Hr _ _ _] Hvis Hfresh Hstp Huser
    (w & b1 & (b0 & u & b2 & _ & _ & Hwalk & _) & _ & _ & -> & _)%match_order_inner_inv t.
  destruct (outcome_trades _ order_id _ _ _ _ _ Hwalk) as [-> _].
  set (tk := taker_of b order_id side mode user TakerStandard) in *.
  assert (Hact : stp_active tk = true).
  { unfold stp_active, is_enabled. simpl. by rewrite bool_decide_true, bool_decide_false. }
  enough (Hall : Forall (fun t => exists loc u, R !! trade_maker_order_id t = Some (loc, u) /\ u <> user)
            (mr_trades (match_result w))) by (rewrite Forall_forall in Hall; apply Hall).
  eapply (walk_levels_ind (fun w => Forall (fun t => exists loc u,
      R !! trade_maker_order_id t = Some (loc, u) /\ u <> user) (mr_trades (match_result w))));
    [|rewrite walk_start_trades; constructor|exact Hwalk].
  intros p lv w1 w2 Hin%elem_of_sweep_entries Hw [(-> & _)|(_ & lv0 & qty & plm & Hf)]; [done|].
  destruct (filled_at_new _ _ _ _ _ _ _ _ Hf) as (ts & -> & Hsub). apply Forall_app. split; [done|].
  apply Forall_forall. intros t' Ht'%(sublist_elem t' _ _ Hsub).
  assert (Hid : t_order_id tk ∉ queue_ids lv).
  { intros Hx. destruct (rests_level _ _ _ _ _ _ Hr Hin Hx) as (u' & HR & _). simpl in HR. congruence. }
  destruct (filled_at_no_self _ _ _ _ _ _ _ _ t' Hf Hact Hid (Hvis _ _ _ Hin) Ht') as (o & Ho & <- & Hu).
  exists (p, opposite side), (o_user_id o). split; [|done].
  apply (rests_iff _ _ Hr). exists lv. split; [done|]. apply list_elem_of_fmap. by exists o.
Qed.

(** ** The depth a taker reaches *)

(** The quantity resting at the levels of the opposite side that the limit
    allows: what can be drawn of every order but the taker's own id. *)
Definition level_depth (order_id : Id) (e : N * PriceLevel) : N :=
  sumN order_matchable_qty (filter (fun o => o_id o <> order_id) (queue e.2)).

Definition reachable_depth (order_id : Id) (side : Side) (limit : option N) b : N :=
  sumN (level_depth order_id)
    (filter (fun e => beyond_limit side limit e.1 = false) (sm_iter (levels (opposite side) b))).

Lemma reachable_depth_sweep order_id side limit b :
  reachable_depth order_id side limit b =
  sumN (level_depth order_id)
    (filter (fun e => beyond_limit side limit e.1 = false) (sweep_entries side b)).
Proof.
  apply sumN_Permutation. unfold sweep_entries. destruct side; simpl; [done|].
  by rewrite reverse_Permutation.
Qed.

Lemma beyond_limit_mono side limit p q :
  better side p q -> beyond_limit side limit p = true -> beyond_limit side limit q = true.
Proof.
  unfold beyond_limit, better. destruct limit as [l|]; [|done]. destruct side; intros H1 H2; bool_prop;
    apply N.ltb_lt; lia.
Qed.

Lemma fill_level_stop w side p lv q id ts b w' lv' b' r :
  fill_level w side p lv q id ts b = ((w', lv'), b') -> stop w = StopBase r ->
  stop w' = StopBase (r - pl_matchable_quantity lv q id).
Proof.
  intros (gen' & plm & Hm & -> & _)%fill_level_spec Hs. simpl. rewrite Hs. simpl.
  apply pl_match_quantity in Hm as [Hx Hr]. pose proof (matchable_le lv q id).
  unfold sat_sub. f_equal. lia.
Qed.

Lemma normal_match_stop tk w p lv cap b w' go b' r :
  normal_match tk w p lv cap b = ((w', go), b') -> stop w = StopBase r ->
  stop w' = StopBase (r - pl_matchable_quantity lv cap (t_order_id tk)) /\
  go = negb (r - pl_matchable_quantity lv cap (t_order_id tk) =? 0).
Proof.
  intros Hrun Hs. unfold normal_match in Hrun.
  apply sbind_inv in Hrun as ([w1 lv1] & b1 & E & Hrun). st_inv Hrun. simplify_eq.
  rewrite (fill_level_stop _ _ _ _ _ _ _ _ _ _ _ _ E Hs). done.
Qed.

Lemma normal_match_stp tk w p lv cap b w' go b' :
  normal_match tk w p lv cap b = ((w', go), b') -> stp_taker_cancelled w' = stp_taker_cancelled w.
Proof.
  unfold normal_match. intros ([w1 lv1] & b1 & E & Hrun)%sbind_inv. st_inv Hrun. simplify_eq.
  apply fill_level_spec in E as (gen' & plm & _ & -> & _). apply absorb_flags.
Qed.

Lemma walk_levels_depth tk entries : forall w b w' b' r,
  t_kind tk = TakerStandard -> stp_active tk = false -> t_lot tk <= 1 ->
  StronglySorted (fun x y : N * PriceLevel => better (t_side tk) x.1 y.1) entries ->
  stop w = StopBase r -> walk_levels tk w entries b = (w', b') ->
  stp_taker_cancelled w' = stp_taker_cancelled w /\
  stop w' = StopBase (r - N.min r (sumN (level_depth (t_order_id tk))
    (filter (fun e => beyond_limit (t_side tk) (t_limit tk) e.1 = false) entries))).
Proof.
  induction entries as [|[p lv] entries IH]; intros w b w' b' r Hk Hact Hlot Hs Hw Hrun; simpl in Hrun.
  { st_inv Hrun. rewrite filter_nil, sumN_nil, Hw, N.min_0_r, N.sub_0_r. done. }
  apply StronglySorted_cons in Hs as [Hp Hs].
  apply sbind_inv in Hrun as ([w1 go] & b1 & E & Hrun). unfold level_step in E. rewrite filter_cons.
  destruct (beyond_limit _ _ p) eqn:Hlim; simpl; rewrite Hlim.
  { rewrite decide_False by done. rewrite list_filter_none; [|].
    - rewrite sumN_nil, N.min_0_r, N.sub_0_r. st_inv E. simplify_eq. by st_inv Hrun.
    - intros [q lv'] Hin. rewrite Forall_forall in Hp. specialize (Hp _ Hin). simpl in Hp |- *.
      by rewrite (beyond_limit_mono _ _ _ _ Hp Hlim). }
  rewrite decide_True, sumN_cons by done. rewrite Hw in E. simpl in E.
  unfold round_down_to_lot in E. rewrite (proj2 (N.leb_le _ _) Hlot) in E.
  destruct (N.eqb_spec r 0) as [->|Hr].
  { st_inv E. simplify_eq. st_inv Hrun. by rewrite Hw. }
  rewrite decide_False, Hact in E by congruence.
  pose proof (normal_match_stp _ _ _ _ _ _ _ _ _ E) as Hf.
  destruct (normal_match_stop _ _ _ _ _ _ _ _ _ _ E Hw) as [Hw1 ->]. rewrite pl_matchable_spec in *.
  change (sumN order_matchable_qty _) with (level_depth (t_order_id tk) (p, lv)) in *.
  set (d := level_depth _ _) in *. destruct (N.eqb_spec (r - N.min r d) 0) as [Hz|Hz]; simpl in Hrun.
  - st_inv Hrun. split; [done|]. rewrite Hw1. f_equal. lia.
  - destruct (IH _ _ _ _ _ Hk Hact Hlot Hs Hw1 Hrun) as [-> ->]. split; [done|]. f_equal. lia.
Qed.

(** C4.  A sweep executes exactly the depth it reaches.  On a well-formed book
    without lot rounding, when self-trade prevention does not apply (the mode
    is None or the taker names no user), an order of quantity [q] executes
    the smaller of [q] and the quantity resting within its limit on the
    opposite side — everything that can be drawn of every order there, hidden
    replenishment included, the taker's own id excepted — and reports the rest
    as remaining.  Only a market order that meets no such quantity fails, with
    InsufficientLiquidity. *)
Theorem match_executes_depth order_id side q limit user b R r b' :
  book_rep b R ->
  stp_mode (book_config b) = STPNone \/ user = Hash32_zero ->
  default 1 (lot_size (book_config b)) <= 1 ->
  match_order_inner order_id side (BaseQty q limit) user TakerStandard b = (r, b') ->
  let executed := N.min q (reachable_depth order_id side limit b) in
  match r with
  | Ok out => executed_quantity (result out) = executed /\
      mr_remaining_quantity (result out) = q - executed /\ (limit = None -> 0 < executed)
  | Err e => limit = None /\ executed = 0 /\ e = InsufficientLiquidity side q 0
  end.
Proof.
  intros [Hr _ _ _] Hstp Hlot
    (w & b1 & (b0 & u & b2 & _ & _ & Hwalk & _) & _ & _ & Hres)%match_order_inner_inv executed.
  set (tk := taker_of b order_id side (BaseQty q limit) user TakerStandard) in *.
  assert (Hact : stp_active tk = false).
  { unfold stp_active, is_enabled. simpl. destruct Hstp as [-> | ->]; [done|].
    rewrite (bool_decide_true (Hash32_zero = _)) by done. apply andb_false_r. }
  destruct (base_account_walk _ _ _ _ _ _ _ _ Hwalk) as (r2 & Hs2 & Hrem & Hacc).
  pose proof (sound_trades_walk _ _ _ _ _ _ _
    (fun p lv Hin => priced_entries _ _ _ _ _ Hr Hin) Hwalk) as Hpos.
  destruct (walk_levels_depth tk _ (walk_start order_id (BaseQty q limit)) _ _ _ q eq_refl Hact Hlot (sweep_entries_sorted _ _) eq_refl Hwalk)
    as [Hf Hs]. simpl in Hf, Hs. rewrite <- reachable_depth_sweep in Hs. fold executed in Hs.
  assert (r2 = q - executed) as -> by congruence.
  assert (Hx : executed_quantity (match_result w) = executed) by lia.
  destruct r as [out|e].
  - destruct Hres as [-> Hnil]. simpl. split_and!; [done|done|]. intros ->.
    destruct (mr_trades (match_result w)) as [|t ts] eqn:Et; [by destruct (Hnil eq_refl)|].
    apply Forall_cons in Hpos as [[Ht _] _]. rewrite <- Hx. unfold executed_quantity.
    rewrite Et, sumN_cons. lia.
  - destruct Hres as [Et [[? _]|Hl]]; [congruence|]. simpl in Hl. destruct limit; [done|].
    simplify_eq. split_and!; [done| |done]. rewrite <- Hx. unfold executed_quantity. by rewrite Et.
Qed.

(** ** The fill-or-kill dry run *)

(** The quantity of a level, visible and hidden, fits a u64. *)
Definition level_depth_u64 (lv : PriceLevel) : Prop :=
  sumN (fun o => visible_quantity o + hidden_quantity o) (queue lv) <= U64_MAX.

Definition depth_u64 b : Prop :=
  forall s p lv, levels s b !! p = Some lv -> level_depth_u64 lv.

Lemma level_depth_visible lv :
  level_depth_u64 lv -> Forall (fun o => is_u64 (visible_quantity o)) (queue lv).
Proof.
  unfold level_depth_u64. intros Hd. apply Forall_forall. intros o Ho.
  pose proof (sumN_elem (fun o => visible_quantity o + hidden_quantity o) _ _ Ho) as Hle.
  simpl in Hle. unfold is_u64. lia.
Qed.

Lemma depth_visible b : depth_u64 b -> visible_u64 b.
Proof. intros Hd s p lv Hlv. by eapply level_depth_visible, Hd. Qed.

Lemma matchable_le_total (o : OrderType unit) :
  order_matchable_qty o <= visible_quantity o + hidden_quantity o.
Proof.
  assert (Hsat : forall a h h', h' <= h -> sat_add U64_MAX a h' <= a + h) by (intros; unfold sat_add; lia).
  unfold order_matchable_qty. rewrite hidden_quantity_spec. destruct o; apply Hsat; simpl; try case_match; lia.
Qed.

(** The sum over some makers of such a level does not wrap. *)
Lemma level_depth_sum lv P `{!forall o, Decision (P o)} :
  level_depth_u64 lv ->
  sumN order_matchable_qty (filter P (queue lv)) mod (U64_MAX + 1) =
  sumN order_matchable_qty (filter P (queue lv)).
Proof.
  unfold level_depth_u64. intros Hd. apply N.mod_small.
  pose proof (sumN_sublist order_matchable_qty _ _ (sublist_filter P (queue lv))).
  pose proof (sumN_mono order_matchable_qty (fun o => visible_quantity o + hidden_quantity o)
    (queue lv) (fun o _ => matchable_le_total o)). lia.
Qed.

Definition level_sane (taker : Id) (lv : PriceLevel) : Prop :=
  NoDup (queue_ids lv) /\ (taker ∉ queue_ids lv) /\ level_depth_u64 lv.

(** Up to the safe quantity the level fills everything asked of it. *)
Lemma matchable_safe lv taker pre o post u q :
  level_sane taker lv -> split_at_user (queue lv) pre o post u ->
  q <= N.min U64_MAX (sumN visible_quantity pre) ->
  pl_matchable_quantity lv q taker = q.
Proof.
  intros (_ & Hid & Hvis%level_depth_visible) (Hsp & _) Hq. rewrite pl_matchable_spec. unfold queue_ids in Hid.
  rewrite Hsp in Hvis, Hid |- *. rewrite fmap_app, elem_of_app in Hid. apply Forall_app in Hvis as [Hvis _].
  rewrite filter_app, (list_filter_all _ pre), sumN_app.
  - assert (sumN visible_quantity pre <= sumN order_matchable_qty pre); [|lia].
    apply sumN_mono. intros x Hx. apply visible_le_matchable. rewrite Forall_forall in Hvis. auto.
  - intros x Hx E. apply Hid. left. rewrite <- E. by apply list_elem_of_fmap_2.
Qed.

Lemma fill_safe_stop tk w p lv cap b w' lv' b' r pre o post u :
  fill_safe w (t_side tk) p lv cap (N.min U64_MAX (sumN visible_quantity pre))
    (t_order_id tk) (t_ts tk) b = ((w', lv'), b') ->
  stop w = StopBase r -> level_sane (t_order_id tk) lv -> split_at_user (queue lv) pre o post u ->
  stop w' = StopBase (r - N.min cap (N.min U64_MAX (sumN visible_quantity pre))).
Proof.
  intros Hrun Hs Hsane Hsp. set (safe := N.min U64_MAX _) in *. unfold fill_safe in Hrun.
  destruct (0 <? safe) eqn:E1; bool_prop; [destruct (0 <? _) eqn:E2; bool_prop|].
  - rewrite (fill_level_stop _ _ _ _ _ _ _ _ _ _ _ _ Hrun Hs). f_equal.
    rewrite (matchable_safe lv _ pre o post u); [done|done|done|lia].
  - st_inv Hrun. simplify_eq. rewrite Hs. f_equal. lia.
  - st_inv Hrun. simplify_eq. rewrite Hs. f_equal. lia.
Qed.

Lemma own_ids_filter user (l : list (OrderType unit)) :
  NoDup (o_id <$> l) ->
  filter (fun o => o_id o ∉ own_ids user l) l = filter (fun o => o_user_id o <> user) l.
Proof.
  intros Hnd. apply list_filter_ext. intros o Ho. unfold own_ids. rewrite list_elem_of_fmap. split.
  - intros Hn Hu. apply Hn. exists o. by rewrite list_elem_of_filter.
  - intros Hu (o' & Hid & [Hu' Ho']%list_elem_of_filter). apply Hu.
    by rewrite (NoDup_fmap_inj o_id l o o' Hnd Ho Ho' Hid).
Qed.

(** One level of the sweep against one level of the dry run. *)
Lemma level_step_fok tk w p lv b w' go b' r :
  level_step tk w p lv b = ((w', go), b') -> t_kind tk = TakerStandard ->
  stop w = StopBase r -> beyond_limit (t_side tk) (t_limit tk) p = false ->
  round_down_to_lot (t_lot tk) r <> 0 -> level_sane (t_order_id tk) lv ->
  let cap := round_down_to_lot (t_lot tk) r in
  let '(reachable, stop_after) :=
    fok_reachable (t_stp tk) (stp_active tk) (t_user tk) (t_order_id tk) lv cap in
  stop w' = StopBase (r - N.min cap reachable) /\
  go = negb stop_after && negb (r - N.min cap reachable =? 0).
Proof.
  intros Hrun Hk Hs Hlim Hcap Hsane cap. unfold level_step in Hrun.
  rewrite Hlim, Hs in Hrun. simpl in Hrun. fold cap in Hrun, Hcap.
  rewrite (proj2 (N.eqb_neq cap 0)) in Hrun by done. rewrite decide_False in Hrun by congruence.
  unfold fok_reachable. fold (queue lv) in Hrun |- *.
  assert (Hmin : N.min cap (pl_matchable_quantity lv cap (t_order_id tk)) =
                 pl_matchable_quantity lv cap (t_order_id tk))
    by (pose proof (matchable_le lv cap (t_order_id tk)); lia).
  destruct (stp_active tk); [|rewrite Hmin; by eapply normal_match_stop].
  pose proof (check_stp_at_level_spec (queue lv) (t_user tk) (t_stp tk)) as Hstp.
  destruct (check_stp_at_level _ _ _) as [|safe| |safe id].
  - rewrite Hmin. by eapply normal_match_stop.
  - destruct Hstp as (_ & _ & pre & o & post & Hsp & ->).
    apply sbind_inv in Hrun as ([w1 lv1] & b1 & E & Hrun). st_inv Hrun. simplify_eq.
    split; [exact (fill_safe_stop _ _ _ _ _ _ _ _ _ _ _ _ _ _ E Hs Hsane Hsp)|done].
  - apply sbind_inv in Hrun as (lv1 & b1 & E & Hrun).
    apply cancel_own_makers_level in E as [Hq _]. destruct Hsane as (Hnd & Hid & Hd).
    rewrite (level_depth_sum lv _ Hd).
    rewrite (own_ids_filter (t_user tk) (queue lv) Hnd) in Hq. rewrite <- Hq.
    case_decide as Hz.
    + apply order_count_zero in Hz. st_inv Hrun. simplify_eq. simpl. rewrite Hz, sumN_nil.
      assert (N.min cap 0 = 0) as -> by lia. rewrite N.sub_0_r.
      pose proof (round_down_le (t_lot tk) r). fold cap in H.
      rewrite (proj2 (N.eqb_neq r 0)) by lia. done.
    + eapply normal_match_stop in Hrun; [|done]. rewrite pl_matchable_spec, list_filter_all in Hrun; [done|].
      intros o Ho. rewrite Hq in Ho. apply list_elem_of_filter in Ho as [_ Ho]. intros E.
      apply Hid. rewrite <- E. by apply list_elem_of_fmap_2.
  - destruct Hstp as (_ & _ & pre & o & post & Hsp & _ & ->).
    apply sbind_inv in Hrun as ([w1 lv1] & b1 & E & Hrun).
    apply sbind_inv in Hrun as (lv2 & b2 & E2 & Hrun). st_inv Hrun. simplify_eq.
    split; [|done]. transitivity (stop w1); [by case_decide|].
    exact (fill_safe_stop _ _ _ _ _ _ _ _ _ _ _ _ _ _ E Hs Hsane Hsp).
Qed.

Lemma walk_levels_fok tk quantity entries : forall w b w' b' r matched,
  t_kind tk = TakerStandard -> quantity <= U64_MAX ->
  Forall (fun e => level_sane (t_order_id tk) e.2) entries ->
  stop w = StopBase r -> matched + r = quantity ->
  walk_levels tk w entries b = (w', b') ->
  exists r', stop w' = StopBase r' /\
    fok_levels (t_stp tk) (stp_active tk) (t_side tk) quantity (t_limit tk) (t_lot tk)
      (t_user tk) (t_order_id tk) entries matched + r' = quantity.
Proof.
  induction entries as [|[p lv] entries IH]; intros w b w' b' r matched Hk Hq Hsane Hs Hm Hrun;
    simpl in Hrun.
  { st_inv Hrun. by exists r. }
  apply Forall_cons in Hsane as [Hlv Hsane]. simpl in Hlv.
  apply sbind_inv in Hrun as ([w1 go] & b1 & E & Hrun). cbn [fok_levels].
  assert (Hstop : beyond_limit (t_side tk) (t_limit tk) p = true \/
                  round_down_to_lot (t_lot tk) r = 0 -> w' = w).
  { unfold level_step in E. intros [Hl|Hc].
    - rewrite Hl in E. st_inv E. simplify_eq. by st_inv Hrun.
    - destruct (beyond_limit _ _ _); [st_inv E; simplify_eq; by st_inv Hrun|].
      rewrite Hs in E. simpl in E. rewrite Hc in E. simpl in E. st_inv E. simplify_eq. by st_inv Hrun. }
  destruct (quantity <=? matched) eqn:Eq; bool_prop.
  { rewrite Hstop; [by exists r|]. right. pose proof (round_down_le (t_lot tk) r). lia. }
  destruct (beyond_limit _ _ _) eqn:Hlim; [rewrite Hstop by auto; by exists r|].
  assert (quantity - matched = r) as -> by lia.
  destruct (_ =? 0) eqn:Ec; bool_prop; [rewrite Hstop by auto; by exists r|].
  pose proof (level_step_fok _ _ _ _ _ _ _ _ _ E Hk Hs Hlim Ec Hlv) as Hstep. simpl in Hstep.
  destruct (fok_reachable _ _ _ _ _ _) as [reach stop_after]. destruct Hstep as [Hs1 ->].
  set (cap := round_down_to_lot (t_lot tk) r) in *.
  pose proof (round_down_le (t_lot tk) r) as Hcr. fold cap in Hcr.
  assert (sat_add U64_MAX matched (N.min cap reach) = matched + N.min cap reach) as ->
    by (unfold sat_add; lia).
  destruct stop_after; simpl in Hrun.
  { st_inv Hrun. exists (r - N.min cap reach). split; [done|lia]. }
  destruct (r - N.min cap reach =? 0) eqn:Er; bool_prop; simpl in Hrun.
  - st_inv Hrun. exists 0. rewrite Hs1, Er. split; [done|].
    assert (Hfull : matched + r <= matched + N.min cap reach) by lia.
    destruct entries as [|[p' lv'] entries]; cbn [fok_levels]; [lia|].
    rewrite (proj2 (N.leb_le _ _) Hfull). lia.
  - eapply IH; [done|done|done|exact Hs1|lia|exact Hrun].
Qed.

Lemma fok_exact order_id side q limit user b R r b' :
  book_rep b R -> depth_u64 b -> R !! order_id = None -> q <= U64_MAX ->
  match_order_inner order_id side (BaseQty q limit) user TakerStandard b = (r, b') ->
  fok_fillable_quantity side q limit user order_id b =
    match r with Ok out => executed_quantity (result out) | Err _ => 0 end.
Proof.
  intros [Hr _ _ _] Hvis Hfresh Hq
    (w & b1 & (b0 & u & b2 & _ & _ & Hwalk & _) & _ & _ & Hres)%match_order_inner_inv.
  set (tk := taker_of b order_id side (BaseQty q limit) user TakerStandard) in *.
  assert (Hx : fok_fillable_quantity side q limit user order_id b = executed_quantity (match_result w)).
  { assert (Hsane : Forall (fun e => level_sane (t_order_id tk) e.2) (sweep_entries side b)).
    { apply Forall_forall. intros [p lv] Hin%elem_of_sweep_entries. split_and!.
      - by eapply rests_nodup.
      - intros Hx. destruct (rests_level _ _ _ _ _ _ Hr Hin Hx) as (u' & HR & _). simpl in HR. congruence.
      - by eapply Hvis. }
    destruct (walk_levels_fok tk q _ (walk_start order_id (BaseQty q limit)) _ _ _ q 0 eq_refl Hq Hsane eq_refl eq_refl Hwalk) as (r' & Hs & Hf).
    destruct (base_account_walk _ _ _ _ _ _ _ _ Hwalk) as (r2 & Hs2 & _ & Hacc).
    assert (r2 = r') as -> by congruence. unfold fok_fillable_quantity.
    destruct (q =? 0) eqn:E; bool_prop; [lia|]. simpl in Hf. unfold stp_active in Hf. simpl in Hf. lia. }
  rewrite Hx. destruct r as [out|e].
  - by destruct Hres as [-> _].
  - destruct Hres as [Ht _]. unfold executed_quantity. by rewrite Ht.
Qed.

(** C19.  The fill-or-kill dry run is exact.  On a well-formed book, for a
    taker whose id does not rest and whose quantity is a u64, the quantity
    [fok_fillable_quantity] predicts is exactly the quantity the real sweep
    executes — for every STP mode, lot size and price limit — and when the
    sweep returns an error the prediction is zero.  The total quantity of
    every level, visible and hidden, is assumed to fit a u64: the CancelMaker
    arm of the dry run adds the makers of a level up without a check, and the
    sum wraps beyond that. *)
Theorem fok_prediction_exact order_id side q limit user b R r b' :
  book_rep b R -> depth_u64 b -> R !! order_id = None -> q <= U64_MAX ->
  match_order_inner order_id side (BaseQty q limit) user TakerStandard b = (r, b') ->
  fok_fillable_quantity side q limit user order_id b =
    match r with Ok out => executed_quantity (result out) | Err _ => 0 end.
Proof. apply fok_exact. Qed.

(** ** The book's content *)

Lemma filled_ids_walk tk id mode entries b w b' :
  walk_levels tk (walk_start id mode) entries b = (w, b') ->
  (filled_orders w).*1 = mr_filled_order_ids (match_result w).
Proof.
  intros Hrun.
  eapply (walk_levels_ind (fun w => (filled_orders w).*1 = mr_filled_order_ids (match_result w)));
    [| |exact Hrun].
  - intros p lv w1 w2 _ Hw [(-> & _ & ->)|(_ & lv0 & qty & plm & [_ _ _ _ Hres Hfil _])]; [done|].
    by rewrite Hres, Hfil, add_filled_in_trades, add_trades_filled, Hw.
  - simpl. by destruct (mr_new_spec id (initial_match_quantity mode)) as (_ & -> & _).
Qed.

Lemma executed_elem (m : MatchResult) t : t ∈ mr_trades m -> trade_quantity t <= executed_quantity m.
Proof. intros Ht. unfold executed_quantity. by apply (sumN_elem trade_quantity). Qed.

Lemma add_trades_first m t ts :
  trade_quantity t <= mr_remaining_quantity m -> mr_trades (add_trades m (t :: ts)) <> [].
Proof.
  intros Hle. unfold add_trades. simpl. pose proof (mr_add_trade_spec m t) as Ha.
  destruct (mr_add_trade m t) as [m'|]; simpl; [|lia]. destruct Ha as (_ & Ht & _).
  fold (add_trades m' ts). destruct (add_trades_sublist ts m') as (ts' & -> & _). rewrite Ht.
  by destruct (mr_trades m).
Qed.

Lemma fill_source_nodup tk lv lv0 qty :
  fill_source tk lv lv0 qty -> NoDup (queue_ids lv) -> NoDup (queue_ids lv0).
Proof.
  intros [-> _|Hq _|pre o post -> _ _] Hnd; try done. unfold queue_ids in *. rewrite Hq.
  eapply sublist_NoDup; [exact Hnd|]. apply fmap_sublist, sublist_filter.
Qed.

Lemma filled_at_no_trades tk p lv w w' lv0 qty plm :
  NoDup (queue_ids lv) -> filled_at tk p lv w w' lv0 qty plm ->
  level_qty_cap (stop w) p (t_lot tk) <= mr_remaining_quantity (match_result w) ->
  mr_trades (match_result w') = [] -> mr_filled_order_ids plm = [].
Proof.
  intros Hnd Hf Hcap Ht. destruct (filled_at_executed _ _ _ _ _ _ _ _ Hf) as (_ & Hle & _).
  pose proof Hf as [(gen & gen' & lv1 & Hm) Hsrc _ Hqty Hres _ _].
  pose proof (fill_source_nodup _ _ _ _ Hsrc Hnd) as Hnd0.
  apply pl_match_survivors in Hm as [_ Hfil]; [|done].
  destruct (mr_filled_order_ids plm) as [|id ids] eqn:E; [done|]. exfalso.
  destruct (Hfil id ltac:(left)) as (t & Hin & _).
  rewrite Hres in Ht. destruct (add_filled_fields (id :: ids) (add_trades (match_result w) (mr_trades plm)))
    as (Ht' & _). rewrite Ht' in Ht. clear Ht'.
  destruct (mr_trades plm) as [|t0 ts] eqn:Ets; [by apply elem_of_nil in Hin|].
  revert Ht. apply add_trades_first.
  pose proof (executed_elem plm t0) as Hx. rewrite Ets in Hx. specialize (Hx ltac:(left)). lia.
Qed.

Lemma cap_le_remaining w p lot :
  ((exists r, stop w = StopBase r /\ mr_remaining_quantity (match_result w) = r) \/
   ((exists s, stop w = StopQuote s) /\ mr_remaining_quantity (match_result w) = U64_MAX)) ->
  level_qty_cap (stop w) p lot <= mr_remaining_quantity (match_result w).
Proof.
  intros [(r & -> & ->)|[[s ->] ->]]; simpl; [apply round_down_le|].
  case_match; [lia|]. etransitivity; [apply round_down_le|]. lia.
Qed.

(** A filled maker comes with a reported trade: without trades nothing was
    filled. *)
Definition nothing_filled (mode : MatchMode) w : Prop :=
  (match mode with
   | BaseQty _ _ => exists r, stop w = StopBase r /\ mr_remaining_quantity (match_result w) = r
   | QuoteAmount _ => exists s, stop w = StopQuote s
   end) /\
  executed_quantity (match_result w) + mr_remaining_quantity (match_result w) =
    initial_match_quantity mode /\
  (mr_trades (match_result w) = [] -> (filled_orders w).*1 = []).

Lemma nothing_filled_step mode tk p lv w w' :
  NoDup (queue_ids lv) -> nothing_filled mode w -> level_effect tk p lv w w' -> nothing_filled mode w'.
Proof.
  intros Hnd (Hs & Htot & Hnil) [(H1 & H2 & H3)|(_ & lv0 & qty & plm & Hf)].
  { unfold nothing_filled. by rewrite H1, H2, H3. }
  split_and!.
  - destruct mode.
    + destruct Hs as (r & Hs & Hr).
      destruct (filled_at_base _ _ _ _ _ _ _ _ _ Hf Hs Hr) as (_ & _ & ? & ?). eauto.
    + destruct Hs as [s Hs]. destruct Hf as [_ _ _ _ _ _ Hst]. rewrite Hst, Hs. simpl. eauto.
  - destruct Hf as [_ _ _ _ Hres _ _]. rewrite Hres.
    destruct (add_filled_fields (mr_filled_order_ids plm) (add_trades (match_result w) (mr_trades plm)))
      as (Ht & _ & Hr).
    etransitivity; [|exact (eq_trans (add_trades_total (mr_trades plm) _) Htot)].
    unfold executed_quantity. by rewrite Ht, Hr.
  - intros Ht. destruct (filled_at_new _ _ _ _ _ _ _ _ Hf) as (ts & Hts & _).
    rewrite Ht in Hts. symmetry in Hts. apply app_eq_nil in Hts as [Hw0 _].
    pose proof Hf as [_ _ _ _ _ Hfil _]. rewrite Hfil, (Hnil Hw0). simpl.
    eapply filled_at_no_trades; [done|done|apply cap_le_remaining|done].
    unfold executed_quantity in Htot. rewrite Hw0, sumN_nil, N.add_0_l in Htot.
    destruct mode; [left; naive_solver|right; naive_solver].
Qed.

Lemma nothing_filled_walk tk id mode b R w b' :
  book_rep b R -> walk_levels tk (walk_start id mode) (sweep_entries (t_side tk) b) b = (w, b') ->
  nothing_filled mode w.
Proof.
  intros Hrep Hwalk. eapply (walk_levels_ind (nothing_filled mode)); [| |exact Hwalk].
  - intros p lv w1 w2 Hin%elem_of_sweep_entries. apply nothing_filled_step.
    by eapply (rests_nodup _ _ (rep_rests _ _ Hrep)).
  - split_and!; [destruct mode; simpl; [eexists; split; [done|]; apply mr_new_spec|eauto]| |done].
    unfold executed_quantity. rewrite walk_start_trades, sumN_nil. apply mr_new_spec.
Qed.

(** The resting order [id] of user [u] is within the reach of a taker. *)
Definition reached (side : Side) (limit : option N) R (id : Id) (u : Hash32) : Prop :=
  exists p, R !! id = Some (p, opposite side, u) /\ beyond_limit side limit p = false.

(** A filled maker rested at a level the limit allows. *)
Lemma filled_reached tk id mode entries b R w b' :
  rests b R -> (forall p lv, (p, lv) ∈ entries -> levels (opposite (t_side tk)) b !! p = Some lv) ->
  forall b1, walk_levels tk (walk_start id mode) entries b1 = (w, b') ->
  forall i, i ∈ (filled_orders w).*1 -> exists u, reached (t_side tk) (t_limit tk) R i u.
Proof.
  intros Hr Hent b1 Hrun.
  eapply (walk_levels_ind (fun w => forall i, i ∈ (filled_orders w).*1 ->
    exists u, reached (t_side tk) (t_limit tk) R i u)); [| |exact Hrun].
  2: { intros i Hi. by apply elem_of_nil in Hi. }
  intros p lv w1 w2 Hin%Hent Hw [(_ & _ & ->)|(_ & lv0 & qty & plm & Hf)]; [done|].
  pose proof Hf as [(gen & gen' & lv1 & Hm) Hsrc Hlim _ _ Hfil _]. rewrite Hfil.
  intros i [Hi|Hi]%elem_of_app; [by apply Hw|].
  apply pl_match_survivors in Hm as [_ Hm]; [|by eapply fill_source_nodup, rests_nodup].
  destruct (Hm i Hi) as (t & Ht & <-).
  destruct (filled_at_trades _ _ _ _ _ _ _ _ t Hf) as (_ & _ & _ & Hq & _); [by eapply rests_price|done|].
  destruct (rests_level _ _ _ _ _ _ Hr Hin Hq) as (u & HR & _). exists u, p. by split.
Qed.

(** What a match removes, and what it leaves alone. *)
Lemma match_removes order_id side mode user kind b R r b' :
  book_rep b R ->
  match_order_inner order_id side mode user kind b = (r, b') ->
  exists C F, book_rep b' (drop_ids (C ++ F) R) /\ book_config b' = book_config b /\
    cache_clear b' /\
    (C <> [] -> cancels_makers (stp_mode (book_config b)) user = true) /\
    (forall id, id ∈ C -> reached side (limit_price mode) R id user) /\
    (forall id, id ∈ F -> exists u, reached side (limit_price mode) R id u) /\
    match r with
    | Ok out => F = mr_filled_order_ids (result out)
    | Err _ => F = []
    end.
Proof.
  intros Hrep Hrun. pose proof (sweep_frame _ _ _ _ _ _ _ _ _ Hrep Hrun) as Hframe.
  apply match_order_inner_inv in Hrun
    as (w & b1 & (b0 & u & b2 & Hcore & Hclear & Hwalk & Hfin) & Hquiet & Hcl & Hres).
  set (tk := taker_of b order_id side mode user kind) in *.
  assert (Hrep0 : book_rep b0 R).
  { eapply book_rep_quiet; [|exact Hrep]. split; [done|]. intros _. by apply cache_clear_ok. }
  destruct (walk_start_inv side user order_id mode b0 R Hrep0 Hclear) as (H1 & H2 & H3).
  assert (Hsw : sweep_entries (t_side tk) b = sweep_entries side b0).
  { unfold sweep_entries. by rewrite (same_core_levels _ _ Buy Hcore), (same_core_levels _ _ Sell Hcore). }
  rewrite Hsw in Hwalk. pose proof (filled_ids_walk _ _ _ _ _ _ _ Hwalk) as Hfil.
  pose proof (nothing_filled_walk _ _ _ _ _ _ _ Hrep0 Hwalk) as Hnf.
  destruct (outcome_trades _ order_id _ _ _ _ _ Hwalk) as [_ Hof].
  destruct (walk_levels_inv tk R _ _ _ _ _ H1 H2 H3 Hwalk) as (_ & Hom & Hcfg).
  destruct (walk_inv_cancels tk R _ _ _ _ _ H1 H2 H3 (proj1 (rep_indexed _ _ Hrep0)) Hwalk)
    as (C & HCnil & HC & Hw).
  destruct (finish_walk_core _ _ _ _ _ _ Hw Hom Hfin) as (Hrep1 & Hcl1 & Hcfg1).
  rewrite <- drop_ids_app in Hrep1.
  assert (Hrep' : book_rep b' (drop_ids (C ++ (filled_orders w).*1) R)) by (by eapply book_rep_quiet).
  exists C, (filled_orders w).*1. split_and!; [done| |by apply Hcl|done|..].
  - destruct Hquiet as [[_ ->] _]. rewrite Hcfg1, Hcfg. apply Hcore.
  - intros id Hid. destruct (HC id Hid) as [[p s] HR]. exists p.
    destruct (decide (out_of_reach side (limit_price mode) s p)) as [Hout|Hin].
    + apply (rests_iff _ _ (rep_rests _ _ Hrep)) in HR. rewrite <- (Hframe _ _ Hout) in HR.
      apply (rests_iff _ _ (rep_rests _ _ Hrep')) in HR. apply drop_ids_Some in HR as [_ HR].
      destruct HR. apply elem_of_app. by left.
    + unfold out_of_reach in Hin. split; [|by destruct (beyond_limit _ _ _); naive_solver].
      by destruct s, side; naive_solver.
  - eapply (filled_reached tk); [apply Hrep0| |exact Hwalk].
    intros p lv Hin%elem_of_sweep_entries. done.
  - destruct r as [out|e].
    + destruct Hres as [-> _]. by rewrite Hof, Hfil.
    + destruct Hres as [Ht _]. by apply Hnf.
Qed.

Lemma match_rep order_id side mode user kind b R r b' :
  book_rep b R ->
  match_order_inner order_id side mode user kind b = (r, b') ->
  exists C F, book_rep b' (drop_ids (C ++ F) R) /\ book_config b' = book_config b /\
    cache_clear b' /\
    (forall id, id ∈ C -> exists loc, R !! id = Some (loc, user)) /\
    match r with
    | Ok out => F = mr_filled_order_ids (result out)
    | Err _ => F = []
    end.
Proof.
  intros Hrep Hrun. destruct (match_removes _ _ _ _ _ _ _ _ _ Hrep Hrun)
    as (C & F & ? & ? & ? & _ & HC & _ & ?).
  exists C, F. split_and!; [done..| |done]. intros id (p & HR & _)%HC. eauto.
Qed.

(** C2.  The matching engine preserves the invariant of the book and refines
    its abstract content.  On a well-formed book, whatever the taker, a match
    leaves a well-formed book: the levels, the location index and the user
    index agree, no empty level is left behind and the cached best prices are
    right.  The resting orders that disappeared are exactly the makers
    reported as filled plus orders of the taker's own user cancelled by
    self-trade prevention; and a match that returns an error filled nothing. *)
Theorem match_preserves_book order_id side mode user kind b R r b' :
  book_rep b R ->
  match_order_inner order_id side mode user kind b = (r, b') ->
  exists C F, book_rep b' (drop_ids (C ++ F) R) /\ book_config b' = book_config b /\
    (forall id, id ∈ C -> exists loc, R !! id = Some (loc, user)) /\
    match r with
    | Ok out => F = mr_filled_order_ids (result out)
    | Err _ => F = []
    end.
Proof.
  intros Hrep Hrun. destruct (match_rep _ _ _ _ _ _ _ _ _ Hrep Hrun) as (C & F & ? & ? & _ & ? & ?).
  exists C, F. by split_and!.
Qed.

(** ** Post-only takers *)

Lemma walk_levels_post_only tk entries : forall w b w' b',
  t_kind tk = TakerPostOnly ->
  (forall p lv, (p, lv) ∈ entries -> levels (opposite (t_side tk)) b !! p = Some lv) ->
  walk_levels tk w entries b = (w', b') ->
  same_core b b' /\ match_result w' = match_result w /\ filled_orders w' = filled_orders w /\
  empty_price_levels w' = empty_price_levels w /\ stp_taker_cancelled w' = stp_taker_cancelled w.
Proof.
  induction entries as [|[p lv] entries IH]; intros w b w' b' Hk Hlv Hrun; simpl in Hrun.
  { st_inv Hrun. by split_and!. }
  apply sbind_inv in Hrun as ([w1 go] & b1 & E & Hrun).
  assert (H1 : same_core b b1 /\ match_result w1 = match_result w /\ filled_orders w1 = filled_orders w /\
    empty_price_levels w1 = empty_price_levels w /\ stp_taker_cancelled w1 = stp_taker_cancelled w).
  { unfold level_step in E. destruct (beyond_limit _ _ _); [st_inv E; simplify_eq; by split_and!|].
    destruct (_ =? 0); [st_inv E; simplify_eq; by split_and!|]. rewrite decide_True in E by done.
    apply sbind_inv in E as ([lv1 plm] & b2 & E & E2). rewrite Hk in E.
    apply probe_spec in E as (Hcore & _); [|by apply Hlv; left].
    st_inv E2. destruct (mr_was_rejected plm); simplify_eq; by split_and!. }
  destruct H1 as (Hc1 & H1 & H2 & H3 & H4). destruct go; [|st_inv Hrun; by split_and!].
  apply IH in Hrun as (Hc2 & G1 & G2 & G3 & G4); [|done|].
  - split_and!; [by etransitivity|congruence..].
  - intros p' lv' Hin. rewrite (same_core_levels _ _ _ Hc1). apply Hlv. by right.
Qed.

Lemma post_only_match order_id side q limit user b r b' :
  match_order_inner order_id side (BaseQty q limit) user TakerPostOnly b = (r, b') ->
  same_core b b' /\
  match r with
  | Ok out => mr_trades (result out) = [] /\ mr_remaining_quantity (result out) = q /\
              taker_stp_cancelled out = false
  | Err e => limit = None /\ e = InsufficientLiquidity side q 0
  end.
Proof.
  intros (w & b1 & (b0 & u & b2 & Hcore & Hclear & Hwalk & Hfin) & Hquiet & Hcl & Hres)%match_order_inner_inv.
  apply walk_levels_post_only in Hwalk as (Hc & Hm & Hf & He & Hs); [|done|].
  2: { intros p lv Hin%elem_of_sweep_entries. by rewrite (same_core_levels _ _ _ Hcore). }
  simpl in Hf, He, Hs. unfold finish_walk in Hfin. rewrite Hf, He in Hfin. simpl in Hfin. st_inv Hfin.
  split; [etransitivity; [exact Hcore|]; etransitivity; [exact Hc|apply Hquiet]|].
  destruct (mr_new_spec order_id q) as (Ht & _ & Hr). simpl in Hm.
  destruct r as [out|e].
  - destruct Hres as [-> _]. simpl. rewrite Hm. by split_and!.
  - destruct Hres as [_ [[? _]|Hl]]; [congruence|]. simpl in Hl. by destruct limit; simplify_eq.
Qed.

(** A post-only taker never takes.  Matching with a post-only taker emits
    no trade and leaves every level and index of the book exactly as it was:
    it can only be told that it would cross. *)
Theorem post_only_never_trades order_id side q limit user b r b' :
  match_order_inner order_id side (BaseQty q limit) user TakerPostOnly b = (r, b') ->
  same_core b b' /\
  match r with
  | Ok out => mr_trades (result out) = [] /\ mr_remaining_quantity (result out) = q /\
              taker_stp_cancelled out = false
  | Err e => limit = None /\ e = InsufficientLiquidity side q 0
  end.
Proof. apply post_only_match. Qed.
End MatchingProps.
