(* ===== verification/MatchingPool.v ===== *)
(** * Reused buffers (pool.rs)

    The matching engine takes the vectors a sweep fills from a pool and
    returns them afterwards.  The model of the sweep starts with empty
    vectors; the theorem here is what makes that right. *)

From S2P Require Import Prelude Types PriceLevel Fees Stp Clock Cache Risk OrderState Reject SkipMap Book Matching.
Local Open Scope N_scope.

Record MatchingPool := {
  filled_orders_pool : list (list (Id * N));
  price_vec_pool : list (list N);
  order_snapshot_pool : list (list (OrderType unit));
}.

Definition pool_new : MatchingPool :=
  {| filled_orders_pool := []; price_vec_pool := []; order_snapshot_pool := [] |}.

(** [pop().unwrap_or_else(|| Vec::with_capacity(..))]; the last buffer is the
    head of the list. *)
Definition take_buffer {A} (pool : list (list A)) : list A * list (list A) :=
  match pool with [] => ([], []) | v :: pool' => (v, pool') end.

Definition clear {A} (v : list A) : list A := [].

Definition get_filled_orders_vec : ST MatchingPool (list (Id * N)) := fun p =>
  let '(v, vs) := take_buffer (filled_orders_pool p) in
  (v, {| filled_orders_pool := vs; price_vec_pool := price_vec_pool p;
         order_snapshot_pool := order_snapshot_pool p |}).
Definition return_filled_orders_vec (vec : list (Id * N)) : ST MatchingPool unit := fun p =>
  (tt, {| filled_orders_pool := clear vec :: filled_orders_pool p; price_vec_pool := price_vec_pool p;
          order_snapshot_pool := order_snapshot_pool p |}).

Definition get_order_snapshot_vec : ST MatchingPool (list (OrderType unit)) := fun p =>
  let '(v, vs) := take_buffer (order_snapshot_pool p) in
  (v, {| filled_orders_pool := filled_orders_pool p; price_vec_pool := price_vec_pool p;
         order_snapshot_pool := vs |}).
Definition return_order_snapshot_vec (vec : list (OrderType unit)) : ST MatchingPool unit := fun p =>
  (tt, {| filled_orders_pool := filled_orders_pool p; price_vec_pool := price_vec_pool p;
          order_snapshot_pool := clear vec :: order_snapshot_pool p |}).

Definition get_price_vec : ST MatchingPool (list N) := fun p =>
  let '(v, vs) := take_buffer (price_vec_pool p) in
  (v, {| filled_orders_pool := filled_orders_pool p; price_vec_pool := vs;
         order_snapshot_pool := order_snapshot_pool p |}).
Definition return_price_vec (vec : list N) : ST MatchingPool unit := fun p =>
  (tt, {| filled_orders_pool := filled_orders_pool p; price_vec_pool := clear vec :: price_vec_pool p;
          order_snapshot_pool := order_snapshot_pool p |}).

(** The calls of the engine, with whatever the sweep left in the buffers. *)
Inductive pool_step (p : MatchingPool) : MatchingPool -> Prop :=
| step_get_filled : pool_step p (get_filled_orders_vec p).2
| step_get_snapshot : pool_step p (get_order_snapshot_vec p).2
| step_get_price : pool_step p (get_price_vec p).2
| step_return_filled v : pool_step p (return_filled_orders_vec v p).2
| step_return_snapshot v : pool_step p (return_order_snapshot_vec v p).2
| step_return_price v : pool_step p (return_price_vec v p).2.

Definition emptied {A} (pool : list (list A)) : Prop := Forall (fun v => v = []) pool.
Definition clean (p : MatchingPool) : Prop :=
  emptied (filled_orders_pool p) /\ emptied (price_vec_pool p) /\ emptied (order_snapshot_pool p).

Lemma take_emptied {A} (pool : list (list A)) :
  emptied pool -> (take_buffer pool).1 = [] /\ emptied (take_buffer pool).2.
Proof. destruct 1; [split; [done|constructor]|done]. Qed.

Lemma pool_step_clean p p' : pool_step p p' -> clean p -> clean p'.
Proof.
  intros Hs (H1 & H2 & H3).
  destruct Hs; unfold clean, get_filled_orders_vec, get_order_snapshot_vec, get_price_vec in *;
    try destruct (take_buffer _) as [v vs] eqn:E; simpl; split_and!; try done; try by constructor.
  - apply take_emptied in H1 as [_ H1]. by rewrite E in H1.
  - apply take_emptied in H3 as [_ H3]. by rewrite E in H3.
  - apply take_emptied in H2 as [_ H2]. by rewrite E in H2.
Qed.

(** Whatever buffers were returned before, a sweep is handed the empty
    vectors its model starts with. *)
Theorem pool_hands_out_empty {PA : PriceLevelApi} p order_id mode :
  rtc pool_step pool_new p ->
  (get_filled_orders_vec p).1 = filled_orders (walk_start order_id mode) /\
  (get_price_vec p).1 = empty_price_levels (walk_start order_id mode) /\
  (get_order_snapshot_vec p).1 = [].
Proof.
  intros Hr. assert (Hc : clean p).
  { assert (H0 : clean pool_new) by (split_and!; constructor).
    revert H0. induction Hr as [|p1 p2 p3 Hs _ IH]; [done|]. intros H0. by apply IH, (pool_step_clean p1). }
  destruct Hc as (H1 & H2 & H3).
  apply take_emptied in H1 as [H1 _], H2 as [H2 _], H3 as [H3 _].
  unfold get_filled_orders_vec, get_order_snapshot_vec, get_price_vec.
  destruct (take_buffer (filled_orders_pool p)), (take_buffer (price_vec_pool p)),
    (take_buffer (order_snapshot_pool p)). done.
Qed.
