(* ===== verification/Depth.v ===== *)
(** * Depth analytics (book.rs, iterators.rs, market_impact.rs, statistics.rs)

    The read-only views of the resting depth: cumulative depth, the level
    iterators, the simulation of a market order, the statistics and the
    histogram of a side. *)

From S2P Require Import Prelude Float64 Types PriceLevel OrderQuantity Fees Stp Clock Cache Risk OrderState Reject SkipMap Book BookInv Matching.
Local Open Scope N_scope.

Section Depth.
Context {PA : PriceLevelApi} {WC : WallClock}.

(** [total_quantity().unwrap_or(0)] *)
Definition level_total (lv : PriceLevel) : N :=
  match pl_total_quantity lv with Ok q => q | Err _ => 0 end.

(** The levels of a side, best price first: the iteration every view shares. *)
Definition depth_entries (side : Side) (b : OrderBook) : list (N * PriceLevel) :=
  match side with
  | Buy => reverse (sm_iter (levels Buy b))
  | Sell => sm_iter (levels Sell b)
  end.

(** ** Prices *)

Definition mid_price : ST OrderBook (option f64) :=
  let! bid := best_bid in
  let! ask := best_ask in
  sret (match bid, ask with
        | Some bid, Some ask =>
            Some (f64_div (f64_add (f64_of_N bid) (f64_of_N ask)) (f64_of_N 2))
        | _, _ => None
        end).

Definition spread_absolute : ST OrderBook (option N) := spread.

Definition DEFAULT_BASIS_POINTS_MULTIPLIER : f64 := f64_of_N 10000.

Definition spread_bps (bps_multiplier : option f64) : ST OrderBook (option f64) :=
  let multiplier := default DEFAULT_BASIS_POINTS_MULTIPLIER bps_multiplier in
  let! bid := best_bid in
  let! ask := best_ask in
  let! mid := mid_price in
  sret (match bid, ask, mid with
        | Some bid, Some ask, Some mid =>
            if f64_ltb f64_zero mid
            then Some (f64_mul (f64_div (f64_of_N (sat_sub ask bid)) mid) multiplier)
            else None
        | _, _, _ => None
        end).

Definition micro_price : ST OrderBook (option f64) :=
  let! bid := best_bid in
  match bid with
  | None => sret None
  | Some bid_price =>
      let! ask := best_ask in
      match ask with
      | None => sret None
      | Some ask_price =>
          let! bid_level := sget (fun b => levels Buy b !! bid_price) in
          let! ask_level := sget (fun b => levels Sell b !! ask_price) in
          sret (match bid_level, ask_level with
                | Some bid_level, Some ask_level =>
                    let bid_volume := level_total bid_level in
                    let ask_volume := level_total ask_level in
                    let total_volume := sat_add U64_MAX bid_volume ask_volume in
                    if total_volume =? 0 then None
                    else
                      Some (f64_div
                        (f64_add (f64_mul (f64_of_N ask_price) (f64_of_N bid_volume))
                                 (f64_mul (f64_of_N bid_price) (f64_of_N ask_volume)))
                        (f64_of_N total_volume))
                | _, _ => None
                end)
      end
  end.

(** ** Cumulative depth *)

Fixpoint depth_scan (target_depth cumulative : N) (entries : list (N * PriceLevel)) : option (N * N) :=
  match entries with
  | [] => None
  | (price, level) :: entries' =>
      let cumulative := sat_add U64_MAX cumulative (level_total level) in
      if target_depth <=? cumulative then Some (price, cumulative)
      else depth_scan target_depth cumulative entries'
  end.

Definition price_at_depth (target_depth : N) (side : Side) (b : OrderBook) : option N :=
  fst <$> depth_scan target_depth 0 (depth_entries side b).
Definition cumulative_depth_to_target (target_depth : N) (side : Side) (b : OrderBook) : option (N * N) :=
  depth_scan target_depth 0 (depth_entries side b).

Definition total_depth_at_levels (n : nat) (side : Side) (b : OrderBook) : N :=
  foldl (fun total kv => sat_add U64_MAX total (level_total kv.2)) 0 (take n (depth_entries side b)).

Definition order_book_imbalance (n : nat) (b : OrderBook) : f64 :=
  if bool_decide (n = 0%nat) then f64_zero
  else
    let bid_volume := total_depth_at_levels n Buy b in
    let ask_volume := total_depth_at_levels n Sell b in
    if sat_add U64_MAX bid_volume ask_volume =? 0 then f64_zero
    else f64_div (f64_sub (f64_of_N bid_volume) (f64_of_N ask_volume))
                 (f64_add (f64_of_N bid_volume) (f64_of_N ask_volume)).

Definition price_n_ticks_inside (n_ticks : N) (tick : N) (side : Side) : ST OrderBook (option N) :=
  if (n_ticks =? 0) || (tick =? 0) then sret None
  else
    match checked_mul U128_MAX n_ticks tick with
    | None => sret None
    | Some adjustment =>
        match side with
        | Buy => let! bid := best_bid in sret (bid ≫= fun bid => checked_sub bid adjustment)
        | Sell => let! ask := best_ask in sret (ask ≫= fun ask => checked_add U128_MAX ask adjustment)
        end
    end.

Definition price_for_queue_position (position : nat) (side : Side) (b : OrderBook) : option N :=
  match position with
  | O => None
  | S i => fst <$> depth_entries side b !! i
  end.

Fixpoint depth_adjusted_scan (side : Side) (target_depth tick cumulative : N) (last_price : option N)
    (entries : list (N * PriceLevel)) : option N :=
  match entries with
  | [] => last_price
  | (price, level) :: entries' =>
      let cumulative := sat_add U64_MAX cumulative (level_total level) in
      if target_depth <=? cumulative then
        match side with
        | Buy => checked_add U128_MAX price tick
        | Sell => checked_sub price tick
        end
      else depth_adjusted_scan side target_depth tick cumulative (Some price) entries'
  end.

Definition price_at_depth_adjusted (target_depth tick : N) (side : Side) (b : OrderBook) : option N :=
  if (target_depth =? 0) || (tick =? 0) then None
  else depth_adjusted_scan side target_depth tick 0 None (depth_entries side b).

Definition queue_ahead_at_price (price : N) (side : Side) (b : OrderBook) : nat :=
  match levels side b !! price with Some lv => length (pl_iter_orders lv) | None => 0 end.
Definition visible_quantity_at_price (price : N) (side : Side) (b : OrderBook) : option N :=
  pl_visible_quantity <$> levels side b !! price.
Definition total_quantity_at_price (price : N) (side : Side) (b : OrderBook) : option N :=
  (fun lv => match pl_total_quantity lv with Ok q => q | Err _ => U64_MAX end) <$> levels side b !! price.
Definition order_count_at_price (price : N) (side : Side) (b : OrderBook) : option nat :=
  pl_order_count <$> levels side b !! price.

(** ** The level iterators (iterators.rs), as the list they yield *)

Record LevelInfo := { li_price : N; li_quantity : N; li_cumulative_depth : N }.

Fixpoint levels_cumulative (cumulative_depth : N) (entries : list (N * PriceLevel)) : list LevelInfo :=
  match entries with
  | [] => []
  | (price, level) :: entries' =>
      let quantity := level_total level in
      let cumulative_depth := sat_add U64_MAX cumulative_depth quantity in
      {| li_price := price; li_quantity := quantity; li_cumulative_depth := cumulative_depth |}
        :: levels_cumulative cumulative_depth entries'
  end.
Definition levels_with_cumulative_depth (side : Side) (b : OrderBook) : list LevelInfo :=
  levels_cumulative 0 (depth_entries side b).

Fixpoint levels_until (target_depth cumulative_depth : N) (entries : list (N * PriceLevel)) : list LevelInfo :=
  match entries with
  | [] => []
  | (price, level) :: entries' =>
      let quantity := level_total level in
      let cumulative_depth := sat_add U64_MAX cumulative_depth quantity in
      let info := {| li_price := price; li_quantity := quantity; li_cumulative_depth := cumulative_depth |} in
      if target_depth <=? cumulative_depth then [info]
      else info :: levels_until target_depth cumulative_depth entries'
  end.
Definition levels_until_depth (target_depth : N) (side : Side) (b : OrderBook) : list LevelInfo :=
  levels_until target_depth 0 (depth_entries side b).

Definition past_far_edge (side : Side) (min_price max_price price : N) : bool :=
  match side with Buy => price <? min_price | Sell => max_price <? price end.

Fixpoint levels_range (side : Side) (min_price max_price : N) (entries : list (N * PriceLevel)) :
    list LevelInfo :=
  match entries with
  | [] => []
  | (price, level) :: entries' =>
      if past_far_edge side min_price max_price price then []
      else if (min_price <=? price) && (price <=? max_price) then
        {| li_price := price; li_quantity := level_total level; li_cumulative_depth := 0 |}
          :: levels_range side min_price max_price entries'
      else levels_range side min_price max_price entries'
  end.
Definition levels_in_range (min_price max_price : N) (side : Side) (b : OrderBook) : list LevelInfo :=
  levels_range side min_price max_price (depth_entries side b).

Definition find_level (side : Side) (predicate : LevelInfo -> bool) (b : OrderBook) : option LevelInfo :=
  snd <$> list_find (fun info => predicate info = true) (levels_with_cumulative_depth side b).

Fixpoint liquidity_scan (min_price max_price total : N) (entries : list (N * PriceLevel)) : N :=
  match entries with
  | [] => total
  | (price, level) :: entries' =>
      if price <? min_price then liquidity_scan min_price max_price total entries'
      else if max_price <? price then total
      else liquidity_scan min_price max_price (sat_add U64_MAX total (level_total level)) entries'
  end.
Definition liquidity_in_range (min_price max_price : N) (side : Side) (b : OrderBook) : N :=
  if max_price <? min_price then 0
  else liquidity_scan min_price max_price 0 (sm_iter (levels side b)).

(** ** Simulating a market order *)

Record OrderSimulation := {
  sim_fills : list (N * N);
  sim_avg_price : f64;
  sim_total_filled : N;
  sim_remaining_quantity : N;
}.
Definition simulation_empty : OrderSimulation :=
  {| sim_fills := []; sim_avg_price := f64_zero; sim_total_filled := 0; sim_remaining_quantity := 0 |}.

(** [price * (fill_qty as u128)]: the plain product of a release build. *)
Definition level_cost (price fill_qty : N) : N := (price * fill_qty) mod (U128_MAX + 1).

Record SimState := {
  ss_remaining : N; ss_total_cost : N; ss_total_filled : N; ss_fills : list (N * N);
}.
Definition sim_fill (price available : N) (s : SimState) : SimState :=
  let fill_qty := N.min (ss_remaining s) available in
  {| ss_remaining := sat_sub (ss_remaining s) fill_qty;
     ss_total_cost := sat_add U128_MAX (ss_total_cost s) (level_cost price fill_qty);
     ss_total_filled := sat_add U64_MAX (ss_total_filled s) fill_qty;
     ss_fills := ss_fills s ++ [(price, fill_qty)] |}.

(** The loop [simulate_market_order] and [vwap] share. *)
Fixpoint sim_loop (entries : list (N * PriceLevel)) (s : SimState) : SimState :=
  match entries with
  | [] => s
  | (price, level) :: entries' =>
      if ss_remaining s =? 0 then s
      else if level_total level =? 0 then sim_loop entries' s
      else sim_loop entries' (sim_fill price (level_total level) s)
  end.
Definition sim_start (quantity : N) : SimState :=
  {| ss_remaining := quantity; ss_total_cost := 0; ss_total_filled := 0; ss_fills := [] |}.

Definition avg_price_of (s : SimState) : f64 :=
  if 0 <? ss_total_filled s then f64_div (f64_of_N (ss_total_cost s)) (f64_of_N (ss_total_filled s))
  else f64_zero.

Definition simulate_market_order (quantity : N) (side : Side) (b : OrderBook) : OrderSimulation :=
  if quantity =? 0 then simulation_empty
  else
    let s := sim_loop (sweep_entries side b) (sim_start quantity) in
    {| sim_fills := ss_fills s; sim_avg_price := avg_price_of s;
       sim_total_filled := ss_total_filled s; sim_remaining_quantity := ss_remaining s |}.

Definition is_fully_filled (s : OrderSimulation) : bool := sim_remaining_quantity s =? 0.
Definition levels_count (s : OrderSimulation) : nat := length (sim_fills s).
Definition total_cost (s : OrderSimulation) : N :=
  foldl (fun acc pq => sat_add U128_MAX acc (sat_mul U128_MAX pq.1 pq.2)) 0 (sim_fills s).

Definition vwap (quantity : N) (side : Side) (b : OrderBook) : option f64 :=
  if quantity =? 0 then None
  else
    let s := sim_loop (sweep_entries side b) (sim_start quantity) in
    if ss_total_filled s =? quantity
    then Some (f64_div (f64_of_N (ss_total_cost s)) (f64_of_N (ss_total_filled s)))
    else None.

Record MarketImpact := {
  mi_avg_price : f64;
  mi_worst_price : N;
  mi_slippage : N;
  mi_slippage_bps : f64;
  mi_levels_consumed : nat;
  mi_total_quantity_available : N;
}.
Definition impact_empty : MarketImpact :=
  {| mi_avg_price := f64_zero; mi_worst_price := 0; mi_slippage := 0; mi_slippage_bps := f64_zero;
     mi_levels_consumed := 0; mi_total_quantity_available := 0 |}.

(** The full scan of [market_impact]: the consumed part, the depth of the
    whole side, the worst price consumed and the number of levels. *)
Fixpoint impact_loop (entries : list (N * PriceLevel)) (s : SimState) (available worst : N) (consumed : nat) :
    SimState * N * N * nat :=
  match entries with
  | [] => (s, available, worst, consumed)
  | (price, level) :: entries' =>
      if level_total level =? 0 then impact_loop entries' s available worst consumed
      else
        let available := sat_add U64_MAX available (level_total level) in
        if 0 <? ss_remaining s
        then impact_loop entries' (sim_fill price (level_total level) s) available price (S consumed)
        else impact_loop entries' s available worst consumed
  end.

Definition market_impact (quantity : N) (side : Side) : ST OrderBook MarketImpact :=
  let! no_levels := sget (fun b => bool_decide (sweep_entries side b = [])) in
  if (quantity =? 0) || no_levels then sret impact_empty
  else
    let! best := (match side with Buy => best_ask | Sell => best_bid end) in
    match best with
    | None => sret impact_empty
    | Some best_price =>
        let! entries := sget (sweep_entries side) in
        let '(s, available, worst, consumed) := impact_loop entries (sim_start quantity) 0 best_price 0 in
        let slippage := match side with Buy => sat_sub worst best_price | Sell => sat_sub best_price worst end in
        sret {| mi_avg_price := avg_price_of s; mi_worst_price := worst; mi_slippage := slippage;
                mi_slippage_bps :=
                  if 0 <? best_price
                  then f64_mul (f64_div (f64_of_N slippage) (f64_of_N best_price)) DEFAULT_BASIS_POINTS_MULTIPLIER
                  else f64_zero;
                mi_levels_consumed := consumed; mi_total_quantity_available := available |}
    end.

Definition can_fill (m : MarketImpact) (requested_quantity : N) : bool :=
  requested_quantity <=? mi_total_quantity_available m.
Definition fill_ratio (m : MarketImpact) (requested_quantity : N) : f64 :=
  if requested_quantity =? 0 then f64_zero
  else f64_div (f64_of_N (mi_total_quantity_available m)) (f64_of_N requested_quantity).
End Depth.
