(* ===== verification/Statistics.v ===== *)
(** * Depth statistics and the histogram of a side (book.rs, statistics.rs) *)

From S2P Require Import Prelude Float64 Types PriceLevel OrderQuantity Fees Stp Clock Cache Risk OrderState Reject SkipMap Book BookInv Matching Depth.
Local Open Scope N_scope.

Section Statistics.
Context {PA : PriceLevelApi} {WC : WallClock}.

Record DepthStats := {
  total_volume : N;
  ds_levels_count : N;
  avg_level_size : f64;
  weighted_avg_price : f64;
  min_level_size : N;
  max_level_size : N;
  std_dev_level_size : f64;
}.
Definition stats_zero : DepthStats :=
  {| total_volume := 0; ds_levels_count := 0; avg_level_size := f64_zero; weighted_avg_price := f64_zero;
     min_level_size := 0; max_level_size := 0; std_dev_level_size := f64_zero |}.
Definition stats_is_empty (s : DepthStats) : bool := (ds_levels_count s =? 0) || (total_volume s =? 0).

Record StatsAcc := {
  sa_total : N; sa_weighted : N; sa_sizes : list N; sa_min : N; sa_max : N; sa_count : N;
}.
Definition stats_start : StatsAcc :=
  {| sa_total := 0; sa_weighted := 0; sa_sizes := []; sa_min := U64_MAX; sa_max := 0; sa_count := 0 |}.

Fixpoint stats_loop (n : N) (entries : list (N * PriceLevel)) (a : StatsAcc) : StatsAcc :=
  match entries with
  | [] => a
  | (price, level) :: entries' =>
      if (0 <? n) && (n <=? sa_count a) then a
      else
        let quantity := level_total level in
        if quantity =? 0 then stats_loop n entries' a
        else
          stats_loop n entries'
            {| sa_total := sat_add U64_MAX (sa_total a) quantity;
               sa_weighted := sat_add U128_MAX (sa_weighted a) (sat_mul U128_MAX price quantity);
               sa_sizes := sa_sizes a ++ [quantity];
               sa_min := N.min (sa_min a) quantity; sa_max := N.max (sa_max a) quantity;
               sa_count := sa_count a + 1 |}
  end.

Definition depth_statistics (side : Side) (n : N) (b : OrderBook) : DepthStats :=
  let a := stats_loop n (depth_entries side b) stats_start in
  if (sa_count a =? 0) || (sa_total a =? 0) then stats_zero
  else
    let avg := f64_div (f64_of_N (sa_total a)) (f64_of_N (sa_count a)) in
    let square size := let diff := f64_sub (f64_of_N size) avg in f64_mul diff diff in
    let variance := f64_div (foldl (fun acc size => f64_add acc (square size)) f64_zero (sa_sizes a))
                            (f64_of_N (sa_count a)) in
    {| total_volume := sa_total a; ds_levels_count := sa_count a; avg_level_size := avg;
       weighted_avg_price := f64_div (f64_of_N (sa_weighted a)) (f64_of_N (sa_total a));
       min_level_size := if sa_min a =? U64_MAX then 0 else sa_min a; max_level_size := sa_max a;
       std_dev_level_size := f64_sqrt variance |}.

(** A plain sum of [u64]s in a release build wraps. *)
Definition side_pressure (side : Side) (b : OrderBook) : N :=
  sumN (fun kv => level_total kv.2) (sm_iter (levels side b)) mod (U64_MAX + 1).
Definition buy_sell_pressure (b : OrderBook) : N * N := (side_pressure Buy b, side_pressure Sell b).

Definition is_thin_book (threshold n : N) (b : OrderBook) : bool :=
  (total_volume (depth_statistics Buy n b) <? threshold)
  || (total_volume (depth_statistics Sell n b) <? threshold).

(** ** The histogram *)

Record DistributionBin := { bin_min_price : N; bin_max_price : N; bin_volume : N; bin_level_count : N }.

Definition bin_width_of (bin : DistributionBin) : N := sat_sub (bin_max_price bin) (bin_min_price bin).
Definition bin_midpoint (bin : DistributionBin) : N := (bin_min_price bin + bin_max_price bin) / 2.

Definition empty_bins (bins : nat) (min_price max_price bin_width : N) : list DistributionBin :=
  (fun i =>
     let bin_min := wrapping_add U128_MAX min_price ((N.of_nat i * bin_width) mod (U128_MAX + 1)) in
     {| bin_min_price := bin_min;
        bin_max_price := if bool_decide (i = (bins - 1)%nat) then wrapping_add U128_MAX max_price 1
                         else wrapping_add U128_MAX bin_min bin_width;
        bin_volume := 0; bin_level_count := 0 |}) <$> seq 0 bins.

Definition bin_index (bins : nat) (min_price max_price bin_width price : N) : nat :=
  if max_price <=? price then (bins - 1)%nat
  else N.to_nat (N.min ((price - min_price) / bin_width) (N.of_nat (bins - 1))).

Definition add_to_bin (quantity : N) (bin : DistributionBin) : DistributionBin :=
  {| bin_min_price := bin_min_price bin; bin_max_price := bin_max_price bin;
     bin_volume := sat_add U64_MAX (bin_volume bin) quantity; bin_level_count := bin_level_count bin + 1 |}.

Definition fill_bins (bins : nat) (min_price max_price bin_width : N) (entries : list (N * PriceLevel))
    (distribution : list DistributionBin) : list DistributionBin :=
  foldl (fun d kv =>
    let quantity := level_total kv.2 in
    if quantity =? 0 then d
    else alter (add_to_bin quantity) (bin_index bins min_price max_price bin_width kv.1) d)
    distribution entries.

Definition depth_distribution (side : Side) (bins : nat) (b : OrderBook) : list DistributionBin :=
  let entries := sm_iter (levels side b) in
  if bool_decide (bins = 0%nat) || bool_decide (entries = []) then []
  else
    let min_price := foldl (fun m kv => N.min m kv.1) U128_MAX entries in
    let max_price := foldl (fun m kv => N.max m kv.1) 0 entries in
    if (min_price =? U128_MAX) || (max_price <? min_price) then []
    else
      let price_range := max_price - min_price in
      let bin_width := if price_range =? 0 then 1 else div_ceil price_range (N.of_nat bins) in
      fill_bins bins min_price max_price bin_width entries
        (empty_bins bins min_price max_price bin_width).
End Statistics.
