(* ===== verification/DepthProps.v ===== *)
(** * Properties of the depth analytics

    What the views of the depth compute, against direct definitions: the
    price that reaches a depth, the levels of a range, and the agreement of
    every dry run of a market order. *)

From S2P Require Import Prelude Float64 Types PriceLevel OrderQuantity Fees Stp Clock Cache Risk OrderState Reject SkipMap Book BookInv Matching Depth Statistics.
From stdpp Require Import sorting.
Local Open Scope N_scope.

Section DepthProps.
Context {PA : PriceLevelApi} {WC : WallClock}.
Implicit Types (b : OrderBook) (entries : list (N * PriceLevel)).

(** ** Price order of a side *)

(** On [side], a level at [p] stands in front of one at [q]. *)
Definition ahead (side : Side) (p q : N) : Prop :=
  match side with Buy => q < p | Sell => p < q end.
#[export] Instance ahead_dec side p q : Decision (ahead side p q).
Proof. destruct side; simpl; apply _. Defined.

Lemma depth_entries_perm side b : depth_entries side b ≡ₚ sm_iter (levels side b).
Proof. destruct side; simpl; [apply reverse_Permutation|done]. Qed.

Lemma elem_of_depth_entries side b p lv : (p, lv) ∈ depth_entries side b <-> levels side b !! p = Some lv.
Proof. rewrite depth_entries_perm. apply elem_of_sm_iter. Qed.

Lemma depth_entries_sorted side b :
  StronglySorted (fun x y : N * PriceLevel => ahead side x.1 y.1) (depth_entries side b).
Proof.
  unfold depth_entries. destruct side; [|exact (sm_iter_sorted (levels Sell b))].
  pose proof (sm_iter_sorted (levels Buy b)) as Hs. induction Hs as [|x l Hs IH Hx]; [constructor|].
  rewrite reverse_cons. apply StronglySorted_app. split_and!; [|done|repeat constructor].
  intros y z Hy Hz. rewrite elem_of_reverse in Hy. apply list_elem_of_singleton in Hz as ->.
  rewrite Forall_forall in Hx. exact (Hx y Hy).
Qed.

(** In a list sorted by price, what stands before and after an entry. *)
Lemma sorted_split side pre (x : N * PriceLevel) post :
  StronglySorted (fun x y : N * PriceLevel => ahead side x.1 y.1) (pre ++ x :: post) ->
  (forall y, y ∈ pre -> ahead side y.1 x.1) /\ (forall y, y ∈ post -> ahead side x.1 y.1).
Proof.
  intros (H1 & _ & H3)%StronglySorted_app. apply StronglySorted_inv in H3 as [_ H3].
  rewrite Forall_forall in H3. split; [|done]. intros y Hy. apply H1; [done|left].
Qed.

(** ** The price that reaches a depth *)

Definition totals entries : N := sumN (fun kv => level_total kv.2) entries.

(** The depth resting at [p] or in front of it. *)
Definition depth_to (side : Side) (p : N) b : N :=
  totals (filter (fun kv => kv.1 = p \/ ahead side kv.1 p) (sm_iter (levels side b))).

Lemma depth_to_split side b pre p lv post :
  depth_entries side b = pre ++ (p, lv) :: post ->
  depth_to side p b = totals (pre ++ [(p, lv)]) /\
  (forall q, is_Some (levels side b !! q) -> ahead side q p -> depth_to side q b <= totals pre).
Proof.
  intros E. pose proof (depth_entries_sorted side b) as Hs. rewrite E in Hs.
  pose proof (sorted_split _ _ _ _ Hs) as [Hpre Hpost]. simpl in *.
  assert (Hperm : forall q, depth_to side q b =
    totals (filter (fun kv => kv.1 = q \/ ahead side kv.1 q) (pre ++ (p, lv) :: post))).
  { intros q. unfold depth_to, totals. apply sumN_Permutation. by rewrite <- E, depth_entries_perm. }
  split.
  - rewrite Hperm. f_equal. rewrite filter_app, filter_cons, list_filter_all; [|intros; right; by apply Hpre].
    rewrite decide_True by (by left). rewrite list_filter_none; [done|].
    intros y Hy%Hpost [?|?]; destruct side; simpl in *; lia.
  - intros q [lv' Hq] Ha. rewrite Hperm. unfold totals. rewrite filter_app, sumN_app.
    rewrite (list_filter_none _ (_ :: post)).
    + rewrite sumN_nil. etransitivity; [|apply (sumN_filter_le _ (fun kv => kv.1 = q \/ ahead side kv.1 q))]. lia.
    + intros y [->|Hy]%elem_of_cons [?|?]; try (specialize (Hpost y Hy)); destruct side; simpl in *; lia.
Qed.

Lemma depth_scan_spec target entries : forall pre cum,
  cum = N.min U64_MAX (totals pre) -> (pre = [] \/ cum < target) ->
  match depth_scan target cum entries with
  | Some (p, c) => exists mid lv post, entries = mid ++ (p, lv) :: post /\
      c = N.min U64_MAX (totals (pre ++ mid ++ [(p, lv)])) /\ target <= c /\
      (pre ++ mid = [] \/ N.min U64_MAX (totals (pre ++ mid)) < target)
  | None => (pre ++ entries = []) \/ N.min U64_MAX (totals (pre ++ entries)) < target
  end.
Proof.
  induction entries as [|[p lv] entries IH]; intros pre cum Hc Hlt; cbn [depth_scan].
  { rewrite app_nil_r. destruct Hlt as [?|?]; [by left|right; lia]. }
  assert (Hstep : sat_add U64_MAX cum (level_total lv) = N.min U64_MAX (totals (pre ++ [(p, lv)]))).
  { unfold totals. rewrite sumN_app, sumN_cons, sumN_nil. subst cum. unfold sat_add, totals. simpl. lia. }
  cbv zeta. destruct (N.leb_spec target (sat_add U64_MAX cum (level_total lv))) as [Hle|Hgt].
  - exists [], lv, entries. split_and!; [done|done|done|]. rewrite app_nil_r.
    destruct Hlt as [?|?]; [by left|right; lia].
  - specialize (IH (pre ++ [(p, lv)]) _ Hstep (or_intror Hgt)).
    destruct (depth_scan target _ entries) as [[p' c]|].
    + destruct IH as (mid & lv' & post & -> & Hc' & Ht & Hb).
      exists ((p, lv) :: mid), lv', post. rewrite <- !app_assoc in *. split_and!; try done.
    + rewrite <- app_assoc in IH. exact IH.
Qed.

(** [price_at_depth] finds the first price that reaches a depth.  It
    returns [p] exactly when a level rests at [p], the depth at [p] and in
    front of it reaches the target, and at no better level does it already;
    [cumulative_depth_to_target] returns with it that depth, saturated; both
    return nothing exactly when no level reaches the target. *)
Theorem price_at_depth_exact target side b p :
  target <= U64_MAX ->
  (price_at_depth target side b = Some p <->
   is_Some (levels side b !! p) /\ target <= depth_to side p b /\
   forall q, is_Some (levels side b !! q) -> ahead side q p -> depth_to side q b < target) /\
  (price_at_depth target side b = Some p ->
   cumulative_depth_to_target target side b = Some (p, N.min U64_MAX (depth_to side p b))) /\
  (price_at_depth target side b = None <->
   forall q, is_Some (levels side b !! q) -> depth_to side q b < target).
Proof.
  intros Ht. unfold price_at_depth, cumulative_depth_to_target.
  pose proof (depth_scan_spec target (depth_entries side b) [] 0 eq_refl (or_introl eq_refl)) as H.
  destruct (depth_scan target 0 (depth_entries side b)) as [[p' c]|]; simpl in *.
  - destruct H as (pre & lv & post & E & -> & Hc & Hb).
    destruct (depth_to_split _ _ _ _ _ _ E) as [Hd Hpre].
    assert (Hp' : is_Some (levels side b !! p')).
    { exists lv. apply elem_of_depth_entries. rewrite E, elem_of_app. right. by left. }
    assert (Hbefore : forall q, is_Some (levels side b !! q) -> ahead side q p' -> depth_to side q b < target).
    { intros q Hq Ha. specialize (Hpre q Hq Ha). destruct Hb as [Hb|Hb]; [subst pre|lia].
      destruct Hq as [lvq Hq]. apply elem_of_depth_entries in Hq. rewrite E in Hq. simpl in Hq.
      pose proof (depth_entries_sorted side b) as Hs. rewrite E in Hs.
      apply sorted_split in Hs as [_ Hpost].
      apply elem_of_cons in Hq as [[= -> _]|Hq]; [destruct side; simpl in *; lia|].
      specialize (Hpost _ Hq). destruct side; simpl in *; lia. }
    split_and!.
    + split; [intros [= <-]; split_and!; [done|rewrite Hd; lia|done]|].
      intros (Hp & Hdp & Hq). f_equal. destruct (decide (p' = p)) as [|Hne]; [done|].
      destruct (decide (ahead side p' p)) as [Ha|Ha].
      * specialize (Hq _ Hp' Ha). lia.
      * assert (ahead side p p') as Ha' by (destruct side; simpl in *; lia).
        specialize (Hbefore _ Hp Ha'). lia.
    + intros [= <-]. by rewrite Hd.
    + split; [done|]. intros Hall. specialize (Hall _ Hp'). lia.
  - assert (Hall : forall q, is_Some (levels side b !! q) -> depth_to side q b < target).
    { intros q [lv Hq]. apply elem_of_depth_entries in Hq. destruct H as [H|H]; [rewrite H in Hq; by apply elem_of_nil in Hq|].
      assert (depth_to side q b <= totals (depth_entries side b)); [|lia].
      unfold depth_to, totals. rewrite sumN_filter_le. apply N.eq_le_incl, sumN_Permutation.
      by rewrite depth_entries_perm. }
    split_and!; [|done|done]. split; [done|]. intros (Hp & Hd & _). specialize (Hall _ Hp). lia.
Qed.

(** ** Ranges *)

Definition in_range (lo hi : N) (kv : N * PriceLevel) : Prop := lo <= kv.1 /\ kv.1 <= hi.
#[export] Instance in_range_dec lo hi kv : Decision (in_range lo hi kv).
Proof. unfold in_range. apply _. Defined.

Definition plain_info (kv : N * PriceLevel) : LevelInfo :=
  {| li_price := kv.1; li_quantity := level_total kv.2; li_cumulative_depth := 0 |}.

Lemma levels_range_filter side lo hi entries :
  StronglySorted (fun x y : N * PriceLevel => ahead side x.1 y.1) entries ->
  levels_range side lo hi entries = plain_info <$> filter (in_range lo hi) entries.
Proof.
  induction 1 as [|[p lv] entries Hs IH Hx]; [done|]. rewrite Forall_forall in Hx.
  cbn [levels_range]. rewrite filter_cons. destruct (past_far_edge side lo hi p) eqn:E.
  - rewrite decide_False.
    + rewrite list_filter_none; [done|]. intros y Hy [? ?]. specialize (Hx y Hy).
      destruct side; simpl in *; bool_prop; lia.
    + intros [? ?]. destruct side; simpl in *; bool_prop; lia.
  - destruct (N.leb_spec lo p), (N.leb_spec p hi); simpl;
      [rewrite decide_True by done; csimpl; by rewrite IH|rewrite decide_False by (intros [? ?]; simpl in *; lia)..];
      done.
Qed.

Lemma liquidity_scan_filter lo hi entries : forall total,
  StronglySorted key_lt entries -> total <= U64_MAX ->
  liquidity_scan lo hi total entries = N.min U64_MAX (total + totals (filter (in_range lo hi) entries)).
Proof.
  induction entries as [|[p lv] entries IH]; intros total Hs Ht; cbn [liquidity_scan].
  { rewrite filter_nil. unfold totals. rewrite sumN_nil. lia. }
  apply StronglySorted_inv in Hs as [Hs Hx]. rewrite Forall_forall in Hx. rewrite filter_cons.
  destruct (N.ltb_spec p lo).
  { rewrite decide_False by (intros [? ?]; simpl in *; lia). by apply IH. }
  destruct (N.ltb_spec hi p).
  - rewrite decide_False by (intros [? ?]; simpl in *; lia). rewrite list_filter_none.
    + unfold totals. rewrite sumN_nil. lia.
    + intros y Hy [? ?]. specialize (Hx y Hy). unfold key_lt in Hx. simpl in *. lia.
  - rewrite decide_True by done. rewrite IH; [|done|unfold sat_add; lia].
    unfold totals. rewrite sumN_cons. apply sat_add_min.
Qed.

(** The range views are exact in spite of their early exits.
    [levels_in_range] yields, best price first, exactly the levels whose
    price lies in the closed range, with their quantities, and
    [liquidity_in_range] is the saturated sum of those quantities. *)
Theorem range_views_exact lo hi side b :
  levels_in_range lo hi side b = plain_info <$> filter (in_range lo hi) (depth_entries side b) /\
  liquidity_in_range lo hi side b = N.min U64_MAX (sumN li_quantity (levels_in_range lo hi side b)).
Proof.
  assert (E : levels_in_range lo hi side b = plain_info <$> filter (in_range lo hi) (depth_entries side b)).
  { apply levels_range_filter, depth_entries_sorted. }
  split; [exact E|]. rewrite E.
  assert (Ht : sumN li_quantity (plain_info <$> filter (in_range lo hi) (depth_entries side b)) =
    totals (filter (in_range lo hi) (sm_iter (levels side b)))).
  { rewrite sumN_fmap. unfold totals. apply sumN_Permutation. by rewrite depth_entries_perm. }
  rewrite Ht. unfold liquidity_in_range. destruct (N.ltb_spec hi lo).
  - rewrite list_filter_none; [done|]. intros y _ [? ?]. lia.
  - rewrite liquidity_scan_filter; [done|apply sm_iter_sorted|done].
Qed.

(** ** Dry runs of a market order *)

Lemma sim_loop_spec quantity entries : forall s,
  quantity <= U64_MAX -> ss_remaining s + ss_total_filled s = quantity ->
  sumN snd (ss_fills s) = ss_total_filled s ->
  let s' := sim_loop entries s in
  ss_remaining s' + ss_total_filled s' = quantity /\ sumN snd (ss_fills s') = ss_total_filled s' /\
  ss_total_filled s' = N.min quantity (ss_total_filled s + totals entries) /\
  (exists new, ss_fills s' = ss_fills s ++ new /\
     (new.*1 `sublist_of` entries.*1) /\
     forall p q, (p, q) ∈ new -> 0 < q /\ exists lv, (p, lv) ∈ entries /\ q <= level_total lv).
Proof.
  induction entries as [|[p lv] entries IH]; intros s Hq Hr Hf; cbn [sim_loop].
  { unfold totals. rewrite sumN_nil. split_and!; [done|done|lia|]. exists []. rewrite app_nil_r.
    split_and!; [done|constructor|by intros ? ? ?%elem_of_nil]. }
  assert (Hskip : forall new : list (N * N),
    (new.*1 `sublist_of` entries.*1) /\
    (forall p q, (p, q) ∈ new -> 0 < q /\ exists lv, (p, lv) ∈ entries /\ q <= level_total lv) ->
    (new.*1 `sublist_of` ((p, lv) :: entries).*1) /\
    (forall p' q, (p', q) ∈ new -> 0 < q /\ exists lv', (p', lv') ∈ (p, lv) :: entries /\ q <= level_total lv')).
  { intros new [H1 H2]. split; [csimpl; by constructor|]. intros p' q Hin.
    destruct (H2 _ _ Hin) as (? & lv' & ? & ?). split; [done|]. exists lv'. split; [by right|done]. }
  unfold totals. rewrite sumN_cons. fold (totals entries). simpl snd.
  destruct (N.eqb_spec (ss_remaining s) 0) as [Hz|Hnz].
  { split_and!; [done|done|lia|]. exists []. rewrite app_nil_r. split; [done|].
    split; [apply sublist_nil_l|by intros ? ? ?%elem_of_nil]. }
  destruct (N.eqb_spec (level_total lv) 0) as [Hl|Hl].
  { destruct (IH s Hq Hr Hf) as (H1 & H2 & H3 & new & H4 & H5 & H6).
    split_and!; [done|done|rewrite H3; lia|]. exists new. split; [done|]. by apply Hskip. }
  set (s1 := sim_fill p (level_total lv) s). set (n := N.min (ss_remaining s) (level_total lv)).
  assert (E1 : ss_remaining s1 = ss_remaining s - n) by done.
  assert (E2 : ss_total_filled s1 = ss_total_filled s + n) by (change (sat_add U64_MAX (ss_total_filled s) n = ss_total_filled s + n); unfold sat_add; lia).
  assert (E3 : ss_fills s1 = ss_fills s ++ [(p, n)]) by done.
  destruct (IH s1 Hq) as (H1 & H2 & H3 & new & H4 & H5 & H6).
  { lia. }
  { rewrite E3, sumN_app, sumN_cons, sumN_nil, E2, Hf. simpl. lia. }
  split_and!; [done|done|rewrite H3, E2; lia|]. exists ((p, n) :: new).
  rewrite H4, E3, <- app_assoc. split; [done|]. split; [csimpl; by constructor|].
  intros p' q [[= -> ->]|Hin]%elem_of_cons.
  - split; [lia|]. exists lv. split; [by left|lia].
  - by apply (Hskip new (conj H5 H6)).
Qed.

Lemma peek_levels_spec side quantity entries : forall matched,
  quantity <= U64_MAX -> matched <= quantity ->
  peek_levels side quantity None entries matched = N.min quantity (matched + totals entries).
Proof.
  induction entries as [|[p lv] entries IH]; intros matched Hq Hm; cbn [peek_levels].
  { unfold totals. rewrite sumN_nil. lia. }
  unfold totals. rewrite sumN_cons. fold (totals entries). simpl snd.
  destruct (N.leb_spec quantity matched); [lia|].
  assert (E : beyond_limit side None p = false) by (by destruct side). rewrite E. cbv iota.
  change (match pl_total_quantity lv with Ok q => q | Err _ => 0 end) with (level_total lv).
  unfold sat_sub, sat_add. rewrite IH by lia. lia.
Qed.

Lemma impact_loop_spec entries : forall s available worst consumed s' available' worst' consumed',
  impact_loop entries s available worst consumed = (s', available', worst', consumed') ->
  available <= U64_MAX -> available' = N.min U64_MAX (available + totals entries).
Proof.
  induction entries as [|[p lv] entries IH]; intros * H Ha; cbn [impact_loop] in H.
  { simplify_eq. unfold totals. rewrite sumN_nil. lia. }
  unfold totals. rewrite sumN_cons. fold (totals entries). simpl snd.
  destruct (N.eqb_spec (level_total lv) 0) as [->|].
  { apply IH in H; [|done]. lia. }
  destruct (0 <? ss_remaining s); apply IH in H; unfold sat_add in *; lia.
Qed.

(** A side with a level has a best price, whatever the cache says. *)
Lemma best_opposite side b best b1 :
  sweep_entries side b <> [] ->
  (match side with Buy => best_ask | Sell => best_bid end) b = (best, b1) ->
  is_Some best /\ sweep_entries side b1 = sweep_entries side b.
Proof.
  intros Hn H. destruct side; [unfold best_ask in H|unfold best_bid in H].
  - destruct (get_cached_best_ask (cache b)) as [p|]; simplify_eq; [by eauto|]. split; [|done].
    apply not_eq_None_Some. rewrite sm_front_None. intros E. apply Hn. simpl.
    change (asks (indices b)) with (levels Sell b). rewrite E. done.
  - destruct (get_cached_best_bid (cache b)) as [p|]; simplify_eq; [by eauto|]. split; [|done].
    apply not_eq_None_Some. rewrite sm_back_None. intros E. apply Hn. simpl.
    change (bids (indices b)) with (levels Buy b). rewrite E. done.
Qed.

(** The dry runs of a market order agree.  For a positive quantity,
    [simulate_market_order] fills exactly what [peek_match] promises, the
    rest is reported as remaining, its fills add up to the total, each is
    positive and within the quantity of a level of the opposite side, and
    they come in that side's price order; [vwap] is defined exactly when the
    simulation fills completely, which is exactly when [market_impact] finds
    enough depth for [can_fill]. *)
Theorem dry_runs_agree quantity side b :
  0 < quantity -> quantity <= U64_MAX ->
  let sim := simulate_market_order quantity side b in
  sim_total_filled sim = peek_match side quantity None b /\
  sim_remaining_quantity sim = quantity - sim_total_filled sim /\
  sumN snd (sim_fills sim) = sim_total_filled sim /\
  ((sim_fills sim).*1 `sublist_of` (sweep_entries side b).*1) /\
  (forall p q, (p, q) ∈ sim_fills sim ->
     0 < q /\ exists lv, levels (opposite side) b !! p = Some lv /\ q <= level_total lv) /\
  (is_Some (vwap quantity side b) <-> is_fully_filled sim = true) /\
  can_fill (market_impact quantity side b).1 quantity = is_fully_filled sim.
Proof.
  intros Hpos Hq sim. unfold sim, simulate_market_order, is_fully_filled, vwap.
  destruct (N.eqb_spec quantity 0); [lia|]. simpl.
  destruct (sim_loop_spec quantity (sweep_entries side b) (sim_start quantity) Hq)
    as (H1 & H2 & H3 & new & H4 & H5 & H6); [simpl; lia|done|].
  set (s := sim_loop (sweep_entries side b) (sim_start quantity)) in *. simpl in H3, H4.
  rewrite N.add_0_l in H3. rewrite H4. split_and!.
  - unfold peek_match. rewrite peek_levels_spec by lia. rewrite H3. lia.
  - lia.
  - by rewrite <- H4.
  - done.
  - intros p q Hin. destruct (H6 _ _ Hin) as (? & lv & Hlv & ?). split; [done|]. exists lv. split; [|done].
    destruct side; simpl in Hlv; [|rewrite elem_of_reverse in Hlv]; by apply elem_of_sm_iter in Hlv.
  - rewrite N.eqb_eq. destruct (N.eqb_spec (ss_total_filled s) quantity); split; intros H; first [done|lia|by destruct H].
  - unfold market_impact, sbind, sget.
    destruct (bool_decide_reflect (sweep_entries side b = [])) as [Hn|Hn].
    { destruct (N.eqb_spec quantity 0); [lia|]. simpl. unfold can_fill. simpl. rewrite Hn in H3.
      unfold totals in H3. rewrite sumN_nil in H3.
      destruct (N.leb_spec quantity 0), (N.eqb_spec (ss_remaining s) 0); lia || done. }
    destruct (N.eqb_spec quantity 0); [lia|]. cbn [orb].
    destruct ((match side with Buy => best_ask | Sell => best_bid end) b) as [best b1] eqn:Eb.
    assert (Hb : is_Some best /\ sweep_entries side b1 = sweep_entries side b).
    { by apply (best_opposite side b). }
    destruct Hb as [[best_price ->] ->]. unfold sret.
    destruct (impact_loop _ _ _ _ _) as [[[s' av] worst] consumed] eqn:Ei.
    apply impact_loop_spec in Ei; [|lia]. simpl. unfold can_fill. simpl. rewrite Ei.
    destruct (N.leb_spec quantity (N.min U64_MAX (0 + totals (sweep_entries side b)))),
      (N.eqb_spec (ss_remaining s) 0); lia || done.
Qed.

(** ** The histogram *)

Definition nonempty_level (kv : N * PriceLevel) : Prop := level_total kv.2 <> 0.
#[local] Instance nonempty_level_dec kv : Decision (nonempty_level kv).
Proof. unfold nonempty_level. apply _. Defined.

(** A bin with what the levels of [entries] add to it. *)
Definition charged entries (bin : DistributionBin) : DistributionBin :=
  {| bin_min_price := bin_min_price bin; bin_max_price := bin_max_price bin;
     bin_volume := N.min U64_MAX (bin_volume bin + totals entries);
     bin_level_count := bin_level_count bin + N.of_nat (length (filter nonempty_level entries)) |}.

Lemma fill_bins_lookup bins lo hi w i entries : forall d,
  (forall bin, d !! i = Some bin -> bin_volume bin <= U64_MAX) ->
  fill_bins bins lo hi w entries d !! i =
  charged (filter (fun kv => bin_index bins lo hi w kv.1 = i) entries) <$> d !! i.
Proof.
  unfold fill_bins. induction entries as [|[p lv] entries IH]; intros d Hd; simpl foldl.
  { destruct (d !! i) as [[a c v n]|] eqn:E; [|done]. specialize (Hd _ eq_refl). simpl in *.
    unfold charged. rewrite filter_nil. unfold totals. rewrite sumN_nil. simpl. do 2 f_equal; lia. }
  rewrite filter_cons. simpl fst. destruct (N.eqb_spec (level_total lv) 0) as [Hz|Hz].
  - rewrite IH by done. case_decide; [|done]. destruct (d !! i); [|done]. simpl. unfold charged.
    rewrite filter_cons, decide_False by (intros H'; by apply H').
    unfold totals. rewrite sumN_cons. simpl. by rewrite Hz, N.add_0_l.
  - case_decide as Hi.
    + subst i. rewrite IH.
      2: { intros bin. rewrite list_lookup_alter_eq. destruct (d !! _); intros; simplify_eq/=. unfold sat_add. lia. }
      rewrite list_lookup_alter_eq. destruct (d !! _) as [[a c v n]|] eqn:E; [|done].
      specialize (Hd _ eq_refl). simpl in *. unfold charged, add_to_bin, totals.
      rewrite filter_cons, decide_True by done. rewrite sumN_cons. simpl. unfold sat_add.
      do 2 f_equal; lia.
    + rewrite IH; [by rewrite list_lookup_alter_ne|]. intros bin. rewrite list_lookup_alter_ne by done. apply Hd.
Qed.

Lemma fill_bins_length bins lo hi w entries : forall d,
  length (fill_bins bins lo hi w entries d) = length d.
Proof.
  unfold fill_bins. induction entries as [|kv entries IH]; intros d; simpl; [done|]. rewrite IH.
  destruct (level_total kv.2 =? 0); [done|apply length_alter].
Qed.

Lemma fold_bounds entries : forall m M lo hi,
  (forall kv, kv ∈ entries -> lo <= kv.1 /\ kv.1 <= hi) ->
  (m = lo \/ lo <= m /\ exists kv, kv ∈ entries /\ kv.1 = lo) ->
  (M = hi \/ M <= hi /\ exists kv, kv ∈ entries /\ kv.1 = hi) ->
  foldl (fun m kv => N.min m kv.1) m entries = lo /\ foldl (fun m kv => N.max m kv.1) M entries = hi.
Proof.
  induction entries as [|kv entries IH]; intros m M lo hi Hin Hm HM; simpl.
  { destruct Hm as [->|(_ & ? & H & _)]; [|by apply elem_of_nil in H].
    destruct HM as [->|(_ & ? & H & _)]; [done|by apply elem_of_nil in H]. }
  pose proof (Hin kv ltac:(left)) as [? ?]. apply IH.
  - intros ? ?. apply Hin. by right.
  - destruct Hm as [->|(? & kv' & [->|?]%elem_of_cons & ?)]; [left; lia|left; lia|].
    right. split; [lia|eauto].
  - destruct HM as [->|(? & kv' & [->|?]%elem_of_cons & ?)]; [left; lia|left; lia|].
    right. split; [lia|eauto].
Qed.

(** The index of a price below the maximum, by the bounds of the bins. *)
Lemma bin_index_spec bins lo hi w p i :
  lo <= p -> p <= hi -> 0 < w -> hi - lo <= w * N.of_nat bins -> (i < bins)%nat ->
  bin_index bins lo hi w p = i <->
  (p <> hi /\ lo + N.of_nat i * w <= p /\ p < lo + N.of_nat i * w + w) \/ (i = (bins - 1)%nat /\ p = hi).
Proof.
  intros Hlo Hhi Hw Hr Hi. unfold bin_index. destruct (N.leb_spec hi p) as [H|H].
  { split; [intros <-; right; split; [done|lia]|]. intros [(? & _ & _)|[-> _]]; [lia|done]. }
  assert (Hq : (p - lo) / w < N.of_nat bins) by (apply N.Div0.div_lt_upper_bound; lia).
  rewrite N.min_l by lia. split.
  - intros <-. left. rewrite N2Nat.id. generalize (N.div_mod (p - lo) w ltac:(lia)), (N.mod_lt (p - lo) w ltac:(lia)).
    generalize ((p - lo) / w), ((p - lo) mod w). intros q r E Hrw.
    assert (p = lo + q * w + r) as -> by lia. lia.
  - intros [(_ & ? & ?)|[_ ?]]; [|lia]. rewrite <- (Nat2N.id i). f_equal.
    symmetry. apply (N.div_unique _ _ _ (p - lo - N.of_nat i * w)); lia.
Qed.

(** The histogram accounts for every level.  With prices from [lo] to
    [hi], [depth_distribution] has the requested number of bins; each bin
    holds the saturated volume, and the number of the non-empty ones, of
    exactly the levels whose price is in its half-open range, except that
    the level at the highest price is always counted in the last bin. *)
Theorem histogram_exact side bins b lo hi i bin :
  is_Some (levels side b !! lo) -> is_Some (levels side b !! hi) ->
  (forall p, is_Some (levels side b !! p) -> lo <= p /\ p <= hi) ->
  hi + N.of_nat bins <= U128_MAX ->
  depth_distribution side bins b !! i = Some bin ->
  length (depth_distribution side bins b) = bins /\
  let mine := filter (fun kv : N * PriceLevel =>
    (kv.1 <> hi /\ bin_min_price bin <= kv.1 /\ kv.1 < bin_max_price bin) \/ (i = (bins - 1)%nat /\ kv.1 = hi))
    (sm_iter (levels side b)) in
  bin_volume bin = N.min U64_MAX (totals mine) /\
  bin_level_count bin = N.of_nat (length (filter nonempty_level mine)).
Proof.
  intros [lvlo Hlo] [lvhi Hhi] Hall Hmax.
  assert (Hin : forall kv, kv ∈ sm_iter (levels side b) -> lo <= kv.1 /\ kv.1 <= hi).
  { intros [p lv] H%elem_of_sm_iter. apply Hall. by exists lv. }
  apply elem_of_sm_iter in Hlo, Hhi. pose proof (Hin _ Hlo) as Hlh. simpl in Hlh.
  unfold depth_distribution.
  assert (Hlo' : lo <= U128_MAX) by lia. pose proof (N.le_0_l hi) as Hhi'.
  destruct (fold_bounds (sm_iter (levels side b)) U128_MAX 0 lo hi Hin
    (or_intror (conj Hlo' (ex_intro _ _ (conj Hlo eq_refl))))
    (or_intror (conj Hhi' (ex_intro _ _ (conj Hhi eq_refl))))) as [-> ->].
  rewrite (bool_decide_eq_false_2 (sm_iter _ = [])) by (intros E; rewrite E in Hlo; by apply elem_of_nil in Hlo).
  destruct (bool_decide_reflect (bins = 0%nat)); [done|]. simpl orb.
  rewrite (proj2 (N.eqb_neq lo U128_MAX)) by lia. rewrite (proj2 (N.ltb_ge hi lo)) by lia. cbv iota beta zeta delta [orb].
  set (w := if hi - lo =? 0 then 1 else _).
  assert (Hw : 0 < w /\ hi - lo <= w * N.of_nat bins /\ w * N.of_nat bins < hi - lo + N.of_nat bins + 1).
  { unfold w. destruct (N.eqb_spec (hi - lo) 0); [lia|].
    destruct (div_ceil_bounds (hi - lo) (N.of_nat bins)) as [? ?]; [lia|]. nia. }
  intros Hb. split; [rewrite fill_bins_length; unfold empty_bins; by rewrite length_fmap, length_seq|].
  assert (Hi : (i < bins)%nat).
  { apply lookup_lt_Some in Hb. rewrite fill_bins_length in Hb. unfold empty_bins in Hb. by rewrite length_fmap, length_seq in Hb. }
  rewrite fill_bins_lookup in Hb.
  2: { intros bin'. unfold empty_bins. rewrite list_lookup_fmap, fmap_Some. intros (? & _ & ->). simpl. lia. }
  unfold empty_bins in Hb. rewrite list_lookup_fmap, lookup_seq_lt in Hb by done. simpl in Hb.
  assert (Hiw : N.of_nat i * w + w <= w * N.of_nat bins) by nia.
  rewrite N.mod_small in Hb by lia. unfold wrapping_add in Hb. rewrite !N.mod_small in Hb by lia.
  injection Hb as <-. cbn [bin_min_price bin_max_price bin_volume bin_level_count charged].
  rewrite !N.add_0_l.
  match goal with |- _ = N.min _ (totals ?m) /\ _ => set (mine := m) end.
  assert (E : filter (fun kv => bin_index bins lo hi w kv.1 = i) (sm_iter (levels side b)) = mine);
    [|by rewrite E]. apply list_filter_ext.
  intros kv Hkv%Hin. rewrite bin_index_spec by (lia || done).
  assert (i = (bins - 1)%nat -> N.of_nat i * w + w = w * N.of_nat bins) by nia.
  case_bool_decide; lia.
Qed.
End DepthProps.
