(* ===== verification/Modifications.v ===== *)
(** * Adding, cancelling and modifying orders (modifications.rs)

    [add_order] with its admission pipeline, [cancel_order], and the five
    arms of [update_order]. *)

From S2P Require Import Prelude Types PriceLevel OrderQuantity Fees Stp Clock Cache Risk OrderState Reject SkipMap Book Matching.
Local Open Scope N_scope.

Section Modifications.
Context {PA : PriceLevelApi} {WC : WallClock}.
Context {T : Type} (dflt : T).
Implicit Types order : OrderType T.

(** ** Cancel *)

Definition cancel_order_with_reason (order_id : Id) (reason : CancelReason) :
    ST OrderBook (Result OrderBookError (option (OrderType T))) :=
  do! smod (set_cache invalidate) in
  let! location := sget (fun b => locations b !! order_id) in
  match location with
  | None => sret (Ok None)
  | Some (price, side) =>
      let! entry := sget (fun b => levels side b !! price) in
      let! cancelled_empty :=
        match entry with
        | None => sret (None, false)
        | Some price_level =>
            let '(price_level', r) := pl_update_order price_level (Cancel order_id) in
            do! smod (set_side side <[price := price_level']>) in
            match r with
            | Err _ => sret (None, false)
            | Ok cancelled =>
                do! swhen (bool_decide (is_Some cancelled)) (notify_level side price_level') in
                sret (cancelled, bool_decide (pl_order_count price_level' = 0%nat))
            end
        end in
      let '(cancelled, empty_level) := cancelled_empty in
      do! smod (set_cache invalidate) in
      do! match cancelled with
          | None => sret tt
          | Some cancelled_order =>
              let! filled := sget (prev_filled order_id) in
              do! smod (track_state order_id (Cancelled filled reason)) in
              do! smod (set_locations (delete order_id)) in
              do! smod (set_risk (on_cancel order_id)) in
              do! smod (untrack_user_order (o_user_id cancelled_order) order_id) in
              do! smod (unregister_special order_id) in
              swhen empty_level (smod (set_side side (delete price)))
          end in
      sret (Ok (convert_from_unit_type dflt <$> cancelled))
  end.

Definition cancel_order (order_id : Id) : ST OrderBook (Result OrderBookError (option (OrderType T))) :=
  cancel_order_with_reason order_id UserRequested.

(** ** Admission checks *)

(** [if cond { return Err(e) }] *)
Definition reject_if (cond : bool) (e : OrderBookError) : ST OrderBook (Result OrderBookError unit) :=
  sret (if cond then Err e else Ok tt).

Definition lot_error (lot : N) order : option OrderBookError :=
  match order with
  | IcebergOrder _ _ visible hidden _ _ _ _ _ =>
      if negb (visible mod lot =? 0) then Some (InvalidLotSize visible lot)
      else if negb (hidden mod lot =? 0) then Some (InvalidLotSize hidden lot)
      else None
  | _ =>
      if negb (total_quantity order mod lot =? 0)
      then Some (InvalidLotSize (total_quantity order) lot) else None
  end.

(** The price a crossing order is reported against. *)
Definition opposite_best (side : Side) : ST OrderBook N :=
  match side with
  | Buy => let! p := best_ask in sret (default 0 p)
  | Sell => let! p := best_bid in sret (default 0 p)
  end.

Definition check_post_only_cross order : ST OrderBook (Result OrderBookError unit) :=
  if is_post_only order then
    let! crosses := will_cross_market (o_price order) (o_side order) in
    if crosses : bool then
      let! opposite_price := opposite_best (o_side order) in
      sret (Err (PriceCrossing (o_price order) (o_side order) opposite_price))
    else sret (Ok tt)
  else sret (Ok tt).

Definition check_fok order : ST OrderBook (Result OrderBookError unit) :=
  if is_fill_or_kill order then
    let! potential_match :=
      sget (fok_fillable_quantity (o_side order) (total_quantity order) (Some (o_price order))
              (o_user_id order) (o_id order)) in
    reject_if (potential_match <? total_quantity order)
      (InsufficientLiquidity (o_side order) (total_quantity order) potential_match)
  else sret (Ok tt).

Definition validate_order_shape order : ST OrderBook (Result OrderBookError unit) :=
  let! cfg := sget book_config in
  let? _ := reject_if (bool_decide (checked_total_quantity order = None))
              (QuantityOverflow (visible_quantity order) (hidden_quantity order)) in
  let? _ := reject_if (negb (bool_decide (stp_mode cfg = STPNone)) &&
                       bool_decide (o_user_id order = Hash32_zero))
              (MissingUserId (o_id order)) in
  let? _ := match tick_size cfg with
            | Some tick => reject_if ((0 <? tick) && negb (o_price order mod tick =? 0))
                             (InvalidTickSize (o_price order) tick)
            | None => sret (Ok tt)
            end in
  let? _ := match lot_size cfg with
            | Some lot => if 0 <? lot
                          then sret (match lot_error lot order with
                                     | Some e => Err e | None => Ok tt end)
                          else sret (Ok tt)
            | None => sret (Ok tt)
            end in
  let qty := total_quantity order in
  let? _ := match min_order_size cfg with
            | Some min => reject_if (qty <? min)
                            (OrderSizeOutOfRange qty (Some min) (max_order_size cfg))
            | None => sret (Ok tt)
            end in
  let? _ := match max_order_size cfg with
            | Some max => reject_if (max <? qty)
                            (OrderSizeOutOfRange qty (min_order_size cfg) (Some max))
            | None => sret (Ok tt)
            end in
  let! expired := has_expired order in
  let? _ := reject_if expired (InvalidOperation (Lit "Order has already expired")) in
  let? _ := check_post_only_cross order in
  check_fok order.

(** The walk of [check_modify_stp_self_cross] over the crossable levels. *)
Fixpoint self_cross_levels (side : Side) (new_price : N) (user : Hash32) (order_id : Id)
    (entries : list (N * PriceLevel)) (remaining : N) : bool :=
  match entries with
  | [] => false
  | (price, level) :: entries' =>
      if remaining =? 0 then false
      else
        let crosses := match side with Buy => price <=? new_price | Sell => new_price <=? price end in
        if negb crosses then false
        else if existsb (fun o => bool_decide (o_user_id o = user)) (pl_iter_orders level) then true
        else self_cross_levels side new_price user order_id entries'
               (sat_sub remaining (pl_matchable_quantity level remaining order_id))
  end.

Definition check_modify_stp_self_cross (new_order : OrderType T) :
    ST OrderBook (Result OrderBookError unit) :=
  let user := o_user_id new_order in
  let! mode := sget (fun b => stp_mode (book_config b)) in
  match mode with
  | CancelTaker | CancelBoth =>
      if decide (user = Hash32_zero) then sret (Ok tt)
      else
        let! entries := sget (sweep_entries (o_side new_order)) in
        reject_if (self_cross_levels (o_side new_order) (o_price new_order) user (o_id new_order)
                     entries (total_quantity new_order))
          (SelfTradePrevented mode (o_id new_order) user)
  | _ => sret (Ok tt)
  end.

Definition record_shape_rejection order (err : OrderBookError) : OrderBook -> OrderBook :=
  match err with
  | MissingUserId _ => track_state (o_id order) (Rejected RejMissingUserId)
  | QuantityOverflow _ _ => track_state (o_id order) (Rejected RejInvalidQuantity)
  | InvalidTickSize _ _ => track_state (o_id order) (Rejected RejInvalidPrice)
  | InvalidLotSize _ _ => track_state (o_id order) (Rejected RejInvalidQuantity)
  | OrderSizeOutOfRange _ _ _ => track_state (o_id order) (Rejected RejOrderSizeOutOfRange)
  | PriceCrossing _ _ _ => track_state (o_id order) (Rejected RejPostOnlyWouldCross)
  | InsufficientLiquidity _ _ _ =>
      track_state (o_id order) (Cancelled 0 InsufficientLiquidityCancel)
  | _ => fun b => b
  end.

(** Run a check; on an error, run [on_err] and return it. *)
Definition guard_with (c : ST OrderBook (Result OrderBookError unit))
    (on_err : OrderBookError -> OrderBook -> OrderBook) :
    ST OrderBook (Result OrderBookError unit) :=
  let! r := c in
  match r with
  | Ok _ => sret (Ok tt)
  | Err e => do! smod (on_err e) in sret (Err e)
  end.

(** The residual-admission headroom check of a crossing, non-immediate order. *)
Definition check_headroom order : ST OrderBook (Result OrderBookError unit) :=
  if is_immediate order then sret (Ok tt)
  else
    let! crosses := will_cross_market (o_price order) (o_side order) in
    if crosses : bool then
      let! entry := sget (fun b => levels (o_side order) b !! o_price order) in
      match entry with
      | None => sret (Ok tt)
      | Some level =>
          match pl_total_quantity level with
          | Err e =>
              do! smod (track_state (o_id order) (Rejected RejInvalidQuantity)) in
              sret (Err (EPriceLevelError e))
          | Ok level_total =>
              match checked_add U64_MAX level_total (total_quantity order) with
              | None =>
                  do! smod (track_state (o_id order) (Rejected RejInvalidQuantity)) in
                  sret (Err (InvalidOperation
                               (LevelCapacityExceeded (o_id order) (o_price order))))
              | Some _ => sret (Ok tt)
              end
          end
      end
    else sret (Ok tt).

(** ** Add *)

(** Emission of an order's own trades: the result is built when the caller or
    a listener wants it. *)
Definition emit_own_trades (m : MatchResult) (want_result : bool) :
    ST OrderBook (option TradeResult) :=
  if bool_decide (mr_trades m = []) then sret None
  else
    let! cfg := sget book_config in
    if want_result || trade_listener cfg then
      let! seq := next_engine_seq in
      let tr := with_fees (symbol cfg) m (fee_schedule cfg) in
      let tr' := {| tr_symbol := tr_symbol tr; tr_match_result := tr_match_result tr;
                    tr_total_maker_fees := tr_total_maker_fees tr;
                    tr_total_taker_fees := tr_total_taker_fees tr; tr_engine_seq := seq;
                    tr_quote_notional := tr_quote_notional tr |} in
      do! swhen (trade_listener cfg) (smod (push_event (TradeEmitted tr'))) in
      sret (Some tr')
    else sret None.

Definition register_special order : OrderBook -> OrderBook :=
  match order with
  | PeggedOrder id _ _ _ _ _ _ _ _ _ => set_special (fun s => {[id]} ∪ s) (fun s => s)
  | TrailingStop id _ _ _ _ _ _ _ _ _ => set_special (fun s => s) (fun s => {[id]} ∪ s)
  | _ => fun b => b
  end.

(** The resting branch of [add_order_inner]: get or create the level, admit,
    notify, index. *)
Definition rest_order order (remaining original_qty filled_qty : N) :
    ST OrderBook (Result OrderBookError (OrderType T)) :=
  let price := o_price order in
  let side := o_side order in
  let! level := sget (fun b => default (pl_new price) (levels side b !! price)) in
  do! smod (set_side side <[price := level]>) in
  match pl_add_order level (convert_to_unit_type order) with
  | Err err =>
      do! swhen (bool_decide (pl_order_count level = 0%nat)) (smod (set_side side (delete price))) in
      do! smod (set_cache invalidate) in
      sret (Err (EPriceLevelError err))
  | Ok (level', unit_order) =>
      do! smod (set_side side <[price := level']>) in
      do! notify_level side level' in
      do! smod (set_locations <[o_id unit_order := (price, side)]>) in
      do! smod (set_risk (on_admission (o_id unit_order) (o_user_id order) price remaining)) in
      do! smod (track_user_order (o_user_id order) (o_id unit_order)) in
      do! smod (register_special order) in
      do! smod (track_state (o_id order)
                  (if 0 <? filled_qty then PartiallyFilled original_qty filled_qty else Open)) in
      sret (Ok (convert_from_unit_type dflt unit_order))
  end.

Definition taker_kind_of order : TakerKind :=
  if is_post_only order then TakerPostOnly else TakerStandard.

(** What [add_order_inner] does once the sweep has returned. *)
Definition settle order (want_result : bool) (outcome : MatchOutcome) :
    ST OrderBook (Result OrderBookError (OrderType T * option TradeResult)) :=
  if taker_post_only_rejected outcome then
    do! smod (track_state (o_id order) (Rejected RejPostOnlyWouldCross)) in
    let! opposite_price := opposite_best (o_side order) in
    sret (Err (PriceCrossing (o_price order) (o_side order) opposite_price))
  else
    let m := result outcome in
    let remaining := mr_remaining_quantity m in
    let! trade_result := emit_own_trades m want_result in
    let original_qty := total_quantity order in
    let filled_qty := sat_sub original_qty remaining in
    if taker_stp_cancelled outcome then
      do! smod (track_state (o_id order) (Cancelled filled_qty SelfTradePrevention)) in
      let! mode := sget (fun b => stp_mode (book_config b)) in
      sret (Err (SelfTradePrevented mode (o_id order) (o_user_id order)))
    else if 0 <? remaining then
      if is_immediate order then
        do! smod (track_state (o_id order) (Cancelled filled_qty InsufficientLiquidityCancel)) in
        sret (Err (InsufficientLiquidity (o_side order) (quantity order)
                     (sat_sub (quantity order) remaining)))
      else
        let order' := if remaining <? total_quantity order
                      then set_total_remaining order remaining else order in
        let? rested := rest_order order' remaining original_qty filled_qty in
        sret (Ok (rested, trade_result))
    else
      do! smod (track_state (o_id order) (Filled original_qty)) in
      sret (Ok (order, trade_result)).

(** Every check before the sweep. *)
Definition admission order : ST OrderBook (Result OrderBookError unit) :=
  let? _ := check_kill_switch_or_reject (o_id order) in
  let? _ := guard_with
              (reject_if (bool_decide (checked_total_quantity order = None))
                 (QuantityOverflow (visible_quantity order) (hidden_quantity order)))
              (record_shape_rejection order) in
  let? _ := guard_with
              (check_risk_limit_admission (o_user_id order) (o_price order) (total_quantity order))
              (reject_with_risk (o_id order)) in
  let! known := sget (fun b => locations b !! o_id order) in
  let? _ := reject_if (bool_decide (is_Some known)) (DuplicateOrderId (o_id order)) in
  let? _ := guard_with (validate_order_shape order) (record_shape_rejection order) in
  check_headroom order.

Definition add_order_inner order (want_result : bool) :
    ST OrderBook (Result OrderBookError (OrderType T * option TradeResult)) :=
  let? _ := admission order in
  do! smod (set_cache invalidate) in
  let? outcome := match_order_with_user_outcome (o_id order) (o_side order) (total_quantity order)
                    (Some (o_price order)) (o_user_id order) (taker_kind_of order) in
  settle order want_result outcome.

Definition add_order order : ST OrderBook (Result OrderBookError (OrderType T)) :=
  let? r := add_order_inner order false in sret (Ok r.1).

Definition add_order_with_result order :
    ST OrderBook (Result OrderBookError (OrderType T * option TradeResult)) :=
  add_order_inner order true.

(** ** Update *)

(** The validate-first checks of a modify, before the original is touched. *)
Definition check_modify (order_id : Id) (new_order : OrderType T) :
    ST OrderBook (Result OrderBookError unit) :=
  let? _ := validate_order_shape new_order in
  let? _ := check_risk_modify_admission order_id (o_user_id new_order) (o_price new_order)
              (total_quantity new_order) in
  check_modify_stp_self_cross new_order.

(** Cancel the original, then add the new order. *)
Definition cancel_then_add (order_id : Id) (new_order : OrderType T) :
    ST OrderBook (Result OrderBookError (option (OrderType T))) :=
  let? _ := check_modify order_id new_order in
  let? _ := cancel_order_with_reason order_id UserRequested in
  let? r := add_order_inner new_order false in
  sret (Ok (Some r.1)).

Definition update_price (order_id : Id) (new_price : N) :
    ST OrderBook (Result OrderBookError (option (OrderType T))) :=
  let! location := sget (fun b => locations b !! order_id) in
  match location with
  | None => sret (Ok None)
  | Some (old_price, _) =>
      if old_price =? new_price then
        sret (Err (InvalidOperation (Lit "Cannot update price to the same value")))
      else
        let! original := sget (get_order dflt order_id) in
        match original with
        | None => sret (Ok None)
        | Some original => cancel_then_add order_id (set_price original new_price)
        end
  end.

Definition update_price_and_quantity (order_id : Id) (new_price new_quantity : N) :
    ST OrderBook (Result OrderBookError (option (OrderType T))) :=
  let! location := sget (fun b => locations b !! order_id) in
  match location with
  | None => sret (Ok None)
  | Some _ =>
      let! original := sget (get_order dflt order_id) in
      match original with
      | None => sret (Ok None)
      | Some original =>
          cancel_then_add order_id (set_quantity (set_price original new_price) new_quantity)
      end
  end.

Definition replace_order (order_id : Id) (price qty : N) (side : Side) :
    ST OrderBook (Result OrderBookError (option (OrderType T))) :=
  let! original := sget (get_order dflt order_id) in
  match original with
  | None => sret (Ok None)
  | Some original => cancel_then_add order_id (replace_fields original order_id price qty side)
  end.

(** Leave the level map and the indices when the level has become empty. *)
Definition drop_if_empty (is_empty : bool) (order_id : Id) (price : N) (side : Side) :
    ST OrderBook unit :=
  swhen is_empty
    (do! smod (set_side side (delete price)) in
     do! smod (set_locations (delete order_id)) in
     smod (untrack_order_by_id order_id)).

Definition update_quantity (order_id : Id) (new_quantity : N) :
    ST OrderBook (Result OrderBookError (option (OrderType T))) :=
  let! location := sget (fun b => locations b !! order_id) in
  match location with
  | None => sret (Ok None)
  | Some (price, side) =>
      let! entry := sget (fun b => levels side b !! price) in
      match entry with
      | None => do! smod (set_cache invalidate) in sret (Ok None)
      | Some price_level =>
          match snd <$> list_find (fun o => o_id o = order_id) (pl_iter_orders price_level) with
          | None => sret (Ok None)
          | Some current_unit =>
              let projected := with_reduced_quantity (convert_from_unit_type dflt current_unit)
                                 new_quantity in
              let? _ := validate_order_shape projected in
              let? _ := check_risk_modify_admission order_id (o_user_id projected) price
                          (total_quantity projected) in
              let '(price_level', r) :=
                pl_update_order price_level (UpdateQuantity order_id new_quantity) in
              do! smod (set_side side <[price := price_level']>) in
              match r with
              | Err err => sret (Err (EPriceLevelError err))
              | Ok updated =>
                  do! match updated with
                      | Some order =>
                          do! smod (set_risk (on_quantity_update order_id (total_quantity order))) in
                          notify_level side price_level'
                      | None => sret tt
                      end in
                  do! drop_if_empty (bool_decide (pl_order_count price_level' = 0%nat))
                        order_id price side in
                  do! smod (set_cache invalidate) in
                  sret (Ok (convert_from_unit_type dflt <$> updated))
              end
          end
      end
  end.

(** The [OrderUpdate::Cancel] arm, which has its own code. *)
Definition update_cancel (order_id : Id) :
    ST OrderBook (Result OrderBookError (option (OrderType T))) :=
  let! location := sget (fun b => locations b !! order_id) in
  match location with
  | None => sret (Ok None)
  | Some (price, side) =>
      let! current := sget (get_order dflt order_id) in
      match current with
      | None => sret (Ok None)
      | Some current_order =>
          let! entry := sget (fun b => levels side b !! price) in
          let! is_empty :=
            match entry with
            | None => sret false
            | Some price_level =>
                let '(price_level', r) := pl_update_order price_level (Cancel order_id) in
                do! smod (set_side side <[price := price_level']>) in
                do! match r with
                    | Ok (Some _) => notify_level side price_level'
                    | _ => sret tt
                    end in
                sret (bool_decide (pl_order_count price_level' = 0%nat))
            end in
          do! smod (set_locations (delete order_id)) in
          do! smod (untrack_order_by_id order_id) in
          do! swhen is_empty (smod (set_side side (delete price))) in
          sret (Ok (Some current_order))
      end
  end.

Definition is_modify (u : OrderUpdate) : bool :=
  match u with Cancel _ => false | _ => true end.

Definition update_order (update : OrderUpdate) :
    ST OrderBook (Result OrderBookError (option (OrderType T))) :=
  let? _ := (if is_modify update then check_kill_switch else sret (Ok tt)) in
  do! smod (set_cache invalidate) in
  match update with
  | UpdatePrice order_id new_price => update_price order_id new_price
  | UpdateQuantity order_id new_quantity => update_quantity order_id new_quantity
  | UpdatePriceAndQuantity order_id new_price new_quantity =>
      update_price_and_quantity order_id new_price new_quantity
  | Cancel order_id => update_cancel order_id
  | Replace order_id price qty side => replace_order order_id price qty side
  end.
End Modifications.
