(* ===== verification/ModificationsProps.v ===== *)
(** * Properties of add, cancel and modify *)

From S2P Require Import Prelude Types PriceLevel OrderQuantity Fees Stp Clock Cache Risk OrderState Reject SkipMap Book BookInv Matching MatchingInv MatchingSteps MatchingProps Modifications.
Local Open Scope N_scope.

Section Checks.
Context {PA : PriceLevelApi} {WC : WallClock} {T : Type} (dflt : T).
Implicit Types order : OrderType T.

(** ** Checks never touch the book *)

Lemma quiet_reject_if c e : runs_in quiet (reject_if c e).
Proof. unfold reject_if. runs. Qed.
Lemma quiet_opposite_best s : runs_in quiet (opposite_best s).
Proof. unfold opposite_best. runs. Qed.
Local Hint Resolve quiet_reject_if quiet_opposite_best : runs.
Lemma quiet_post_only_cross order : runs_in quiet (check_post_only_cross order).
Proof. unfold check_post_only_cross. runs. Qed.
Lemma quiet_fok order : runs_in quiet (check_fok order).
Proof. unfold check_fok. runs. Qed.
Local Hint Resolve quiet_post_only_cross quiet_fok : runs.
Lemma quiet_validate order : runs_in quiet (validate_order_shape order).
Proof. unfold validate_order_shape. runs. Qed.
Lemma quiet_self_cross order : runs_in quiet (check_modify_stp_self_cross order).
Proof. unfold check_modify_stp_self_cross. runs. Qed.
Local Hint Resolve quiet_validate quiet_self_cross : runs.
Lemma quiet_record_rejection order e : runs_in quiet (smod (record_shape_rejection order e)).
Proof. unfold record_shape_rejection. destruct e; by apply quiet_mod. Qed.
Lemma quiet_reject_with_risk id e : runs_in quiet (smod (reject_with_risk id e)).
Proof. by apply quiet_mod. Qed.
Lemma quiet_guard c f :
  runs_in quiet c -> (forall e, runs_in quiet (smod (f e))) -> runs_in quiet (guard_with c f).
Proof.
  intros Hc Hf. unfold guard_with. apply runs_in_bind; [apply _|done|]. intros [?|e]; [runs|].
  apply runs_in_bind; [apply _|apply Hf|]. intros; runs.
Qed.
Lemma quiet_headroom order : runs_in quiet (check_headroom order).
Proof. unfold check_headroom. runs; by apply quiet_same. Qed.

Lemma quiet_admission order : runs_in quiet (admission order).
Proof.
  unfold admission. runs.
  - apply quiet_guard; [runs|apply quiet_record_rejection].
  - apply quiet_guard; [runs|apply quiet_reject_with_risk].
  - apply quiet_guard; [runs|apply quiet_record_rejection].
  - apply quiet_headroom.
Qed.

Lemma quiet_check_modify id order : runs_in quiet (check_modify id order).
Proof. unfold check_modify. runs. Qed.

Lemma quiet_emit m want : runs_in quiet (emit_own_trades m want).
Proof. unfold emit_own_trades. runs. Qed.

(** ** The kill switch *)

(** The kill switch halts new flow and nothing else.  While it is
    engaged, adding an order and every update but a cancel fail with
    [KillSwitchActive] and leave the levels, the indices and the
    configuration of the book as they are. *)
Theorem kill_switch_blocks_flow order want update b :
  kill_switch b = true ->
  (exists b', add_order_inner dflt order want b = (Err KillSwitchActive, b') /\ same_core b b') /\
  (is_modify update = true -> update_order dflt update b = (Err KillSwitchActive, b)).
Proof.
  intros Hk. split.
  - exists (track_state (o_id order) (Rejected RejKillSwitchActive) b). split; [|done].
    unfold add_order_inner, admission, check_kill_switch_or_reject, stry, sbind, sget, smod, sret.
    simpl. by rewrite Hk.
  - intros Hm. unfold update_order, check_kill_switch, stry, sbind, sget, sret. rewrite Hm. simpl.
    by rewrite Hk.
Qed.

(** Validate-first modify.  A re-price, re-size or replace whose checks
    fail — shape, risk projection or the self-cross pre-check — returns that
    very error and changes nothing: the original order stays in the book
    exactly as it was. *)
Theorem rejected_modify_is_atomic order_id new_order e b b1 :
  check_modify order_id new_order b = (Err e, b1) ->
  cancel_then_add dflt order_id new_order b = (Err e, b1) /\ same_core b b1.
Proof.
  intros Hc. split.
  - unfold cancel_then_add, stry. by rewrite Hc.
  - apply (runs_in_inv _ _ _ _ _ (quiet_check_modify order_id new_order) Hc).
Qed.
End Checks.

#[export] Hint Resolve quiet_admission quiet_check_modify quiet_validate quiet_emit
  quiet_opposite_best : runs.

Section Refinement.
Context {PA : PriceLevelApi} {PL : PriceLevelLaws} {WC : WallClock} {T : Type} (dflt : T).
Implicit Types (order : OrderType T) (R : Contents).

(** ** Replacing or dropping one level *)

(** The book after the level at [p] became [lv'], dropped when empty. *)
Definition put_level (s : Side) (p : N) (lv' : PriceLevel) (b : OrderBook) : OrderBook :=
  if decide (pl_order_count lv' = 0%nat) then set_side s (delete p) b
  else set_side s <[p:=lv']> b.

Lemma put_level_Some s p lv' b s' q lv :
  levels s' (put_level s p lv' b) !! q = Some lv <->
  (s', q) = (s, p) /\ lv = lv' /\ queue lv' <> [] \/ (s', q) <> (s, p) /\ levels s' b !! q = Some lv.
Proof.
  unfold put_level. case_decide as Hz; rewrite order_count_zero in Hz.
  - rewrite levels_delete_Some. naive_solver.
  - rewrite levels_insert_Some. naive_solver.
Qed.

Lemma rests_put_level b R s p lv' :
  rests (set_side s <[p:=lv']> b) R -> rests (put_level s p lv' b) R.
Proof.
  intros Hr. unfold put_level. case_decide as Hz; [|done]. rewrite order_count_zero in Hz.
  apply (rests_same_levels (set_side s (delete p) (set_side s <[p:=lv']> b))).
  - intros s'. rewrite !levels_set_side. repeat case_decide; subst; try done.
    by rewrite delete_insert_eq.
  - apply rests_delete_empty; [done|]. intros lv. rewrite levels_insert_eq. congruence.
Qed.

Lemma book_rep_put b b' R' s p lv' :
  no_empty_level b -> rests (set_side s <[p:=lv']> b) R' -> indexed b' R' ->
  (forall s', levels s' b' = levels s' (put_level s p lv' b)) -> cache_clear b' ->
  book_rep b' R'.
Proof.
  intros Hne Hr Hi Hl Hc. split; [|done| |by apply cache_clear_ok].
  - apply (rests_same_levels (put_level s p lv' b)); [done|]. by apply rests_put_level.
  - intros s' q lv. rewrite Hl, put_level_Some. intros [(_ & -> & ?)|[_ Hq]]; [done|]. by eapply Hne.
Qed.

(** ** Cancel *)

Lemma not_resting_no_location b R id :
  indexed b R -> locations b !! id = fst <$> R !! id.
Proof. intros [-> _]. apply lookup_fmap. Qed.

(** The levels and the location index of the book, without the user index. *)
Record shelved b R : Prop := {
  sh_rests : rests b R;
  sh_locations : locations b = fst <$> R;
  sh_no_empty : no_empty_level b;
}.

Lemma book_rep_shelved b R : book_rep b R -> shelved b R.
Proof. by intros [? [? _] ? _]. Qed.

(** What a cancel does, index by index. *)
Record cancelled order_id b R (r : Result OrderBookError (option (OrderType T))) b' : Prop := {
  ca_shelved : shelved b' (delete order_id R);
  ca_users : users b' = match R !! order_id with
                        | Some (_, u) => users (untrack_user_order u order_id b)
                        | None => users b
                        end;
  ca_cache : cache_clear b';
  ca_config : book_config b' = book_config b;
  ca_result : match R !! order_id with
              | Some (_, u) => exists o, r = Ok (Some o) /\ o_id o = order_id /\ o_user_id o = u
              | None => r = Ok None
              end;
  ca_queues : forall s p lv', levels s b' !! p = Some lv' ->
    exists lv, levels s b !! p = Some lv /\
      queue lv' = filter (fun o => o_id o <> order_id) (queue lv);
}.

Lemma cancel_queue_other b R s p lv order_id :
  rests b R -> levels s b !! p = Some lv ->
  (forall u, R !! order_id <> Some (p, s, u)) ->
  queue lv = filter (fun o => o_id o <> order_id) (queue lv).
Proof.
  intros Hr Hlv HR. symmetry. apply list_filter_all. intros o Ho Hid. apply (HR (o_user_id o)).
  apply (rests_iff _ _ Hr). exists lv. split; [done|]. apply list_elem_of_fmap. exists o.
  split; [by rewrite <- Hid|done].
Qed.

Lemma shelved_levels b b' R :
  (forall s, levels s b' = levels s b) -> locations b' = locations b -> shelved b R -> shelved b' R.
Proof.
  intros Hl Hlo [H1 H2 H3]. split; [by apply (rests_same_levels b)|congruence|].
  intros s p lv. rewrite Hl. apply H3.
Qed.

Lemma shelved_put b b' R' s p lv' :
  no_empty_level b -> rests (set_side s <[p:=lv']> b) R' -> locations b' = fst <$> R' ->
  (forall s', levels s' b' = levels s' (put_level s p lv' b)) -> shelved b' R'.
Proof.
  intros Hne Hr Hlo Hl. split; [|done|].
  - apply (rests_same_levels (put_level s p lv' b)); [done|]. by apply rests_put_level.
  - intros s' q lv. rewrite Hl, put_level_Some. intros [(_ & -> & ?)|[_ Hq]]; [done|]. by eapply Hne.
Qed.

Lemma cancel_shape order_id reason b R r b' :
  shelved b R -> cancel_order_with_reason dflt order_id reason b = (r, b') ->
  cancelled order_id b R r b'.
Proof.
  intros [Hr Hlo Hne] Hrun. unfold cancel_order_with_reason in Hrun. st_inv Hrun.
  change (locations (set_cache invalidate b)) with (locations b) in Hrun.
  rewrite Hlo, lookup_fmap in Hrun.
  destruct (R !! order_id) as [[[p s] u]|] eqn:ER; cbn [fmap option_fmap option_map fst] in Hrun.
  2: { st_inv Hrun. assert (Hd : delete order_id R = R) by (by apply delete_id). split; rewrite ?ER, ?Hd; try done;
         [by apply (shelved_levels b)|]. intros s p lv Hlv. exists lv. split; [done|]. eapply (cancel_queue_other b R); [done|done|]. congruence. }
  destruct (proj1 (rests_iff _ _ Hr _ _ _ _) ER) as (lv & Hlv & Hin). st_inv Hrun.
  change (levels s (set_cache invalidate b)) with (levels s b) in *. rewrite Hlv in *.
  destruct (pl_update_order lv (Cancel order_id)) as [lv' r0] eqn:Eu.
  pose proof (rests_cancel _ _ _ _ _ _ _ _ Hr Hlv Eu) as Hrc.
  assert (Hid : order_id ∈ queue_ids lv).
  { rewrite queue_ids_keys. apply list_elem_of_fmap. by exists (order_id, u). }
  destruct r0 as [[o|]|]; [|by destruct Hrc as (_ & ? & _)|done].
  destruct Hrc as (Hrc & Ho & HRo). rewrite ER in HRo. simplify_eq. st_inv E. simplify_eq.
  match goal with H : swhen _ (notify_level _ _) _ = _ |- _ =>
    apply (runs_in_inv still) in H; [|apply runs_in_when; [apply _|apply still_notify]];
    destruct H as [[Hix Hcf] _] end.
  simpl in Hix, Hcf. st_inv Hrun. rename E into Hdrop. st_inv Hdrop. unfold swhen in Hdrop.
  match type of Hdrop with _ = (_, ?x) => rename x into b' end.
  assert (Hput : forall s', levels s' b' = levels s' (put_level s p lv' b)).
  { intros s'. unfold put_level. case_bool_decide as Hz; injection Hdrop as _ <-;
      [rewrite decide_True by done|rewrite decide_False by done];
      unfold levels; simpl; rewrite Hix; destruct s, s'; simpl; by rewrite ?delete_insert_eq. }
  split; rewrite ?ER.
  - apply (shelved_put b _ _ s p lv'); [done|done| |done].
    rewrite fmap_delete, <- Hlo. case_bool_decide; injection Hdrop as _ <-;
      unfold locations; simpl; rewrite Hix; by destruct s.
  - case_bool_decide; injection Hdrop as _ <-; unfold users; simpl; rewrite Hix; by destruct s.
  - case_bool_decide; injection Hdrop as _ <-; by destruct s.
  - case_bool_decide; injection Hdrop as _ <-; simpl; rewrite ?Hcf; by destruct s.
  - exists (convert_from_unit_type dflt o). by rewrite convert_from_unit_id, convert_from_unit_user.
  - intros s' q lv1. rewrite Hput, put_level_Some. intros [([= -> ->] & -> & _)|[Hneq Hlv1]].
    + exists lv. split; [done|]. by apply pl_cancel_spec in Eu as (_ & -> & _).
    + exists lv1. split; [done|]. eapply (cancel_queue_other b R); [done|done|]. intros u. rewrite ER. congruence.
Qed.

Lemma cancelled_rep order_id b R r b' :
  cancelled order_id b R r b' -> book_rep b R -> book_rep b' (delete order_id R).
Proof.
  intros [[Hr Hlo Hne] Hu Hc _ _ _] Hrep. split; [done| |done|by apply cache_clear_ok]. split; [done|].
  rewrite Hu. destruct (rep_indexed _ _ Hrep) as [_ Ho]. destruct (R !! order_id) as [[loc u]|] eqn:E.
  - by eapply owners_untrack_user.
  - by rewrite delete_id.
Qed.

Lemma cancel_rep order_id reason b R r b' :
  book_rep b R ->
  cancel_order_with_reason dflt order_id reason b = (r, b') ->
  book_rep b' (delete order_id R) /\ book_config b' = book_config b /\
  match R !! order_id with
  | Some (_, u) => exists o, r = Ok (Some o) /\ o_id o = order_id /\ o_user_id o = u
  | None => r = Ok None
  end.
Proof.
  intros Hrep Hrun. apply (cancel_shape _ _ _ R) in Hrun; [|by apply book_rep_shelved].
  split_and!; [by eapply cancelled_rep|apply Hrun|apply Hrun].
Qed.

(** C10.  Cancel refines deletion.  On a well-formed book, cancelling an id
    that rests returns that order, of that owner, and leaves a well-formed
    book whose content is the old one without that id and nothing else
    changed; cancelling any other id returns [None] and changes no content.
    No other outcome is possible, whether or not the kill switch is engaged. *)
Theorem cancel_refines order_id reason b R r b' :
  book_rep b R ->
  cancel_order_with_reason dflt order_id reason b = (r, b') ->
  book_rep b' (delete order_id R) /\ book_config b' = book_config b /\
  match R !! order_id with
  | Some (_, u) => exists o, r = Ok (Some o) /\ o_id o = order_id /\ o_user_id o = u
  | None => r = Ok None
  end.
Proof. apply cancel_rep. Qed.

(** ** Resting an order *)

Definition entry_of order : N * Side * Hash32 := (o_price order, o_side order, o_user_id order).

Lemma rests_add b R order lv lv' o' :
  rests b R -> R !! o_id order = None ->
  lv = default (pl_new (o_price order)) (levels (o_side order) b !! o_price order) ->
  pl_add_order lv (convert_to_unit_type order) = Ok (lv', o') ->
  rests (set_side (o_side order) <[o_price order:=lv']> b) (<[o_id order:=entry_of order]> R).
Proof.
  intros Hr HR Hlv Hadd. apply pl_add_order_ok in Hadd as (_ & Hq & Hp).
  set (p := o_price order) in *. set (s := o_side order) in *. set (id := o_id order) in *.
  assert (Hlevel : pl_price lv = p /\ NoDup (queue_ids lv) /\
    (forall i u, (i, u) ∈ (order_key <$> queue lv) <-> R !! i = Some (p, s, u))).
  { subst lv. destruct (levels s b !! p) as [lv0|] eqn:E; simpl.
    - split_and!; [by eapply rests_price|by eapply rests_nodup|]. intros i u.
      rewrite (rests_iff _ _ Hr). naive_solver.
    - destruct (pl_new_spec p) as [Hq0 Hp0]. split_and!; [done|unfold queue_ids; rewrite Hq0; constructor|].
      intros i u. rewrite Hq0. split; [by intros ?%elem_of_nil|].
      intros (lv & Hlv & _)%(rests_iff _ _ Hr). congruence. }
  destruct Hlevel as (Hpr & Hnd & Hkeys).
  assert (Hid : id ∉ queue_ids lv).
  { rewrite queue_ids_keys, list_elem_of_fmap. intros ([i u] & -> & Hin%Hkeys). simpl in HR. congruence. }
  apply (rests_replace b R); [done|by rewrite Hp| | |].
  - unfold queue_ids in *. rewrite Hq, fmap_app. simpl. rewrite convert_to_unit_id.
    apply NoDup_app. split_and!; [done| |apply NoDup_singleton].
    intros i Hi ->%list_elem_of_singleton. done.
  - intros i u. rewrite Hq, fmap_app, elem_of_app, Hkeys. simpl.
    rewrite list_elem_of_singleton. unfold order_key. rewrite convert_to_unit_id, convert_to_unit_user.
    destruct (decide (i = id)) as [->|Hi].
    + rewrite lookup_insert_eq, HR. unfold entry_of. fold p s. naive_solver.
    + rewrite lookup_insert_ne by done. naive_solver.
  - intros i p' s' u Hne. destruct (decide (i = id)) as [->|Hi].
    + rewrite lookup_insert_eq, HR. unfold entry_of. fold p s. naive_solver.
    + by rewrite lookup_insert_ne.
Qed.

Lemma register_special_fields order b :
  indices (register_special order b) = indices b /\
  book_config (register_special order b) = book_config b /\
  cache (register_special order b) = cache b.
Proof. by destruct order. Qed.

(** A level opened for an order that its queue then refuses is dropped again. *)
Lemma refused_level b s p :
  (forall s p lv, levels s b !! p = Some lv -> queue lv <> []) ->
  let lv := default (pl_new p) (levels s b !! p) in
  forall s', levels s' (if decide (pl_order_count lv = 0%nat)
    then set_side s (delete p) (set_side s <[p:=lv]> b) else set_side s <[p:=lv]> b) = levels s' b.
Proof.
  intros Hne lv s'. destruct (levels s b !! p) as [lv0|] eqn:El; unfold lv; simpl.
  - rewrite decide_False by (rewrite order_count_zero; by eapply Hne).
    rewrite levels_set_side. destruct (decide _) as [->|]; [by apply insert_id|reflexivity].
  - rewrite decide_True by (rewrite order_count_zero; apply pl_new_spec).
    rewrite !levels_set_side. repeat case_decide; subst; try done.
    all: rewrite ?delete_insert_eq; by apply delete_id.
Qed.

(** The queues of a book in which one level has grown. *)
Lemma queue_at_insert b b' s0 p0 lv' o :
  (forall s, levels s b' = levels s (set_side s0 <[p0:=lv']> b)) ->
  queue lv' = queue (default (pl_new p0) (levels s0 b !! p0)) ++ [o] ->
  forall s p, queue_at s p b' = queue_at s p b ++ if decide ((s, p) = (s0, p0)) then [o] else [].
Proof.
  intros Hl Hq s p. unfold queue_at. rewrite Hl. case_decide as Hsp.
  - injection Hsp as -> ->. rewrite levels_insert_eq. simpl. rewrite Hq. f_equal.
    destruct (levels s0 b !! p0); simpl; [done|]. apply pl_new_spec.
  - by rewrite levels_insert_ne, app_nil_r.
Qed.

Lemma rest_order_rep order rem orig filled b R r b' :
  book_rep b R -> cache_clear b -> R !! o_id order = None ->
  rest_order dflt order rem orig filled b = (r, b') ->
  book_config b' = book_config b /\
  match r with
  | Ok o => book_rep b' (<[o_id order:=entry_of order]> R) /\
      o = convert_from_unit_type dflt (convert_to_unit_type order) /\
      forall s p, queue_at s p b' = queue_at s p b ++
        if decide ((s, p) = (o_side order, o_price order)) then [convert_to_unit_type order] else []
  | Err e => book_rep b' R /\ (exists pe, e = EPriceLevelError pe) /\
      forall s, levels s b' = levels s b
  end.
Proof.
  intros [Hr Hi Hne Hc] Hclear HR Hrun. unfold rest_order in Hrun. st_inv Hrun.
  set (lv := default _ _) in Hrun.
  destruct (pl_add_order lv (convert_to_unit_type order)) as [[lv' o']|e] eqn:Ea.
  - pose proof (rests_add _ _ _ _ _ _ Hr HR eq_refl Ea) as Hrests.
    pose proof (pl_add_order_ok _ _ _ _ Ea) as (-> & Hq & _). st_inv Hrun.
    match goal with H : notify_level _ _ _ = _ |- _ =>
      apply (runs_in_inv _ _ _ _ _ (still_notify _ _)) in H as [[Hix Hcf] Hcl] end.
    autorewrite with orders in *.
    assert (Hz : pl_order_count lv' <> 0%nat).
    { rewrite order_count_zero, Hq. by destruct (queue lv). }
    match goal with |- context [register_special order ?x] =>
      destruct (register_special_fields order x) as (Rix & Rcf & Rca); set (b1 := x) in * end.
    assert (Hb1 : indices b1 = indices (track_user_order (o_user_id order) (o_id order)
      (set_locations <[o_id order:=(o_price order, o_side order)]>
        (set_side (o_side order) <[o_price order:=lv']> (set_side (o_side order) <[o_price order:=lv]> b)))))
      by (unfold b1; simpl; by rewrite Hix).
    split; [simpl; rewrite Rcf; unfold b1; simpl; rewrite Hcf; by destruct (o_side order)|].
    assert (Hput : forall s', levels s' (track_state (o_id order)
        (if 0 <? filled then PartiallyFilled orig filled else Open) (register_special order b1)) =
      levels s' (set_side (o_side order) <[o_price order:=lv']> b)).
    { intros s'. transitivity (levels s' (set_side (o_side order) <[o_price order:=lv']>
        (set_side (o_side order) <[o_price order:=lv]> b))).
      - unfold levels. simpl. rewrite Rix, Hb1. by destruct (o_side order), s'.
      - rewrite !levels_set_side. repeat case_decide; try done. by rewrite insert_insert_eq. }
    split_and!; [|done|by apply (queue_at_insert _ _ _ _ lv')].
    apply (book_rep_put b _ _ (o_side order) (o_price order) lv'); [done|done|..].
    + destruct Hi as [Hl Ho]. unfold indexed, locations, users. simpl. rewrite Rix, Hb1. split.
      * transitivity (<[o_id order := (o_price order, o_side order)]> (locations b));
          [by destruct (o_side order)|]. by rewrite Hl, fmap_insert.
      * pose proof (owners_track R (o_id order) (o_user_id order) (o_price order, o_side order) b Ho HR) as Ht.
        unfold users in Ht. unfold entry_of. by destruct (o_side order).
    + intros s'. unfold put_level. by rewrite decide_False.
    + unfold cache_clear. simpl. rewrite Rca. apply Hcl. by destruct (o_side order).
  - st_inv Hrun.
    pose proof (refused_level b (o_side order) (o_price order) Hne) as Hlv. fold lv in Hlv. cbv zeta in Hlv.
    match goal with H : swhen _ _ _ = _ |- _ => rename H into Hd end.
    assert (Hs : s = if decide (pl_order_count lv = 0%nat)
      then set_side (o_side order) (delete (o_price order)) (set_side (o_side order) <[o_price order:=lv]> b)
      else set_side (o_side order) <[o_price order:=lv]> b).
    { revert Hd. unfold swhen. case_bool_decide; case_decide; try done; by intros [= _ <-]. }
    rewrite <- Hs in Hlv. split; [rewrite Hs; case_decide; by destruct (o_side order)|].
    split_and!; [|by eauto|done]. split; [by apply (rests_same_levels b)| | |apply coherent_invalidate].
    + apply (indexed_same b); [..|done]; rewrite Hs; unfold locations, users; case_decide; by destruct (o_side order).
    + intros s' q lv1. change (levels s' (set_cache invalidate s)) with (levels s' s). rewrite Hlv. apply Hne.
Qed.

(** ** The empty book *)

Lemma empty_rep b : indices b = empty_indices -> cache_clear b -> book_rep b ∅.
Proof.
  intros Hix Hc.
  assert (Hl : forall s p, levels s b !! p = None).
  { intros s p. unfold levels. rewrite Hix. destruct s; apply lookup_empty. }
  split; [| | |by apply cache_clear_ok].
  - split; intros *; rewrite Hl; try done. rewrite lookup_empty. naive_solver.
  - unfold indexed, locations, users. rewrite Hix. simpl. rewrite fmap_empty. split; [done|].
    split; intros *; rewrite !lookup_empty; naive_solver.
  - intros s p lv. by rewrite Hl.
Qed.

Lemma rep_empty b : book_rep b ∅ -> (forall s, levels s b = ∅) /\ locations b = ∅ /\ users b = ∅.
Proof.
  intros [Hr [Hlo [Hwf Hiff]] Hne _]. split_and!.
  - intros s. apply map_empty. intros p. apply eq_None_not_Some. intros [lv Hlv].
    destruct (queue lv) as [|o q] eqn:E; [by eapply Hne|].
    assert (Hx : (∅ : Contents) !! o_id o = Some (p, s, o_user_id o)); [|by rewrite lookup_empty in Hx].
    apply (rests_iff _ _ Hr). exists lv. split; [done|]. rewrite E. left.
  - by rewrite Hlo, fmap_empty.
  - apply map_empty. intros u. apply eq_None_not_Some. intros [ids Hu].
    destruct ids as [|i ids]; [by destruct (Hwf _ _ Hu)|].
    destruct (proj1 (Hiff u i)) as [loc Hx]; [exists (i :: ids); split; [done|left]|].
    by rewrite lookup_empty in Hx.
Qed.
End Refinement.
