(* ===== verification/AddProps.v ===== *)
(** * Properties of adding an order

    What [add_order] does to the content of the book and to the quantity it
    was given, on every path: rejected, killed, filled, rested. *)

From S2P Require Import Prelude Types PriceLevel OrderQuantity Fees Stp Clock Cache Risk OrderState Reject SkipMap Book BookInv Matching MatchingInv MatchingSteps SweepFrame MatchingProps Modifications ModificationsProps.
Local Open Scope N_scope.

Section AddProps.
Context {PA : PriceLevelApi} {PL : PriceLevelLaws} {WC : WallClock} {T : Type} (dflt : T).
Implicit Types (order : OrderType T) (R : Contents) (b : OrderBook).

(** ** What passing admission means *)

Lemma fok_same_core side q limit user id b b' :
  same_core b b' ->
  fok_fillable_quantity side q limit user id b' = fok_fillable_quantity side q limit user id b.
Proof.
  intros Hc. pose proof (proj2 Hc) as Hcfg. unfold fok_fillable_quantity, sweep_entries.
  by rewrite !(same_core_levels _ _ _ Hc), Hcfg.
Qed.

Lemma guard_ok c f b u b' : guard_with c f b = (Ok u, b') -> exists u', c b = (Ok u', b').
Proof.
  unfold guard_with. intros H. apply sbind_inv in H as (r & b1 & E & H).
  destruct r as [u'|e]; st_inv H; [|done]. eauto.
Qed.

Lemma reject_if_ok c e b u b' : reject_if c e b = (Ok u, b') -> c = false /\ b' = b.
Proof. unfold reject_if. destruct c; intros H; st_inv H; by simplify_eq. Qed.

(** Follow a chain of checks along its successful path. *)
Lemma try_quiet {A B} (c : ST OrderBook (Result OrderBookError A)) k b (x : B) b' :
  runs_in quiet c -> stry c k b = (Ok x, b') ->
  exists a b1, quiet b b1 /\ k a b1 = (Ok x, b').
Proof. intros Hc (a & b1 & E & H)%stry_ok_inv. exists a, b1. split; [exact (runs_in_inv _ _ _ _ _ Hc E)|done]. Qed.

Local Hint Resolve quiet_post_only_cross quiet_reject_if : runs.

Lemma validate_ok_fok order b u b' :
  validate_order_shape order b = (Ok u, b') -> is_fill_or_kill order = true ->
  total_quantity order <= fok_fillable_quantity (o_side order) (total_quantity order)
    (Some (o_price order)) (o_user_id order) (o_id order) b.
Proof.
  unfold validate_order_shape. intros H Hf. apply sbind_inv in H as (cfg & b0 & [-> ->]%sget_inv & H).
  do 6 (apply try_quiet in H as (? & ? & ? & H); [|runs]).
  apply sbind_inv in H as (ex & b7 & E7 & H). apply (runs_in_inv quiet) in E7; [|runs].
  do 2 (apply try_quiet in H as (? & ? & ? & H); [|runs]).
  unfold check_fok in H. rewrite Hf in H. apply sbind_inv in H as (pm & b8 & [-> ->]%sget_inv & H).
  apply reject_if_ok in H as [H _]. bool_prop.
  etransitivity; [exact H|]. erewrite fok_same_core; [reflexivity|].
  repeat match goal with Q : quiet _ _ |- _ => apply proj1 in Q end.
  repeat (etransitivity; [eassumption|]). done.
Qed.

Lemma admission_ok order b u b' :
  admission order b = (Ok u, b') ->
  quiet b b' /\ locations b !! o_id order = None /\ is_Some (checked_total_quantity order) /\
  kill_switch b = false /\
  (is_fill_or_kill order = true ->
   total_quantity order <= fok_fillable_quantity (o_side order) (total_quantity order)
     (Some (o_price order)) (o_user_id order) (o_id order) b).
Proof.
  unfold admission. intros H. pose proof (runs_in_inv _ _ _ _ _ (quiet_admission order) H) as Hq.
  split; [exact Hq|]. 
  apply stry_ok_inv in H as (u0 & b0 & E0 & H).
  pose proof (runs_in_inv _ _ _ _ _ (quiet_kill_or_reject _) E0) as Q0.
  apply stry_ok_inv in H as (u1 & b1 & E1 & H). apply guard_ok in E1 as [? [E1 ->]%reject_if_ok].
  apply stry_ok_inv in H as (u2 & b2 & E2 & H). apply guard_ok in E2 as [? E2].
  pose proof (runs_in_inv _ _ _ _ _ (quiet_risk_limit _ _ _) E2) as Q2.
  apply sbind_inv in H as (known & b3 & [-> ->]%sget_inv & H).
  apply stry_ok_inv in H as (u3 & b3 & [E3 ->]%reject_if_ok & H).
  apply stry_ok_inv in H as (u4 & b4 & E4 & H). apply guard_ok in E4 as [? E4].
  assert (Q02 : quiet b b2) by (by etransitivity).
  split_and!.
  - rewrite (same_core_locations _ _ (proj1 Q02)) in E3. apply bool_decide_eq_false in E3.
    by apply eq_None_not_Some.
  - apply bool_decide_eq_false in E1. by destruct (checked_total_quantity order).
  - unfold check_kill_switch_or_reject in E0. st_inv E0. by destruct (kill_switch b); st_inv E0.
  - intros Hf. rewrite <- (fok_same_core _ _ _ _ _ _ _ (proj1 Q02)). by eapply validate_ok_fok.
Qed.

(** ** After the sweep *)

Definition reported_quantity (tr : option TradeResult) : N :=
  from_option (fun t => executed_quantity (tr_match_result t)) 0 tr.

(** What a caller is told of the trades of a result [m]. *)
Definition reported (want : bool) (m : MatchResult) (tr : option TradeResult) : Prop :=
  (want = true -> reported_quantity tr = executed_quantity m) /\ (mr_trades m = [] -> tr = None).

Lemma still_emit m want : runs_in still (emit_own_trades m want).
Proof. unfold emit_own_trades, next_engine_seq. runs; try intros ?; by apply still_same. Qed.

Lemma with_fees_result sym m fs : tr_match_result (with_fees sym m fs) = m.
Proof. unfold with_fees. repeat case_match; done. Qed.

Lemma emit_own_spec m want b tr b' :
  emit_own_trades m want b = (tr, b') ->
  still b b' /\ reported want m tr.
Proof.
  intros H. split; [exact (runs_in_inv _ _ _ _ _ (still_emit m want) H)|]. revert H.
  unfold reported, emit_own_trades, executed_quantity. case_bool_decide as Ht; intros H.
  - st_inv H. split; [|done]. intros _. simpl. by rewrite Ht.
  - split; [|done]. intros ->. apply sbind_inv in H as (cfg & b0 & [-> ->]%sget_inv & H).
    rewrite orb_true_l in H. st_inv H. unfold reported_quantity. cbn [from_option tr_match_result].
    by rewrite with_fees_result.
Qed.

(** The order that rests when [rem] is left. *)
Definition residual order (rem : N) : OrderType T :=
  if rem <? total_quantity order then set_total_remaining order rem else order.

Lemma residual_identity order rem : same_identity order (residual order rem).
Proof. unfold residual. case_match; [apply set_total_remaining_identity|done]. Qed.

Lemma residual_total order rem :
  is_Some (checked_total_quantity order) -> rem <= total_quantity order ->
  total_quantity (residual order rem) = rem.
Proof.
  intros [t Ht] Hr. pose proof (checked_total_total _ _ Ht) as E. unfold residual.
  destruct (N.ltb_spec rem (total_quantity order)); [|lia].
  apply checked_total_total. apply (set_total_remaining_checked _ t); [done|lia].
Qed.

Lemma convert_round_total order :
  total_quantity (convert_from_unit_type dflt (convert_to_unit_type order)) = total_quantity order.
Proof. by destruct order. Qed.

(** The four ways a processed order ends. *)
Definition settled order (out : MatchOutcome) (rested : bool)
    (r : Result OrderBookError (OrderType T * option TradeResult)) : Prop :=
  let rem := mr_remaining_quantity (result out) in
  match r with
  | Ok (o, _) =>
      taker_post_only_rejected out = false /\ taker_stp_cancelled out = false /\
      if rested then 0 < rem /\ is_immediate order = false /\
        o = convert_from_unit_type dflt (convert_to_unit_type (residual order rem))
      else rem = 0 /\ o = order
  | Err e =>
      rested = false /\
      match e with
      | PriceCrossing _ _ _ => taker_post_only_rejected out = true
      | SelfTradePrevented _ i u =>
          taker_stp_cancelled out = true /\ i = o_id order /\ u = o_user_id order
      | InsufficientLiquidity _ _ _ => is_immediate order = true /\ 0 < rem
      | EPriceLevelError _ => is_immediate order = false /\ 0 < rem
      | _ => False
      end
  end.

Definition content_after order (rested : bool) R : Contents :=
  if rested then <[o_id order := entry_of order]> R else R.

(** When the residual rests it goes to the back of the queue at its price, and
    no queue changes otherwise. *)
Definition appended order (rested : bool) (rem : N) b b' : Prop :=
  forall s p, queue_at s p b' = queue_at s p b ++
    if decide (rested = true /\ (s, p) = (o_side order, o_price order))
    then [convert_to_unit_type (residual order rem)] else [].

Lemma appended_levels order rem b b' :
  (forall s, levels s b' = levels s b) -> appended order false rem b b'.
Proof.
  intros Hl s p. rewrite decide_False by naive_solver. rewrite app_nil_r.
  apply queue_at_levels. by rewrite Hl.
Qed.

Lemma appended_core order rem b b' : same_core b b' -> appended order false rem b b'.
Proof. intros Hc. apply appended_levels. intros s. by apply same_core_levels. Qed.

(** What [settle] does to a book [b], in which [R] rests. *)
Record settles order want (out : MatchOutcome) b R
    (r : Result OrderBookError (OrderType T * option TradeResult)) b' (rested : bool) : Prop := {
  st_rested : rested = is_ok r && (0 <? mr_remaining_quantity (result out));
  st_settled : settled order out rested r;
  st_rep : book_rep b' (content_after order rested R);
  st_appended : appended order rested (mr_remaining_quantity (result out)) b b';
  st_core : taker_post_only_rejected out = true \/ mr_remaining_quantity (result out) = 0 ->
    same_core b b';
  st_reported : forall o tr, r = Ok (o, tr) -> reported want (result out) tr;
}.

Lemma settle_spec order want out b R r b' :
  book_rep b R -> cache_clear b -> R !! o_id order = None ->
  settle dflt order want out b = (r, b') ->
  book_config b' = book_config b /\ exists rested, settles order want out b R r b' rested.
Proof.
  intros Hrep Hclear HR. unfold settle.
  destruct (taker_post_only_rejected out) eqn:Hpo; intros H.
  { st_inv H. match goal with E : opposite_best _ _ = _ |- _ =>
      apply (runs_in_inv _ _ _ _ _ (quiet_opposite_best _)) in E; rename E into Hq end.
    match type of Hq with quiet ?x ?y => assert (Hq' : quiet b y)
      by (transitivity x; [by apply quiet_same|exact Hq]) end.
    split; [apply Hq'|]. exists false. split; try done; [by eapply book_rep_quiet|apply appended_core, Hq'|].
    intros; apply Hq'. }
  apply sbind_inv in H as (tr & b1 & [Hs Htr]%emit_own_spec & H).
  assert (Hrep1 : book_rep b1 R).
  { eapply book_rep_quiet; [|exact Hrep]. split; [apply Hs|]. intros _. apply cache_clear_ok. by apply Hs. }
  assert (Hdone : forall b2, indices b2 = indices b1 -> book_config b2 = book_config b1 ->
    cache b2 = cache b1 -> same_core b b2 /\ book_rep b2 R).
  { intros b2 H1 H2 H3. split; [etransitivity; [apply Hs|done]|].
    apply (book_rep_quiet b1); [by apply quiet_same|done]. }
  pose proof (proj2 (proj1 Hs)) as Hcfg. unfold settled.
  destruct (taker_stp_cancelled out) eqn:Hstp.
  { st_inv H. destruct (Hdone (track_state (o_id order) (Cancelled (sat_sub (total_quantity order)
      (mr_remaining_quantity (result out))) SelfTradePrevention) b1)) as [Hc Hr]; [done..|].
    split; [done|]. exists false. split; try done. by apply appended_core. }
  destruct (0 <? _) eqn:Hrem; bool_prop.
  - destruct (is_immediate order) eqn:Him.
    { st_inv H. destruct (Hdone (track_state (o_id order) (Cancelled (sat_sub (total_quantity order)
        (mr_remaining_quantity (result out))) InsufficientLiquidityCancel) b1)) as [Hc Hr]; [done..|].
      split; [done|]. exists false. split; try done. by apply appended_core. }
    change (if _ <? _ then _ else _) with (residual order (mr_remaining_quantity (result out))) in H.
    destruct (residual_identity order (mr_remaining_quantity (result out))) as (Hid & Hp & Hsd & Hu & _).
    assert (Hent : entry_of (residual order (mr_remaining_quantity (result out))) = entry_of order)
      by (unfold entry_of; congruence).
    assert (Hqa : forall s p, queue_at s p b1 = queue_at s p b)
      by (intros s p; apply queue_at_levels; by rewrite (same_core_levels _ _ _ (proj1 Hs))).
    apply stry_inv in H. destruct H as [(o & b2 & E & H)|(e & b2 & E & H)];
      (apply (rest_order_rep _ _ _ _ _ _ R) in E as [Hcfg2 E]; [|done|by apply Hs|by rewrite Hid]);
      rewrite ?Hent, ?Hid, ?Hp, ?Hsd in E.
    + st_inv H. destruct E as (E & -> & Hq). split; [congruence|]. exists true. split; try done.
      * simpl. symmetry. by apply N.ltb_lt.
      * intros s p. rewrite Hq, Hqa. repeat case_decide; naive_solver.
      * intros [?|?]; [congruence|lia].
      * by intros o tr' [= <- <-].
    + simplify_eq. destruct E as (E & [pe ->] & Hl). split; [congruence|]. exists false. split; try done.
      * apply appended_levels. intros s. by rewrite Hl, (same_core_levels _ _ _ (proj1 Hs)).
      * intros [?|?]; [congruence|lia].
  - st_inv H. destruct (Hdone (track_state (o_id order) (Filled (total_quantity order)) b1)) as [Hc Hr];
      [done..|]. split; [done|]. exists false. split; try done.
    + simpl. symmetry. by apply N.ltb_ge.
    + split_and!; [done|done|lia|done].
    + by apply appended_core.
    + by intros o tr' [= <- <-].
Qed.

(** ** Adding an order *)

(** The sweep of an order. *)
Definition sweep_of order : ST OrderBook (Result OrderBookError MatchOutcome) :=
  match_order_inner (o_id order) (o_side order)
    (BaseQty (total_quantity order) (Some (o_price order))) (o_user_id order) (taker_kind_of order).

(** What the sweep of an order may remove from the content [R]: the makers
    [C] cancelled by self-trade prevention, of the taker's own user and only
    under a mode that cancels makers, and the filled ones [F]; all of them on
    the opposite side, at prices the limit allows. *)
Record sweeps_away order b R (C F : list Id) : Prop := {
  sa_mode : C <> [] -> cancels_makers (stp_mode (book_config b)) (o_user_id order) = true;
  sa_cancelled : forall id, id ∈ C ->
    reached (o_side order) (Some (o_price order)) R id (o_user_id order);
  sa_filled : forall id, id ∈ F -> exists u, reached (o_side order) (Some (o_price order)) R id u;
}.

(** How an order that passed admission goes through the engine. *)
Definition processed order want b R r b' : Prop :=
  R !! o_id order = None /\ is_Some (checked_total_quantity order) /\
  (is_fill_or_kill order = true ->
   total_quantity order <= fok_fillable_quantity (o_side order) (total_quantity order)
     (Some (o_price order)) (o_user_id order) (o_id order) b) /\
  exists b1 m b2 C F, quiet b b1 /\ sweep_of order b1 = (m, b2) /\ sweeps_away order b R C F /\
    book_rep b2 (drop_ids (C ++ F) R) /\
    match m with
    | Err e => F = [] /\ r = Err e /\ b' = b2
    | Ok out => F = mr_filled_order_ids (result out) /\
        exists rested, settles order want out b2 (drop_ids (C ++ F) R) r b' rested
    end.

(** Everything an add may do.  A refused order changes nothing that rests; an
    admitted one sweeps the opposite side within its price, where makers are
    filled (or cancelled by self-trade prevention), and then ends in one of
    the ways of [settled]: its residual is appended at its price exactly when
    the call succeeds with a remainder.  The rest of the book is untouched. *)
Definition added order want b R (r : Result OrderBookError (OrderType T * option TradeResult)) b' : Prop :=
  match admission order b with
  | (Err e, b1) => r = Err e /\ b' = b1 /\ same_core b b'
  | (Ok _, b1) =>
      R !! o_id order = None /\
      exists m b2 C F, sweep_of order (set_cache invalidate b1) = (m, b2) /\
        sweeps_away order b R C F /\
        (forall s p, out_of_reach (o_side order) (Some (o_price order)) s p ->
           queue_at s p b2 = queue_at s p b) /\
        match m with
        | Err e => F = [] /\ r = Err e /\ b' = b2 /\ book_rep b' (drop_ids C R)
        | Ok out =>
            let rem := mr_remaining_quantity (result out) in
            let rested := is_ok r && (0 <? rem) in
            F = mr_filled_order_ids (result out) /\ settled order out rested r /\
            book_rep b' (content_after order rested (drop_ids (C ++ F) R)) /\
            appended order rested rem b2 b' /\
            (forall o tr, r = Ok (o, tr) -> reported want (result out) tr)
        end
  end.

Lemma add_both order want b R r b' :
  book_rep b R -> add_order_inner dflt order want b = (r, b') ->
  book_config b' = book_config b /\ added order want b R r b' /\
  (quiet b b' /\ (exists e, r = Err e) \/ processed order want b R r b').
Proof.
  intros Hrep H. unfold add_order_inner in H. unfold added.
  apply stry_inv in H as [(u & b0 & E & H)|(e & b0 & E & H)]; rewrite E.
  2: { simplify_eq. pose proof (runs_in_inv _ _ _ _ _ (quiet_admission order) E) as Hq.
       split; [apply Hq|]. split; [|by left; eauto]. split; [done|]. split; [done|apply Hq]. }
  apply admission_ok in E as (Hq & Hloc & Hct & _ & Hfok).
  assert (HR : R !! o_id order = None).
  { rewrite (not_resting_no_location _ _ _ (rep_indexed _ _ Hrep)) in Hloc. by destruct (R !! _). }
  apply sbind_inv in H as (u1 & b1 & ->%smod_inv & H).
  assert (Hq1 : quiet b (set_cache invalidate b0)) by (etransitivity; [exact Hq|apply quiet_invalidate]).
  assert (Hgo : forall m b2, sweep_of order (set_cache invalidate b0) = (m, b2) ->
    exists C F, book_rep b2 (drop_ids (C ++ F) R) /\ book_config b2 = book_config b /\ cache_clear b2 /\
      sweeps_away order b R C F /\
      (forall s p, out_of_reach (o_side order) (Some (o_price order)) s p ->
         queue_at s p b2 = queue_at s p b) /\
      match m with Ok out => F = mr_filled_order_ids (result out) | Err _ => F = [] end).
  { intros m b2 E. assert (Hrep1 : book_rep (set_cache invalidate b0) R) by (by eapply book_rep_quiet).
    pose proof (sweep_frame _ _ _ _ _ _ _ _ _ Hrep1 E) as Hfr.
    apply (match_removes _ _ _ _ _ _ R) in E as (C & F & ? & Hc & ? & Hm & ? & ? & ?); [|done].
    pose proof (proj2 (proj1 Hq1)) as Hcfg. rewrite Hcfg in Hc, Hm.
    exists C, F. split_and!; try done. intros s p Hout. apply queue_at_levels.
    rewrite (Hfr _ _ Hout). by rewrite (same_core_levels _ _ _ (proj1 Hq1)). }
  apply stry_inv in H as [(out & b2 & E & H)|(e & b2 & E & H)];
    destruct (Hgo _ _ E) as (C & F & Hrep2 & Hcfg & Hcl & HC & Hfr & HF).
  - apply (settle_spec _ _ _ _ (drop_ids (C ++ F) R)) in H as [Hcfg' (rested & Hs)]; [|done..|].
    + split; [congruence|]. split; [|right; split_and!; [done..|]].
      * split; [done|]. exists (Ok out), b2, C, F. destruct Hs as [-> ? ? ? ? ?]. by split_and!.
      * exists (set_cache invalidate b0), (Ok out), b2, C, F. split_and!; eauto.
    + apply eq_None_not_Some. intros [x Hx]. apply drop_ids_Some in Hx as [Hx _]. congruence.
  - injection H as -> ->. split; [done|]. split; [|right; split_and!; [done..|]].
    + split; [done|]. exists (Err e), b2, C, F. subst F. rewrite app_nil_r in Hrep2. by split_and!.
    + exists (set_cache invalidate b0), (Err e), b2, C, F. by split_and!.
Qed.

Lemma add_added order want b R r b' :
  book_rep b R -> add_order_inner dflt order want b = (r, b') ->
  book_config b' = book_config b /\ added order want b R r b'.
Proof. intros Hrep H. by destruct (add_both _ _ _ _ _ _ Hrep H) as (? & ? & _). Qed.

Lemma add_spec order want b R r b' :
  book_rep b R -> add_order_inner dflt order want b = (r, b') ->
  book_config b' = book_config b /\
  (quiet b b' /\ (exists e, r = Err e) \/ processed order want b R r b').
Proof. intros Hrep H. by destruct (add_both _ _ _ _ _ _ Hrep H) as (? & _ & ?). Qed.

Lemma add_rep order want b R r b' :
  book_rep b R -> add_order_inner dflt order want b = (r, b') ->
  book_config b' = book_config b /\
  exists C F rested,
    book_rep b' (content_after order rested (drop_ids (C ++ F) R)) /\
    (forall id, id ∈ C -> exists loc, R !! id = Some (loc, o_user_id order)) /\
    (rested = true -> R !! o_id order = None /\ is_immediate order = false /\ is_ok r = true).
Proof.
  intros Hrep H. destruct (add_spec _ _ _ _ _ _ Hrep H) as [Hcfg [[Hq [e ->]]|Hsw]]; (split; [done|]).
  - exists [], [], false. simpl. rewrite drop_ids_nil. split_and!; [by eapply book_rep_quiet| |done].
    by intros id ?%elem_of_nil.
  - destruct Hsw as (HR & _ & _ & b1 & m & b2 & C & F & _ & _ & [_ HC _] & Hrep2 & Hm).
    assert (HC' : forall id, id ∈ C -> exists loc, R !! id = Some (loc, o_user_id order))
      by (intros id (p & Hp & _)%HC; eauto). destruct m as [out|e].
    + destruct Hm as [_ (rested & [_ Hs Hr _ _ _])]. exists C, F, rested. split_and!; [done..|].
      intros ->. split; [done|]. destruct r as [[o tr]|]; [|by destruct Hs]. split; [|done]. apply Hs.
    + destruct Hm as (_ & -> & ->). exists C, F, false. by split_and!.
Qed.

(** C3.  Adding refines insertion.  On a well-formed book, whatever the order
    and whatever the outcome, [add_order] leaves a well-formed book of the
    same configuration.  An order refused by admission changes nothing that
    rests.  An admitted one, whose id was not in use, is swept first: every
    order that disappears rested on the opposite side at a price the limit
    allows, and is either reported as filled or, under a mode that cancels
    makers, an order of the taker's own user; no queue of the own side or
    beyond the limit changes.  Then the order either rests — at its own
    price, side and owner, behind every order already there, with exactly the
    unexecuted quantity — which happens exactly when the call succeeds with a
    remainder, or the queues are as the sweep left them; the error returned
    is the one the sweep's outcome calls for. *)
Theorem add_order_refines order want b R r b' :
  book_rep b R -> add_order_inner dflt order want b = (r, b') ->
  book_config b' = book_config b /\ added order want b R r b'.
Proof. apply add_added. Qed.

Lemma book_rep_location b R id : book_rep b R -> locations b !! id = fst <$> R !! id.
Proof. intros H. apply not_resting_no_location, H. Qed.

(** C16.  Adding conserves quantity.  When [add_order_with_result] succeeds,
    the quantity of the reported trades plus the total quantity, hidden
    included, of what now rests under the order's id is exactly the total
    quantity submitted; an immediate order never rests. *)
Theorem add_order_conserves order b R o tr b' :
  book_rep b R -> add_order_with_result dflt order b = (Ok (o, tr), b') ->
  reported_quantity tr + (match locations b' !! o_id order with Some _ => total_quantity o | None => 0 end)
    = total_quantity order /\
  (is_immediate order = true -> locations b' !! o_id order = None).
Proof.
  intros Hrep H. destruct (add_spec _ _ _ _ _ _ Hrep H) as [_ [[_ [e He]]|Hsw]]; [done|].
  destruct Hsw as (HR & Hct & _ & b1 & m & b2 & C & F & _ & Hrun & _ & _ & Hm).
  destruct m as [out|e]; [|naive_solver]. destruct Hm as [_ (rested & [_ Hs Hr _ _ Htr])].
  destruct (Htr _ _ eq_refl) as [Hx _]. rewrite (Hx eq_refl).
  apply match_conserves in Hrun. rewrite (book_rep_location _ _ _ Hr).
  destruct Hs as (_ & _ & Hs). destruct rested; simpl.
  - rewrite lookup_insert_eq. simpl. destruct Hs as (Hpos & Him & ->).
    rewrite convert_round_total, residual_total by (done || lia). split; [lia|congruence].
  - assert (drop_ids (C ++ F) R !! o_id order = None) as ->.
    { apply eq_None_not_Some. intros [x [Hx' _]%drop_ids_Some]. congruence. }
    simpl. destruct Hs as [Hz ->]. split; [lia|done].
Qed.

(** ** Fill or kill *)

Lemma fill_level_flag w side p lv q id ts b w' lv' b' :
  fill_level w side p lv q id ts b = ((w', lv'), b') -> post_only_rejected w' = post_only_rejected w.
Proof. intros (gen' & plm & Hm & -> & _)%fill_level_spec. unfold absorb. simpl. by case_decide. Qed.

Lemma normal_match_flag tk w p lv q b w' go b' :
  normal_match tk w p lv q b = ((w', go), b') -> post_only_rejected w' = post_only_rejected w.
Proof.
  unfold normal_match. intros H. apply sbind_inv in H as ([w1 lv1] & b1 & E%fill_level_flag & H).
  st_inv H. by simplify_eq.
Qed.

Lemma fill_safe_flag w side p lv q safe id ts b w' lv' b' :
  fill_safe w side p lv q safe id ts b = ((w', lv'), b') ->
  post_only_rejected w' = post_only_rejected w.
Proof.
  unfold fill_safe. intros H. repeat (case_match; try (st_inv H; by simplify_eq)).
  by apply fill_level_flag in H.
Qed.

Lemma level_step_flag tk w p lv b w' go b' :
  t_kind tk = TakerStandard -> level_step tk w p lv b = ((w', go), b') ->
  post_only_rejected w' = post_only_rejected w.
Proof.
  intros Hk H. unfold level_step in H.
  destruct (beyond_limit _ _ _); [st_inv H; by simplify_eq|].
  destruct (_ =? 0); [st_inv H; by simplify_eq|]. rewrite decide_False in H by congruence.
  destruct (stp_active tk); [|by eapply normal_match_flag].
  destruct (check_stp_at_level _ _ _).
  - by eapply normal_match_flag.
  - apply sbind_inv in H as ([w1 lv1] & b1 & E%fill_safe_flag & H). st_inv H. by simplify_eq.
  - apply sbind_inv in H as (lv1 & b1 & _ & H).
    destruct (decide _); [st_inv H; by simplify_eq|by eapply normal_match_flag].
  - apply sbind_inv in H as ([w1 lv1] & b1 & E%fill_safe_flag & H).
    apply sbind_inv in H as (lv2 & b2 & _ & H). st_inv H. case_decide; by simplify_eq.
Qed.

Lemma walk_levels_flag tk entries : forall w b w' b',
  t_kind tk = TakerStandard -> walk_levels tk w entries b = (w', b') ->
  post_only_rejected w' = post_only_rejected w.
Proof.
  induction entries as [|[p lv] entries IH]; intros w b w' b' Hk H; simpl in H; [by st_inv H|].
  apply sbind_inv in H as ([w1 go] & b1 & E%level_step_flag & H); [|done].
  destruct go; [|by st_inv H]. apply IH in H; [congruence|done].
Qed.

Lemma standard_not_rejected order_id side mode user b out b' :
  match_order_inner order_id side mode user TakerStandard b = (Ok out, b') ->
  taker_post_only_rejected out = false.
Proof.
  intros (w & b1 & (b0 & u & b2 & _ & _ & Hwalk & _) & _ & _ & -> & _)%match_order_inner_inv.
  by apply walk_levels_flag in Hwalk.
Qed.

(** A fill-or-kill order is refused by admission, and then nothing that rests
    changes; or it is swept and its whole quantity is executed, and the book
    left behind is the one the sweep left: the order does not rest and the call
    returns it as submitted, with the executed quantity reported to a caller
    who wants it — or it reports that self-trade prevention cancelled the
    remainder, which was already empty. *)
Definition filled_or_killed order want b
    (r : Result OrderBookError (OrderType T * option TradeResult)) b' : Prop :=
  match admission order b with
  | (Err e, b1) => r = Err e /\ b' = b1 /\ same_core b b'
  | (Ok _, b1) =>
      exists out b2, same_core b b1 /\
        match_order_inner (o_id order) (o_side order)
          (BaseQty (total_quantity order) (Some (o_price order))) (o_user_id order)
          TakerStandard (set_cache invalidate b1) = (Ok out, b2) /\
        executed_quantity (result out) = total_quantity order /\
        mr_remaining_quantity (result out) = 0 /\
        same_core b2 b' /\ locations b' !! o_id order = None /\
        match r with
        | Ok (o, tr) => taker_stp_cancelled out = false /\ o = order /\
            (want = true -> reported_quantity tr = total_quantity order)
        | Err e => taker_stp_cancelled out = true /\
            exists mode, e = SelfTradePrevented mode (o_id order) (o_user_id order)
        end
  end.

(** The sweep of an admitted fill-or-kill order executes everything. *)
Lemma fok_sweep order b b1 R m b2 :
  book_rep b R -> depth_u64 b -> R !! o_id order = None ->
  is_post_only order = false -> 0 < total_quantity order -> total_quantity order <= U64_MAX ->
  total_quantity order <= fok_fillable_quantity (o_side order) (total_quantity order)
     (Some (o_price order)) (o_user_id order) (o_id order) b ->
  quiet b b1 -> sweep_of order b1 = (m, b2) ->
  exists out, m = Ok out /\ executed_quantity (result out) = total_quantity order /\
    mr_remaining_quantity (result out) = 0 /\ taker_post_only_rejected out = false.
Proof.
  intros Hrep Hd HR Hpo Hpos Hu Hb Hq Hrun. unfold sweep_of, taker_kind_of in Hrun. rewrite Hpo in Hrun.
  assert (Hrep1 : book_rep b1 R) by (by eapply book_rep_quiet).
  assert (Hd1 : depth_u64 b1) by (intros s p lv; rewrite (same_core_levels _ _ _ (proj1 Hq)); apply Hd).
  pose proof (fok_exact _ _ _ _ _ _ _ _ _ Hrep1 Hd1 HR Hu Hrun) as Hx.
  rewrite (fok_same_core _ _ _ _ _ _ _ (proj1 Hq)) in Hx.
  destruct m as [out|e]; [|exfalso; lia]. pose proof (match_conserves _ _ _ _ _ _ _ _ _ Hrun) as Hc.
  exists out. split_and!; [done|lia|lia|by eapply standard_not_rejected].
Qed.

Lemma fok_outcome order want b R r b' :
  book_rep b R -> depth_u64 b -> is_fill_or_kill order = true -> is_post_only order = false ->
  0 < total_quantity order -> total_quantity order <= U64_MAX ->
  add_order_inner dflt order want b = (r, b') -> filled_or_killed order want b r b'.
Proof.
  intros Hrep Hd Hfok Hpo Hpos Hu H. unfold add_order_inner in H. unfold filled_or_killed.
  apply stry_inv in H as [(u & b0 & E & H)|(e & b0 & E & H)]; rewrite E.
  2: { simplify_eq. split; [done|]. split; [done|]. apply (runs_in_inv _ _ _ _ _ (quiet_admission order) E). }
  apply admission_ok in E as (Hq & Hloc & _ & _ & Hb). specialize (Hb Hfok).
  assert (HR : R !! o_id order = None).
  { rewrite (not_resting_no_location _ _ _ (rep_indexed _ _ Hrep)) in Hloc. by destruct (R !! _). }
  apply sbind_inv in H as (u1 & b1 & ->%smod_inv & H).
  assert (Hq1 : quiet b (set_cache invalidate b0)) by (etransitivity; [exact Hq|apply quiet_invalidate]).
  assert (Hsw : forall m b2, sweep_of order (set_cache invalidate b0) = (m, b2) -> exists out,
    m = Ok out /\ executed_quantity (result out) = total_quantity order /\
    mr_remaining_quantity (result out) = 0 /\ taker_post_only_rejected out = false)
    by (intros; by eapply fok_sweep).
  apply stry_inv in H as [(out & b2 & E & H)|(e & b2 & E & H)];
    destruct (Hsw _ _ E) as (out' & Hm & Hx & Hz & Hnp); simplify_eq.
  assert (Hrep1 : book_rep (set_cache invalidate b0) R) by (by eapply book_rep_quiet).
  destruct (match_rep _ _ _ _ _ _ _ _ _ Hrep1 E) as (C & F & Hrep2 & _ & Hcl & _).
  assert (HR2 : drop_ids (C ++ F) R !! o_id order = None).
  { apply eq_None_not_Some. intros [x Hx']. apply drop_ids_Some in Hx' as [Hx' _]. congruence. }
  apply (settle_spec _ _ _ _ _ _ _ Hrep2 Hcl HR2) in H as [_ (rested & [-> Hs Hr _ Hc Htr])].
  rewrite Hz in Hs, Hr. rewrite andb_false_r in Hs, Hr. exists out', b2.
  unfold match_order_with_user_outcome, taker_kind_of in E. rewrite Hpo in E.
  split_and!; [apply Hq|done|done|done|by apply Hc; right| |].
  - rewrite (book_rep_location _ _ _ Hr). simpl. by rewrite HR2.
  - unfold settled in Hs. rewrite Hz in Hs. destruct r as [[o tr]|e].
    + destruct Hs as (_ & Hstp & _ & ->). split_and!; [done..|]. intros Hw.
      destruct (Htr _ _ eq_refl) as [Hrep' _]. by rewrite Hrep'.
    + destruct Hs as [_ Hs]. destruct e; try (exfalso; (congruence || lia || naive_solver lia || done)).
      destruct Hs as (? & -> & ->). eauto.
Qed.

(** C20.  Fill-or-kill is all or nothing.  Take a well-formed book whose
    levels' totals fit a u64, and a fill-or-kill order that is not post-only,
    of positive u64 quantity.  Either admission refuses it, and every level,
    index and setting of the book is as it was; or its whole quantity is
    executed by the sweep, the levels, indices and settings afterwards are
    exactly those the sweep left, and the order does not rest.  In that case
    the call returns the order as submitted and reports the whole quantity to
    a caller who asked, unless self-trade prevention also cancelled the
    (already empty) remainder, which it reports. *)
Theorem fok_all_or_nothing order want b R r b' :
  book_rep b R -> depth_u64 b -> is_fill_or_kill order = true -> is_post_only order = false ->
  0 < total_quantity order -> total_quantity order <= U64_MAX ->
  add_order_inner dflt order want b = (r, b') -> filled_or_killed order want b r b'.
Proof. apply fok_outcome. Qed.

(** ** Post-only orders *)

(** C21.  A post-only order never takes liquidity.  Adding a post-only order
    to a well-formed book reports no trade and removes no resting order:
    either the call fails and the content is what it was, or the order rests
    with it (an order of zero quantity is accepted and does not rest). *)
Theorem post_only_add_never_takes order want b R r b' :
  book_rep b R -> is_post_only order = true -> add_order_inner dflt order want b = (r, b') ->
  match r with
  | Ok (_, tr) => tr = None /\ book_rep b' (content_after order (0 <? total_quantity order) R)
  | Err _ => book_rep b' R
  end.
Proof.
  intros Hrep Hpo H. destruct (add_spec _ _ _ _ _ _ Hrep H) as [_ [[Hq [e ->]]|Hsw]].
  { by eapply book_rep_quiet. }
  destruct Hsw as (HR & _ & _ & b1 & m & b2 & C & F & Hq & Hrun & _ & Hrep2 & Hm).
  unfold sweep_of, taker_kind_of in Hrun. rewrite Hpo in Hrun. apply post_only_match in Hrun as [Hc Hout].
  assert (HR2 : drop_ids (C ++ F) R = R).
  { rewrite (rests_content b2 _ (rep_rests _ _ Hrep2)). symmetry. apply rests_content. eapply rests_core; [|apply Hrep]. etransitivity; [apply Hq|done]. }
  rewrite HR2 in *. destruct m as [out|e]; [|destruct Hout; congruence].
  destruct Hm as [_ (rested & [_ Hs Hr _ _ Htr])], Hout as (Hnt & Hrem & _).
  unfold settled in Hs. rewrite Hrem in Hs. destruct r as [[o tr]|e].
  - split; [by eapply Htr|]. destruct Hs as (_ & _ & Hs). destruct rested.
    + destruct Hs as [Hpos _]. by rewrite (proj2 (N.ltb_lt _ _) Hpos).
    + destruct Hs as [-> _]. done.
  - by destruct Hs as [-> _].
Qed.
End AddProps.
