(* ===== verification/UpdateProps.v ===== *)
(** * Properties of [update_order]

    Every arm keeps the book well formed, and what each one does to its
    content. *)

From S2P Require Import Prelude Types PriceLevel OrderQuantity Fees Stp Clock Cache Risk OrderState Reject SkipMap Book BookInv Matching MatchingInv MatchingSteps SweepFrame MatchingProps Modifications ModificationsProps AddProps.
Local Open Scope N_scope.

Section UpdateProps.
Context {PA : PriceLevelApi} {PL : PriceLevelLaws} {WC : WallClock} {T : Type} (dflt : T).
Implicit Types (order : OrderType T) (R : Contents) (b : OrderBook).

(** ** Looking an order up *)

Lemma find_id_spec (l : list (OrderType unit)) id :
  match snd <$> list_find (fun o => o_id o = id) l with
  | Some o => o ∈ l /\ o_id o = id
  | None => id ∉ (o_id <$> l)
  end.
Proof.
  destruct (list_find _ l) as [[i o]|] eqn:E; simpl.
  - apply list_find_Some in E as (Hi & Hid & _). split; [by eapply list_elem_of_lookup_2|done].
  - apply list_find_None in E. rewrite Forall_forall in E.
    intros (o & Hid & Ho)%list_elem_of_fmap. by apply (E o Ho).
Qed.

Lemma resting_level b R id p s u :
  book_rep b R -> R !! id = Some (p, s, u) ->
  exists lv, levels s b !! p = Some lv /\ (id, u) ∈ (order_key <$> queue lv) /\ id ∈ queue_ids lv.
Proof.
  intros Hrep HR. apply (rests_iff _ _ (rep_rests _ _ Hrep)) in HR as (lv & Hlv & Hin).
  exists lv. split_and!; [done|done|]. rewrite queue_ids_keys. apply list_elem_of_fmap. by exists (id, u).
Qed.

Lemma owner_unique b R s p lv o :
  book_rep b R -> levels s b !! p = Some lv -> o ∈ queue lv ->
  R !! o_id o = Some (p, s, o_user_id o).
Proof.
  intros Hrep Hlv Ho. apply (rests_iff _ _ (rep_rests _ _ Hrep)). exists lv. split; [done|].
  apply list_elem_of_fmap. by exists o.
Qed.

Lemma get_order_spec b R id :
  book_rep b R ->
  match get_order dflt id b with
  | Some o => exists loc, R !! id = Some (loc, o_user_id o) /\ o_id o = id
  | None => R !! id = None
  end.
Proof.
  intros Hrep. unfold get_order. rewrite (book_rep_location _ _ _ Hrep).
  destruct (R !! id) as [[[p s] u]|] eqn:HR; cbn [fmap option_fmap option_map fst]; [|done].
  destruct (resting_level _ _ _ _ _ _ Hrep HR) as (lv & Hlv & _ & Hin). rewrite Hlv.
  pose proof (find_id_spec (pl_iter_orders lv) id) as Hf.
  destruct (snd <$> list_find _ _) as [o|]; simpl.
  - destruct Hf as [Ho%iter_orders_elem Hid]. exists (p, s).
    rewrite convert_from_unit_id, convert_from_unit_user. split; [|done].
    pose proof (owner_unique _ _ _ _ _ _ Hrep Hlv Ho) as Hu. rewrite Hid in Hu. congruence.
  - exfalso. apply Hf. unfold queue_ids in Hin. apply list_elem_of_fmap in Hin as (o & -> & Ho).
    apply list_elem_of_fmap_2. by apply iter_orders_elem.
Qed.

(** ** Cancel, then add *)

(** What a modify may do to the content: nothing, or replace the order [id]
    by a new one of the same owner, as [P] describes it, which trades and
    rests like any added order. *)
Definition modified (P : OrderType T -> Prop) (id : Id) R R' : Prop :=
  R' = R \/ exists new C F (rested : bool), P new /\ o_id new = id /\
    (exists loc, R !! id = Some (loc, o_user_id new)) /\
    (forall i, i ∈ C -> exists loc, R !! i = Some (loc, o_user_id new)) /\
    R' = content_after new rested (drop_ids (C ++ F) (delete id R)).

Lemma cancel_then_add_rep (P : OrderType T -> Prop) id new b R r b' :
  book_rep b R -> P new -> o_id new = id -> (exists loc, R !! id = Some (loc, o_user_id new)) ->
  cancel_then_add dflt id new b = (r, b') ->
  book_config b' = book_config b /\ exists R', book_rep b' R' /\ modified P id R R'.
Proof.
  intros Hrep HP Hid Hown H. unfold cancel_then_add in H.
  apply stry_inv in H as [(u & b1 & E & H)|(e & b1 & E & H)];
    apply (runs_in_inv _ _ _ _ _ (quiet_check_modify _ _)) in E.
  2: { simplify_eq. split; [apply E|]. exists R. split; [by eapply book_rep_quiet|by left]. }
  assert (Hrep1 : book_rep b1 R) by (by eapply book_rep_quiet).
  assert (Hcfg1 : book_config b1 = book_config b) by apply E.
  apply stry_inv in H as [(c & b2 & E2 & H)|(e & b2 & E2 & H)];
    apply (cancel_rep _ _ _ _ R) in E2 as (Hrep2 & Hcfg2 & Hr2); try done.
  2: { destruct Hown as [loc Hown]. rewrite Hown in Hr2. naive_solver. }
  assert (Hlast : forall b3 C F rested,
    (forall i, i ∈ C -> exists loc, delete id R !! i = Some (loc, o_user_id new)) ->
    book_rep b3 (content_after new rested (drop_ids (C ++ F) (delete id R))) ->
    exists R', book_rep b3 R' /\ modified P id R R').
  { intros b3 C F rested HC H3. eexists. split; [exact H3|]. right. exists new, C, F, rested.
    split_and!; try done. intros i [loc Hi]%HC. exists loc. by apply lookup_delete_Some in Hi as [_ ?]. }
  apply stry_inv in H as [(x & b3 & E3 & H)|(e & b3 & E3 & H)];
    apply (add_rep _ _ _ _ (delete id R)) in E3 as (Hcfg3 & C & F & rested & Hrep3 & HC & _); try done;
    st_inv H; simplify_eq; (split; [congruence|by apply (Hlast _ C F rested)]).
Qed.

(** ** The arms *)

Lemma set_price_identity order p :
  o_id (set_price order p) = o_id order /\ o_user_id (set_price order p) = o_user_id order.
Proof. by destruct order. Qed.
Lemma set_quantity_identity order q :
  o_id (set_quantity order q) = o_id order /\ o_user_id (set_quantity order q) = o_user_id order.
Proof. destruct order; try done. simpl. by case_match. Qed.
Lemma set_quantity_price order p q : o_price (set_quantity (set_price order p) q) = p.
Proof. destruct order; try done. simpl. by case_match. Qed.
Lemma replace_identity order id p q s :
  o_id (replace_fields order id p q s) = id /\
  o_user_id (replace_fields order id p q s) = o_user_id order.
Proof. by destruct order. Qed.

(** An in-place rewrite that keeps ids and owners. *)
Lemma rests_rekey b R s p lv lv' :
  rests b R -> levels s b !! p = Some lv -> pl_price lv' = pl_price lv ->
  (order_key <$> queue lv') ≡ₚ (order_key <$> queue lv) ->
  rests (set_side s <[p:=lv']> b) R.
Proof.
  intros Hr Hlv Hp Hk. rewrite <- (drop_ids_nil R).
  eapply rests_shrink; [done..| |by intros ? ?%elem_of_nil].
  rewrite Hk, list_filter_all; [done|]. intros ? _. apply not_elem_of_nil.
Qed.

Lemma levels_insert_same s p lv b s' :
  levels s b !! p = Some lv -> levels s' (set_side s <[p:=lv]> b) = levels s' b.
Proof. intros H. rewrite levels_set_side. case_decide; subst; [by apply insert_id|done]. Qed.

Lemma book_rep_same_levels b b' R :
  (forall s, levels s b' = levels s b) -> locations b' = locations b -> users b' = users b ->
  (cache b' = cache b \/ cache_clear b') -> book_rep b R -> book_rep b' R.
Proof.
  intros Hl Hlo Hu Hc [H1 H2 H3 H4]. split.
  - by apply (rests_same_levels b).
  - by apply (indexed_same b).
  - intros s p lv. rewrite Hl. apply H3.
  - destruct Hc as [Hc|Hc]; [|by apply cache_clear_ok]. unfold cache_ok. by rewrite !Hl, Hc.
Qed.

Lemma update_quantity_rep id q b R r b' :
  book_rep b R -> 0 < q -> update_quantity dflt id q b = (r, b') ->
  book_config b' = book_config b /\ book_rep b' R.
Proof.
  intros Hrep Hpos H. unfold update_quantity in H.
  apply sbind_inv in H as (loc & b0 & [-> ->]%sget_inv & H). rewrite (book_rep_location _ _ _ Hrep) in H.
  destruct (R !! id) as [[[p s] u]|] eqn:HR; cbn [fmap option_fmap option_map fst] in H; [|by st_inv H].
  destruct (resting_level _ _ _ _ _ _ Hrep HR) as (lv & Hlv & _ & Hid).
  apply sbind_inv in H as (e & b0 & [-> ->]%sget_inv & H). rewrite Hlv in H.
  destruct (snd <$> list_find _ _) as [cur|]; [|by st_inv H].
  apply stry_inv in H as [(? & b1 & E1 & H)|(e & b1 & E1 & H)];
    apply (runs_in_inv _ _ _ _ _ (quiet_validate _)) in E1;
    [|simplify_eq; split; [apply E1|by eapply book_rep_quiet]].
  apply stry_inv in H as [(? & b2 & E2 & H)|(e & b2 & E2 & H)];
    apply (runs_in_inv _ _ _ _ _ (quiet_risk_modify _ _ _ _)) in E2;
    assert (E : quiet b b2) by (by etransitivity);
    [|simplify_eq; split; [apply E|by eapply book_rep_quiet]].
  assert (Hrep2 : book_rep b2 R) by (by eapply book_rep_quiet).
  assert (Hlv2 : levels s b2 !! p = Some lv) by (by rewrite (same_core_levels _ _ _ (proj1 E))).
  assert (Hcfg : book_config b2 = book_config b) by apply E. clear E1 E2 E Hrep Hlv.
  destruct (pl_update_order lv (UpdateQuantity id q)) as [lv' ro] eqn:Eu.
  apply pl_update_quantity_spec in Eu; [|done].
  pose proof (rep_no_empty _ _ Hrep2 _ _ _ Hlv2) as Hne. rewrite <- Hcfg.
  apply sbind_inv in H as (? & b3 & ->%smod_inv & H).
  assert (Hsame : forall b3, lv' = lv -> indices b3 = indices (set_side s <[p:=lv']> b2) ->
    cache b3 = cache b2 \/ cache_clear b3 -> book_rep b3 R).
  { intros b3 -> Hix Hc. apply (book_rep_same_levels b2); [| | |done|done].
    - intros s'. unfold levels. rewrite Hix. by apply levels_insert_same.
    - unfold locations. rewrite Hix. apply locations_set_side.
    - unfold users. rewrite Hix. apply users_set_side. }
  destruct ro as [[o'|]|e].
  - destruct Eu as (o & Ho & Hido & -> & Hk & Hpr).
    assert (Hne' : pl_order_count lv' <> 0%nat).
    { rewrite order_count_zero. intros Hq. rewrite Hq in Hk. simpl in Hk. symmetry in Hk.
      apply Permutation_nil_r, fmap_nil_inv in Hk. done. }
    rewrite bool_decide_eq_false_2 in H by done. unfold drop_if_empty, swhen in H. st_inv H.
    match goal with E : notify_level _ _ _ = _ |- _ => rename E into En end.
    apply (runs_in_inv _ _ _ _ _ (still_notify _ _)) in En as [[Hix Hcf] _]. simpl in Hix, Hcf.
    split; [simpl; rewrite Hcf; by destruct s|].
    apply (book_rep_put b2 _ R s p lv'); [apply Hrep2|by apply (rests_rekey _ _ _ _ lv); [apply Hrep2|..]|..].
    + apply (indexed_same b2); [..|apply Hrep2]; unfold locations, users; simpl; rewrite Hix; by destruct s.
    + intros s'. unfold put_level. rewrite decide_False by done. unfold levels. simpl. by rewrite Hix.
    + done.
  - destruct Eu as [_ ->]. rewrite bool_decide_eq_false_2 in H by (by rewrite order_count_zero).
    unfold drop_if_empty, swhen in H. st_inv H. split; [by destruct s|]. apply Hsame; [done|done|by right].
  - st_inv H. split; [by destruct s|]. apply Hsame; [done|done|]. left. by destruct s.
Qed.

Lemma update_cancel_rep id b R r b' :
  book_rep b R -> cache_clear b -> update_cancel dflt id b = (r, b') ->
  book_config b' = book_config b /\ book_rep b' (delete id R) /\
  match R !! id with
  | Some (_, u) => exists o, r = Ok (Some o) /\ o_id o = id /\ o_user_id o = u
  | None => r = Ok None
  end.
Proof.
  intros Hrep Hcl H. unfold update_cancel in H.
  apply sbind_inv in H as (loc & b0 & [-> ->]%sget_inv & H). rewrite (book_rep_location _ _ _ Hrep) in H.
  destruct (R !! id) as [[[p s] u]|] eqn:HR; cbn [fmap option_fmap option_map fst] in H;
    [|st_inv H; by rewrite delete_id].
  destruct (resting_level _ _ _ _ _ _ Hrep HR) as (lv & Hlv & _ & Hid).
  apply sbind_inv in H as (c & b0 & [-> ->]%sget_inv & H).
  pose proof (get_order_spec b R id Hrep) as Hget.
  destruct (get_order dflt id b) as [o|]; [|congruence]. destruct Hget as (loc & HR' & Ho).
  apply sbind_inv in H as (e & b0 & [-> ->]%sget_inv & H). rewrite Hlv in H.
  destruct (pl_update_order lv (Cancel id)) as [lv' r0] eqn:Eu.
  pose proof (rests_cancel _ _ _ _ _ _ _ _ (rep_rests _ _ Hrep) Hlv Eu) as Hrc.
  destruct r0 as [[o'|]|]; [|by destruct Hrc as (_ & ? & _)|done]. destruct Hrc as (Hrc & _ & _).
  apply sbind_inv in H as (emp & b1 & E & H). st_inv E.
  match goal with E : notify_level _ _ _ = _ |- _ =>
    apply (runs_in_inv _ _ _ _ _ (still_notify _ _)) in E as [[Hix Hcf] Hcl1] end.
  simpl in Hix, Hcf. st_inv H.
  match goal with E : swhen _ _ _ = _ |- _ => unfold swhen in E; rename E into Hdrop end.
  assert (u = o_user_id o) as -> by congruence. split_and!.
  - case_bool_decide; injection Hdrop as _ <-; simpl; rewrite ?Hcf; by destruct s.
  - apply (book_rep_put b _ _ s p lv'); [apply Hrep|done|..].
    + apply (indexed_same (untrack_order_by_id (o_id o) (set_locations (delete (o_id o)) b)));
        [..|apply indexed_delete_id, Hrep]; case_bool_decide; injection Hdrop as _ <-;
        unfold locations, users; simpl; rewrite Hix; by destruct s.
    + intros s'. unfold put_level. case_bool_decide as Hz; injection Hdrop as _ <-;
        [rewrite decide_True by done|rewrite decide_False by done];
        unfold levels; simpl; rewrite Hix; destruct s, s'; simpl; by rewrite ?delete_insert_eq.
    + assert (Hcl2 : cache_clear s0) by (apply Hcl1; by destruct s).
      case_bool_decide; injection Hdrop as _ <-; by destruct s.
  - by exists o.
Qed.

(** Look the original up, rewrite it with [f], cancel and add. *)
Lemma modify_arm (f : OrderType T -> OrderType T) (P : OrderType T -> Prop) id b R r b' :
  book_rep b R ->
  (forall o, o_id o = id -> o_id (f o) = id /\ o_user_id (f o) = o_user_id o /\ P (f o)) ->
  (let! original := sget (get_order dflt id) in
   match original with
   | None => sret (Ok None)
   | Some original => cancel_then_add dflt id (f original)
   end) b = (r, b') ->
  book_config b' = book_config b /\ exists R', book_rep b' R' /\ modified P id R R'.
Proof.
  intros Hrep Hf H. apply sbind_inv in H as (o & b0 & [-> ->]%sget_inv & H).
  pose proof (get_order_spec b R id Hrep) as Hget. destruct (get_order dflt id b) as [o|].
  - destruct Hget as (loc & HR & Hid). destruct (Hf o Hid) as (H1 & H2 & H3).
    apply (cancel_then_add_rep P _ _ _ R) in H; try done. exists loc. by rewrite H2.
  - st_inv H. split; [done|]. exists R. split; [done|by left].
Qed.

(** What each update may do to the content, and what it returns. *)
Definition update_effect (update : OrderUpdate) R
    (r : Result OrderBookError (option (OrderType T))) R' : Prop :=
  match update with
  | Cancel id => R' = delete id R /\
      match R !! id with
      | Some (_, u) => exists o, r = Ok (Some o) /\ o_id o = id /\ o_user_id o = u
      | None => r = Ok None
      end
  | UpdateQuantity _ _ => R' = R
  | UpdatePrice id p => modified (fun o => o_price o = p) id R R'
  | UpdatePriceAndQuantity id p _ => modified (fun o => o_price o = p) id R R'
  | Replace id p _ s => modified (fun o => o_price o = p /\ o_side o = s) id R R'
  end.

Lemma update_rep update b R r b' :
  book_rep b R ->
  (match update with UpdateQuantity _ q => 0 < q | _ => True end) ->
  update_order dflt update b = (r, b') ->
  book_config b' = book_config b /\ exists R', book_rep b' R' /\ update_effect update R r R'.
Proof.
  intros Hrep Hq H. unfold update_effect. unfold update_order in H.
  apply stry_inv in H as [(? & b1 & E & H)|(e & b1 & E & H)].
  2: { simplify_eq. destruct (is_modify update) eqn:Hm; [|by st_inv E].
       apply (runs_in_inv _ _ _ _ _ quiet_kill) in E. split; [apply E|]. exists R.
       split; [by eapply book_rep_quiet|]. destruct update; try done; by left. }
  assert (Eq : quiet b b1).
  { destruct (is_modify update); [by apply (runs_in_inv _ _ _ _ _ quiet_kill) in E|]. by st_inv E. }
  apply sbind_inv in H as (? & b2 & ->%smod_inv & H). set (b2 := set_cache invalidate b1) in *.
  assert (Eq2 : quiet b b2) by (etransitivity; [exact Eq|apply quiet_invalidate]).
  assert (Hrep2 : book_rep b2 R) by (by eapply book_rep_quiet).
  assert (Hcfg : book_config b2 = book_config b) by apply Eq2. rewrite <- Hcfg.
  assert (Hnone : forall P id, b' = b2 ->
    book_config b' = book_config b2 /\ exists R', book_rep b' R' /\ modified P id R R').
  { intros P id ->. split; [done|]. exists R. split; [done|by left]. }
  destruct update as [id p|id q|id p q|id|id p q s].
  - unfold update_price in H. apply sbind_inv in H as (loc & b0 & [-> ->]%sget_inv & H).
    destruct (locations b2 !! id) as [[old ?]|]; [|st_inv H; by apply Hnone].
    destruct (old =? p); [st_inv H; by apply Hnone|].
    refine (modify_arm (fun o => set_price o p) _ _ _ R _ _ Hrep2 _ H).
    intros o Ho. destruct (set_price_identity o p) as [-> ->]. split_and!; [done|done|by destruct o].
  - apply (update_quantity_rep _ _ _ R) in H as [? ?]; [|done..]. split; [done|]. by exists R.
  - unfold update_price_and_quantity in H. apply sbind_inv in H as (loc & b0 & [-> ->]%sget_inv & H).
    destruct (locations b2 !! id) as [?|]; [|st_inv H; by apply Hnone].
    refine (modify_arm (fun o => set_quantity (set_price o p) q) _ _ _ R _ _ Hrep2 _ H).
    intros o Ho. destruct (set_quantity_identity (set_price o p) q) as [-> ->].
    destruct (set_price_identity o p) as [-> ->]. split_and!; [done|done|by apply set_quantity_price].
  - apply (update_cancel_rep _ _ R) in H as (? & ? & ?); [|done..]. split; [done|].
    exists (delete id R). by split_and!.
  - refine (modify_arm (fun o => replace_fields o id p q s) _ _ _ R _ _ Hrep2 _ H).
    intros o Ho. destruct (replace_identity o id p q s) as [-> ->]. split_and!; try done; by destruct o.
Qed.
(** ** Re-pricing and replacing, exactly *)

(** A cancel takes the order out of its queue and leaves every other queue. *)
Lemma cancel_queues id reason b R r b' :
  book_rep b R -> cancel_order_with_reason dflt id reason b = (r, b') ->
  forall s p, queue_at s p b' = filter (fun o => o_id o <> id) (queue_at s p b).
Proof.
  intros Hrep H s p. pose proof (cancel_rep _ _ _ _ R _ _ Hrep H) as (Hrep' & _).
  apply (cancel_shape _ _ _ _ R) in H as [_ _ _ _ _ Hq]; [|by apply book_rep_shelved].
  unfold queue_at. destruct (levels s b' !! p) as [lv'|] eqn:E; simpl.
  - destruct (Hq _ _ _ E) as (lv & -> & ->). done.
  - destruct (levels s b !! p) as [lv|] eqn:E2; simpl; [|by rewrite filter_nil].
    symmetry. apply list_filter_none. intros o Ho Hid.
    pose proof (owner_unique _ _ _ _ _ _ Hrep E2 Ho) as HR.
    assert (HR' : delete id R !! o_id o = Some (p, s, o_user_id o)) by (by rewrite lookup_delete_ne).
    apply (rests_iff _ _ (rep_rests _ _ Hrep')) in HR' as (lv1 & Hlv1 & _). congruence.
Qed.

(** Replace the order [id] by [new]: validate first, cancel, add.  When the
    validation refuses the new order nothing that rests changes; otherwise the
    original leaves its queue and the new order is added, like any other, to
    the book without it. *)
Definition readded (id : Id) (new : OrderType T) b R
    (r : Result OrderBookError (option (OrderType T))) b' : Prop :=
  match check_modify id new b with
  | (Err e, b1) => r = Err e /\ b' = b1 /\ same_core b b'
  | (Ok _, b1) => same_core b b1 /\
      exists b2 r1, book_rep b2 (delete id R) /\
        (forall s p, queue_at s p b2 = filter (fun o => o_id o <> id) (queue_at s p b)) /\
        added dflt new false b2 (delete id R) r1 b' /\ r = result_map (fun x => Some x.1) r1
  end.

Lemma cancel_then_add_exact id new b R r b' :
  book_rep b R -> is_Some (R !! id) ->
  cancel_then_add dflt id new b = (r, b') -> readded id new b R r b'.
Proof.
  intros Hrep [[loc u] HR] H. unfold cancel_then_add in H. unfold readded.
  apply stry_inv in H as [(x & b1 & E & H)|(e & b1 & E & H)]; rewrite E;
    apply (runs_in_inv _ _ _ _ _ (quiet_check_modify _ _)) in E.
  2: { simplify_eq. split; [done|]. split; [done|apply E]. }
  assert (Hrep1 : book_rep b1 R) by (by eapply book_rep_quiet). split; [apply E|].
  assert (Hcut : forall c b2, cancel_order_with_reason dflt id UserRequested b1 = (c, b2) ->
    book_rep b2 (delete id R) /\ (exists o, c = Ok (Some o)) /\
    forall s p, queue_at s p b2 = filter (fun o => o_id o <> id) (queue_at s p b)).
  { intros c b2 E2. pose proof (cancel_queues _ _ _ R _ _ Hrep1 E2) as Hq.
    apply (cancel_rep _ _ _ _ R) in E2 as (? & _ & Hc); [|done]. rewrite HR in Hc.
    split_and!; [done|naive_solver|]. intros s p. rewrite Hq. f_equal.
    apply queue_at_levels. by rewrite (same_core_levels _ _ _ (proj1 E)). }
  apply stry_inv in H as [(c & b2 & E2 & H)|(e & b2 & E2 & H)];
    destruct (Hcut _ _ E2) as (Hrep2 & [o Hc] & Hq); [|done].
  apply stry_inv in H as [(y & b3 & E3 & H)|(e & b3 & E3 & H)]; st_inv H; simplify_eq;
    apply (add_added _ _ _ _ (delete id R)) in E3 as [_ Ha]; try done; eexists b2, _; by split_and!.
Qed.

(** A modify of the order [id] that rewrites it with [f]. *)
Definition rewritten (f : OrderType T -> OrderType T) (id : Id) b R
    (r : Result OrderBookError (option (OrderType T))) b' : Prop :=
  match get_order dflt id b with
  | None => r = Ok None /\ same_core b b'
  | Some o => readded id (f o) (set_cache invalidate b) R r b'
  end.

Lemma modify_arm_exact f id b R r b' :
  book_rep b R ->
  (let! original := sget (get_order dflt id) in
   match original with
   | None => sret (Ok None)
   | Some original => cancel_then_add dflt id (f original)
   end) (set_cache invalidate b) = (r, b') -> rewritten f id b R r b'.
Proof.
  intros Hrep H. apply sbind_inv in H as (o & b0 & [-> ->]%sget_inv & H). unfold rewritten.
  change (get_order dflt id (set_cache invalidate b)) with (get_order dflt id b) in H.
  pose proof (get_order_spec b R id Hrep) as Hget. destruct (get_order dflt id b) as [o|].
  - destruct Hget as (loc & HR & _). eapply cancel_then_add_exact; [|by rewrite HR|done].
    eapply book_rep_quiet; [apply quiet_invalidate|done].
  - st_inv H. split; [done|]. by apply quiet_invalidate.
Qed.

(** What an update does to the content [R] of [b], and what it returns. *)
Definition updated (update : OrderUpdate) b R
    (r : Result OrderBookError (option (OrderType T))) b' : Prop :=
  if is_modify update && kill_switch b then r = Err KillSwitchActive /\ b' = b
  else
    match update with
    | Cancel id => book_rep b' (delete id R) /\
        match R !! id with
        | Some (_, u) => exists o, r = Ok (Some o) /\ o_id o = id /\ o_user_id o = u
        | None => r = Ok None
        end
    | UpdateQuantity id _ => book_rep b' R /\ (R !! id = None -> r = Ok None)
    | UpdatePrice id p =>
        match R !! id with
        | Some (old, _, _) =>
            if old =? p then (exists msg, r = Err (InvalidOperation msg)) /\ same_core b b'
            else rewritten (fun o => set_price o p) id b R r b'
        | None => r = Ok None /\ same_core b b'
        end
    | UpdatePriceAndQuantity id p q =>
        rewritten (fun o => set_quantity (set_price o p) q) id b R r b'
    | Replace id p q s => rewritten (fun o => replace_fields o id p q s) id b R r b'
    end.

Lemma update_quantity_none id q b R r b' :
  book_rep b R -> R !! id = None -> update_quantity dflt id q b = (r, b') -> r = Ok None.
Proof.
  intros Hrep HR H. unfold update_quantity in H.
  apply sbind_inv in H as (loc & b0 & [-> ->]%sget_inv & H).
  rewrite (book_rep_location _ _ _ Hrep), HR in H. cbn [fmap option_fmap option_map] in H.
  st_inv H. by simplify_eq.
Qed.

Lemma update_exact update b R r b' :
  book_rep b R ->
  (match update with UpdateQuantity _ q => 0 < q | _ => True end) ->
  update_order dflt update b = (r, b') -> updated update b R r b'.
Proof.
  intros Hrep Hq H. unfold updated. unfold update_order in H.
  set (b2 := set_cache invalidate b).
  assert (Hrep2 : book_rep b2 R) by (by eapply book_rep_quiet; [apply quiet_invalidate|]).
  assert (H2 : is_modify update && kill_switch b = false ->
    match update with
    | UpdatePrice order_id new_price => update_price dflt order_id new_price
    | UpdateQuantity order_id new_quantity => update_quantity dflt order_id new_quantity
    | UpdatePriceAndQuantity order_id new_price new_quantity =>
        update_price_and_quantity dflt order_id new_price new_quantity
    | Cancel order_id => update_cancel dflt order_id
    | Replace order_id price qty side => replace_order dflt order_id price qty side
    end b2 = (r, b')).
  { intros Hk. rewrite <- H. unfold stry, sbind, check_kill_switch, sget, smod, sret.
    destruct (is_modify update); simpl in Hk |- *; [rewrite Hk|]; by destruct update. }
  destruct (is_modify update && kill_switch b) eqn:Hk.
  { apply andb_true_iff in Hk as [Hm Hk]. unfold stry, sbind, check_kill_switch, sget in H.
    rewrite Hm in H. simpl in H. rewrite Hk in H. simpl in H. by simplify_eq. }
  specialize (H2 eq_refl). clear H. rename H2 into H.
  assert (Hloc : forall id, locations b2 !! id = fst <$> R !! id) by (intros; by apply book_rep_location).
  destruct update as [id p|id q|id p q|id|id p q s].
  - unfold update_price in H. apply sbind_inv in H as (loc & b0 & [-> ->]%sget_inv & H).
    rewrite Hloc in H. destruct (R !! id) as [[[old sd] u]|];
      cbn [fmap option_fmap option_map fst] in H; [|by st_inv H].
    destruct (old =? p); [st_inv H; split; [by eexists|done]|].
    exact (modify_arm_exact (fun o => set_price o p) _ _ R _ _ Hrep H).
  - split; [by apply (update_quantity_rep _ _ _ R) in H as [_ ?]|].
    intros HR. by eapply update_quantity_none.
  - unfold update_price_and_quantity in H. apply sbind_inv in H as (loc & b0 & [-> ->]%sget_inv & H).
    rewrite Hloc in H. destruct (R !! id) as [x|] eqn:HR; cbn [fmap option_fmap option_map] in H.
    + exact (modify_arm_exact (fun o => set_quantity (set_price o p) q) _ _ R _ _ Hrep H).
    + unfold rewritten. pose proof (get_order_spec b R id Hrep) as Hget.
      destruct (get_order dflt id b) as [o|]; [destruct Hget as (loc & ? & _); congruence|]. by st_inv H.
  - by apply (update_cancel_rep _ _ R) in H as (_ & ? & ?).
  - exact (modify_arm_exact (fun o => replace_fields o id p q s) _ _ R _ _ Hrep H).
Qed.

(** C9.  Updates keep the book well formed and do what they say to its
    content, whatever they return.  With the kill switch engaged every update
    but a cancel is refused and the book is as it was.  Otherwise: an in-place
    quantity update (to a positive quantity) moves and removes nothing; the
    cancel arm deletes exactly the named order and returns it; an unknown id
    returns [None] and changes nothing; a re-price to the same price is an
    error that changes nothing; and any other re-price, re-size or replace
    validates the rewritten order first — when that fails, nothing that rests
    changes — then takes the named order, and only it, out of its queue and
    adds the rewritten one to the book so obtained, under exactly the rules of
    [add_order] ([added]). *)
Theorem update_order_refines update b R r b' :
  book_rep b R ->
  (match update with UpdateQuantity _ q => 0 < q | _ => True end) ->
  update_order dflt update b = (r, b') ->
  book_config b' = book_config b /\ (exists R', book_rep b' R') /\ updated update b R r b'.
Proof.
  intros Hrep Hq H. destruct (update_rep _ _ _ _ _ Hrep Hq H) as (? & R' & ? & _).
  split_and!; [done|by exists R'|by apply update_exact].
Qed.
End UpdateProps.
