(* ===== verification/Uncrossed.v ===== *)
(** * The book is never left crossed

    A limit order's residual rests only after every level of the other side
    that its price reaches has been emptied: bids stay below asks. *)

From stdpp Require Import sorting.
From S2P Require Import Prelude Types PriceLevel OrderQuantity Fees Stp Clock Cache Risk OrderState Reject SkipMap Book BookInv Matching MatchingInv MatchingSteps MatchingProps Modifications ModificationsProps AddProps.
Local Open Scope N_scope.

Section Uncrossed.
Context {PA : PriceLevelApi} {PL : PriceLevelLaws} {WC : WallClock}.
Implicit Types (b : OrderBook) (w : Walk) (R : Contents).

(** Every bid is below every ask. *)
Definition uncrossed b : Prop :=
  forall pb pa, is_Some (levels Buy b !! pb) -> is_Some (levels Sell b !! pa) -> pb < pa.

(** Every resting order has quantity a taker can draw. *)
Definition drawable b : Prop :=
  forall s p lv o, levels s b !! p = Some lv -> o ∈ queue lv -> 0 < order_matchable_qty o.

(** A level a fresh taker can empty. *)
Definition level_open (taker : Id) (lv : PriceLevel) : Prop :=
  NoDup (queue_ids lv) /\ (taker ∉ queue_ids lv) /\ forall o, o ∈ queue lv -> 0 < order_matchable_qty o.

(** ** Emptied levels are recorded *)

Lemma absorb_empties w plm p lv q :
  q ∈ empty_price_levels w \/ q = p /\ queue lv = [] -> q ∈ empty_price_levels (absorb w plm p lv).
Proof.
  unfold absorb. case_decide as Hz; rewrite order_count_zero in Hz; simpl.
  - rewrite elem_of_app, list_elem_of_singleton. naive_solver.
  - naive_solver.
Qed.

Lemma fill_level_mono w side p lv qty id ts b w' lv' b' q :
  fill_level w side p lv qty id ts b = ((w', lv'), b') ->
  q ∈ empty_price_levels w -> q ∈ empty_price_levels w'.
Proof. intros (gen' & plm & Hm & -> & _)%fill_level_spec Hq. simpl. apply absorb_empties. by left. Qed.

Lemma normal_match_mono tk w p lv cap b w' go b' q :
  normal_match tk w p lv cap b = ((w', go), b') ->
  q ∈ empty_price_levels w -> q ∈ empty_price_levels w'.
Proof.
  unfold normal_match. intros H. apply sbind_inv in H as ([w1 lv1] & b1 & E & H). st_inv H. simplify_eq.
  by eapply fill_level_mono.
Qed.

Lemma fill_safe_mono w side p lv cap safe id ts b w' lv' b' q :
  fill_safe w side p lv cap safe id ts b = ((w', lv'), b') ->
  q ∈ empty_price_levels w -> q ∈ empty_price_levels w'.
Proof.
  unfold fill_safe. intros H Hq. repeat (case_match; try (st_inv H; by simplify_eq)).
  by eapply fill_level_mono.
Qed.

Lemma mark_empty_mono p w q : q ∈ empty_price_levels w -> q ∈ empty_price_levels (mark_empty p w).
Proof. simpl. rewrite elem_of_app. by left. Qed.

Lemma level_step_mono tk w p lv b w' go b' q :
  level_step tk w p lv b = ((w', go), b') ->
  q ∈ empty_price_levels w -> q ∈ empty_price_levels w'.
Proof.
  intros H Hq. unfold level_step in H.
  destruct (beyond_limit _ _ _); [st_inv H; by simplify_eq|].
  destruct (_ =? 0); [st_inv H; by simplify_eq|]. case_decide.
  { apply sbind_inv in H as ([lv1 plm] & b1 & E & H). st_inv H. case_match; by simplify_eq. }
  destruct (stp_active tk); [|by eapply normal_match_mono].
  destruct (check_stp_at_level _ _ _).
  - by eapply normal_match_mono.
  - apply sbind_inv in H as ([w1 lv1] & b1 & E & H). st_inv H. simplify_eq. simpl. by eapply fill_safe_mono.
  - apply sbind_inv in H as (lv1 & b1 & _ & H).
    destruct (decide _); [st_inv H; simplify_eq; by apply mark_empty_mono|by eapply normal_match_mono].
  - apply sbind_inv in H as ([w1 lv1] & b1 & E & H).
    apply sbind_inv in H as (lv2 & b2 & _ & H). st_inv H. simplify_eq. simpl.
    case_decide; [apply mark_empty_mono|]; by eapply fill_safe_mono.
Qed.

Lemma walk_levels_mono tk q entries : forall w b w' b',
  walk_levels tk w entries b = (w', b') -> q ∈ empty_price_levels w -> q ∈ empty_price_levels w'.
Proof.
  induction entries as [|[p lv] entries IH]; intros w b w' b' H Hq; simpl in H; [by st_inv H|].
  apply sbind_inv in H as ([w1 go] & b1 & E & H). eapply level_step_mono in E; [|done].
  destruct go; [by eapply IH|by st_inv H].
Qed.

(** ** A level that did not fill the taker is emptied *)

Lemma match_empties lv q taker ts gen lv' gen' m :
  pl_match_order lv q taker Gtc TakerStandard ts gen = (lv', gen', m) ->
  level_open taker lv -> executed_quantity m < q -> queue lv' = [].
Proof.
  intros Hm (Hnd & Hid & Hpos) Hlt. destruct (queue lv') as [|o l] eqn:E; [done|]. exfalso.
  assert (Ho : o ∈ queue lv') by (rewrite E; left).
  destruct (pl_match_drains _ _ _ _ _ _ _ _ Hm Hlt o Ho) as [Ht|[Hin Hz]].
  - apply pl_match_survivors in Hm as [Hk _]; [|done]. apply Hid. rewrite queue_ids_keys.
    assert (Hin : order_key o ∈ (order_key <$> queue lv')) by (by apply list_elem_of_fmap_2).
    rewrite Hk in Hin. apply list_elem_of_filter in Hin as [_ Hin]. apply list_elem_of_fmap.
    exists (order_key o). split; [by rewrite <- Ht|done].
  - specialize (Hpos o Hin). lia.
Qed.

Lemma normal_match_empties tk w p lv r b w' go b' r' :
  normal_match tk w p lv r b = ((w', go), b') -> level_open (t_order_id tk) lv ->
  stop w = StopBase r -> stop w' = StopBase r' -> 0 < r' ->
  p ∈ empty_price_levels w' /\ go = true.
Proof.
  intros H Hopen Hs Hs' Hr. destruct (normal_match_stop _ _ _ _ _ _ _ _ _ _ H Hs) as [Hst Hgo].
  rewrite Hs' in Hst. injection Hst as Hr'. rewrite <- Hr' in Hgo. split.
  - unfold normal_match in H. apply sbind_inv in H as ([w1 lv1] & b1 & E & H). st_inv H. simplify_eq.
    apply fill_level_spec in E as (gen' & plm & Hm & -> & _). simpl. apply absorb_empties. right.
    split; [done|]. eapply match_empties; [exact Hm|done|].
    apply pl_match_quantity in Hm as [-> _]. pose proof (matchable_le lv r (t_order_id tk)). lia.
  - rewrite Hgo. destruct (N.eqb_spec r' 0); [lia|done].
Qed.

Lemma level_step_empties tk w p lv b w' go b' r r' :
  level_step tk w p lv b = ((w', go), b') -> t_kind tk = TakerStandard -> t_lot tk <= 1 ->
  level_open (t_order_id tk) lv -> beyond_limit (t_side tk) (t_limit tk) p = false ->
  stop w = StopBase r -> stop w' = StopBase r' -> 0 < r' -> stp_taker_cancelled w' = false ->
  p ∈ empty_price_levels w' /\ go = true.
Proof.
  intros H Hk Hlot Hopen Hlim Hs Hs' Hr Hstp. unfold level_step in H. rewrite Hlim, Hs in H. simpl in H.
  assert (Hcap : round_down_to_lot (t_lot tk) r = r).
  { unfold round_down_to_lot. by destruct (N.leb_spec (t_lot tk) 1); [|lia]. }
  rewrite Hcap in H. destruct (N.eqb_spec r 0) as [->|Hr0].
  { st_inv H. simplify_eq. rewrite Hs in Hs'. injection Hs' as <-. lia. }
  rewrite decide_False in H by congruence.
  destruct (stp_active tk); [|by eapply normal_match_empties].
  destruct (check_stp_at_level _ _ _).
  - by eapply normal_match_empties.
  - apply sbind_inv in H as ([w1 lv1] & b1 & E & H). st_inv H. by simplify_eq.
  - apply sbind_inv in H as (lv1 & b1 & E & H). apply cancel_own_makers_level in E as [Hq _].
    destruct (decide _).
    + st_inv H. simplify_eq. simpl. rewrite elem_of_app, list_elem_of_singleton. auto.
    + eapply normal_match_empties; [exact H| |done..]. destruct Hopen as (Hnd & Hid & Hpos).
      unfold level_open, queue_ids in *. rewrite Hq. split_and!.
      * eapply sublist_NoDup; [exact Hnd|]. apply fmap_sublist, sublist_filter.
      * intros (o & Ht & [_ Ho]%list_elem_of_filter)%list_elem_of_fmap. apply Hid. rewrite Ht.
        by apply list_elem_of_fmap_2.
      * intros o [_ Ho]%list_elem_of_filter. auto.
  - apply sbind_inv in H as ([w1 lv1] & b1 & E & H).
    apply sbind_inv in H as (lv2 & b2 & _ & H). st_inv H. by simplify_eq.
Qed.

(** A walk ends without going back on its flags or its remainder. *)
Lemma level_step_stop tk w p lv b w' go b' r :
  level_step tk w p lv b = ((w', go), b') -> stop w = StopBase r -> exists r1, stop w' = StopBase r1.
Proof.
  intros [(_ & -> & _)|(_ & lv0 & qty & plm & Hf)]%level_step_effect Hs; [by exists r|].
  destruct Hf as [_ _ _ _ _ _ Hst]. rewrite Hst, Hs. simpl. eauto.
Qed.

Lemma level_step_break tk w p lv b w' b' r r' :
  level_step tk w p lv b = ((w', false), b') -> t_kind tk = TakerStandard -> t_lot tk <= 1 ->
  level_open (t_order_id tk) lv -> stop w = StopBase r -> stop w' = StopBase r' -> 0 < r' ->
  stp_taker_cancelled w' = false -> beyond_limit (t_side tk) (t_limit tk) p = true.
Proof.
  intros H Hk Hlot Hopen Hs Hs' Hr Hstp. destruct (beyond_limit _ _ _) eqn:E; [done|].
  by destruct (level_step_empties _ _ _ _ _ _ _ _ _ _ H Hk Hlot Hopen E Hs Hs' Hr Hstp).
Qed.

(** The flag stays set, and the remainder only shrinks. *)
Lemma walk_levels_ends tk entries : forall w b w' b' r,
  walk_levels tk w entries b = (w', b') -> stop w = StopBase r ->
  exists r', stop w' = StopBase r' /\ r' <= r.
Proof.
  induction entries as [|[p lv] entries IH]; intros w b w' b' r H Hs; simpl in H.
  { st_inv H. by exists r. }
  apply sbind_inv in H as ([w1 go] & b1 & E & H).
  assert (H1 : exists r1, stop w1 = StopBase r1 /\ r1 <= r).
  { apply level_step_effect in E as [(_ & -> & _)|(_ & lv0 & qty & plm & Hf)]; [by exists r|].
    destruct Hf as [_ _ _ _ _ _ Hst]. rewrite Hst, Hs. simpl. eexists. split; [done|]. unfold sat_sub. lia. }
  destruct H1 as (r1 & Hs1 & Hle). destruct go; [|st_inv H; eauto].
  destruct (IH _ _ _ _ _ H Hs1) as (r' & ? & ?). exists r'. split; [done|lia].
Qed.

Lemma level_step_go_stp tk w p lv b w' b' :
  level_step tk w p lv b = ((w', true), b') -> stp_taker_cancelled w' = stp_taker_cancelled w.
Proof.
  intros H. unfold level_step in H.
  destruct (beyond_limit _ _ _); [st_inv H; by simplify_eq|].
  destruct (_ =? 0); [st_inv H; by simplify_eq|]. case_decide.
  { apply sbind_inv in H as ([lv1 plm] & b1 & E & H). st_inv H. case_match; by simplify_eq. }
  destruct (stp_active tk); [|by eapply normal_match_stp].
  destruct (check_stp_at_level _ _ _).
  - by eapply normal_match_stp.
  - apply sbind_inv in H as ([w1 lv1] & b1 & E & H). st_inv H. by simplify_eq.
  - apply sbind_inv in H as (lv1 & b1 & _ & H).
    destruct (decide _); [st_inv H; by simplify_eq|by eapply normal_match_stp].
  - apply sbind_inv in H as ([w1 lv1] & b1 & E & H).
    apply sbind_inv in H as (lv2 & b2 & _ & H). st_inv H. by simplify_eq.
Qed.

Lemma walk_empties tk entries : forall w b w' b' r r',
  t_kind tk = TakerStandard -> t_lot tk <= 1 ->
  Forall (fun e => level_open (t_order_id tk) e.2) entries ->
  StronglySorted (fun x y : N * PriceLevel => better (t_side tk) x.1 y.1) entries ->
  stop w = StopBase r -> stp_taker_cancelled w = false ->
  walk_levels tk w entries b = (w', b') ->
  stop w' = StopBase r' -> 0 < r' -> stp_taker_cancelled w' = false ->
  forall p lv, (p, lv) ∈ entries -> beyond_limit (t_side tk) (t_limit tk) p = false ->
    p ∈ empty_price_levels w'.
Proof.
  induction entries as [|[p lv] entries IH];
    intros w b w' b' r r' Hk Hlot Hopen Hsort Hs Hf H Hs' Hr Hf' q lvq Hin Hlim;
    [by apply elem_of_nil in Hin|].
  simpl in H. apply sbind_inv in H as ([w1 go] & b1 & E & H).
  apply Forall_cons in Hopen as [Ho Hopen]. apply StronglySorted_cons in Hsort as [Hp Hsort]. simpl in Ho.
  destruct (level_step_stop _ _ _ _ _ _ _ _ _ E Hs) as [r1 Hs1].
  destruct go.
  - pose proof (level_step_go_stp _ _ _ _ _ _ _ E) as Hf1. rewrite Hf in Hf1.
    apply elem_of_cons in Hin as [[= -> ->]|Hin]; [|by eapply IH].
    destruct (walk_levels_ends _ _ _ _ _ _ _ H Hs1) as (r2 & Hs2 & Hle). rewrite Hs' in Hs2.
    injection Hs2 as <-. eapply walk_levels_mono; [exact H|].
    by eapply (level_step_empties _ _ _ _ _ _ _ _ r r1); eauto; lia.
  - st_inv H. pose proof (level_step_break _ _ _ _ _ _ _ _ _ E Hk Hlot Ho Hs Hs' Hr Hf') as Hb.
    apply elem_of_cons in Hin as [[= -> ->]|Hin]; [congruence|]. exfalso.
    rewrite Forall_forall in Hp. specialize (Hp _ Hin). simpl in Hp.
    rewrite (beyond_limit_mono _ _ _ _ Hp Hb) in Hlim. done.
Qed.

(** ** After the sweep *)

Lemma untrack_filled_levels fs b u b' s :
  siter untrack_filled fs b = (u, b') -> levels s b' = levels s b.
Proof.
  revert b. induction fs as [|[id n] fs IH]; intros b H; simpl in H; [by st_inv H|].
  apply sbind_inv in H as (u1 & b1 & E & H). unfold untrack_filled in E. st_inv E. by apply IH in H as ->.
Qed.

Lemma finish_walk_levels side w b u b' s q lv :
  finish_walk side w b = (u, b') -> levels s b' !! q = Some lv ->
  levels s b !! q = Some lv /\ (s = opposite side -> q ∉ empty_price_levels w).
Proof.
  intros H Hlv. unfold finish_walk in H. apply sbind_inv in H as (u1 & b1 & E & H).
  apply (untrack_filled_levels _ _ _ _ s) in H. rewrite H in Hlv. clear H. revert b E Hlv.
  induction (empty_price_levels w) as [|p l IH]; intros b E Hlv; simpl in E.
  - st_inv E. split; [done|]. intros _. apply not_elem_of_nil.
  - apply sbind_inv in E as (u2 & b2 & ->%smod_inv & E). apply IH in E as [E1 E2]; [|done].
    apply levels_delete_Some in E1 as [Hne E1]. split; [done|]. intros ->. apply not_elem_of_cons.
    split; [congruence|by apply E2].
Qed.

Lemma rep_levels b R s p :
  book_rep b R -> is_Some (levels s b !! p) <-> exists id u, R !! id = Some (p, s, u).
Proof.
  intros Hrep. split.
  - intros [lv Hlv]. pose proof (rep_no_empty _ _ Hrep _ _ _ Hlv) as Hne.
    destruct (queue lv) as [|o l] eqn:E; [done|]. exists (o_id o), (o_user_id o).
    apply (rests_iff _ _ (rep_rests _ _ Hrep)). exists lv. split; [done|]. rewrite E. left.
  - intros (id & u & (lv & Hlv & _)%(rests_iff _ _ (rep_rests _ _ Hrep))). eauto.
Qed.

Lemma drop_ids_levels b b' R F s p :
  book_rep b R -> book_rep b' (drop_ids F R) -> is_Some (levels s b' !! p) -> is_Some (levels s b !! p).
Proof.
  intros Hb Hb' (id & u & [HR _]%drop_ids_Some)%(rep_levels _ _ _ _ Hb'). apply (rep_levels _ _ _ _ Hb). eauto.
Qed.

Lemma open_entries b R side taker :
  book_rep b R -> drawable b -> R !! taker = None ->
  Forall (fun e => level_open taker e.2) (sweep_entries side b).
Proof.
  intros Hrep Hd HR. apply Forall_forall. intros [p lv] Hin%elem_of_sweep_entries. simpl. split_and!.
  - by eapply (rests_nodup _ _ (rep_rests _ _ Hrep)).
  - intros Hx. destruct (rests_level _ _ _ _ _ _ (rep_rests _ _ Hrep) Hin Hx) as (u & HR' & _). congruence.
  - intros o Ho. by eapply Hd.
Qed.

Lemma sweep_leaves_no_cross order_id side q l user b R out b' :
  book_rep b R -> drawable b -> R !! order_id = None -> default 1 (lot_size (book_config b)) <= 1 ->
  match_order_inner order_id side (BaseQty q (Some l)) user TakerStandard b = (Ok out, b') ->
  0 < mr_remaining_quantity (result out) -> taker_stp_cancelled out = false ->
  forall p, is_Some (levels (opposite side) b' !! p) -> beyond_limit side (Some l) p = true.
Proof.
  intros Hrep Hd HR Hlot Hrun Hrem Hstp p Hp.
  destruct (match_rep _ _ _ _ _ _ _ _ _ Hrep Hrun) as (C & F & Hrep' & _).
  destruct (drop_ids_levels _ _ _ _ _ _ Hrep Hrep' Hp) as [lv0 Hlv0].
  apply match_order_inner_inv in Hrun as
    (w & b1 & (b0 & u & b2 & _ & _ & Hwalk & Hfin) & Hq & _ & -> & _).
  set (tk := taker_of b order_id side (BaseQty q (Some l)) user TakerStandard) in *.
  destruct (beyond_limit side (Some l) p) eqn:E; [done|]. exfalso.
  destruct (base_account_walk _ _ _ _ _ _ _ _ Hwalk) as (r' & Hs' & Hr' & _).
  simpl in Hrem, Hstp.
  assert (Hin : p ∈ empty_price_levels w).
  { eapply (walk_empties tk (sweep_entries side b) (walk_start order_id (BaseQty q (Some l)))); [done|exact Hlot|by apply (open_entries b R)|apply sweep_entries_sorted|
      done|done|exact Hwalk|exact Hs'|by rewrite <- Hr'|done|by apply elem_of_sweep_entries|done]. }
  destruct Hp as [lv Hlv]. rewrite (same_core_levels _ _ _ (proj1 Hq)) in Hlv.
  destruct (finish_walk_levels _ _ _ _ _ _ _ _ Hfin Hlv) as [_ Hn]. by apply Hn.
Qed.

(** A post-only taker that is not turned away has nothing to cross. *)
Lemma post_only_no_cross order_id side q l user b R out b' :
  book_rep b R -> drawable b -> R !! order_id = None -> default 1 (lot_size (book_config b)) <= 1 ->
  0 < q -> match_order_inner order_id side (BaseQty q (Some l)) user TakerPostOnly b = (Ok out, b') ->
  taker_post_only_rejected out = false ->
  forall p, is_Some (levels (opposite side) b !! p) -> beyond_limit side (Some l) p = true.
Proof.
  intros Hrep Hd HR Hlot Hq Hrun Hpo p [lv Hlv].
  apply match_order_inner_inv in Hrun as (w & b1 & (b0 & u & b2 & Hcore & _ & Hwalk & _) & _ & _ & -> & _).
  set (tk := taker_of b order_id side (BaseQty q (Some l)) user TakerPostOnly) in *. simpl in Hpo.
  pose proof (open_entries b R side order_id Hrep Hd HR) as Hopen.
  pose proof (sweep_entries_sorted side b) as Hsort.
  assert (Hne : forall p lv, (p, lv) ∈ sweep_entries side b -> queue lv <> []).
  { intros p' lv' Hin%elem_of_sweep_entries. by eapply (rep_no_empty _ _ Hrep). }
  apply (elem_of_sweep_entries side b) in Hlv. change (t_side tk) with side in Hwalk.
  destruct (sweep_entries side b) as [|[p0 lv0] entries]; [by apply elem_of_nil in Hlv|].
  simpl in Hwalk. apply sbind_inv in Hwalk as ([w1 go] & b3 & E & Hwalk).
  destruct (beyond_limit side (Some l) p0) eqn:Hb.
  - apply elem_of_cons in Hlv as [[= -> ->]|Hin]; [done|].
    apply StronglySorted_cons in Hsort as [Hp _]. rewrite Forall_forall in Hp. specialize (Hp _ Hin).
    by eapply beyond_limit_mono.
  - exfalso. unfold level_step in E. change (t_limit tk) with (Some l) in E. change (t_side tk) with side in E.
    rewrite Hb in E. simpl in E. unfold round_down_to_lot in E.
    apply N.leb_le in Hlot. rewrite Hlot, (proj2 (N.eqb_neq q 0)) in E by lia.
    apply sbind_inv in E as ([lv1 plm] & b4 & E & E2). unfold match_level in E.
    destruct (pl_match_order _ _ _ _ _ _ _) as [[lv2 gen'] m] eqn:Em.
    apply pl_match_post_only in Em as (_ & _ & _ & Hrej). simplify_eq. st_inv E2.
    apply Forall_cons in Hopen as [(_ & Hid & Hpos) _]. simpl in Hid, Hpos.
    assert (Hm : mr_was_rejected plm = true).
    { rewrite Hrej, pl_matchable_spec. apply N.ltb_lt.
      destruct (queue lv0) as [|o ol] eqn:Eq; [by destruct (Hne p0 lv0); [left|]|].
      assert (o_id o <> order_id) as Hno.
      { intros Ho. apply Hid. unfold queue_ids. rewrite Eq. csimpl. rewrite Ho. left. }
      rewrite filter_cons_True by exact Hno. rewrite sumN_cons. specialize (Hpos o ltac:(left)). lia. }
    rewrite Hm in *. simplify_eq. st_inv Hwalk. done.
Qed.

Definition uncrossed_content R : Prop :=
  forall i j p q u v, R !! i = Some (p, Buy, u) -> R !! j = Some (q, Sell, v) -> p < q.

Lemma uncrossed_iff b R : book_rep b R -> uncrossed b <-> uncrossed_content R.
Proof.
  intros Hrep. split.
  - intros Hu i j p q u v Hi Hj. apply Hu; apply (rep_levels _ _ _ _ Hrep); eauto.
  - intros Hu pb pa (i & u & Hi)%(rep_levels _ _ _ _ Hrep) (j & v & Hj)%(rep_levels _ _ _ _ Hrep).
    by eapply Hu.
Qed.

Lemma uncrossed_drop F R : uncrossed_content R -> uncrossed_content (drop_ids F R).
Proof. intros Hu i j p q u v [Hi _]%drop_ids_Some [Hj _]%drop_ids_Some. by eapply Hu. Qed.

Lemma uncrossed_insert id p s u R :
  uncrossed_content R ->
  (forall i q v, R !! i = Some (q, opposite s, v) -> beyond_limit s (Some p) q = true) ->
  uncrossed_content (<[id := (p, s, u)]> R).
Proof.
  intros Hu Hb i j p1 p2 u1 u2 Hi Hj.
  apply lookup_insert_Some in Hi as [[<- [= <- -> <-]]|[_ Hi]];
    apply lookup_insert_Some in Hj as [[? [=]]|[_ Hj]]; subst.
  - specialize (Hb _ _ _ Hj). simpl in Hb. bool_prop. lia.
  - specialize (Hb _ _ _ Hi). simpl in Hb. bool_prop. lia.
  - by eapply Hu.
Qed.

Context {T : Type} (dflt : T).

(** The book is never left crossed.  If every bid of a well-formed book
    is below every ask and every resting order has quantity a taker can draw,
    then after [add_order] of any kind of order, with any outcome and under
    any self-trade prevention mode, every bid is again below every ask: a
    residual rests only once all the liquidity its price reaches is gone.
    (Stated for books without a lot size above one, for which the sweep never
    leaves a sub-lot remainder.) *)
Theorem add_keeps_uncrossed (order : OrderType T) want b R r b' :
  book_rep b R -> drawable b -> uncrossed b -> default 1 (lot_size (book_config b)) <= 1 ->
  add_order_inner dflt order want b = (r, b') -> uncrossed b'.
Proof.
  intros Hrep Hd Hu Hlot H.
  destruct (add_spec dflt _ _ _ _ _ _ Hrep H) as [_ [[Hq _]|Hp]].
  { rewrite uncrossed_iff by (by eapply book_rep_quiet). by rewrite <- uncrossed_iff. }
  apply (uncrossed_iff _ _ Hrep) in Hu.
  destruct Hp as (HR & _ & _ & b1 & m & b2 & C & F & Hq & Hrun & _ & Hrep2 & Hm).
  destruct m as [out|e].
  2: { destruct Hm as (_ & _ & ->). rewrite uncrossed_iff by done. by apply uncrossed_drop. }
  destruct Hm as [_ (rested & [_ Hs Hrep' _ _ _])]. rewrite uncrossed_iff by done.
  destruct rested; [|by apply uncrossed_drop]. apply uncrossed_insert; [by apply uncrossed_drop|].
  intros i q v Hi.
  assert (Hlv : is_Some (levels (opposite (o_side order)) b2 !! q)) by (apply (rep_levels _ _ _ _ Hrep2); eauto).
  unfold settled in Hs. destruct r as [[o tr]|]; [|by destruct Hs].
  destruct Hs as (Hpo & Hstp & Hrem & _).
  assert (Hrep1 : book_rep b1 R) by (by eapply book_rep_quiet).
  assert (Hd1 : drawable b1).
  { intros s p lv o'. rewrite (same_core_levels _ _ _ (proj1 Hq)). apply Hd. }
  assert (Hlot1 : default 1 (lot_size (book_config b1)) <= 1) by (by rewrite (proj2 (proj1 Hq))).
  unfold sweep_of, taker_kind_of in Hrun. destruct (is_post_only order).
  - eapply post_only_no_cross; [exact Hrep1|done|exact HR|done| |exact Hrun|done|].
    + apply match_conserves in Hrun. lia.
    + by eapply drop_ids_levels.
  - by eapply sweep_leaves_no_cross.
Qed.
End Uncrossed.
