(* ===== verification/MassCancel.v ===== *)
(** * Mass cancellation and expiry (mass_cancel.rs)

    The five bulk removals: everything, one side, one user, a price range,
    and the orders whose time in force has passed.  Each one is exact: it
    removes what it names, reports it in its documented order, and leaves the
    rest of a well-formed book alone. *)

From stdpp Require Import sorting.
From S2P Require Import Prelude Types PriceLevel OrderQuantity Fees Stp Clock Cache Risk OrderState Reject SkipMap Book BookInv Matching MatchingInv MatchingSteps MatchingProps Modifications ModificationsProps AddProps UpdateProps.
Local Open Scope N_scope.

Record MassCancelResult := {
  cancelled_count : nat;
  cancelled_order_ids : list Id;
}.

Definition mass_cancel_default : MassCancelResult :=
  {| cancelled_count := 0; cancelled_order_ids := [] |}.

Section MassCancel.
Context {PA : PriceLevelApi} {WC : WallClock} {T : Type} (dflt : T).

(** The ids of some levels, in the order the engine would consume them. *)
Definition ids_of_levels (entries : list (N * PriceLevel)) : list Id :=
  kv ← entries; o_id <$> pl_snapshot_by_insertion_seq kv.2.

Definition collect_order_ids_by_side (side : Side) (b : OrderBook) : list Id :=
  ids_of_levels (sm_iter (levels side b)).

Definition set_specials_empty : OrderBook -> OrderBook := set_special (fun _ => ∅) (fun _ => ∅).

(** Report every level of a side as emptied. *)
Definition announce_empty (side : Side) : ST OrderBook unit :=
  let! entries := sget (fun b => sm_iter (levels side b)) in
  siter (fun kv => let! seq := next_engine_seq in
                   smod (push_event (LevelChanged side kv.1 0 seq))) entries.

Definition cancel_all_orders : ST OrderBook MassCancelResult :=
  do! smod (set_cache invalidate) in
  let! ids := sget (fun b => collect_order_ids_by_side Buy b ++ collect_order_ids_by_side Sell b) in
  if bool_decide (ids = []) then sret mass_cancel_default
  else
    let! listening := sget (fun b => price_level_changed_listener (book_config b)) in
    do! swhen listening (do! announce_empty Buy in announce_empty Sell) in
    do! siter (fun order_id =>
                 let! filled := sget (prev_filled order_id) in
                 smod (track_state order_id (Cancelled filled MassCancelAll))) ids in
    do! smod (set_locations (fun _ => ∅)) in
    do! smod (set_user_orders (fun _ => ∅)) in
    do! smod (set_side Buy (fun _ => ∅)) in
    do! smod (set_side Sell (fun _ => ∅)) in
    do! smod set_specials_empty in
    do! smod (set_risk risk_clear) in
    do! smod (set_cache invalidate) in
    sret {| cancelled_count := length ids; cancelled_order_ids := ids |}.

(** Cancel each id; ids that no longer rest are skipped.  The ids that were
    cancelled, with the orders removed. *)
Fixpoint cancel_each (order_ids : list Id) (reason : CancelReason) :
    ST OrderBook (list (Id * OrderType T)) :=
  match order_ids with
  | [] => sret []
  | order_id :: order_ids' =>
      let! r := cancel_order_with_reason dflt order_id reason in
      let! rest := cancel_each order_ids' reason in
      sret (match r with Ok (Some order) => (order_id, order) :: rest | _ => rest end)
  end.

Definition cancel_order_batch_with_reason (order_ids : list Id) (reason : CancelReason) :
    ST OrderBook MassCancelResult :=
  let! cancelled := cancel_each order_ids reason in
  let ids := fst <$> cancelled in
  sret {| cancelled_count := length ids; cancelled_order_ids := ids |}.

Definition cancel_orders_by_side (side : Side) : ST OrderBook MassCancelResult :=
  let! ids := sget (collect_order_ids_by_side side) in
  cancel_order_batch_with_reason ids MassCancelBySide.

Definition cancel_orders_by_user (user_id : Hash32) : ST OrderBook MassCancelResult :=
  let! ids := sget (fun b => default [] (users b !! user_id)) in
  do! smod (set_user_orders (delete user_id)) in
  cancel_order_batch_with_reason ids MassCancelByUser.

Definition cancel_orders_by_price_range (side : Side) (min_price max_price : N) :
    ST OrderBook MassCancelResult :=
  if max_price <? min_price then sret mass_cancel_default
  else
    let! ids := sget (fun b => ids_of_levels
      (filter (fun kv => min_price <= kv.1 /\ kv.1 <= max_price) (sm_iter (levels side b)))) in
    cancel_order_batch_with_reason ids MassCancelByPriceRange.

Definition expired_on_side (side : Side) (now : N) (b : OrderBook) : list Id :=
  kv ← sm_iter (levels side b);
  o_id <$> filter (fun o => tif_expired_at (o_time_in_force o) now b = true)
             (pl_snapshot_by_insertion_seq kv.2).

Definition evict_expired_orders (now_ms : N) : ST OrderBook (list (OrderType T)) :=
  let! ids := sget (fun b => expired_on_side Buy now_ms b ++ expired_on_side Sell now_ms b) in
  let! evicted := cancel_each ids TimeInForceExpired in
  sret (snd <$> evicted).
End MassCancel.

Section MassCancelProps.
Context {PA : PriceLevelApi} {PL : PriceLevelLaws} {WC : WallClock} {T : Type} (dflt : T).
Implicit Types (R : Contents) (b : OrderBook).

(** ** Which ids a traversal collects *)

Lemma ids_of_levels_elem entries id :
  id ∈ ids_of_levels entries <-> exists p lv, (p, lv) ∈ entries /\ id ∈ queue_ids lv.
Proof.
  unfold ids_of_levels. rewrite list_elem_of_bind. split.
  - intros ([p lv] & Hin & He). eauto.
  - intros (p & lv & He & Hin). by exists (p, lv).
Qed.

Lemma ids_of_levels_NoDup b R side entries :
  rests b R -> NoDup (entries.*1) ->
  (forall p lv, (p, lv) ∈ entries -> levels side b !! p = Some lv) ->
  NoDup (ids_of_levels entries).
Proof.
  intros Hr. induction entries as [|[p lv] entries IH]; intros Hnd Hlv; [constructor|].
  csimpl in Hnd. apply NoDup_cons in Hnd as [Hp Hnd]. unfold ids_of_levels. csimpl.
  apply NoDup_app. split_and!.
  - eapply (rests_nodup _ _ Hr). apply Hlv. left.
  - intros id Hid. change (id ∉ ids_of_levels entries). intros (p' & lv' & He & Hid')%ids_of_levels_elem.
    destruct (rests_level _ _ _ _ _ _ Hr (Hlv p lv ltac:(left)) Hid) as (u & HR & _).
    destruct (rests_level _ _ _ _ _ _ Hr (Hlv p' lv' ltac:(by right)) Hid') as (u' & HR' & _).
    apply Hp. replace p with p' by congruence. apply list_elem_of_fmap. by exists (p', lv').
  - apply IH; [done|]. intros; apply Hlv; by right.
Qed.

Lemma sm_iter_keys_NoDup (m : gmap N PriceLevel) : NoDup ((sm_iter m).*1).
Proof. rewrite sm_iter_perm. apply NoDup_fst_map_to_list. Qed.

Lemma side_ids_NoDup b R side (P : N * PriceLevel -> Prop) `{!forall x, Decision (P x)} :
  rests b R -> NoDup (ids_of_levels (filter P (sm_iter (levels side b)))).
Proof.
  intros Hr. eapply ids_of_levels_NoDup; [done| |].
  - eapply sublist_NoDup; [apply sm_iter_keys_NoDup|]. apply fmap_sublist, sublist_filter.
  - intros p lv [_ Hin]%list_elem_of_filter. by apply elem_of_sm_iter.
Qed.

Lemma side_ids_elem b R side (P : N -> Prop) `{!forall x, Decision (P x)} id :
  rests b R ->
  id ∈ ids_of_levels (filter (fun kv => P kv.1) (sm_iter (levels side b))) <->
  exists p u, R !! id = Some (p, side, u) /\ P p.
Proof.
  intros Hr. rewrite ids_of_levels_elem. split.
  - intros (p & lv & [HP Hin%elem_of_sm_iter]%list_elem_of_filter & Hid).
    destruct (rests_level _ _ _ _ _ _ Hr Hin Hid) as (u & HR & _). eauto.
  - intros (p & u & (lv & Hlv & Hin)%(rests_iff _ _ Hr) & HP). exists p, lv. split.
    + apply list_elem_of_filter. split; [done|]. by apply elem_of_sm_iter.
    + rewrite queue_ids_keys. apply list_elem_of_fmap. by exists (id, u).
Qed.

Lemma collect_filter side b :
  collect_order_ids_by_side side b = ids_of_levels (filter (fun kv => True) (sm_iter (levels side b))).
Proof. unfold collect_order_ids_by_side. by rewrite list_filter_all. Qed.

Lemma drop_ids_filter ids R (P : Id * (N * Side * Hash32) -> Prop) `{!forall x, Decision (P x)} :
  (forall id x, R !! id = Some x -> id ∈ ids <-> ~ P (id, x)) -> drop_ids ids R = filter P R.
Proof.
  intros Hid. unfold drop_ids. apply map_filter_ext. intros id x Hx. specialize (Hid _ _ Hx). simpl.
  destruct (decide (P (id, x))); tauto.
Qed.

(** ** Cancelling a batch *)

Record batch ids b R (l : list (Id * OrderType T)) b' : Prop := {
  ba_ids : l.*1 = ids;
  ba_owner : forall id o, (id, o) ∈ l -> o_id o = id /\ exists loc, R !! id = Some (loc, o_user_id o);
  ba_shelved : shelved b' (drop_ids ids R);
  ba_config : book_config b' = book_config b;
  ba_cache : cache_clear b' \/ ids = [] /\ b' = b;
  ba_owners : owners (users b) R -> owners (users b') (drop_ids ids R);
  ba_users : forall u, users b !! u = None ->
    (forall id, id ∈ ids -> exists loc, R !! id = Some (loc, u)) -> users b' = users b;
  ba_queues : forall s p lv', levels s b' !! p = Some lv' ->
    exists lv, levels s b !! p = Some lv /\ queue lv' = filter (fun o => o_id o ∉ ids) (queue lv);
}.

Lemma untrack_absent u id b : users b !! u = None -> users (untrack_user_order u id b) = users b.
Proof.
  intros Hu. change (users (untrack_user_order u id b)) with
    (match users b !! u with
     | Some ids => let ids' := filter (fun i => i <> id) ids in
         if decide (ids' = []) then delete u (users b) else <[u := ids']> (users b)
     | None => users b end). by rewrite Hu.
Qed.

Lemma batch_spec reason ids : forall b R l b',
  shelved b R -> NoDup ids -> (forall id, id ∈ ids -> is_Some (R !! id)) ->
  cancel_each dflt ids reason b = (l, b') -> batch ids b R l b'.
Proof.
  induction ids as [|id ids IH]; intros b R l b' Hb Hnd Hin H; simpl in H.
  { st_inv H. split; rewrite ?drop_ids_nil; try done; [by intros ? ? ?%elem_of_nil|by right|].
    intros s p lv Hlv. exists lv. split; [done|]. symmetry. apply list_filter_all. intros; apply not_elem_of_nil. }
  apply NoDup_cons in Hnd as [Hni Hnd].
  apply sbind_inv in H as (r & b1 & E & H). apply (cancel_shape _ _ _ _ R) in E; [|done].
  apply sbind_inv in H as (l1 & b2 & E2 & H). st_inv H.
  destruct (Hin id ltac:(left)) as [[loc u] HR].
  apply (IH _ (delete id R)) in E2; [|apply E|done|].
  2: { intros i Hi. rewrite lookup_delete_ne by (by intros <-). apply Hin. by right. }
  destruct E as [E1 Eu Ec Ecf Er Eq]. rewrite HR in Eu, Er. destruct Er as (o & -> & Hid & Huser).
  destruct E2 as [F1 F2 F3 F4 F5 F6 F7 F8]. rewrite <- drop_ids_cons in *. split.
  - csimpl. by rewrite F1.
  - intros i o' [[= -> ->]|Hi]%elem_of_cons.
    + split; [done|]. exists loc. by rewrite Huser.
    + destruct (F2 _ _ Hi) as (? & loc' & Hl). split; [done|]. exists loc'.
      by apply lookup_delete_Some in Hl as [_ ?].
  - done.
  - congruence.
  - left. destruct F5 as [?|[_ ->]]; done.
  - intros Ho. apply F6. rewrite Eu. by eapply owners_untrack_user.
  - intros u' Hu Hown. assert (u = u') as <-.
    { destruct (Hown id ltac:(left)) as [loc' ?]. congruence. }
    assert (Hb1 : users b1 = users b) by (rewrite Eu; by apply untrack_absent).
    rewrite (F7 u); [done|by rewrite Hb1|]. intros i Hi. destruct (Hown i ltac:(by right)) as [loc' ?].
    exists loc'. rewrite lookup_delete_ne; [done|]. by intros <-.
  - intros s p lv' Hlv'. destruct (F8 _ _ _ Hlv') as (lv1 & Hlv1 & Hq1).
    destruct (Eq _ _ _ Hlv1) as (lv & Hlv & Hq). exists lv. split; [done|].
    rewrite Hq1, Hq, list_filter_conj. apply list_filter_ext. intros x _. rewrite not_elem_of_cons. tauto.
Qed.

Lemma batch_rep ids b R l b' : batch ids b R l b' -> book_rep b R -> book_rep b' (drop_ids ids R).
Proof.
  intros [H1 H2 [H3 H3' H3''] H4 H5 H6 H7 H8] Hrep. split; [done|split; [done|by apply H6, Hrep]|done|].
  destruct H5 as [?|[_ ->]]; [by apply cache_clear_ok|apply Hrep].
Qed.
Lemma batch_result reason ids b R res b' :
  shelved b R -> NoDup ids -> (forall id, id ∈ ids -> is_Some (R !! id)) ->
  cancel_order_batch_with_reason dflt ids reason b = (res, b') ->
  cancelled_order_ids res = ids /\ cancelled_count res = length ids /\ exists l, batch ids b R l b'.
Proof.
  intros Hb Hnd Hin H. unfold cancel_order_batch_with_reason in H.
  apply sbind_inv in H as (l & b1 & E & H). st_inv H.
  apply (batch_spec _ _ _ R) in E; [|done..]. simpl. rewrite (ba_ids _ _ _ _ _ E). eauto.
Qed.

(** What the selective sweeps share: the orders [ids], each once, left a
    well-formed book, and the configuration stayed. *)
Record removes ids b R b' : Prop := {
  rm_rep : book_rep b' (drop_ids ids R);
  rm_config : book_config b' = book_config b;
  rm_nodup : NoDup ids;
}.

Lemma batch_removes reason ids b R res b' :
  book_rep b R -> NoDup ids -> (forall id, id ∈ ids -> is_Some (R !! id)) ->
  cancel_order_batch_with_reason dflt ids reason b = (res, b') ->
  cancelled_order_ids res = ids /\ removes ids b R b'.
Proof.
  intros Hrep Hnd Hin H.
  apply (batch_result _ _ _ R) in H as (Hids & _ & l & Hba); [|by apply book_rep_shelved|done..].
  split; [done|]. split; [by eapply batch_rep|apply Hba|done].
Qed.

Lemma price_range_removes side lo hi b R res b' :
  book_rep b R -> cancel_orders_by_price_range dflt side lo hi b = (res, b') ->
  cancelled_order_ids res =
    ids_of_levels (filter (fun kv => lo <= kv.1 /\ kv.1 <= hi) (sm_iter (levels side b))) /\
  removes (cancelled_order_ids res) b R b'.
Proof.
  intros Hrep H. pose proof (rep_rests _ _ Hrep) as Hr. unfold cancel_orders_by_price_range in H.
  pose proof (fun id => side_ids_elem b R side (fun p => lo <= p /\ p <= hi) id Hr) as Hel.
  pose proof (side_ids_NoDup b R side (fun kv => lo <= kv.1 /\ kv.1 <= hi) Hr) as Hnd.
  set (ids := ids_of_levels _) in *. destruct (N.ltb_spec hi lo).
  - st_inv H. assert (ids = []) as Hnil.
    { apply elem_of_nil_inv. intros id (p & u & _ & ?)%Hel. lia. }
    rewrite Hnil. split; [done|]. split; [by rewrite drop_ids_nil|done|constructor].
  - apply sbind_inv in H as (ids' & b0 & [-> ->]%sget_inv & H). fold ids in H.
    apply (batch_removes _ _ _ R) in H as [-> ?]; [done|done|done|]. intros id (p & u & -> & _)%Hel. eauto.
Qed.

(** Mass cancel by price range is exact.  On a well-formed
    book it removes every order of the side whose price lies in the closed
    range and no other, keeps the book well formed, and reports each removed
    order once, in ascending price order and, within a level, in queue
    order. *)
Theorem cancel_by_price_range_exact side lo hi b R res b' :
  book_rep b R -> cancel_orders_by_price_range dflt side lo hi b = (res, b') ->
  book_rep b' (filter (fun kv => ~ (kv.2.1.2 = side /\ lo <= kv.2.1.1 /\ kv.2.1.1 <= hi)) R) /\
  cancelled_order_ids res =
    ids_of_levels (filter (fun kv => lo <= kv.1 /\ kv.1 <= hi) (sm_iter (levels side b))) /\
  NoDup (cancelled_order_ids res) /\
  (forall id, id ∈ cancelled_order_ids res <->
     exists p u, R !! id = Some (p, side, u) /\ lo <= p /\ p <= hi).
Proof.
  intros Hrep H. apply (price_range_removes _ _ _ _ R) in H as [Hids [H1 _ H3]]; [|done].
  assert (Hel : forall id, id ∈ cancelled_order_ids res <->
    exists p u, R !! id = Some (p, side, u) /\ lo <= p /\ p <= hi).
  { intros id. rewrite Hids.
    exact (side_ids_elem b R side (fun p => lo <= p /\ p <= hi) id (rep_rests _ _ Hrep)). }
  split_and!; [|done..]. erewrite <- drop_ids_filter; [exact H1|].
  intros id [[p s] u] HR. simpl. rewrite Hel. split.
  - intros (p' & u' & HR' & Hp) Hn. apply Hn. rewrite HR in HR'. by simplify_eq.
  - intros Hn. apply dec_stable in Hn as (-> & Hp). eauto.
Qed.

Lemma side_elem b R side id :
  rests b R -> id ∈ collect_order_ids_by_side side b <-> exists p u, R !! id = Some (p, side, u).
Proof.
  intros Hr. rewrite collect_filter.
  etransitivity; [exact (side_ids_elem b R side (fun _ => True) id Hr)|]. naive_solver.
Qed.

Lemma side_removes side b R res b' :
  book_rep b R -> cancel_orders_by_side dflt side b = (res, b') ->
  cancelled_order_ids res = collect_order_ids_by_side side b /\
  removes (cancelled_order_ids res) b R b'.
Proof.
  intros Hrep H. pose proof (rep_rests _ _ Hrep) as Hr. unfold cancel_orders_by_side in H.
  apply sbind_inv in H as (ids & b0 & [-> ->]%sget_inv & H).
  apply (batch_removes _ _ _ R) in H as [-> ?]; [done|done| |].
  - rewrite collect_filter. by eapply side_ids_NoDup.
  - intros id. rewrite (side_elem b R) by done. intros (p & u & ->). eauto.
Qed.

(** Mass cancel by side is exact.  On a well-formed book it empties that
    side and leaves the other one as it was, reporting every order it removed
    once, in ascending price and then queue order. *)
Theorem cancel_by_side_exact side b R res b' :
  book_rep b R -> cancel_orders_by_side dflt side b = (res, b') ->
  book_rep b' (filter (fun kv => kv.2.1.2 <> side) R) /\
  cancelled_order_ids res = collect_order_ids_by_side side b /\
  NoDup (cancelled_order_ids res) /\
  (forall id, id ∈ cancelled_order_ids res <-> exists p u, R !! id = Some (p, side, u)).
Proof.
  intros Hrep H. apply (side_removes _ _ R) in H as [Hids [H1 _ H3]]; [|done].
  pose proof (fun id => side_elem b R side id (rep_rests _ _ Hrep)) as Hel. rewrite <- Hids in Hel.
  split_and!; [|done..]. erewrite <- drop_ids_filter; [exact H1|].
  intros id [[p s] u] HR. simpl. rewrite Hel, HR. split; [naive_solver|].
  intros ->%dec_stable. eauto.
Qed.

Lemma user_elem b R user id :
  book_rep b R -> id ∈ default [] (users b !! user) <-> exists loc, R !! id = Some (loc, user).
Proof.
  intros Hrep. destruct (rep_indexed _ _ Hrep) as [_ [_ Hiff]]. rewrite <- Hiff.
  destruct (users b !! user); simpl; [naive_solver|]. rewrite elem_of_nil. naive_solver.
Qed.

Lemma user_removes user b R res b' :
  book_rep b R -> cancel_orders_by_user dflt user b = (res, b') ->
  cancelled_order_ids res = default [] (users b !! user) /\
  removes (cancelled_order_ids res) b R b'.
Proof.
  intros Hrep H. pose proof (fun id => user_elem b R user id Hrep) as Hel.
  unfold cancel_orders_by_user in H.
  apply sbind_inv in H as (ids & b0 & [-> ->]%sget_inv & H).
  apply sbind_inv in H as (? & b1 & ->%smod_inv & H).
  set (ids := default [] (users b !! user)) in *. set (b1 := set_user_orders (delete user) b) in *.
  destruct (rep_indexed _ _ Hrep) as [Hlo [Hwf Hiff]].
  assert (Hnd : NoDup ids).
  { unfold ids. destruct (users b !! user) eqn:E; simpl; [by eapply Hwf|constructor]. }
  assert (Hsh : shelved b1 R) by (apply (shelved_levels b); [done|done|by apply book_rep_shelved]).
  apply (batch_result _ _ _ R) in H as (Hids & _ & l & Hba); [|done|done|intros id [loc ->]%Hel; eauto].
  rewrite Hids. split; [done|].
  destruct Hba as [_ _ [H1 H2 H3] Hcf Hc _ Hu _]. split; [|exact Hcf|done].
  split; [done|split; [done|]|done|].
  - rewrite (Hu user); [|apply lookup_delete_eq|by intros id ?%Hel].
    change (users b1) with (delete user (users b)). split.
    + intros u l' [_ ?]%lookup_delete_Some. eauto.
    + intros u id. setoid_rewrite lookup_delete_Some. setoid_rewrite drop_ids_Some.
      specialize (Hiff u id). split.
      * intros (l' & [Hne Hl] & Hi). destruct (proj1 Hiff) as [loc HR]; [by eauto|]. exists loc.
        split; [done|]. intros [loc' ?]%Hel. congruence.
      * intros (loc & HR & Hni). destruct (proj2 Hiff) as (l' & ? & ?); [by eauto|]. exists l'.
        split_and!; try done. intros <-. apply Hni, Hel. eauto.
  - destruct Hc as [Hc|[_ ->]]; [by apply cache_clear_ok|]. apply Hrep.
Qed.

(** C26.  Mass cancel by user is exact.  On a well-formed book it removes
    every resting order of that user and no order of anybody else, and keeps
    the book — the user index included — well formed.  The orders are
    reported once each, in the order of the user's index entry. *)
Theorem cancel_by_user_exact user b R res b' :
  book_rep b R -> cancel_orders_by_user dflt user b = (res, b') ->
  book_rep b' (filter (fun kv => kv.2.2 <> user) R) /\
  cancelled_order_ids res = default [] (users b !! user) /\
  NoDup (cancelled_order_ids res) /\
  (forall id, id ∈ cancelled_order_ids res <-> exists loc, R !! id = Some (loc, user)).
Proof.
  intros Hrep H. apply (user_removes _ _ R) in H as [Hids [H1 _ H3]]; [|done].
  pose proof (fun id => user_elem b R user id Hrep) as Hel. rewrite <- Hids in Hel.
  split_and!; [|done..]. erewrite <- drop_ids_filter; [exact H1|].
  intros id [loc u] HR. simpl. rewrite Hel, HR. split; [naive_solver|].
  intros ->%dec_stable. eauto.
Qed.

Lemma all_ids_spec b R :
  rests b R ->
  NoDup (collect_order_ids_by_side Buy b ++ collect_order_ids_by_side Sell b) /\
  forall id, id ∈ collect_order_ids_by_side Buy b ++ collect_order_ids_by_side Sell b <-> is_Some (R !! id).
Proof.
  intros Hr.
  pose proof (fun s id => side_elem b R s id Hr) as Hel. split.
  - apply NoDup_app. split_and!; [rewrite collect_filter; by eapply side_ids_NoDup| |
      rewrite collect_filter; by eapply side_ids_NoDup].
    intros id (p & u & H1)%Hel (p' & u' & H2)%Hel. congruence.
  - intros id. rewrite elem_of_app, !Hel. split; [naive_solver|].
    intros [[[p []] u] HR]; [left|right]; eauto.
Qed.

Lemma still_announce side : runs_in still (announce_empty side).
Proof. unfold announce_empty, next_engine_seq. runs; try intros ?; by apply still_same. Qed.

Lemma cancel_all_empties b R res b' :
  book_rep b R -> cancel_all_orders b = (res, b') ->
  let ids := collect_order_ids_by_side Buy b ++ collect_order_ids_by_side Sell b in
  book_rep b' ∅ /\ book_config b' = book_config b /\
  cancelled_order_ids res = ids /\ cancelled_count res = length ids.
Proof.
  intros Hrep H ids. destruct (all_ids_spec b R (rep_rests _ _ Hrep)) as [_ Hel]. fold ids in Hel.
  unfold cancel_all_orders in H. apply sbind_inv in H as (? & b0 & ->%smod_inv & H).
  apply sbind_inv in H as (ids' & b0 & [-> ->]%sget_inv & H). change (_ ++ _) with ids in H.
  case_bool_decide as Hnil.
  - st_inv H. rewrite Hnil in *. assert (R = ∅) as ->.
    { apply map_empty. intros id. apply eq_None_not_Some. rewrite <- Hel. apply not_elem_of_nil. }
    split_and!; [|done..]. apply (book_rep_quiet b); [apply quiet_invalidate|done].
  - st_inv H. split_and!; [by apply empty_rep| |done|done]. simpl.
    match goal with E1 : swhen _ _ _ = (_, ?x), E2 : siter _ _ ?x = _ |- _ =>
      apply (runs_in_inv still) in E1;
        [|apply runs_in_when; [apply _|]; apply runs_in_bind; [apply _|apply still_announce|];
          intros; apply still_announce];
      apply (runs_in_inv still) in E2;
        [|apply runs_in_iter; [apply _|]; intros; runs; by apply still_same];
      destruct E1 as [[_ E1] _], E2 as [[_ E2] _]; rewrite E2, E1 end. done.
Qed.

(** Cancelling everything empties the book.  On a well-formed book
    [cancel_all_orders] leaves the empty book — no level, no location, no
    user entry — under the same configuration, and reports every order that
    was resting exactly once, bids before asks, whether or not the kill
    switch is engaged. *)
Theorem cancel_all_exact b R res b' :
  book_rep b R -> cancel_all_orders b = (res, b') ->
  book_rep b' ∅ /\ book_config b' = book_config b /\
  (forall s, levels s b' = ∅) /\ locations b' = ∅ /\ users b' = ∅ /\
  cancelled_order_ids res = collect_order_ids_by_side Buy b ++ collect_order_ids_by_side Sell b /\
  NoDup (cancelled_order_ids res) /\ cancelled_count res = size R /\
  (forall id, id ∈ cancelled_order_ids res <-> is_Some (R !! id)).
Proof.
  intros Hrep H. destruct (cancel_all_empties _ R _ _ Hrep H) as (H1 & H2 & -> & ->).
  destruct (all_ids_spec b R (rep_rests _ _ Hrep)) as [Hnd Hel].
  set (ids := _ ++ _) in *. destruct (rep_empty _ H1) as (? & ? & ?). split_and!; try done.
  rewrite <- length_map_to_list, <- (length_fmap fst (map_to_list R)). apply Permutation_length.
  apply NoDup_Permutation; [done|apply NoDup_fst_map_to_list|]. intros id. rewrite Hel.
  split; [intros [x Hx]; apply list_elem_of_fmap; exists (id, x); by rewrite elem_of_map_to_list|].
  intros ([i x] & -> & Hx%elem_of_map_to_list)%list_elem_of_fmap. eauto.
Qed.

(** ** Expiry *)

Definition expired_ids (now : N) b : list Id := expired_on_side Buy now b ++ expired_on_side Sell now b.

(** A time in force that has run out at [now]. *)
Definition due (tif : TimeInForce) (now : N) b : Prop :=
  match tif with
  | Gtd deadline => deadline <= now
  | Day => has_market_close b = true /\ market_close_timestamp b <= now
  | _ => False
  end.

Lemma expired_due tif now b : tif_expired_at tif now b = true <-> due tif now b.
Proof.
  unfold tif_expired_at, market_close_for_expiry, due. rewrite tif_is_expired_spec.
  destruct tif; try done; [apply N.leb_le|]. destruct (has_market_close b); [|naive_solver].
  rewrite N.leb_le. naive_solver.
Qed.

Lemma expired_elem now b id :
  id ∈ expired_ids now b <->
  exists s p lv o, levels s b !! p = Some lv /\ o ∈ queue lv /\ o_id o = id /\ due (o_time_in_force o) now b.
Proof.
  assert (Hs : forall s, id ∈ expired_on_side s now b <->
    exists p lv o, levels s b !! p = Some lv /\ o ∈ queue lv /\ o_id o = id /\ due (o_time_in_force o) now b).
  { intros s. unfold expired_on_side. rewrite list_elem_of_bind. split.
    - intros ([p lv] & (o & -> & [Hx%expired_due Ho]%list_elem_of_filter)%list_elem_of_fmap & Hlv%elem_of_sm_iter).
      exists p, lv, o. done.
    - intros (p & lv & o & Hlv & Ho & <- & Hd). exists (p, lv). split; [|by apply elem_of_sm_iter].
      apply list_elem_of_fmap_2, list_elem_of_filter. split; [by apply expired_due|done]. }
  unfold expired_ids. rewrite elem_of_app, !Hs. split.
  - intros [(p & lv & o & ?)|(p & lv & o & ?)]; eauto.
  - intros ([] & p & lv & o & ?); eauto.
Qed.

Lemma bind_sublist {A B} (f g : A -> list B) l :
  (forall x, f x `sublist_of` g x) -> (l ≫= f) `sublist_of` (l ≫= g).
Proof. intros Hs. induction l as [|x l IH]; csimpl; [done|]. by apply sublist_app. Qed.

Lemma expired_NoDup now b R : rests b R -> NoDup (expired_ids now b).
Proof.
  intros Hr. eapply sublist_NoDup; [exact (proj1 (all_ids_spec b R Hr))|].
  apply sublist_app; apply bind_sublist; intros [p lv]; apply fmap_sublist, sublist_filter.
Qed.

Definition same_close b b' : Prop :=
  has_market_close b' = has_market_close b /\ market_close_timestamp b' = market_close_timestamp b.
#[local] Instance same_close_preorder : PreOrder same_close.
Proof. split; [by intros ?|]. intros ??? [??] [??]. split; congruence. Qed.

Lemma close_notify s lv : runs_in same_close (notify_level s lv).
Proof. unfold notify_level, next_engine_seq. runs; try intros ?; done. Qed.
Lemma close_cancel id reason : runs_in same_close (cancel_order_with_reason dflt id reason).
Proof. unfold cancel_order_with_reason. pose proof close_notify. runs; by destruct s. Qed.
Lemma close_each ids reason : runs_in same_close (cancel_each dflt ids reason).
Proof. pose proof close_cancel. induction ids; simpl; runs. Qed.

Lemma evict_batch now b R evicted b' :
  book_rep b R -> evict_expired_orders dflt now b = (evicted, b') ->
  same_close b b' /\ exists l, evicted = snd <$> l /\ batch (expired_ids now b) b R l b'.
Proof.
  intros Hrep H. pose proof (rep_rests _ _ Hrep) as Hr. unfold evict_expired_orders in H.
  apply sbind_inv in H as (ids & b0 & [-> ->]%sget_inv & H).
  change (expired_on_side Buy now b ++ expired_on_side Sell now b) with (expired_ids now b) in H.
  apply sbind_inv in H as (l & b1 & E & H). st_inv H.
  split; [exact (runs_in_inv _ _ _ _ _ (close_each _ _) E)|]. exists l. split; [done|].
  apply (batch_spec _ _ _ R) in E; [done|by apply book_rep_shelved|by eapply expired_NoDup|].
  intros id (s & p & lv & o & Hlv & Ho & <- & _)%expired_elem.
  rewrite (owner_unique _ _ _ _ _ _ Hrep Hlv Ho). eauto.
Qed.

(** Expiry is exact and idempotent.  On a well-formed book
    [evict_expired_orders now] removes exactly the resting orders whose time
    in force is due at [now] — good-till-date with a deadline not after
    [now], day orders once the market close has passed, never any other —
    returns them once each in the documented order, and a second sweep at the
    same instant finds nothing and changes nothing. *)
Theorem evict_expired_exact now b R evicted b' :
  book_rep b R -> evict_expired_orders dflt now b = (evicted, b') ->
  book_rep b' (drop_ids (expired_ids now b) R) /\ book_config b' = book_config b /\
  (o_id <$> evicted) = expired_ids now b /\ NoDup (o_id <$> evicted) /\
  (forall id, id ∈ (o_id <$> evicted) <->
     exists s p lv o, levels s b !! p = Some lv /\ o ∈ queue lv /\ o_id o = id /\
                      due (o_time_in_force o) now b) /\
  evict_expired_orders dflt now b' = ([], b').
Proof.
  intros Hrep H. apply (evict_batch _ _ R) in H as ([Hc1 Hc2] & l & -> & E); [|done].
  pose proof (fun id => expired_elem now b id) as Hel.
  assert (Hids : (o_id <$> (snd <$> l)) = expired_ids now b).
  { rewrite <- (ba_ids _ _ _ _ _ E), <- list_fmap_compose. apply list_fmap_ext. intros i [id o] Hi.
    apply list_elem_of_lookup_2, (ba_owner _ _ _ _ _ E) in Hi as [? _]. done. }
  rewrite Hids.
  split_and!; [by eapply batch_rep|apply E|done|by eapply expired_NoDup, rep_rests|done|].
  unfold evict_expired_orders, sbind, sget.
  change (expired_on_side Buy now b' ++ expired_on_side Sell now b') with (expired_ids now b').
  assert (expired_ids now b' = []) as ->; [|done].
  apply elem_of_nil_inv. intros id (s & p & lv & o & Hlv & Ho & <- & Hd)%expired_elem.
  destruct (ba_queues _ _ _ _ _ E _ _ _ Hlv) as (lv0 & Hlv0 & Hq). rewrite Hq in Ho.
  apply list_elem_of_filter in Ho as [Hni Ho]. apply Hni. apply Hel. exists s, p, lv0, o.
  split_and!; [done|done|done|]. unfold due in *. by rewrite <- Hc1, <- Hc2.
Qed.
End MassCancelProps.
