(* ===== verification/Repricing.v ===== *)
(** * Re-pricing of pegged and trailing-stop orders (repricing.rs, book.rs)

    The tracker's two sets live in the book ([pegged_orders],
    [trailing_stops]).  [sort_by_key(|id| id.to_string())] needs the
    [Display] of an id, which is not part of the repository: it is the class
    [IdDisplay]. *)

From S2P Require Import Prelude Float64 Types PriceLevel OrderQuantity Fees Stp Clock Cache Risk OrderState Reject SkipMap Book Matching Depth Modifications.
From stdpp Require Import sorting strings.
Local Open Scope N_scope.

(** ** Arithmetic of the signed offset *)

Definition wrap_i64 (z : Z) : Z := ((z + 2 ^ 63) mod 2 ^ 64 - 2 ^ 63)%Z.
(** [z as u128] of an [i64]: sign extension. *)
Definition i64_as_u128 (z : Z) : N := Z.to_N (z mod 2 ^ 128).

Definition apply_offset (reference_price : N) (offset : Z) : N :=
  if (0 <=? offset)%Z then sat_add U128_MAX reference_price (i64_as_u128 offset)
  else sat_sub reference_price (i64_as_u128 (wrap_i64 (- offset))).

(** ** The pegged price *)

Definition reference_of (reference_type : PegReferenceType)
    (best_bid best_ask mid_price last_trade : option N) : option N :=
  match reference_type with
  | Types.BestBid => best_bid
  | Types.BestAsk => best_ask
  | Types.MidPrice => mid_price
  | LastTradePeg => last_trade
  end.

Definition effective_step (tick_size : option N) : N :=
  match tick_size with Some t => if 1 <? t then t else 1 | None => 1 end.

Definition passive_clamp (side : Side) (best_bid best_ask : option N) (step new_price : N) : N :=
  match side with
  | Buy => match best_ask with Some ask => N.min new_price (sat_sub ask step) | None => new_price end
  | Sell => match best_bid with
            | Some bid => N.max new_price (sat_add U128_MAX bid step)
            | None => new_price
            end
  end.

Definition snap_to_tick (side : Side) (step new_price : N) : N :=
  if 1 <? step then
    match side with
    | Buy => new_price / step * step
    | Sell => sat_mul U128_MAX (div_ceil new_price step) step
    end
  else new_price.

(** The final guard: the price still crosses the touch. *)
Definition crosses_touch (side : Side) (best_bid best_ask : option N) (priced : N) : bool :=
  match side with
  | Buy => match best_ask with Some a => a <=? priced | None => false end
  | Sell => match best_bid with Some b => priced <=? b | None => false end
  end.

Definition calculate_pegged_price (reference_type : PegReferenceType) (offset : Z) (side : Side)
    (best_bid best_ask mid_price last_trade tick_size : option N) : option N :=
  match reference_of reference_type best_bid best_ask mid_price last_trade with
  | None => None
  | Some reference_price =>
      let new_price := apply_offset reference_price offset in
      let step := effective_step tick_size in
      let new_price := passive_clamp side best_bid best_ask step new_price in
      let new_price := snap_to_tick side step new_price in
      let min_price := if 1 <? step then step else 1 in
      let priced := N.max new_price min_price in
      if crosses_touch side best_bid best_ask priced then None else Some priced
  end.

(** ** The trailing stop *)

Definition calculate_trailing_stop_price (side : Side)
    (current_stop_price trail_amount last_reference_price current_market_price : N) : option (N * N) :=
  match side with
  | Sell =>
      if last_reference_price <? current_market_price then
        let new_stop_price := sat_sub current_market_price trail_amount in
        if current_stop_price <? new_stop_price then Some (new_stop_price, current_market_price) else None
      else None
  | Buy =>
      if current_market_price <? last_reference_price then
        let new_stop_price := sat_add U128_MAX current_market_price trail_amount in
        if new_stop_price <? current_stop_price then Some (new_stop_price, current_market_price) else None
      else None
  end.

(** ** The order of re-pricing *)

Class IdDisplay := id_to_string : Id -> string.

Definition string_le {ID : IdDisplay} (a b : Id) : Prop :=
  Is_true (String.leb (id_to_string a) (id_to_string b)).
#[export] Instance string_le_dec {ID : IdDisplay} a b : Decision (string_le a b).
Proof. unfold string_le. apply _. Defined.

(** [sort_by_key] of what the hash set iterates over. *)
Definition sort_ids {ID : IdDisplay} (iteration : list Id) : list Id := merge_sort string_le iteration.

(** Why an order was not re-priced; the source formats the pair. *)
Inductive RepriceFailure :=
| PeggedRejected (new_price : N) (e : OrderBookError)
| TrailingRejected (new_stop_price : N) (e : OrderBookError).

Record RepricingResult := {
  pegged_orders_repriced : nat;
  trailing_stops_repriced : nat;
  failed_orders : list (Id * RepriceFailure);
}.

(** The counter and the failures a pass has gathered. *)
Definition Tally : Type := nat * list (Id * RepriceFailure).

Section Repricing.
Context {PA : PriceLevelApi} {WC : WallClock} {ID : IdDisplay} {T : Type} (dflt : T).

Definition pegged_order_ids (b : OrderBook) : list Id := sort_ids (elements (pegged_orders b)).
Definition trailing_stop_ids (b : OrderBook) : list Id := sort_ids (elements (trailing_stops b)).
Definition pegged_order_count (b : OrderBook) : nat := size (pegged_orders b).
Definition trailing_stop_count (b : OrderBook) : nat := size (trailing_stops b).

Definition unregister_pegged_order (order_id : Id) : OrderBook -> OrderBook :=
  set_special (fun s => s ∖ {[order_id]}) (fun s => s).
Definition unregister_trailing_stop (order_id : Id) : OrderBook -> OrderBook :=
  set_special (fun s => s) (fun s => s ∖ {[order_id]}).

(** One [UpdatePrice], counted or recorded as a failure. *)
Definition reprice_to (order_id : Id) (new_price : N) (failure : OrderBookError -> RepriceFailure)
    (tally : Tally) : ST OrderBook Tally :=
  let! r := update_order dflt (UpdatePrice order_id new_price) in
  sret (match r with
        | Ok _ => (S tally.1, tally.2)
        | Err e => (tally.1, tally.2 ++ [(order_id, failure e)])
        end).

(** ** Pegged orders *)

Definition reprice_pegged_one (best_bid best_ask mid_price last_trade : option N)
    (order_id : Id) (tally : Tally) : ST OrderBook Tally :=
  let! order := sget (get_order dflt order_id) in
  match order with
  | Some (PeggedOrder _ current_price _ side _ _ _ offset reference_type _) =>
      let! tick := sget (fun b => tick_size (book_config b)) in
      match calculate_pegged_price reference_type offset side best_bid best_ask mid_price last_trade tick with
      | Some new_price =>
          if new_price =? current_price then sret tally
          else reprice_to order_id new_price (PeggedRejected new_price) tally
      | None => sret tally
      end
  | Some _ => sret tally
  | None => do! smod (unregister_pegged_order order_id) in sret tally
  end.

Fixpoint reprice_pegged_loop (best_bid best_ask mid_price last_trade : option N)
    (ids : list Id) (tally : Tally) : ST OrderBook Tally :=
  match ids with
  | [] => sret tally
  | order_id :: ids' =>
      let! tally := reprice_pegged_one best_bid best_ask mid_price last_trade order_id tally in
      reprice_pegged_loop best_bid best_ask mid_price last_trade ids' tally
  end.

Definition reprice_pegged_collecting (failures : list (Id * RepriceFailure)) : ST OrderBook Tally :=
  let! pegged_ids := sget pegged_order_ids in
  match pegged_ids with
  | [] => sret (0%nat, failures)
  | _ =>
      let! bid := best_bid in
      let! ask := best_ask in
      let! mid := mid_price in
      let! last_trade := sget get_last_trade_price in
      reprice_pegged_loop bid ask (f64_to_u128 <$> mid) last_trade pegged_ids (0%nat, failures)
  end.

(** ** Trailing stops *)

Definition reprice_trailing_one (order_id : Id) (tally : Tally) : ST OrderBook Tally :=
  let! order := sget (get_order dflt order_id) in
  match order with
  | Some (TrailingStop _ current_stop_price _ side _ _ _ trail_amount last_reference_price _) =>
      let! current_market_price := (match side with Sell => best_bid | Buy => best_ask end) in
      match current_market_price with
      | Some market_price =>
          match calculate_trailing_stop_price side current_stop_price trail_amount
                  last_reference_price market_price with
          | Some (new_stop_price, _) =>
              reprice_to order_id new_stop_price (TrailingRejected new_stop_price) tally
          | None => sret tally
          end
      | None => sret tally
      end
  | Some _ => sret tally
  | None => do! smod (unregister_trailing_stop order_id) in sret tally
  end.

Fixpoint reprice_trailing_loop (ids : list Id) (tally : Tally) : ST OrderBook Tally :=
  match ids with
  | [] => sret tally
  | order_id :: ids' =>
      let! tally := reprice_trailing_one order_id tally in
      reprice_trailing_loop ids' tally
  end.

Definition reprice_trailing_collecting (failures : list (Id * RepriceFailure)) : ST OrderBook Tally :=
  let! trailing_ids := sget trailing_stop_ids in
  match trailing_ids with
  | [] => sret (0%nat, failures)
  | _ => reprice_trailing_loop trailing_ids (0%nat, failures)
  end.

(** ** The trait's methods *)

Definition reprice_pegged_orders : ST OrderBook (Result OrderBookError nat) :=
  let! tally := reprice_pegged_collecting [] in sret (Ok tally.1).
Definition reprice_trailing_stops : ST OrderBook (Result OrderBookError nat) :=
  let! tally := reprice_trailing_collecting [] in sret (Ok tally.1).

Definition reprice_special_orders : ST OrderBook (Result OrderBookError RepricingResult) :=
  let! pegged := reprice_pegged_collecting [] in
  let! trailing := reprice_trailing_collecting pegged.2 in
  sret (Ok {| pegged_orders_repriced := pegged.1; trailing_stops_repriced := trailing.1;
              failed_orders := trailing.2 |}).

Definition should_trigger_trailing_stop (order : OrderType T) (current_market_price : N) : bool :=
  match order with
  | TrailingStop _ stop_price _ side _ _ _ _ _ _ =>
      match side with
      | Sell => current_market_price <=? stop_price
      | Buy => stop_price <=? current_market_price
      end
  | _ => false
  end.
End Repricing.
