(* ===== verification/RepricingProps.v ===== *)
(** * Properties of re-pricing *)

From S2P Require Import Prelude Float64 Types PriceLevel OrderQuantity Fees Stp Clock Cache Risk OrderState Reject SkipMap Book BookInv Matching MatchingInv MatchingSteps MatchingProps Depth Modifications ModificationsProps AddProps UpdateProps Uncrossed Repricing.
From stdpp Require Import sorting strings.
Local Open Scope N_scope.

(** ** The pegged price *)

Lemma apply_offset_exact r offset :
  r <= U128_MAX -> (I64_MIN < offset <= I64_MAX)%Z ->
  Z.of_N (apply_offset r offset) = Z.max 0 (Z.min (Z.of_N U128_MAX) (Z.of_N r + offset)).
Proof.
  unfold apply_offset, I64_MIN, I64_MAX. intros Hr Ho. destruct (Z.leb_spec 0 offset).
  - unfold i64_as_u128. rewrite Z.mod_small by lia. unfold sat_add.
    rewrite N2Z.inj_min, N2Z.inj_add, Z2N.id by lia. lia.
  - unfold wrap_i64. rewrite Z.mod_small by lia. unfold i64_as_u128. rewrite Z.mod_small by lia.
    unfold sat_sub. lia.
Qed.

(** [p] is a price of the tick grid that a book can hold. *)
Definition on_grid (step p : N) : Prop := (step | p) /\ step <= p.

Lemma effective_step_pos tick : 0 < effective_step tick.
Proof. unfold effective_step. destruct tick as [t|]; [destruct (N.ltb_spec 1 t)|]; lia. Qed.

Lemma snap_buy_spec step x : 0 < step ->
  (step | snap_to_tick Buy step x) /\ snap_to_tick Buy step x <= x /\
  forall q, (step | q) -> q <= x -> q <= snap_to_tick Buy step x.
Proof.
  intros Hs. unfold snap_to_tick. destruct (N.ltb_spec 1 step).
  - split_and!; [apply N.divide_factor_r| |].
    + rewrite N.mul_comm. apply N.Div0.mul_div_le.
    + intros q [k ->] Hk. apply N.mul_le_mono_r. apply N.div_le_lower_bound; lia.
  - assert (step = 1) as -> by lia. split_and!; [apply N.divide_1_l|lia|auto].
Qed.

Lemma snap_sell_spec step x : 0 < step -> x + step <= U128_MAX ->
  (step | snap_to_tick Sell step x) /\ x <= snap_to_tick Sell step x /\
  forall q, (step | q) -> x <= q -> snap_to_tick Sell step x <= q.
Proof.
  intros Hs Hx. unfold snap_to_tick. destruct (N.ltb_spec 1 step).
  - pose proof (div_ceil_bounds x step Hs) as [H1 H2]. unfold sat_mul. rewrite N.min_r by lia.
    split_and!; [apply N.divide_factor_r|done|]. intros q [k ->] Hk. apply N.mul_le_mono_r.
    assert (div_ceil x step * step < (k + 1) * step) by lia. nia.
  - assert (step = 1) as -> by lia. split_and!; [apply N.divide_1_l|lia|auto].
Qed.

(** C29.  The pegged price is the best passive price of the grid.  With the
    target the reference plus the offset, clamped to the width, a price is
    produced exactly when the reference is known and, for a buy, the best
    ask is more than one tick.  A buy is priced at most at the target and a
    full tick below the best ask, and no price of the tick grid that is both
    is higher; where the grid has no such price it gets the lowest price of
    the grid, which is then still below the ask.  A sell is priced at least
    at the target and a full tick above the best bid, and no price of the
    grid that is both is lower.  Assumed: the reference fits in 128 bits, the
    target and the best bid are two ticks or more below the end of that
    range, and the offset is a 64-bit integer other than the smallest one
    (whose negation wraps: [apply_offset_min]). *)
Theorem pegged_price_exact rt offset side bid ask mid last tick :
  let step := effective_step tick in
  let reference := reference_of rt bid ask mid last in
  let target r := apply_offset r offset in
  (forall r, reference = Some r -> r <= U128_MAX /\ target r + 2 * step <= U128_MAX) ->
  (forall b, bid = Some b -> b + 2 * step <= U128_MAX) ->
  (I64_MIN < offset <= I64_MAX)%Z ->
  match calculate_pegged_price rt offset side bid ask mid last tick with
  | None => reference = None \/ (side = Buy /\ exists a, ask = Some a /\ a <= step)
  | Some p => on_grid step p /\ exists r, reference = Some r /\
      Z.of_N (target r) = Z.max 0 (Z.min (Z.of_N U128_MAX) (Z.of_N r + offset)) /\
      match side with
      | Buy =>
          (p <= target r /\ (forall a, ask = Some a -> p + step <= a) \/
           p = step /\ (forall a, ask = Some a -> p < a) /\
             ~ (p <= target r /\ forall a, ask = Some a -> p + step <= a)) /\
          forall q, on_grid step q -> q <= target r -> (forall a, ask = Some a -> q + step <= a) -> q <= p
      | Sell => (forall b, bid = Some b -> b + step <= p) /\ target r <= p /\
          forall q, on_grid step q -> target r <= q -> (forall b, bid = Some b -> b + step <= q) -> p <= q
      end
  end.
Proof.
  intros step reference target Hr Hb Ho. unfold calculate_pegged_price. fold reference step.
  destruct reference as [r|]; [|by left]. destruct (Hr r eq_refl) as [Hru Hrt]. fold (target r).
  pose proof (effective_step_pos tick) as Hs. fold step in Hs.
  assert (Hmin : (if 1 <? step then step else 1) = step) by (destruct (N.ltb_spec 1 step); lia). rewrite Hmin.
  assert (Hgrid : forall x, (step | x) -> on_grid step (N.max x step)).
  { intros x Hx. split; [|lia]. destruct (N.max_spec x step) as [[_ ->]|[_ ->]]; [apply N.divide_refl|done]. }
  pose proof (apply_offset_exact r offset Hru Ho) as Ht. fold (target r) in Ht.
  assert (Hup : forall q, on_grid step q -> step <= q) by (intros q Hq; apply Hq).
  destruct side.
  - destruct (snap_buy_spec step (passive_clamp Buy bid ask step (target r)) Hs) as (H1 & H2 & H3).
    simpl in *. unfold sat_sub in *. destruct ask as [a|].
    + set (x := snap_to_tick _ _ _) in *. destruct (N.leb_spec a (N.max x step)) as [Hle|Hlt].
      { right. split; [done|]. exists a. split; [done|]. lia. }
      split; [auto|]. exists r. split_and!; [done|done| |].
      2: intros q Hq Hqt Hqa; specialize (Hqa _ eq_refl); specialize (H3 q (proj1 Hq)); lia.
      destruct (decide (N.max x step <= target r /\ N.max x step + step <= a)) as [[Hd1 Hd2]|Hd];
        [left; split; [done|by intros ? [= <-]]|right].
      split_and!; [lia|by intros ? [= <-]|]. intros [Hd1 Hd2]. apply Hd. auto.
    + set (x := snap_to_tick _ _ _) in *. split; [auto|]. exists r. split_and!; [done|done| |].
      2: intros q Hq Hqt _; specialize (H3 q (proj1 Hq)); lia.
      destruct (decide (N.max x step <= target r)) as [Hd|Hd]; [left; done|right].
      split_and!; [lia|done|]. intros [Hd1 _]. by apply Hd.
  - destruct (snap_sell_spec step (passive_clamp Sell bid ask step (target r)) Hs) as (H1 & H2 & H3).
    { simpl. destruct bid as [b|]; [specialize (Hb _ eq_refl); unfold sat_add|]; lia. }
    simpl in *. unfold sat_add in *. destruct bid as [b|].
    + specialize (Hb _ eq_refl). set (x := snap_to_tick _ _ _) in *.
      destruct (N.leb_spec (N.max x step) b) as [Hle|Hlt]; [lia|].
      split; [auto|]. exists r. split_and!; [done|done|intros ? [= <-]; lia|lia|].
      intros q Hq Hqt Hqa. specialize (Hqa _ eq_refl). specialize (H3 q (proj1 Hq)). specialize (Hup q Hq). lia.
    + set (x := snap_to_tick _ _ _) in *. split; [auto|]. exists r. split_and!; [done|done|done|lia|].
      intros q Hq Hqt _. specialize (H3 q (proj1 Hq)). specialize (Hup q Hq). lia.
Qed.

(** The smallest offset wraps when it is negated. *)
Lemma apply_offset_min r : r <= 2 ^ 127 -> apply_offset r I64_MIN = 0.
Proof.
  intros H. unfold apply_offset. change (0 <=? I64_MIN)%Z with false. cbv iota. unfold sat_sub.
  change (i64_as_u128 (wrap_i64 (- I64_MIN))) with (2 ^ 128 - 2 ^ 63). lia.
Qed.

(** ** The order of re-pricing *)

Lemma string_compare_le_trans a b c :
  (a <=? b)%string = true -> (b <=? c)%string = true -> (a <=? c)%string = true.
Proof.
  unfold String.leb. revert b c.
  induction a as [|x a IH]; intros [|y b] [|z c]; simpl; try done. unfold Ascii.compare.
  destruct (N.compare_spec (Ascii.N_of_ascii x) (Ascii.N_of_ascii y)) as [H1|H1|H1]; [| |done];
    destruct (N.compare_spec (Ascii.N_of_ascii y) (Ascii.N_of_ascii z)) as [H2|H2|H2]; try done;
    destruct (N.compare_spec (Ascii.N_of_ascii x) (Ascii.N_of_ascii z)); lia || done || apply IH.
Qed.

Section SortIds.
Context {ID : IdDisplay}.

#[local] Instance string_le_trans : Transitive string_le.
Proof.
  intros a b c. unfold string_le. rewrite !Is_true_true. apply string_compare_le_trans.
Qed.
#[local] Instance string_le_total : Total string_le.
Proof.
  intros a b. unfold string_le. rewrite !Is_true_true. apply String.leb_total.
Qed.
#[local] Instance string_le_antisymm `{!Inj (=) (=) (id_to_string (IdDisplay := ID))} : AntiSymm (=) string_le.
Proof.
  intros a b. unfold string_le. rewrite !Is_true_true. intros H1 H2. apply (inj id_to_string).
  by apply String.leb_antisym.
Qed.

(** The order of re-pricing is reproducible.  Whatever order the hash
    set yields its ids in, the pass visits the same list: every tracked id
    once, in the order of the ids' printed form. *)
Theorem repricing_order_deterministic (tracked : gset Id) iteration :
  Inj (=) (=) (id_to_string (IdDisplay := ID)) ->
  iteration ≡ₚ elements tracked ->
  sort_ids iteration = sort_ids (elements tracked) /\
  StronglySorted string_le (sort_ids iteration) /\ NoDup (sort_ids iteration) /\
  forall id, id ∈ sort_ids iteration <-> id ∈ tracked.
Proof.
  intros Hinj Hp. unfold sort_ids.
  assert (Hm : merge_sort string_le iteration ≡ₚ elements tracked) by (by rewrite merge_sort_Permutation).
  split_and!.
  - apply (Sorted_unique string_le); [apply (Sorted_merge_sort _)..|]. by rewrite !merge_sort_Permutation.
  - apply (StronglySorted_merge_sort _).
  - rewrite Hm. apply NoDup_elements.
  - intros id. rewrite Hm. apply elem_of_elements.
Qed.
End SortIds.

(** ** Effect on the book *)

Section RepricingProps.
Context {PA : PriceLevelApi} {PL : PriceLevelLaws} {WC : WallClock} {ID : IdDisplay} {T : Type} (dflt : T).
Implicit Types (b : OrderBook) (R : Contents).

(** No order is created or changes hands, and only those of [ids] move. *)
Definition moved (ids : list Id) R R' : Prop :=
  (forall i x, R' !! i = Some x -> exists loc, R !! i = Some (loc, x.2)) /\
  (forall i x, i ∉ ids -> R' !! i = Some x -> R !! i = Some x).

Lemma moved_refl ids R : moved ids R R.
Proof. split; [|done]. intros i [loc u] H. by exists loc. Qed.

Lemma moved_trans ids R1 R2 R3 : moved ids R1 R2 -> moved ids R2 R3 -> moved ids R1 R3.
Proof.
  intros [H1 H2] [H3 H4]. split; [|eauto]. intros i x Hx.
  destruct (H3 _ _ Hx) as [loc Hl]. exact (H1 _ _ Hl).
Qed.

Lemma modified_moved (P : OrderType T -> Prop) id ids R R' :
  id ∈ ids -> modified P id R R' -> moved ids R R'.
Proof.
  intros Hin [->|(new & C & F & rested & _ & <- & [loc Hown] & _ & ->)]; [apply moved_refl|].
  assert (Hd : forall i x, drop_ids (C ++ F) (delete (o_id new) R) !! i = Some x -> R !! i = Some x).
  { intros i x [H _]%drop_ids_Some. by apply lookup_delete_Some in H as [_ ?]. }
  destruct rested; cbn [content_after]; (split; [|]).
  - intros i x [[<- <-]|[_ H]]%lookup_insert_Some; [by exists loc|]. apply Hd in H. destruct x. by eexists.
  - intros i x Hi [[<- _]|[_ H]]%lookup_insert_Some; [done|by apply Hd].
  - intros i [l u] H%Hd. by exists l.
  - intros i x _ H. by apply Hd.
Qed.

(** What a pass over [ids] keeps. *)
Definition pass_ok (ids : list Id) (c : ST OrderBook Tally) : Prop :=
  forall b R tally b', book_rep b R -> c b = (tally, b') ->
  book_config b' = book_config b /\ exists R', book_rep b' R' /\ moved ids R R'.

Lemma pass_quiet ids (c : ST OrderBook Tally) : runs_in quiet c -> pass_ok ids c.
Proof.
  intros Hc b R tally b' Hrep H. apply (runs_in_inv _ _ _ _ _ Hc) in H.
  split; [apply H|]. exists R. split; [by eapply book_rep_quiet|apply moved_refl].
Qed.

Lemma pass_bind ids (c : ST OrderBook Tally) k :
  pass_ok ids c -> (forall t, pass_ok ids (k t)) -> pass_ok ids (sbind c k).
Proof.
  intros Hc Hk b R tally b' Hrep H. apply sbind_inv in H as (t & b1 & E & H).
  destruct (Hc _ _ _ _ Hrep E) as (E1 & R1 & Hrep1 & Hm1).
  destruct (Hk _ _ _ _ _ Hrep1 H) as (E2 & R2 & Hrep2 & Hm2).
  split; [congruence|]. exists R2. split; [done|by eapply moved_trans].
Qed.

Lemma pass_after_quiet {A} ids (c : ST OrderBook A) k :
  runs_in quiet c -> (forall a, pass_ok ids (k a)) -> pass_ok ids (sbind c k).
Proof.
  intros Hc Hk b R tally b' Hrep H. apply sbind_inv in H as (a & b1 & E & H).
  apply (runs_in_inv _ _ _ _ _ Hc) in E.
  destruct (Hk a _ R _ _ (book_rep_quiet _ _ _ E Hrep) H) as (E2 & R2 & Hrep2 & Hm2).
  split; [rewrite E2; apply E|by exists R2].
Qed.

Lemma pass_reprice_to ids id p failure tally : id ∈ ids -> pass_ok ids (reprice_to dflt id p failure tally).
Proof.
  intros Hin b R t b' Hrep H. apply sbind_inv in H as (r & b1 & E & [_ ->]%sret_inv).
  apply (update_rep dflt (UpdatePrice id p) _ R) in E as (E & R' & Hrep' & Hm); [|done..].
  split; [done|]. exists R'. split; [done|]. by eapply modified_moved.
Qed.

Lemma quiet_get {A} (f : OrderBook -> A) : runs_in quiet (sget f).
Proof. apply runs_in_get, _. Qed.

Lemma pass_pegged_one ids bid ask mid last id tally :
  id ∈ ids -> pass_ok ids (reprice_pegged_one dflt bid ask mid last id tally).
Proof.
  intros Hin. apply pass_after_quiet; [apply quiet_get|]. intros [o|].
  - destruct o; try (apply pass_quiet; by runs). apply pass_after_quiet; [apply quiet_get|]. intros tick.
    destruct (calculate_pegged_price _ _ _ _ _ _ _ _); [|apply pass_quiet; by runs].
    destruct (_ =? _); [apply pass_quiet; by runs|by apply pass_reprice_to].
  - apply pass_after_quiet; [unfold unregister_pegged_order; by runs|]. intros _. apply pass_quiet. by runs.
Qed.

Lemma pass_trailing_one ids id tally : id ∈ ids -> pass_ok ids (reprice_trailing_one dflt id tally).
Proof.
  intros Hin. apply pass_after_quiet; [apply quiet_get|]. intros [o|].
  - destruct o; try (apply pass_quiet; by runs).
    apply pass_after_quiet; [destruct side; by runs|]. intros [m|]; [|apply pass_quiet; by runs].
    destruct (calculate_trailing_stop_price _ _ _ _ _) as [[? ?]|];
      [by apply pass_reprice_to|apply pass_quiet; by runs].
  - apply pass_after_quiet; [unfold unregister_trailing_stop; by runs|]. intros _. apply pass_quiet. by runs.
Qed.

Lemma pass_pegged_loop all bid ask mid last ids : forall tally,
  ids ⊆ all -> pass_ok all (reprice_pegged_loop dflt bid ask mid last ids tally).
Proof.
  induction ids as [|id ids IH]; intros tally Hs; cbn [reprice_pegged_loop]; [apply pass_quiet; by runs|].
  apply pass_bind; [apply pass_pegged_one; set_solver|]. intros t. apply IH. set_solver.
Qed.

Lemma pass_trailing_loop all ids : forall tally, ids ⊆ all -> pass_ok all (reprice_trailing_loop dflt ids tally).
Proof.
  induction ids as [|id ids IH]; intros tally Hs; cbn [reprice_trailing_loop]; [apply pass_quiet; by runs|].
  apply pass_bind; [apply pass_trailing_one; set_solver|]. intros t. apply IH. set_solver.
Qed.

(** A pass only appends to the failures it is given. *)
Definition with_failures (fs : list (Id * RepriceFailure)) (r : Tally * OrderBook) : Tally * OrderBook :=
  ((r.1.1, fs ++ r.1.2), r.2).

Lemma reprice_to_frame id p failure n fs gs b :
  reprice_to dflt id p failure (n, fs ++ gs) b = with_failures fs (reprice_to dflt id p failure (n, gs) b).
Proof.
  unfold reprice_to, sbind, sret, with_failures. destruct (update_order dflt _ b) as [[?|?] b']; simpl; [done|].
  by rewrite <- app_assoc.
Qed.

Lemma trailing_one_frame id n fs gs b :
  reprice_trailing_one dflt id (n, fs ++ gs) b = with_failures fs (reprice_trailing_one dflt id (n, gs) b).
Proof.
  unfold reprice_trailing_one, sbind at 1 4, sget. destruct (get_order dflt id b) as [[]|]; try done.
  unfold sbind. destruct ((match side with Buy => best_ask | Sell => best_bid end) b) as [[m|] b1]; [|done].
  destruct (calculate_trailing_stop_price _ _ _ _ _) as [[? ?]|]; [apply reprice_to_frame|done].
Qed.

Lemma trailing_loop_frame ids : forall n fs gs b,
  reprice_trailing_loop dflt ids (n, fs ++ gs) b =
  with_failures fs (reprice_trailing_loop dflt ids (n, gs) b).
Proof.
  induction ids as [|id ids IH]; intros n fs gs b; cbn [reprice_trailing_loop]; [done|].
  unfold sbind. rewrite trailing_one_frame.
  destruct (reprice_trailing_one dflt id (n, gs) b) as [[n' gs'] b']. simpl. apply IH.
Qed.

Lemma pegged_moves b R r b' :
  book_rep b R -> reprice_pegged_orders dflt b = (r, b') ->
  book_config b' = book_config b /\ exists R', book_rep b' R' /\ moved (pegged_order_ids b) R R'.
Proof.
  intros Hrep H. apply sbind_inv in H as (t & b1 & E & [_ ->]%sret_inv).
  apply sbind_inv in E as (ids & b2 & [-> ->]%sget_inv & E).
  destruct (pegged_order_ids b) as [|id ids] eqn:Eids.
  - st_inv E. split; [done|]. exists R. split; [done|apply moved_refl].
  - revert Hrep E. refine ((_ : pass_ok _ _) b R t b1).
    repeat (apply pass_after_quiet; [unfold mid_price; by runs|intros ?]). by apply pass_pegged_loop.
Qed.

Lemma trailing_moves b R r b' :
  book_rep b R -> reprice_trailing_stops dflt b = (r, b') ->
  book_config b' = book_config b /\ exists R', book_rep b' R' /\ moved (trailing_stop_ids b) R R'.
Proof.
  intros Hrep H. apply sbind_inv in H as (t & b1 & E & [_ ->]%sret_inv).
  apply sbind_inv in E as (ids & b2 & [-> ->]%sget_inv & E).
  destruct (trailing_stop_ids b) as [|id ids] eqn:Eids.
  - st_inv E. split; [done|]. exists R. split; [done|apply moved_refl].
  - revert Hrep E. refine ((_ : pass_ok _ _) b R t b1). by apply pass_trailing_loop.
Qed.

(** C30.  Re-pricing keeps the book well formed.  Each pass leaves the
    settings alone, keeps the engine's invariant, neither creates an order
    nor changes an owner, and moves only orders the tracker lists; the
    combined operation is the pegged pass followed by the trailing pass and
    reports both counts and both lists of failures. *)
Theorem reprice_keeps_book b R :
  book_rep b R ->
  (forall r b', reprice_pegged_orders dflt b = (r, b') ->
     book_config b' = book_config b /\ exists R', book_rep b' R' /\ moved (pegged_order_ids b) R R') /\
  (forall r b', reprice_trailing_stops dflt b = (r, b') ->
     book_config b' = book_config b /\ exists R', book_rep b' R' /\ moved (trailing_stop_ids b) R R') /\
  forall r b', reprice_special_orders dflt b = (r, b') ->
    exists result b1, r = Ok result /\
      reprice_pegged_orders dflt b = (Ok (pegged_orders_repriced result), b1) /\
      reprice_trailing_stops dflt b1 = (Ok (trailing_stops_repriced result), b') /\
      failed_orders result = (reprice_pegged_collecting dflt [] b).1.2 ++
                             (reprice_trailing_collecting dflt [] b1).1.2.
Proof.
  intros Hrep. split_and!.
  - intros r b'. by apply pegged_moves.
  - intros r b'. by apply trailing_moves.
  - intros r b' H. unfold reprice_special_orders in H. apply sbind_inv in H as ([n1 f1] & b1 & E1 & H).
    apply sbind_inv in H as ([n2 f2] & b2 & E2 & [-> ->]%sret_inv).
    exists {| pegged_orders_repriced := n1; trailing_stops_repriced := n2; failed_orders := f2 |}, b1.
    unfold reprice_pegged_orders, reprice_trailing_stops. unfold sbind at 1 2. rewrite E1. simpl.
    unfold reprice_trailing_collecting, sbind, sget in *. simpl in E2.
    destruct (trailing_stop_ids b1) as [|id ids].
    { apply sret_inv in E2 as [[= -> ->] ->]. split_and!; try done. simpl. by rewrite app_nil_r. }
    rewrite <- (app_nil_r f1), trailing_loop_frame in E2.
    destruct (reprice_trailing_loop dflt (id :: ids) (0%nat, []) b1) as [[n3 f3] b3].
    unfold with_failures in E2. simpl in E2. simplify_eq. done.
Qed.

(** ** Trailing stops *)

(** Every resting order carries the price and the side of its level. *)
Definition orders_in_place b : Prop :=
  forall s p lv o, levels s b !! p = Some lv -> o ∈ queue lv -> o_price o = p /\ o_side o = s /\ p <= U128_MAX.

Lemma get_order_level id b (o' : OrderType T) :
  get_order dflt id b = Some o' ->
  exists s p lv o, levels s b !! p = Some lv /\ o ∈ queue lv /\ o' = convert_from_unit_type dflt o.
Proof.
  unfold get_order. destruct (locations b !! id) as [[p s]|]; [|done].
  destruct (levels s b !! p) as [lv|] eqn:Hlv; [|done].
  pose proof (find_id_spec (pl_iter_orders lv) id) as Hf.
  destruct (snd <$> list_find _ _) as [o|]; intros [= <-]. destruct Hf as [Ho%iter_orders_elem _].
  by exists s, p, lv, o.
Qed.

(** A book read through its levels only. *)
Definition inert_ok b : Prop := cache_ok b /\ uncrossed b /\ orders_in_place b.

Lemma inert_ok_quiet b b' : quiet b b' -> inert_ok b -> inert_ok b'.
Proof.
  intros [Hs Hc] (H1 & H2 & H3). split_and!; [auto| |].
  - intros pb pa. rewrite !(same_core_levels _ _ _ Hs). apply H2.
  - intros s p lv o. rewrite (same_core_levels _ _ _ Hs). apply H3.
Qed.

Lemma best_bid_level b p b1 : cache_ok b -> best_bid b = (Some p, b1) -> is_Some (levels Buy b !! p).
Proof.
  intros [Hb _]. unfold best_bid. destruct (get_cached_best_bid (cache b)) as [q|]; intros [= H1 <-].
  - subst q. specialize (Hb _ eq_refl). by apply sm_back_spec in Hb as [? _].
  - by apply sm_back_spec in H1 as [? _].
Qed.

Lemma best_ask_level b p b1 : cache_ok b -> best_ask b = (Some p, b1) -> is_Some (levels Sell b !! p).
Proof.
  intros [_ Ha]. unfold best_ask. destruct (get_cached_best_ask (cache b)) as [q|]; intros [= H1 <-].
  - subst q. specialize (Ha _ eq_refl). by apply sm_front_spec in Ha as [? _].
  - by apply sm_front_spec in H1 as [? _].
Qed.

Lemma trailing_one_inert id tally b t b' :
  inert_ok b -> reprice_trailing_one dflt id tally b = (t, b') -> t = tally /\ quiet b b'.
Proof.
  intros (Hc & Hu & Hp) H. unfold reprice_trailing_one in H.
  apply sbind_inv in H as (o & b1 & [-> ->]%sget_inv & H).
  destruct (get_order dflt id b) as [o|] eqn:Eo.
  2: { st_inv H. split; [done|]. apply (quiet_set_special (fun s => s) (fun s => s ∖ {[id]}) b). }
  destruct (get_order_level _ _ _ Eo) as (s & p & lv & o0 & Hlv & Hin & ->).
  destruct (Hp _ _ _ _ Hlv Hin) as (Hprice & Hside & Hmax).
  destruct o0; simpl in *; try (st_inv H; done). subst.
  apply sbind_inv in H as (m & b1 & E & H).
  assert (Hq : quiet b b1) by (destruct s; [exact (runs_in_inv _ _ _ _ _ quiet_best_ask E)|exact (runs_in_inv _ _ _ _ _ quiet_best_bid E)]).
  destruct m as [m|]; [|by st_inv H].
  assert (Hn : calculate_trailing_stop_price s p trail_amount last_reference_price m = None).
  { destruct s; simpl; unfold sat_add, sat_sub.
    - apply best_ask_level in E; [|done]. specialize (Hu p m (mk_is_Some _ _ Hlv) E).
      destruct (_ <? _); [|done]. destruct (N.ltb_spec (N.min U128_MAX (m + trail_amount)) p); [lia|done].
    - apply best_bid_level in E; [|done]. specialize (Hu m p E (mk_is_Some _ _ Hlv)).
      destruct (_ <? _); [|done]. destruct (N.ltb_spec p (m - trail_amount)); [lia|done]. }
  rewrite Hn in H. by st_inv H.
Qed.

Lemma trailing_loop_inert ids : forall tally b t b',
  inert_ok b -> reprice_trailing_loop dflt ids tally b = (t, b') -> t = tally /\ quiet b b'.
Proof.
  induction ids as [|id ids IH]; intros tally b t b' Hb H; cbn [reprice_trailing_loop] in H; [by st_inv H|].
  apply sbind_inv in H as (t1 & b1 & E & H).
  apply trailing_one_inert in E as [-> Hq]; [|done].
  apply IH in H as [-> Hq']; [|by eapply inert_ok_quiet]. split; [done|by etransitivity].
Qed.

(** Trailing stops never trail.  A trailing stop rests on the book like
    a limit order, so as long as the book is uncrossed the stop price its
    rule computes from the opposite best price is never better than the
    price it rests at: the trailing pass re-prices nothing, reports no
    failure and changes no level, whatever the market does. *)
Theorem trailing_stops_inert b R r b' :
  book_rep b R -> uncrossed b -> orders_in_place b ->
  reprice_trailing_stops dflt b = (r, b') ->
  r = Ok 0%nat /\ book_rep b' R /\ forall s, levels s b' = levels s b.
Proof.
  intros Hrep Hu Hp H. apply sbind_inv in H as (t & b1 & E & [-> ->]%sret_inv).
  assert (Ht : t = (0%nat, []) /\ quiet b b1).
  { apply sbind_inv in E as (ids & b2 & [-> ->]%sget_inv & E).
    destruct (trailing_stop_ids b); [by st_inv E|]. apply trailing_loop_inert in E; [done|].
    split_and!; [apply Hrep|done|done]. }
  destruct Ht as [-> Hq]. split_and!; [done|by eapply book_rep_quiet|].
  intros s. apply same_core_levels, Hq.
Qed.
End RepricingProps.
