(* ===== verification/Snapshot.v ===== *)
(** * Snapshots and restore (snapshot.rs, the snapshot methods of book.rs)

    A snapshot of the levels, the package that carries it with a checksum and
    the configuration, and the restore that validates a package completely
    before it replaces the book. *)

From S2P Require Import Prelude Types PriceLevel PriceLevelFifo OrderQuantity Fees Stp Clock Cache Risk OrderState Reject SkipMap Book BookInv Modifications MassCancel.
From stdpp Require Import sorting.
Local Open Scope N_scope.

(** ** What the [pricelevel] crate provides for snapshots *)

Class SnapshotApi `{!PriceLevelApi} := {
  LevelSnapshot : Type;
  ls_price : LevelSnapshot -> N;
  pl_snapshot : PriceLevel -> LevelSnapshot;
  (** [refresh_aggregates]; the engine ignores its [Result] *)
  ls_refresh_aggregates : LevelSnapshot -> LevelSnapshot;
  pl_from_snapshot : LevelSnapshot -> Result PriceLevelError PriceLevel;
}.

(** book.rs, [prepare_snapshot_levels]: "Per-level duplicates are already
    rejected by [PriceLevel::from_snapshot]"; a snapshot keeps the price and
    the resting queue of its level. *)
Class SnapshotLaws `{!PriceLevelApi} `{!SnapshotApi} := {
  snapshot_price_spec : forall lv, ls_price (pl_snapshot lv) = pl_price lv;
  refresh_price_spec : forall s, ls_price (ls_refresh_aggregates s) = ls_price s;
  from_snapshot_price : forall s lv, pl_from_snapshot s = Ok lv -> pl_price lv = ls_price s;
  from_snapshot_nodup : forall s lv, pl_from_snapshot s = Ok lv -> NoDup (queue_ids lv);
  from_snapshot_queue : forall lv, NoDup (queue_ids lv) -> is_ok (pl_total_quantity lv) = true ->
    exists lv', pl_from_snapshot (ls_refresh_aggregates (pl_snapshot lv)) = Ok lv' /\ queue lv' = queue lv;
}.

Definition ORDERBOOK_SNAPSHOT_FORMAT_VERSION : N := 3.
Definition ORDERBOOK_SNAPSHOT_MIN_READ_VERSION : N := 2.

Section Snapshot.
Context {PA : PriceLevelApi} {SA : SnapshotApi} {WC : WallClock}.

Record OrderBookSnapshot := {
  sn_symbol : string;
  sn_timestamp : N;
  sn_bids : list LevelSnapshot;
  sn_asks : list LevelSnapshot;
}.

Record OrderBookSnapshotPackage := {
  pk_version : N;
  pk_snapshot : OrderBookSnapshot;
  pk_checksum : string;
  pk_fee_schedule : option FeeSchedule;
  pk_stp_mode : STPMode;
  pk_tick_size : option N;
  pk_lot_size : option N;
  pk_min_order_size : option N;
  pk_max_order_size : option N;
  pk_engine_seq : N;
  pk_kill_switch_engaged : bool;
  pk_risk_config : option RiskConfig;
  pk_market_close_timestamp : N;
  pk_has_market_close : bool;
}.

(** [compute_checksum] hashes the JSON text of the snapshot: serde_json and
    sha2 are not part of the repository. *)
Context (compute_checksum : OrderBookSnapshot -> Result OrderBookError string).

Definition refresh_aggregates (s : OrderBookSnapshot) : OrderBookSnapshot :=
  {| sn_symbol := sn_symbol s; sn_timestamp := sn_timestamp s;
     sn_bids := ls_refresh_aggregates <$> sn_bids s; sn_asks := ls_refresh_aggregates <$> sn_asks s |}.

(** The prices of a side in the order a snapshot lists them. *)
Definition snapshot_prices (side : Side) (b : OrderBook) : list N :=
  match side with
  | Buy => reverse (sm_iter (levels Buy b)).*1
  | Sell => (sm_iter (levels Sell b)).*1
  end.

Definition snapshot_side (side : Side) (depth : nat) (b : OrderBook) : list LevelSnapshot :=
  omap (fun price => pl_snapshot <$> levels side b !! price) (take depth (snapshot_prices side b)).

Definition create_snapshot (depth : nat) : ST OrderBook OrderBookSnapshot :=
  let! bid_levels := sget (snapshot_side Buy depth) in
  let! ask_levels := sget (snapshot_side Sell depth) in
  let! sym := sget (fun b => symbol (book_config b)) in
  let! now := clock_now in
  sret {| sn_symbol := sym; sn_timestamp := now; sn_bids := bid_levels; sn_asks := ask_levels |}.

Definition package_new (snapshot : OrderBookSnapshot) : Result OrderBookError OrderBookSnapshotPackage :=
  let snapshot := refresh_aggregates snapshot in
  match compute_checksum snapshot with
  | Err e => Err e
  | Ok checksum =>
      Ok {| pk_version := ORDERBOOK_SNAPSHOT_FORMAT_VERSION; pk_snapshot := snapshot;
            pk_checksum := checksum; pk_fee_schedule := None; pk_stp_mode := STPNone;
            pk_tick_size := None; pk_lot_size := None; pk_min_order_size := None;
            pk_max_order_size := None; pk_engine_seq := 0; pk_kill_switch_engaged := false;
            pk_risk_config := None; pk_market_close_timestamp := 0; pk_has_market_close := false |}
  end.

(** The assignments of [create_snapshot_package] after the package is built. *)
Definition with_book_state (b : OrderBook) (p : OrderBookSnapshotPackage) : OrderBookSnapshotPackage :=
  let cfg := book_config b in
  {| pk_version := pk_version p; pk_snapshot := pk_snapshot p; pk_checksum := pk_checksum p;
     pk_fee_schedule := fee_schedule cfg; pk_stp_mode := stp_mode cfg; pk_tick_size := tick_size cfg;
     pk_lot_size := lot_size cfg; pk_min_order_size := min_order_size cfg;
     pk_max_order_size := max_order_size cfg; pk_engine_seq := engine_seq b;
     pk_kill_switch_engaged := kill_switch b; pk_risk_config := config (risk_state b);
     pk_market_close_timestamp := market_close_timestamp b; pk_has_market_close := has_market_close b |}.

Definition create_snapshot_package (depth : nat) :
    ST OrderBook (Result OrderBookError OrderBookSnapshotPackage) :=
  let! snapshot := create_snapshot depth in
  match package_new snapshot with
  | Err e => sret (Err e)
  | Ok package => sget (fun b => Ok (with_book_state b package))
  end.

Definition validate (p : OrderBookSnapshotPackage) : Result OrderBookError unit :=
  if (pk_version p <? ORDERBOOK_SNAPSHOT_MIN_READ_VERSION)
     || (ORDERBOOK_SNAPSHOT_FORMAT_VERSION <? pk_version p)
  then Err (InvalidOperation (UnsupportedSnapshotVersion (pk_version p)
              ORDERBOOK_SNAPSHOT_MIN_READ_VERSION ORDERBOOK_SNAPSHOT_FORMAT_VERSION))
  else
    match compute_checksum (pk_snapshot p) with
    | Err e => Err e
    | Ok computed =>
        if negb (bool_decide (computed = pk_checksum p))
        then Err (ChecksumMismatch (pk_checksum p) computed)
        else Ok tt
    end.

Definition into_snapshot (p : OrderBookSnapshotPackage) : Result OrderBookError OrderBookSnapshot :=
  match validate p with Err e => Err e | Ok _ => Ok (pk_snapshot p) end.

(** ** Restore: the fallible phase *)

Fixpoint convert_levels (snaps : list LevelSnapshot) : Result OrderBookError (list (N * PriceLevel)) :=
  match snaps with
  | [] => Ok []
  | s :: snaps' =>
      match pl_from_snapshot s with
      | Err e => Err (EPriceLevelError e)
      | Ok level =>
          match convert_levels snaps' with
          | Err e => Err e
          | Ok converted => Ok ((ls_price s, level) :: converted)
          end
      end
  end.

(** The first adjacent pair with equal prices ([windows(2).find]). *)
Fixpoint duplicate_price (l : list (N * PriceLevel)) : option N :=
  match l with
  | x :: ((y :: _) as l') => if x.1 =? y.1 then Some x.1 else duplicate_price l'
  | _ => None
  end.

Definition prepare_side (side : Side) (snaps : list LevelSnapshot) :
    Result OrderBookError (list (N * PriceLevel)) :=
  match convert_levels snaps with
  | Err e => Err e
  | Ok converted =>
      let converted := merge_sort key_le converted in
      match duplicate_price converted with
      | Some price => Err (InvalidOperation (DuplicateSnapshotLevel side price))
      | None => Ok converted
      end
  end.

(** The scan with the [seen] set: the first id met twice. *)
Fixpoint duplicate_id (seen : gset Id) (ids : list Id) : option Id :=
  match ids with
  | [] => None
  | id :: ids' => if decide (id ∈ seen) then Some id else duplicate_id ({[id]} ∪ seen) ids'
  end.

Record PreparedSnapshotLevels := {
  prepared_bids : list (N * PriceLevel);
  prepared_asks : list (N * PriceLevel);
}.

Definition prepare_snapshot_levels (s : OrderBookSnapshot) : Result OrderBookError PreparedSnapshotLevels :=
  match prepare_side Buy (sn_bids s) with
  | Err e => Err e
  | Ok bids =>
      match prepare_side Sell (sn_asks s) with
      | Err e => Err e
      | Ok asks =>
          match duplicate_id ∅ (ids_of_levels (bids ++ asks)) with
          | Some id => Err (DuplicateOrderId id)
          | None => Ok {| prepared_bids := bids; prepared_asks := asks |}
          end
      end
  end.

Definition ensure_snapshot_symbol (s : OrderBookSnapshot) (b : OrderBook) : Result OrderBookError unit :=
  if bool_decide (sn_symbol s = symbol (book_config b)) then Ok tt
  else Err (InvalidOperation (SnapshotSymbolMismatch (sn_symbol s) (symbol (book_config b)))).

(** ** Restore: the commit *)

Definition reset_last_trade (b : OrderBook) : OrderBook :=
  {| indices := indices b; book_config := book_config b;
     transaction_id_generator := transaction_id_generator b; next_order_id := next_order_id b;
     engine_seq := engine_seq b; kill_switch := kill_switch b; risk_state := risk_state b;
     last_trade_price := 0; has_traded := false;
     market_close_timestamp := market_close_timestamp b; has_market_close := has_market_close b;
     cache := cache b; pegged_orders := pegged_orders b; trailing_stops := trailing_stops b;
     order_state_tracker := order_state_tracker b; clock := clock b; events := events b |}.

(** The resting orders of prepared levels, with where they rest. *)
Definition level_orders (side : Side) (l : list (N * PriceLevel)) : list (N * Side * OrderType unit) :=
  kv ← l; (fun o => (kv.1, side, o)) <$> queue kv.2.

(** One turn of [rebuild_side]. *)
Definition reindex_order (rebuild_risk : bool) (x : N * Side * OrderType unit) (b : OrderBook) : OrderBook :=
  let '(price, side, order) := x in
  let b := set_locations <[o_id order := (price, side)]> b in
  let b := track_user_order (o_user_id order) (o_id order) b in
  let b := register_special order b in
  if rebuild_risk then
    let remaining_qty := sat_add U64_MAX (visible_quantity order) (hidden_quantity order) in
    set_risk (on_admission (o_id order) (o_user_id order) price remaining_qty) b
  else b.

Definition install_levels (l : list (N * PriceLevel)) (m : gmap N PriceLevel) : gmap N PriceLevel :=
  foldl (fun m kv => <[kv.1 := kv.2]> m) m l.

Definition commit_restored_levels (prepared : PreparedSnapshotLevels) (rebuild_risk : bool)
    (b : OrderBook) : OrderBook :=
  let b := set_cache invalidate b in
  let b := set_side Sell (fun _ => ∅) (set_side Buy (fun _ => ∅) b) in
  let b := set_user_orders (fun _ => ∅) (set_locations (fun _ => ∅) b) in
  let b := set_specials_empty b in
  let b := set_market_close 0 false (reset_last_trade b) in
  let b := set_side Sell (install_levels (prepared_asks prepared))
             (set_side Buy (install_levels (prepared_bids prepared)) b) in
  foldl (fun b x => reindex_order rebuild_risk x b) b
    (level_orders Buy (prepared_bids prepared) ++ level_orders Sell (prepared_asks prepared)).

Definition restore_from_snapshot (s : OrderBookSnapshot) : ST OrderBook (Result OrderBookError unit) := fun b =>
  match ensure_snapshot_symbol s b with
  | Err e => (Err e, b)
  | Ok _ =>
      match prepare_snapshot_levels s with
      | Err e => (Err e, b)
      | Ok prepared => (Ok tt, commit_restored_levels prepared false b)
      end
  end.

Definition apply_package_config (p : OrderBookSnapshotPackage) : OrderBook -> OrderBook :=
  set_config_of_book (fun c =>
    {| symbol := symbol c; trade_listener := trade_listener c;
       price_level_changed_listener := price_level_changed_listener c;
       tick_size := pk_tick_size p; lot_size := pk_lot_size p; min_order_size := pk_min_order_size p;
       max_order_size := pk_max_order_size p; stp_mode := pk_stp_mode p;
       fee_schedule := pk_fee_schedule p |}).

Definition restore_from_snapshot_package (p : OrderBookSnapshotPackage) :
    ST OrderBook (Result OrderBookError unit) := fun b =>
  match into_snapshot p with
  | Err e => (Err e, b)
  | Ok snapshot =>
      match ensure_snapshot_symbol snapshot b with
      | Err e => (Err e, b)
      | Ok _ =>
          match prepare_snapshot_levels snapshot with
          | Err e => (Err e, b)
          | Ok prepared =>
              let b := set_risk (fun r => risk_clear
                         (match pk_risk_config p with Some cfg => set_config cfg r | None => disable r end)) b in
              let b := commit_restored_levels prepared true b in
              let b := apply_package_config p b in
              let b := set_kill_switch (pk_kill_switch_engaged p) (set_engine_seq (pk_engine_seq p) b) in
              (Ok tt, set_market_close (pk_market_close_timestamp p) (pk_has_market_close p) b)
          end
      end
  end.
End Snapshot.
Arguments OrderBookSnapshot {PA SA}. Arguments OrderBookSnapshotPackage {PA SA}.
