(* ===== verification/SnapshotProps.v ===== *)
(** * Properties of snapshots and restore

    A restore refuses a package without touching the book, or installs a
    well-formed one; restoring the package of a well-formed book reproduces
    its content, its queues, its configuration and its risk accounts. *)

From S2P Require Import Prelude Types PriceLevel PriceLevelFifo OrderQuantity Fees Stp Clock Cache Risk OrderState Reject SkipMap Book BookInv Matching MatchingInv Modifications ModificationsProps AddProps UpdateProps MassCancel Snapshot.
From stdpp Require Import sorting.
Local Open Scope N_scope.

Section Prepare.
Context {PA : PriceLevelApi} {PL : PriceLevelLaws} {SA : SnapshotApi} {SL : SnapshotLaws} {WC : WallClock}.
Implicit Types (l : list (N * PriceLevel)) (b : OrderBook) (R : Contents).

(** ** The checks of the fallible phase *)

Lemma duplicate_id_None ids : forall seen,
  duplicate_id seen ids = None -> NoDup ids /\ (forall id, id ∈ ids -> id ∉ seen).
Proof.
  induction ids as [|id ids IH]; intros seen H; simpl in H.
  { split; [constructor|by intros ? ?%elem_of_nil]. }
  case_decide; [done|]. apply IH in H as [Hnd Hf]. split.
  - constructor; [|done]. intros Hin%Hf. set_solver.
  - intros i [->|Hi]%elem_of_cons; [done|]. apply Hf in Hi. set_solver.
Qed.

Lemma duplicate_price_None l :
  StronglySorted key_le l -> duplicate_price l = None -> NoDup l.*1.
Proof.
  intros Hs H. assert (Hlt : StronglySorted key_lt l).
  { apply Sorted_StronglySorted; [apply _|]. apply StronglySorted_Sorted in Hs.
    induction Hs as [|x l Hs IH Hx]; [constructor|]. destruct Hx as [|y l Hxy]; simpl in H.
    - repeat constructor.
    - destruct (N.eqb_spec x.1 y.1); [done|]. constructor; [by apply IH|]. constructor.
      unfold key_le, key_lt in *. lia. }
  clear Hs H. induction Hlt as [|x l Hl IH Hx]; csimpl; constructor; [|done].
  intros (y & E & Hy)%list_elem_of_fmap. rewrite Forall_forall in Hx. specialize (Hx y Hy).
  unfold key_lt in Hx. lia.
Qed.

Lemma convert_levels_ok snaps : forall l,
  convert_levels snaps = Ok l ->
  Forall2 (fun s kv => kv.1 = ls_price s /\ pl_from_snapshot s = Ok kv.2) snaps l.
Proof.
  induction snaps as [|s snaps IH]; intros l H; simpl in H; [by simplify_eq|].
  destruct (pl_from_snapshot s) as [lv|] eqn:E; [|done].
  destruct (convert_levels snaps) as [l'|]; [|done]. simplify_eq. constructor; [done|by apply IH].
Qed.

(** Levels ready to be installed on one side. *)
Record installable l : Prop := {
  in_prices : NoDup l.*1;
  in_price : forall p lv, (p, lv) ∈ l -> pl_price lv = p;
  in_nodup : forall p lv, (p, lv) ∈ l -> NoDup (queue_ids lv);
}.

Lemma prepare_side_ok side snaps l :
  prepare_side side snaps = Ok l ->
  installable l /\ exists l0, l ≡ₚ l0 /\
    Forall2 (fun s kv => kv.1 = ls_price s /\ pl_from_snapshot s = Ok kv.2) snaps l0.
Proof.
  unfold prepare_side. destruct (convert_levels snaps) as [l0|] eqn:E; [|done].
  destruct (duplicate_price _) eqn:Hd; [done|]. intros [= <-]. apply convert_levels_ok in E.
  pose proof (merge_sort_Permutation key_le l0) as Hp.
  assert (Hel : forall p lv, (p, lv) ∈ merge_sort key_le l0 ->
    exists s, p = ls_price s /\ pl_from_snapshot s = Ok lv).
  { intros p lv Hin. rewrite Hp in Hin. apply list_elem_of_lookup in Hin as [i Hi].
    destruct (Forall2_lookup_r _ _ _ _ _ E Hi) as (s & _ & ?). by exists s. }
  split; [|eauto]. split.
  - apply duplicate_price_None; [|done]. apply (StronglySorted_merge_sort key_le).
  - intros p lv (s & -> & H)%Hel. by apply from_snapshot_price in H.
  - intros p lv (s & -> & H)%Hel. by apply from_snapshot_nodup in H.
Qed.

Lemma prepare_ok s prepared :
  prepare_snapshot_levels s = Ok prepared ->
  installable (prepared_bids prepared) /\ installable (prepared_asks prepared) /\
  NoDup (ids_of_levels (prepared_bids prepared ++ prepared_asks prepared)).
Proof.
  unfold prepare_snapshot_levels.
  destruct (prepare_side Buy _) as [l1|] eqn:E1; [|done].
  destruct (prepare_side Sell _) as [l2|] eqn:E2; [|done].
  destruct (duplicate_id _ _) eqn:Ed; [done|]. intros [= <-]. simpl.
  apply prepare_side_ok in E1 as [? _]. apply prepare_side_ok in E2 as [? _].
  apply duplicate_id_None in Ed as [? _]. done.
Qed.

(** ** The commit *)

Lemma install_lookup l : forall m p lv,
  NoDup l.*1 -> (forall q, q ∈ l.*1 -> m !! q = None) ->
  install_levels l m !! p = Some lv <-> (p, lv) ∈ l \/ m !! p = Some lv.
Proof.
  induction l as [|[q lv0] l IH]; intros m p lv Hnd Hm; csimpl.
  { rewrite elem_of_nil. tauto. }
  apply NoDup_cons in Hnd as [Hq Hnd]. change (install_levels l (<[q := lv0]> m) !! p = Some lv <->
    (p, lv) ∈ (q, lv0) :: l \/ m !! p = Some lv).
  rewrite IH; [|done|].
  2: { intros r Hr. rewrite lookup_insert_ne by (by intros ->). apply Hm. csimpl. by right. }
  rewrite elem_of_cons. destruct (decide (p = q)) as [->|Hne].
  - rewrite lookup_insert_eq, (Hm q) by (csimpl; by left). naive_solver.
  - rewrite lookup_insert_ne by done. naive_solver.
Qed.

Abbreviation entry := (N * Side * OrderType unit)%type.

Definition add_content (xs : list entry) R : Contents :=
  foldl (fun R x => <[o_id x.2 := (x.1, o_user_id x.2)]> R) R xs.
Definition entry_ids (xs : list entry) : list Id := (fun x => o_id x.2) <$> xs.

Lemma add_content_lookup xs : forall R id v,
  NoDup (entry_ids xs) -> (forall i, i ∈ entry_ids xs -> R !! i = None) ->
  add_content xs R !! id = Some v <->
  (exists x, x ∈ xs /\ id = o_id x.2 /\ v = (x.1, o_user_id x.2)) \/ R !! id = Some v.
Proof.
  induction xs as [|x xs IH]; intros R id v Hnd HR; csimpl.
  { setoid_rewrite elem_of_nil. naive_solver. }
  apply NoDup_cons in Hnd as [Hx Hnd].
  change (add_content xs (<[o_id x.2 := (x.1, o_user_id x.2)]> R) !! id = Some v <->
    (exists y, y ∈ x :: xs /\ id = o_id y.2 /\ v = (y.1, o_user_id y.2)) \/ R !! id = Some v).
  rewrite IH; [|done|].
  2: { intros i Hi. rewrite lookup_insert_ne by (by intros <-). apply HR. by right. }
  setoid_rewrite elem_of_cons. destruct (decide (id = o_id x.2)) as [->|Hne].
  - rewrite lookup_insert_eq, (HR (o_id x.2)) by (by left). naive_solver.
  - rewrite lookup_insert_ne by done. naive_solver.
Qed.

(** The fields a turn of [rebuild_side] leaves alone. *)
Definition reindexed b b' : Prop :=
  (forall s, levels s b' = levels s b) /\ cache b' = cache b /\ book_config b' = book_config b /\
  config (risk_state b') = config (risk_state b) /\
  has_traded b' = has_traded b /\ last_trade_price b' = last_trade_price b.
#[local] Instance reindexed_preorder : PreOrder reindexed.
Proof.
  split; [by intros ?|]. intros x y z (H1 & ? & ? & ? & ? & ?) (K1 & ? & ? & ? & ? & ?).
  split_and!; congruence.
Qed.

Lemma config_on_admission id a p q r : config (on_admission id a p q r) = config r.
Proof. unfold on_admission. by destruct (config r) eqn:E. Qed.

Lemma reindex_step rr x b R :
  indexed b R -> R !! o_id x.2 = None ->
  indexed (reindex_order rr x b) (<[o_id x.2 := (x.1, o_user_id x.2)]> R) /\
  reindexed b (reindex_order rr x b).
Proof.
  destruct x as [[p s] o]. intros [Hl Ho] HR. simpl in *.
  set (b1 := set_locations <[o_id o := (p, s)]> b).
  pose proof (owners_track R (o_id o) (o_user_id o) (p, s) b1 Ho HR) as Ho'.
  set (b2 := track_user_order (o_user_id o) (o_id o) b1) in *.
  assert (Hl2 : locations b2 = fst <$> <[o_id o := (p, s, o_user_id o)]> R).
  { rewrite fmap_insert. simpl. rewrite <- Hl. done. }
  assert (Hr2 : reindexed b b2) by (split_and!; done).
  assert (Hsp : forall b3, indices (register_special o b3) = indices b3 /\ reindexed b3 (register_special o b3)).
  { intros b3. destruct o; split; done. }
  destruct (Hsp b2) as [Hi Hr3].
  assert (Hl3 : locations (register_special o b2) = locations b2) by (unfold locations; by rewrite Hi).
  assert (Hu3 : users (register_special o b2) = users b2) by (unfold users; by rewrite Hi).
  assert (H3 : indexed (register_special o b2) (<[o_id o := (p, s, o_user_id o)]> R)).
  { split; [by rewrite Hl3|by rewrite Hu3]. }
  destruct rr; [|split; [done|by etransitivity]]. split; [exact H3|].
  etransitivity; [exact Hr2|]. etransitivity; [exact Hr3|]. split_and!; try done.
  apply config_on_admission.
Qed.

Lemma reindex_all rr xs : forall b R,
  indexed b R -> NoDup (entry_ids xs) -> (forall i, i ∈ entry_ids xs -> R !! i = None) ->
  indexed (foldl (fun b x => reindex_order rr x b) b xs) (add_content xs R) /\
  reindexed b (foldl (fun b x => reindex_order rr x b) b xs).
Proof.
  induction xs as [|x xs IH]; intros b R Hb Hnd HR; csimpl; [done|].
  apply NoDup_cons in Hnd as [Hx Hnd].
  destruct (reindex_step rr x b R Hb) as [H1 H2]; [apply HR; by left|].
  destruct (IH _ _ H1 Hnd) as [H3 H4].
  { intros i Hi. rewrite lookup_insert_ne by (by intros <-). apply HR. by right. }
  split; [exact H3|by etransitivity].
Qed.

Lemma level_orders_elem s s' p l o :
  (p, s', o) ∈ level_orders s l <-> s' = s /\ exists lv, (p, lv) ∈ l /\ o ∈ queue lv.
Proof.
  unfold level_orders. rewrite list_elem_of_bind. split.
  - intros ([q lv] & (o' & [= -> -> ->] & Ho)%list_elem_of_fmap & Hl). eauto.
  - intros (-> & lv & Hl & Ho). exists (p, lv). split; [|done]. apply list_elem_of_fmap. by exists o.
Qed.

Definition prepared_side (s : Side) (prepared : PreparedSnapshotLevels) : list (N * PriceLevel) :=
  match s with Buy => prepared_bids prepared | Sell => prepared_asks prepared end.
Definition prepared_entries (prepared : PreparedSnapshotLevels) : list entry :=
  level_orders Buy (prepared_bids prepared) ++ level_orders Sell (prepared_asks prepared).

Lemma prepared_entries_elem prepared p s o :
  (p, s, o) ∈ prepared_entries prepared <->
  exists lv, (p, lv) ∈ prepared_side s prepared /\ o ∈ queue lv.
Proof.
  unfold prepared_entries. rewrite elem_of_app, !level_orders_elem. destruct s; naive_solver.
Qed.

Lemma entry_ids_levels s l : entry_ids (level_orders s l) = ids_of_levels l.
Proof.
  unfold entry_ids, level_orders, ids_of_levels. induction l as [|[p lv] l IH]; csimpl; [done|].
  rewrite fmap_app, IH. f_equal. unfold queue_ids. by rewrite <- list_fmap_compose.
Qed.

Lemma prepared_ids prepared :
  entry_ids (prepared_entries prepared) =
  ids_of_levels (prepared_bids prepared ++ prepared_asks prepared).
Proof.
  unfold prepared_entries, entry_ids. rewrite fmap_app. fold (entry_ids (level_orders Buy (prepared_bids prepared))).
  fold (entry_ids (level_orders Sell (prepared_asks prepared))). rewrite !entry_ids_levels.
  unfold ids_of_levels. by rewrite bind_app.
Qed.

(** Everything a restore needs of the prepared levels. *)
Record ready prepared : Prop := {
  rd_side : forall s, installable (prepared_side s prepared);
  rd_ids : NoDup (entry_ids (prepared_entries prepared));
}.
Lemma prepare_ready s prepared : prepare_snapshot_levels s = Ok prepared -> ready prepared.
Proof. intros (? & ? & ?)%prepare_ok. split; [by intros []|by rewrite prepared_ids]. Qed.

Definition restored_content prepared : Contents := add_content (prepared_entries prepared) ∅.

Lemma restored_content_lookup prepared id v :
  ready prepared ->
  restored_content prepared !! id = Some v <->
  exists x, x ∈ prepared_entries prepared /\ id = o_id x.2 /\ v = (x.1, o_user_id x.2).
Proof.
  intros [_ Hnd]. unfold restored_content.
  rewrite add_content_lookup; [|done|intros; apply lookup_empty]. rewrite lookup_empty. naive_solver.
Qed.

Lemma commit_spec rr prepared b :
  ready prepared ->
  let b' := commit_restored_levels prepared rr b in
  (forall s p lv, levels s b' !! p = Some lv <-> (p, lv) ∈ prepared_side s prepared) /\
  rests b' (restored_content prepared) /\ indexed b' (restored_content prepared) /\
  cache_clear b' /\ book_config b' = book_config b /\
  config (risk_state b') = config (risk_state b) /\ get_last_trade_price b' = None.
Proof.
  intros Hrd b'. pose proof Hrd as [Hin Hnd].
  set (b0 := set_side Sell (install_levels (prepared_asks prepared))
    (set_side Buy (install_levels (prepared_bids prepared))
      (set_market_close 0 false (reset_last_trade (set_specials_empty (set_user_orders (fun _ => ∅)
        (set_locations (fun _ => ∅) (set_side Sell (fun _ => ∅) (set_side Buy (fun _ => ∅)
          (set_cache invalidate b)))))))))).
  assert (Hb' : b' = foldl (fun b x => reindex_order rr x b) b0 (prepared_entries prepared)) by done.
  destruct (reindex_all rr (prepared_entries prepared) b0 ∅) as [Hix (Hlv & Hca & Hcf & Hrk & Ht & _)].
  { split; [by rewrite fmap_empty|]. split; intros *; rewrite ?lookup_empty.
    - change (users b0) with (∅ : gmap Hash32 (list Id)). by rewrite lookup_empty.
    - change (users b0) with (∅ : gmap Hash32 (list Id)). setoid_rewrite lookup_empty. naive_solver. }
  { done. }
  { intros; apply lookup_empty. }
  rewrite <- Hb' in *.
  assert (Hlevels : forall s p lv, levels s b' !! p = Some lv <-> (p, lv) ∈ prepared_side s prepared).
  { intros s p lv. rewrite Hlv.
    assert (E : levels s b0 = install_levels (prepared_side s prepared) ∅) by (by destruct s).
    rewrite E, install_lookup; [|apply Hin|intros; apply lookup_empty]. rewrite lookup_empty. naive_solver. }
  split_and!; [done| |done| | | |].
  - split.
    + intros s p lv Hl%Hlevels. by eapply (in_price _ (Hin s)).
    + intros s p lv Hl%Hlevels. by eapply (in_nodup _ (Hin s)).
    + intros id p s u. rewrite restored_content_lookup by done. split.
      * intros ([[p' s'] o] & (lv & Hl & Ho)%prepared_entries_elem & -> & [= <- <- ->]).
        exists lv. split; [by apply Hlevels|]. apply list_elem_of_fmap. by exists o.
      * intros (lv & Hl%Hlevels & (o & [= -> ->] & Ho)%list_elem_of_fmap).
        exists (p, s, o). split_and!; [|done|done]. apply prepared_entries_elem. eauto.
  - unfold cache_clear. rewrite Hca. done.
  - rewrite Hcf. done.
  - rewrite Hrk. done.
  - unfold get_last_trade_price. rewrite Ht. done.
Qed.

(** ** Restore, sound or without effect *)

Context (compute_checksum : OrderBookSnapshot -> Result OrderBookError string).
Implicit Types (pkg : OrderBookSnapshotPackage).

(** The state a successful restore of [pkg] builds from [b]. *)
Definition restored pkg prepared b : OrderBook :=
  set_market_close (pk_market_close_timestamp pkg) (pk_has_market_close pkg)
    (set_kill_switch (pk_kill_switch_engaged pkg) (set_engine_seq (pk_engine_seq pkg)
      (apply_package_config pkg (commit_restored_levels prepared true
        (set_risk (fun r => risk_clear
           (match pk_risk_config pkg with Some cfg => set_config cfg r | None => disable r end)) b))))).

Lemma restore_inv pkg b r b' :
  restore_from_snapshot_package compute_checksum pkg b = (r, b') ->
  match r with
  | Err _ => b' = b
  | Ok _ => validate compute_checksum pkg = Ok tt /\ sn_symbol (pk_snapshot pkg) = symbol (book_config b) /\
      exists prepared, prepare_snapshot_levels (pk_snapshot pkg) = Ok prepared /\ b' = restored pkg prepared b
  end.
Proof.
  unfold restore_from_snapshot_package, into_snapshot, ensure_snapshot_symbol.
  destruct (validate _ pkg) as [[]|]; [|by intros [= <- <-]].
  case_bool_decide; [|by intros [= <- <-]].
  destruct (prepare_snapshot_levels _) as [prepared|]; [|by intros [= <- <-]].
  intros [= <- <-]. eauto.
Qed.

Lemma restored_spec pkg prepared b :
  ready prepared ->
  let b' := restored pkg prepared b in
  (forall s p lv, levels s b' !! p = Some lv <-> (p, lv) ∈ prepared_side s prepared) /\
  rests b' (restored_content prepared) /\ indexed b' (restored_content prepared) /\ cache_ok b' /\
  config (risk_state b') = pk_risk_config pkg.
Proof.
  intros Hrd b'.
  set (b0 := set_risk (fun r => risk_clear
    (match pk_risk_config pkg with Some cfg => set_config cfg r | None => disable r end)) b).
  destruct (commit_spec true prepared b0 Hrd) as (H1 & H2 & H3 & H4 & _ & H5 & _).
  split_and!; [exact H1|by eapply (rests_same_levels (commit_restored_levels prepared true b0))|
    by eapply (indexed_same (commit_restored_levels prepared true b0))|by apply cache_clear_ok|].
  change (config (risk_state b')) with (config (risk_state (commit_restored_levels prepared true b0))).
  rewrite H5. simpl. by destruct (pk_risk_config pkg).
Qed.

(** C23.  A restore is all or nothing, and what it installs is sound.  If
    [restore_from_snapshot_package] fails, the book is exactly the one before
    the call.  If it succeeds, the package had a supported version, its
    checksum and the symbol matched, and in the book it installs the levels,
    the location index and the user index agree, no id rests twice and the
    cache is right: with no empty level among those restored, the book is
    well formed. *)
Theorem restore_all_or_nothing pkg b r b' :
  restore_from_snapshot_package compute_checksum pkg b = (r, b') ->
  match r with
  | Err _ => b' = b
  | Ok _ =>
      2 <= pk_version pkg <= 3 /\ compute_checksum (pk_snapshot pkg) = Ok (pk_checksum pkg) /\
      sn_symbol (pk_snapshot pkg) = symbol (book_config b) /\
      rests b' (content b') /\ indexed b' (content b') /\ cache_ok b' /\
      (no_empty_level b' -> book_rep b' (content b'))
  end.
Proof.
  intros H. apply restore_inv in H. destruct r as [[]|e]; [|done].
  destruct H as (Hv & Hs & prepared & Hp & ->). apply prepare_ready in Hp.
  destruct (restored_spec pkg prepared b Hp) as (_ & Hr & Hi & Hc & _).
  rewrite <- (rests_content _ _ Hr). unfold validate in Hv.
  destruct (N.ltb_spec (pk_version pkg) ORDERBOOK_SNAPSHOT_MIN_READ_VERSION); [done|].
  destruct (N.ltb_spec ORDERBOOK_SNAPSHOT_FORMAT_VERSION (pk_version pkg)); [done|]. simpl in Hv.
  destruct (compute_checksum (pk_snapshot pkg)) as [c|]; [|done].
  case_bool_decide; [|done]. simplify_eq. by split_and!.
Qed.

(** ** The risk accounts *)

Definition risk_entry (x : entry) : RiskEntry :=
  {| account := o_user_id x.2; entry_price := x.1.1;
     remaining_qty := sat_add U64_MAX (visible_quantity x.2) (hidden_quantity x.2) |}.
Definition add_risk (xs : list entry) (m : gmap Id RiskEntry) : gmap Id RiskEntry :=
  foldl (fun m x => <[o_id x.2 := risk_entry x]> m) m xs.

Lemma representable_delete m id e :
  m !! id = None -> representable (<[id := e]> m) -> representable m.
Proof.
  intros Hid Hr a. destruct (Hr a) as [H1 H2].
  rewrite acct_open_insert in H1 by done. rewrite acct_notional_insert in H2 by done. lia.
Qed.

Lemma add_risk_representable xs : forall m,
  NoDup (entry_ids xs) -> (forall i, i ∈ entry_ids xs -> m !! i = None) ->
  representable (add_risk xs m) -> representable m.
Proof.
  induction xs as [|x xs IH]; intros m Hnd Hm Hr; [done|]. apply NoDup_cons in Hnd as [Hx Hnd].
  apply (representable_delete m (o_id x.2) (risk_entry x)); [apply Hm; by left|].
  apply IH; [done| |exact Hr]. intros i Hi. rewrite lookup_insert_ne by (by intros <-).
  apply Hm. by right.
Qed.

Lemma add_risk_lookup xs : forall m id e,
  NoDup (entry_ids xs) -> (forall i, i ∈ entry_ids xs -> m !! i = None) ->
  add_risk xs m !! id = Some e <-> (exists x, x ∈ xs /\ id = o_id x.2 /\ e = risk_entry x) \/ m !! id = Some e.
Proof.
  induction xs as [|x xs IH]; intros m id e Hnd Hm.
  { simpl. setoid_rewrite elem_of_nil. naive_solver. }
  apply NoDup_cons in Hnd as [Hx Hnd].
  change (add_risk xs (<[o_id x.2 := risk_entry x]> m) !! id = Some e <->
    (exists y, y ∈ x :: xs /\ id = o_id y.2 /\ e = risk_entry y) \/ m !! id = Some e).
  rewrite IH; [|done|].
  2: { intros i Hi. rewrite lookup_insert_ne by (by intros <-). apply Hm. by right. }
  setoid_rewrite elem_of_cons. destruct (decide (id = o_id x.2)) as [->|Hne].
  - rewrite lookup_insert_eq, (Hm (o_id x.2)) by (by left). naive_solver.
  - rewrite lookup_insert_ne by done. naive_solver.
Qed.

Lemma reindex_risk x b :
  risk_state (reindex_order true x b) =
  on_admission (o_id x.2) (account (risk_entry x)) x.1.1 (remaining_qty (risk_entry x)) (risk_state b).
Proof. destruct x as [[p s] o]. by destruct o. Qed.

Lemma rebuild_risk xs : forall b cfg,
  config (risk_state b) = Some cfg -> NoDup (entry_ids xs) ->
  (forall i, i ∈ entry_ids xs -> risk_orders (risk_state b) !! i = None) ->
  let b' := foldl (fun b x => reindex_order true x b) b xs in
  risk_orders (risk_state b') = add_risk xs (risk_orders (risk_state b)) /\
  (exact (risk_state b) -> representable (risk_orders (risk_state b')) -> exact (risk_state b')).
Proof.
  induction xs as [|x xs IH]; intros b cfg Hcfg Hnd Hm; [done|]. apply NoDup_cons in Hnd as [Hx Hnd].
  set (b1 := reindex_order true x b).
  assert (Ho : risk_orders (risk_state b1) = <[o_id x.2 := risk_entry x]> (risk_orders (risk_state b))).
  { unfold b1. rewrite reindex_risk. unfold on_admission. by rewrite Hcfg. }
  assert (Hc1 : config (risk_state b1) = Some cfg).
  { unfold b1. by rewrite reindex_risk, config_on_admission. }
  assert (Hm1 : forall i, i ∈ entry_ids xs -> risk_orders (risk_state b1) !! i = None).
  { intros i Hi. rewrite Ho, lookup_insert_ne by (by intros <-). apply Hm. by right. }
  destruct (IH b1 cfg Hc1 Hnd Hm1) as [E1 E2]. cbn [foldl]. fold b1. split.
  - rewrite E1, Ho. done.
  - intros Hex Hr. apply E2; [|exact Hr]. unfold b1. rewrite reindex_risk.
    apply on_admission_exact; [done|apply Hm; by left|]. rewrite <- reindex_risk. fold b1.
    rewrite E1 in Hr. by apply (add_risk_representable xs).
Qed.

(** A restore rebuilds the risk accounts.  After a successful restore
    of a package with a risk configuration, that configuration is installed,
    the orders charged to the accounts are exactly the orders resting in the
    restored book, each to its owner, at its level's price and for its whole
    remaining quantity, and the per-account counters are the exact totals
    (if they fit their machine types); a package without one leaves risk
    disabled with empty accounts. *)
Theorem restore_rebuilds_risk pkg b b' :
  restore_from_snapshot_package compute_checksum pkg b = (Ok tt, b') ->
  config (risk_state b') = pk_risk_config pkg /\
  (representable (risk_orders (risk_state b')) -> exact (risk_state b')) /\
  match pk_risk_config pkg with
  | None => risk_orders (risk_state b') = ∅
  | Some _ =>
      forall id e, risk_orders (risk_state b') !! id = Some e <->
        exists s p lv o, levels s b' !! p = Some lv /\ o ∈ queue lv /\ o_id o = id /\
          e = {| account := o_user_id o; entry_price := p;
                 remaining_qty := sat_add U64_MAX (visible_quantity o) (hidden_quantity o) |}
  end.
Proof.
  intros (_ & _ & prepared & Hp & ->)%restore_inv. apply prepare_ready in Hp as Hrd.
  destruct (restored_spec pkg prepared b Hrd) as (Hl & _ & _ & _ & Hcfg). split; [done|].
  set (b' := restored pkg prepared b) in *.
  set (rs0 := risk_clear (match pk_risk_config pkg with
    | Some cfg => set_config cfg (risk_state b) | None => disable (risk_state b) end)).
  assert (Hb : exists b0, risk_state b0 = rs0 /\
    risk_state b' = risk_state (foldl (fun b x => reindex_order true x b) b0 (prepared_entries prepared))).
  { eexists. split; [|reflexivity]. done. }
  destruct Hb as (b0 & Hb0 & Hb').
  assert (Hex : exact rs0) by (intros a; unfold rs0; by destruct (pk_risk_config pkg)).
  destruct (pk_risk_config pkg) as [cfg|] eqn:Epk.
  - destruct (rebuild_risk (prepared_entries prepared) b0 cfg) as [E1 E2];
      [by rewrite Hb0|apply Hrd|by rewrite Hb0; intros; apply lookup_empty|].
    rewrite <- Hb' in E1, E2. rewrite Hb0 in E1, E2. split; [by apply E2|].
    intros id e. rewrite E1, add_risk_lookup; [|apply Hrd|intros; apply lookup_empty].
    change (risk_orders rs0) with (∅ : gmap Id RiskEntry). rewrite lookup_empty. split.
    + intros [([[p s] o] & (lv & Hin & Ho)%prepared_entries_elem & -> & ->)|]; [|done].
      exists s, p, lv, o. split_and!; try done. by apply Hl.
    + intros (s & p & lv & o & Hlv%Hl & Ho & <- & ->). left. exists (p, s, o).
      split_and!; try done. apply prepared_entries_elem. eauto.
  - assert (E : risk_state b' = rs0).
    { rewrite Hb', <- Hb0. assert (Hn : config (risk_state b0) = None) by (by rewrite Hb0).
      clear -Hn. revert b0 Hn. induction (prepared_entries prepared) as [|x xs IH]; intros b0 Hn; [done|].
      cbn [foldl]. assert (Es : risk_state (reindex_order true x b0) = risk_state b0).
      { rewrite reindex_risk. unfold on_admission. by rewrite Hn. }
      rewrite IH; [done|by rewrite Es]. }
    rewrite E. done.
Qed.

(** ** The round trip *)

Lemma duplicate_price_distinct l : NoDup l.*1 -> duplicate_price l = None.
Proof.
  induction l as [|x [|y l] IH]; intros Hnd; [done|done|]. apply NoDup_cons in Hnd as [Hx Hnd].
  cbn [duplicate_price]. destruct (N.eqb_spec x.1 y.1) as [E|]; [|by apply IH].
  exfalso. apply Hx. rewrite E. csimpl. by left.
Qed.

Lemma duplicate_id_distinct ids : forall seen,
  NoDup ids -> (forall id, id ∈ ids -> id ∉ seen) -> duplicate_id seen ids = None.
Proof.
  induction ids as [|id ids IH]; intros seen Hnd Hf; [done|]. apply NoDup_cons in Hnd as [Hx Hnd].
  simpl. rewrite decide_False by (apply Hf; by left). apply IH; [done|].
  intros i Hi. assert (i <> id) by (by intros ->). assert (i ∉ seen) by (apply Hf; by right). set_solver.
Qed.

(** The levels of a side in the order of a snapshot. *)
Definition listed (s : Side) b : list (N * PriceLevel) :=
  match s with Buy => reverse (sm_iter (levels Buy b)) | Sell => sm_iter (levels Sell b) end.

Lemma listed_perm s b : listed s b ≡ₚ sm_iter (levels s b).
Proof. destruct s; simpl; [apply reverse_Permutation|done]. Qed.

Lemma snapshot_prices_listed s b : snapshot_prices s b = (listed s b).*1.
Proof. destruct s; simpl; [by rewrite fmap_reverse|done]. Qed.

Lemma snapshot_side_listed s depth b :
  (size (levels s b) <= depth)%nat ->
  snapshot_side s depth b = (fun kv => pl_snapshot kv.2) <$> listed s b.
Proof.
  intros Hd. unfold snapshot_side. rewrite snapshot_prices_listed, take_ge.
  2: { rewrite length_fmap, listed_perm, sm_iter_perm, length_map_to_list. done. }
  assert (Hin : forall p lv, (p, lv) ∈ listed s b -> levels s b !! p = Some lv).
  { intros p lv. rewrite listed_perm. apply elem_of_sm_iter. }
  induction (listed s b) as [|[p lv] l IH]; csimpl; [done|].
  rewrite (Hin p lv) by left. csimpl. f_equal. apply IH. intros q lv' H. apply Hin. by right.
Qed.

(** A level read back: same price, same queue. *)
Definition same_level (kv kv' : N * PriceLevel) : Prop := kv'.1 = kv.1 /\ queue kv'.2 = queue kv.2.

Lemma convert_listed l :
  (forall p lv, (p, lv) ∈ l -> pl_price lv = p /\ NoDup (queue_ids lv) /\ is_ok (pl_total_quantity lv) = true) ->
  exists l', convert_levels (ls_refresh_aggregates <$> ((fun kv => pl_snapshot kv.2) <$> l)) = Ok l' /\
    Forall2 same_level l l'.
Proof.
  induction l as [|[p lv] l IH]; intros Hl; csimpl; [by exists []|].
  destruct (Hl p lv) as (Hp & Hnd & Ht); [by left|].
  destruct (from_snapshot_queue lv Hnd Ht) as (lv' & -> & Hq).
  destruct IH as (l' & -> & Hf); [intros q lv1 H; apply Hl; by right|].
  eexists. split; [reflexivity|]. constructor; [|done]. split; [|done]. simpl.
  by rewrite refresh_price_spec, snapshot_price_spec.
Qed.

Lemma same_level_keys l l' : Forall2 same_level l l' -> l'.*1 = l.*1 /\ ids_of_levels l' = ids_of_levels l.
Proof.
  induction 1 as [|[p lv] [p' lv'] l l' [Hp Hq] _ [IH1 IH2]]; [done|]. simpl in Hp, Hq. csimpl. split; [congruence|].
  unfold ids_of_levels in *. csimpl. rewrite IH2. f_equal. unfold queue_ids, queue in *. by rewrite Hq.
Qed.

Lemma prepare_listed s b R :
  rests b R -> (forall p lv, levels s b !! p = Some lv -> is_ok (pl_total_quantity lv) = true) ->
  exists l, prepare_side s (ls_refresh_aggregates <$> ((fun kv => pl_snapshot kv.2) <$> listed s b)) = Ok l /\
    ids_of_levels l ≡ₚ collect_order_ids_by_side s b /\
    (forall p, queue <$> (list_to_map l : gmap N PriceLevel) !! p = queue <$> levels s b !! p).
Proof.
  intros Hr Ht.
  assert (Hin : forall p lv, (p, lv) ∈ listed s b <-> levels s b !! p = Some lv).
  { intros p lv. rewrite listed_perm. apply elem_of_sm_iter. }
  destruct (convert_listed (listed s b)) as (l' & Hc & Hf).
  { intros p lv Hlv%Hin. split_and!; [by eapply rests_price|by eapply rests_nodup|by eapply Ht]. }
  destruct (same_level_keys _ _ Hf) as [Hk Hi].
  pose proof (merge_sort_Permutation key_le l') as Hp.
  assert (Hnd : NoDup (listed s b).*1) by (rewrite listed_perm; apply sm_iter_keys_NoDup).
  assert (Hnd' : NoDup (merge_sort key_le l').*1) by (by rewrite Hp, Hk).
  exists (merge_sort key_le l'). unfold prepare_side. rewrite Hc. cbv zeta.
  rewrite duplicate_price_distinct by done. split_and!; [done| |].
  - unfold collect_order_ids_by_side. unfold ids_of_levels in *. by rewrite Hp, Hi, listed_perm.
  - intros p. destruct (levels s b !! p) as [lv|] eqn:E; simpl.
    + apply Hin, list_elem_of_lookup in E as [i Ei].
      destruct (Forall2_lookup_l _ _ _ _ _ Hf Ei) as ([p' lv'] & Ei' & [Hp' Hq']). simpl in *. subst p'.
      apply list_elem_of_lookup_2 in Ei'. rewrite <- Hp in Ei'.
      rewrite (elem_of_list_to_map_1 _ p lv' Hnd' Ei'). simpl. by rewrite Hq'.
    + rewrite (not_elem_of_list_to_map_1 _ p); [done|]. rewrite Hp, Hk.
      intros ([q lv] & -> & Hq%Hin)%list_elem_of_fmap. simpl in E. congruence.
Qed.

(** Levels with the same queues hold the same orders. *)
Lemma rests_requeue b b' R R' :
  rests b R -> rests b' R' -> (forall s p, queue <$> levels s b' !! p = queue <$> levels s b !! p) ->
  rests b' R.
Proof.
  intros [_ _ H3] [K1 K2 _] Hq. split; [done|done|]. intros id p s u. rewrite H3.
  specialize (Hq s p).
  split; intros (lv & Hlv & Hin); rewrite Hlv in Hq;
    [destruct (levels s b' !! p) as [lv'|]|destruct (levels s b !! p) as [lv'|]]; simplify_eq/=;
    exists lv'; split; try done; congruence.
Qed.

Lemma level_set_map l : NoDup l.*1 -> forall p lv, (p, lv) ∈ l <-> (list_to_map l : gmap N PriceLevel) !! p = Some lv.
Proof. intros Hnd p lv. by rewrite <- elem_of_list_to_map. Qed.

Lemma create_package_inv depth b pkg b1 :
  create_snapshot_package compute_checksum depth b = (Ok pkg, b1) ->
  exists ts c ck,
    let snap := refresh_aggregates {| sn_symbol := symbol (book_config b); sn_timestamp := ts;
                  sn_bids := snapshot_side Buy depth b; sn_asks := snapshot_side Sell depth b |} in
    compute_checksum snap = Ok ck /\ b1 = set_clock c b /\
    pk_version pkg = 3 /\ pk_snapshot pkg = snap /\ pk_checksum pkg = ck /\
    pkg = with_book_state b pkg.
Proof.
  unfold create_snapshot_package, create_snapshot, sbind, sget, sret, clock_now.
  destruct (now_millis (clock b)) as [ts c]. cbv beta iota. unfold package_new. intros H.
  destruct (compute_checksum _) as [ck|] eqn:E; [|done]. injection H as <- <-.
  exists ts, c, ck. split_and!; done.
Qed.

(** C6.  A snapshot restores the book.  Take a package of a well-formed
    book, all of whose levels' totals fit their type, with room for all its
    levels, and restore it into any book of the same symbol.  The restore succeeds and the new book is well formed with
    the same content — the same orders at the same prices, sides and owners —
    and the same queue at every level; it has the same tick, lot and size
    limits, fees, self-trade prevention mode, kill switch, market close, risk
    configuration and engine sequence number. *)
Theorem snapshot_roundtrip depth b R pkg b1 target :
  book_rep b R ->
  (forall s p lv, levels s b !! p = Some lv -> is_ok (pl_total_quantity lv) = true) ->
  (forall s, (size (levels s b) <= depth)%nat) ->
  symbol (book_config target) = symbol (book_config b) ->
  create_snapshot_package compute_checksum depth b = (Ok pkg, b1) ->
  exists b', restore_from_snapshot_package compute_checksum pkg target = (Ok tt, b') /\
    book_rep b' R /\
    (forall s p, queue <$> levels s b' !! p = queue <$> levels s b !! p) /\
    (let c := book_config b in let c' := book_config b' in
     (tick_size c', lot_size c', min_order_size c', max_order_size c', stp_mode c', fee_schedule c') =
     (tick_size c, lot_size c, min_order_size c, max_order_size c, stp_mode c, fee_schedule c)) /\
    engine_seq b' = engine_seq b /\ kill_switch b' = kill_switch b /\
    market_close_timestamp b' = market_close_timestamp b /\ has_market_close b' = has_market_close b /\
    config (risk_state b') = config (risk_state b).
Proof.
  intros Hrep Ht Hd Hsym H. pose proof (rep_rests _ _ Hrep) as Hr.
  apply create_package_inv in H as (ts & c & ck & Hck & _ & Hv & Hsn & Hcs & Hst).
  unfold refresh_aggregates in Hck, Hsn. rewrite !snapshot_side_listed in Hck, Hsn by apply Hd.
  cbn [sn_symbol sn_timestamp sn_bids sn_asks] in Hck, Hsn.
  destruct (prepare_listed Buy b R Hr (Ht Buy)) as (l1 & E1 & I1 & Q1).
  destruct (prepare_listed Sell b R Hr (Ht Sell)) as (l2 & E2 & I2 & Q2).
  set (prepared := {| prepared_bids := l1; prepared_asks := l2 |}).
  assert (Hprep : prepare_snapshot_levels (pk_snapshot pkg) = Ok prepared).
  { unfold prepare_snapshot_levels. rewrite Hsn. cbn [sn_bids sn_asks]. rewrite E1, E2, duplicate_id_distinct; [done| |].
    - unfold ids_of_levels. rewrite bind_app. fold (ids_of_levels l1) (ids_of_levels l2).
      rewrite I1, I2. apply (all_ids_spec b R Hr).
    - intros; apply not_elem_of_empty. }
  pose proof (prepare_ready _ _ Hprep) as Hrd.
  destruct (restored_spec pkg prepared target Hrd) as (Hl & Hr' & Hi' & Hc' & Hcfg).
  set (b' := restored pkg prepared target) in *. exists b'.
  assert (Hq : forall s p, queue <$> levels s b' !! p = queue <$> levels s b !! p).
  { intros s p. assert (E : levels s b' !! p = (list_to_map (prepared_side s prepared) : gmap N PriceLevel) !! p).
    { apply option_eq. intros lv. rewrite Hl. apply level_set_map, (rd_side _ Hrd). }
    rewrite E. destruct s; [apply Q1|apply Q2]. }
  assert (HrR : rests b' R) by (by eapply rests_requeue).
  rewrite (rests_content _ _ Hr'), <- (rests_content _ _ HrR) in Hi'.
  split_and!; [| |exact Hq| |exact (f_equal pk_engine_seq Hst)|exact (f_equal pk_kill_switch_engaged Hst)|
    exact (f_equal pk_market_close_timestamp Hst)|exact (f_equal pk_has_market_close Hst)|
    rewrite Hcfg; exact (f_equal pk_risk_config Hst)].
  - unfold restore_from_snapshot_package, into_snapshot, ensure_snapshot_symbol.
    assert (Hval : validate compute_checksum pkg = Ok tt).
    { unfold validate. rewrite Hv, Hsn, Hck. simpl. by rewrite bool_decide_true. }
    rewrite Hval, Hprep, bool_decide_true; [done|]. rewrite Hsn. by symmetry.
  - split; [done|done| |done]. intros s p lv Hlv. specialize (Hq s p). rewrite Hlv in Hq.
    destruct (levels s b !! p) as [lv0|] eqn:E0; simplify_eq/=. rewrite Hq. by eapply (rep_no_empty _ _ Hrep).
  - exact (f_equal (fun p => (pk_tick_size p, pk_lot_size p, pk_min_order_size p, pk_max_order_size p,
      pk_stp_mode p, pk_fee_schedule p)) Hst).
Qed.
End Prepare.
