(* ===== verification/SnapshotQueries.v ===== *)
(** * Questions to a snapshot and enriched snapshots (snapshot.rs)

    The prices and volumes an [OrderBookSnapshot] answers from its levels,
    and [EnrichedSnapshot], which carries such figures with the levels.
    Plain [u64] and [u128] sums wrap, as in a release build. *)

From S2P Require Import Prelude Float64 Types PriceLevel OrderQuantity Fees Stp Clock Cache Risk OrderState Reject SkipMap Book BookInv Depth DepthProps Snapshot.
From stdpp Require Import sorting.
Local Open Scope N_scope.

(** What the queries use of a level snapshot besides its price. *)
Class SnapshotQueryApi `{SnapshotApi} := {
  ls_visible_quantity : LevelSnapshot -> N;
  ls_total_quantity : LevelSnapshot -> Result PriceLevelError N;
}.

(** A snapshot of a level carries the level's own figures. *)
Class SnapshotQueryLaws `{SnapshotQueryApi} := {
  snapshot_visible_spec : forall lv, ls_visible_quantity (pl_snapshot lv) = pl_visible_quantity lv;
  snapshot_total_spec : forall lv, ls_total_quantity (pl_snapshot lv) = pl_total_quantity lv;
}.

Section Queries.
Context {PA : PriceLevelApi} {SA : SnapshotApi} {SQ : SnapshotQueryApi} {WC : WallClock}.

(** ** [OrderBookSnapshot] *)

(** [Iterator::max_by_key] keeps the last of equal keys, [min_by_key] the first. *)
Definition max_by_price (l : list (N * N)) : option (N * N) :=
  match l with
  | [] => None
  | x :: l => Some (foldl (fun x y => if y.1 <? x.1 then x else y) x l)
  end.
Definition min_by_price (l : list (N * N)) : option (N * N) :=
  match l with
  | [] => None
  | x :: l => Some (foldl (fun x y => if y.1 <? x.1 then y else x) x l)
  end.

Definition price_and_visible (s : LevelSnapshot) : N * N := (ls_price s, ls_visible_quantity s).
Definition sn_best_bid (s : OrderBookSnapshot) : option (N * N) := max_by_price (price_and_visible <$> sn_bids s).
Definition sn_best_ask (s : OrderBookSnapshot) : option (N * N) := min_by_price (price_and_visible <$> sn_asks s).

Definition sn_mid_price (s : OrderBookSnapshot) : option f64 :=
  match sn_best_bid s, sn_best_ask s with
  | Some (bid_price, _), Some (ask_price, _) =>
      Some (f64_div (f64_add (f64_of_N bid_price) (f64_of_N ask_price)) (f64_of_N 2))
  | _, _ => None
  end.
Definition sn_spread (s : OrderBookSnapshot) : option N :=
  match sn_best_bid s, sn_best_ask s with
  | Some (bid_price, _), Some (ask_price, _) => Some (sat_sub ask_price bid_price)
  | _, _ => None
  end.

(** [level.total_quantity().map_or(0, |q| q.as_u64())] *)
Definition ls_total (s : LevelSnapshot) : N := match ls_total_quantity s with Ok q => q | Err _ => 0 end.
(** [Iterator::sum] *)
Definition wrapping_sum (mx : N) (l : list N) : N := foldl (wrapping_add mx) 0 l.
Definition ls_value (s : LevelSnapshot) : N := sat_mul U128_MAX (ls_price s) (ls_total s).

Definition total_bid_volume (s : OrderBookSnapshot) : N := wrapping_sum U64_MAX (ls_total <$> sn_bids s).
Definition total_ask_volume (s : OrderBookSnapshot) : N := wrapping_sum U64_MAX (ls_total <$> sn_asks s).
Definition total_bid_value (s : OrderBookSnapshot) : N := wrapping_sum U128_MAX (ls_value <$> sn_bids s).
Definition total_ask_value (s : OrderBookSnapshot) : N := wrapping_sum U128_MAX (ls_value <$> sn_asks s).

(** ** [EnrichedSnapshot] *)

Definition MID_PRICE : N := N.shiftl 1 0.
Definition SPREAD : N := N.shiftl 1 1.
Definition DEPTH : N := N.shiftl 1 2.
Definition VWAP : N := N.shiftl 1 3.
Definition IMBALANCE : N := N.shiftl 1 4.
Definition ALL : N := N.lor (N.lor (N.lor (N.lor MID_PRICE SPREAD) DEPTH) VWAP) IMBALANCE.
Definition contains (flags flag : N) : bool := N.land flags flag =? flag.

Record EnrichedSnapshot := {
  es_symbol : string;
  es_timestamp : N;
  es_bids : list LevelSnapshot;
  es_asks : list LevelSnapshot;
  es_mid_price : option f64;
  es_spread_bps : option f64;
  es_bid_depth_total : N;
  es_ask_depth_total : N;
  es_order_book_imbalance : f64;
  es_vwap_bid : option f64;
  es_vwap_ask : option f64;
}.

Definition calculate_mid_price (bids asks : list LevelSnapshot) : option f64 :=
  match head bids, head asks with
  | Some bid, Some ask => Some (f64_div (f64_add (f64_of_N (ls_price bid)) (f64_of_N (ls_price ask))) (f64_of_N 2))
  | _, _ => None
  end.

Definition calculate_spread_bps (bids asks : list LevelSnapshot) : option f64 :=
  match head bids, head asks with
  | Some bid, Some ask =>
      let best_bid := f64_of_N (ls_price bid) in
      let best_ask := f64_of_N (ls_price ask) in
      let mid_price := f64_div (f64_add best_bid best_ask) (f64_of_N 2) in
      if SFeqb mid_price f64_zero then None
      else Some (f64_mul (f64_div (f64_sub best_ask best_bid) mid_price) (f64_of_N 10000))
  | _, _ => None
  end.

Definition calculate_total_depth (ls : list LevelSnapshot) : N := wrapping_sum U64_MAX (ls_total <$> ls).

Definition calculate_vwap (ls : list LevelSnapshot) (max_levels : nat) : option f64 :=
  let '(total_value, total_quantity) :=
    foldl (fun '(total_value, total_quantity) level =>
             let quantity := ls_total level in
             if 0 <? quantity then
               (sat_add U128_MAX total_value (sat_mul U128_MAX (ls_price level) quantity),
                sat_add U64_MAX total_quantity quantity)
             else (total_value, total_quantity)) (0, 0) (take max_levels ls) in
  if total_quantity =? 0 then None else Some (f64_div (f64_of_N total_value) (f64_of_N total_quantity)).

Definition calculate_imbalance (bids asks : list LevelSnapshot) (max_levels : nat) : f64 :=
  let volume ls := foldl (sat_add U64_MAX) 0 (ls_total <$> take max_levels ls) in
  let bid_volume := volume bids in
  let ask_volume := volume asks in
  let total := sat_add U64_MAX bid_volume ask_volume in
  if total =? 0 then f64_zero
  else f64_div (f64_sub (f64_of_N bid_volume) (f64_of_N ask_volume)) (f64_of_N total).

Definition with_metrics (symbol : string) (timestamp : N) (bids asks : list LevelSnapshot)
    (vwap_levels imbalance_levels : nat) (flags : N) : EnrichedSnapshot :=
  let mid_price := if contains flags MID_PRICE then calculate_mid_price bids asks else None in
  let spread_bps := if contains flags SPREAD then calculate_spread_bps bids asks else None in
  let '(bid_depth_total, ask_depth_total) :=
    if contains flags DEPTH then (calculate_total_depth bids, calculate_total_depth asks) else (0, 0) in
  let '(vwap_bid, vwap_ask) :=
    if contains flags VWAP then (calculate_vwap bids vwap_levels, calculate_vwap asks vwap_levels)
    else (None, None) in
  let order_book_imbalance :=
    if contains flags IMBALANCE then calculate_imbalance bids asks imbalance_levels else f64_zero in
  {| es_symbol := symbol; es_timestamp := timestamp; es_bids := bids; es_asks := asks;
     es_mid_price := mid_price; es_spread_bps := spread_bps; es_bid_depth_total := bid_depth_total;
     es_ask_depth_total := ask_depth_total; es_order_book_imbalance := order_book_imbalance;
     es_vwap_bid := vwap_bid; es_vwap_ask := vwap_ask |}.

Definition enriched_new (symbol : string) (timestamp : N) (bids asks : list LevelSnapshot)
    (vwap_levels imbalance_levels : nat) : EnrichedSnapshot :=
  with_metrics symbol timestamp bids asks vwap_levels imbalance_levels ALL.

(** ** The methods of the book *)

Definition entry_snapshots (side : Side) (depth : nat) (b : OrderBook) : list LevelSnapshot :=
  (fun kv => pl_snapshot kv.2) <$> take depth (depth_entries side b).

Definition enriched_snapshot_with_metrics (depth : nat) (flags : N) : ST OrderBook EnrichedSnapshot :=
  let! bid_levels := sget (entry_snapshots Buy depth) in
  let! ask_levels := sget (entry_snapshots Sell depth) in
  let! sym := sget (fun b => symbol (book_config b)) in
  let! now := clock_now in
  sret (with_metrics sym now bid_levels ask_levels depth depth flags).

Definition enriched_snapshot (depth : nat) : ST OrderBook EnrichedSnapshot :=
  enriched_snapshot_with_metrics depth ALL.

Definition get_volume_by_price (b : OrderBook) : gmap N N * gmap N N :=
  (level_total <$> levels Buy b, level_total <$> levels Sell b).

(** ** Lemmas *)

Lemma max_by_price_head x l : Forall (fun y => y.1 < x.1) l -> max_by_price (x :: l) = Some x.
Proof.
  intros H. simpl. f_equal. induction H as [|y l Hy _ IH]; simpl; [done|].
  destruct (N.ltb_spec y.1 x.1); [done|lia].
Qed.
Lemma min_by_price_head x l : Forall (fun y => x.1 < y.1) l -> min_by_price (x :: l) = Some x.
Proof.
  intros H. simpl. f_equal. induction H as [|y l Hy _ IH]; simpl; [done|].
  destruct (N.ltb_spec y.1 x.1); [lia|done].
Qed.

Lemma wrapping_sum_mod mx l : wrapping_sum mx l = sumN id l mod (mx + 1).
Proof.
  assert (G : forall acc, foldl (wrapping_add mx) (acc mod (mx + 1)) l = (acc + sumN id l) mod (mx + 1)).
  { induction l as [|x l IH]; intros acc; simpl; [by rewrite N.add_0_r|].
    unfold wrapping_add at 2. rewrite N.Div0.add_mod_idemp_l, IH, sumN_cons. f_equal. unfold id. lia. }
  unfold wrapping_sum. rewrite <- (N.Div0.mod_0_l (mx + 1)) at 1. by rewrite G.
Qed.

Lemma depth_entries_head side b :
  fst <$> head (depth_entries side b) =
    match side with Buy => sm_back (levels Buy b) | Sell => sm_front (levels Sell b) end.
Proof. destruct side; simpl; [|done]. unfold sm_back. by rewrite <- head_reverse. Qed.

(** Both ways the source lists a side for a snapshot agree. *)
Lemma snapshot_side_entries side depth b : snapshot_side side depth b = entry_snapshots side depth b.
Proof.
  unfold snapshot_side, entry_snapshots.
  replace (snapshot_prices side b) with (depth_entries side b).*1 by (destruct side; simpl; by rewrite ?fmap_reverse).
  rewrite <- fmap_take.
  assert (Hin : forall p lv, (p, lv) ∈ take depth (depth_entries side b) -> levels side b !! p = Some lv).
  { intros p lv (i & H & _)%elem_of_take. apply elem_of_depth_entries. by eapply list_elem_of_lookup_2. }
  induction (take depth (depth_entries side b)) as [|[p lv] l IH]; csimpl; [done|].
  rewrite (Hin p lv) by left. csimpl. f_equal. apply IH. intros q lv' H. apply Hin. by right.
Qed.

(** ** A snapshot answers as the book does *)

Section Agreement.
Context {SL : SnapshotLaws} {QL : SnapshotQueryLaws}.

(** The levels of a side as pairs, best price first. *)
Lemma entries_priced side depth b R : rests b R ->
  price_and_visible <$> entry_snapshots side depth b =
    (fun kv => (kv.1, pl_visible_quantity kv.2)) <$> take depth (depth_entries side b).
Proof.
  intros Hr. unfold entry_snapshots. rewrite <- list_fmap_compose. apply list_fmap_ext. intros i [p lv] Hi.
  apply list_elem_of_lookup_2, elem_of_take in Hi as (j & Hj & _). apply list_elem_of_lookup_2 in Hj.
  apply elem_of_depth_entries in Hj. unfold compose, price_and_visible. simpl.
  by rewrite snapshot_price_spec, snapshot_visible_spec, (rests_price _ _ Hr _ _ _ Hj).
Qed.

Lemma entries_head_ahead side depth b x l : take depth (depth_entries side b) = x :: l ->
  Forall (fun y => ahead side x.1 y.1) l.
Proof.
  intros E. pose proof (depth_entries_sorted side b) as Hs. rewrite <- (take_drop depth (depth_entries side b)), E in Hs.
  simpl in Hs. apply StronglySorted_inv in Hs as [_ Hs]. by apply Forall_app in Hs as [? _].
Qed.

(** The best price of a side with the visible quantity there. *)
Definition best_level (side : Side) (b : OrderBook) : option (N * N) :=
  (fun kv => (kv.1, pl_visible_quantity kv.2)) <$> head (depth_entries side b).

Lemma take_head {A} depth (l : list A) : (0 < depth)%nat -> head (take depth l) = head l.
Proof. destruct depth; [lia|]. by destruct l. Qed.

Lemma best_of_entries side depth b R : rests b R -> (0 < depth)%nat ->
  (match side with Buy => max_by_price | Sell => min_by_price end)
    (price_and_visible <$> entry_snapshots side depth b) = best_level side b.
Proof.
  intros Hr Hd. rewrite (entries_priced _ _ _ _ Hr). unfold best_level. rewrite <- (take_head depth _ Hd).
  destruct (take depth (depth_entries side b)) as [|x l] eqn:E; [by destruct side|]. csimpl.
  apply entries_head_ahead in E. destruct side; [apply max_by_price_head|apply min_by_price_head];
    apply Forall_fmap; exact E.
Qed.

Lemma best_level_price side b : fst <$> best_level side b =
  match side with Buy => sm_back (levels Buy b) | Sell => sm_front (levels Sell b) end.
Proof. rewrite <- depth_entries_head. unfold best_level. by destruct (head _). Qed.

Lemma create_snapshot_sides depth b : let s := (create_snapshot depth b).1 in
  sn_bids s = entry_snapshots Buy depth b /\ sn_asks s = entry_snapshots Sell depth b.
Proof.
  unfold create_snapshot, sbind, sget. destruct (clock_now b) as [now b']. simpl.
  by rewrite !snapshot_side_entries.
Qed.

Lemma total_depth_exact side depth b : sumN (fun kv => level_total kv.2) (take depth (depth_entries side b)) <= U64_MAX ->
  calculate_total_depth (entry_snapshots side depth b) = total_depth_at_levels depth side b.
Proof.
  intros H. unfold calculate_total_depth, entry_snapshots, total_depth_at_levels.
  rewrite wrapping_sum_mod, sumN_fmap, sumN_fmap, foldl_sat_add by lia.
  rewrite (sumN_eq _ (fun kv => level_total kv.2)); [|intros kv _; unfold id, ls_total, level_total; by rewrite snapshot_total_spec].
  rewrite N.mod_small by (unfold U64_MAX in *; lia). lia.
Qed.

(** What the book's own queries read. *)
Lemma two_best b : cache_ok b -> exists b1,
  best_bid b = (sm_back (levels Buy b), b1) /\ (best_ask b1).1 = sm_front (levels Sell b) /\
  (best_ask b).1 = sm_front (levels Sell b).
Proof.
  intros Hc. pose proof (best_bid_exact b Hc) as H1. pose proof (quiet_best_bid b) as Q1.
  destruct (best_bid b) as [bid b1]. cbn [fst snd] in H1, Q1. subst bid. exists b1. split_and!; [done| |by apply best_ask_exact].
  rewrite (best_ask_exact b1 (proj2 Q1 Hc)). by rewrite (same_core_levels _ _ _ (proj1 Q1)).
Qed.

Lemma entry_head_price side depth b R : rests b R -> (0 < depth)%nat ->
  ls_price <$> head (entry_snapshots side depth b) = fst <$> best_level side b.
Proof.
  intros Hr Hd. pose proof (entries_priced side depth b R Hr) as H.
  unfold best_level. rewrite <- (take_head depth (depth_entries side b) Hd).
  apply (f_equal (fun l => fst <$> head l)) in H. revert H.
  by destruct (entry_snapshots side depth b), (take depth (depth_entries side b)).
Qed.

Lemma enriched_fields depth b : let e := (enriched_snapshot depth b).1 in
  es_bids e = entry_snapshots Buy depth b /\ es_asks e = entry_snapshots Sell depth b /\
  es_mid_price e = calculate_mid_price (es_bids e) (es_asks e) /\
  es_bid_depth_total e = calculate_total_depth (es_bids e) /\
  es_ask_depth_total e = calculate_total_depth (es_asks e).
Proof.
  unfold enriched_snapshot, enriched_snapshot_with_metrics, sbind, sget. by destruct (clock_now b) as [now b'].
Qed.

(** C39.  A snapshot of any positive depth and an enriched snapshot answer as
    the book does.  Their best bid and ask are the book's best prices with
    the visible quantity there; their mid price and spread are the book's;
    both list the same levels; and the depth totals of an enriched snapshot
    are the book's depth over as many levels, as long as they fit a [u64]. *)
Theorem snapshots_answer_as_book b R depth :
  book_rep b R -> (0 < depth)%nat ->
  let s := (create_snapshot depth b).1 in
  let e := (enriched_snapshot depth b).1 in
  sn_best_bid s = best_level Buy b /\ sn_best_ask s = best_level Sell b /\
  fst <$> sn_best_bid s = (best_bid b).1 /\ fst <$> sn_best_ask s = (best_ask b).1 /\
  sn_mid_price s = (mid_price b).1 /\ sn_spread s = (spread b).1 /\ es_mid_price e = (mid_price b).1 /\
  es_bids e = sn_bids s /\ es_asks e = sn_asks s /\
  (sumN (fun kv => level_total kv.2) (take depth (depth_entries Buy b)) <= U64_MAX ->
     es_bid_depth_total e = total_depth_at_levels depth Buy b) /\
  (sumN (fun kv => level_total kv.2) (take depth (depth_entries Sell b)) <= U64_MAX ->
     es_ask_depth_total e = total_depth_at_levels depth Sell b).
Proof.
  intros [Hr _ _ Hc] Hd. destruct (create_snapshot_sides depth b) as [Sb Sa].
  pose proof (best_of_entries Buy depth b R Hr Hd) as Hb. pose proof (best_of_entries Sell depth b R Hr Hd) as Ha.
  pose proof (best_level_price Buy b) as Pb. pose proof (best_level_price Sell b) as Pa.
  pose proof (two_best b Hc) as Htwo.
  destruct (enriched_fields depth b) as (Eb & Ea & Em & Etb & Eta). rewrite Eb, Ea in Em. rewrite Eb in Etb. rewrite Ea in Eta.
  pose proof (entry_head_price Buy depth b R Hr Hd) as Nb. pose proof (entry_head_price Sell depth b R Hr Hd) as Na.
  destruct Htwo as (b1 & B1 & B2 & B3).
  intros s e. unfold sn_mid_price, sn_spread, sn_best_bid, sn_best_ask, mid_price, spread, sbind, sret.
  fold s in Sb, Sa. fold e in Eb, Ea, Em, Etb, Eta. rewrite Sb, Sa, Hb, Ha, Eb, Ea, Em, Etb, Eta, B1, B3.
  destruct (best_ask b1) as [ask b2]. cbn [fst] in B2 |- *. subst ask. rewrite <- Pb, <- Pa.
  unfold calculate_mid_price. split_and!; try done; [| | |by apply total_depth_exact..].
  - by destruct (best_level Buy b) as [[]|], (best_level Sell b) as [[]|].
  - by destruct (best_level Buy b) as [[]|], (best_level Sell b) as [[]|].
  - destruct (head (entry_snapshots Buy depth b)), (head (entry_snapshots Sell depth b)),
      (best_level Buy b) as [[]|], (best_level Sell b) as [[]|]; simplify_eq/=; done.
Qed.
End Agreement.
End Queries.
