(* ===== verification/BookAccess.v ===== *)
(** * Ways in and out of a book (book.rs, snapshot.rs)

    The constructors with one setting, the setters that wrap them, the
    exports of the sides as maps, and the JSON form of a snapshot package.

    The text of a package (serde_json) and the rebuilding of a level from its
    snapshot (pricelevel's [TryFrom]) are parameters. *)

From S2P Require Import Prelude Types PriceLevel OrderQuantity Fees Stp Clock Cache Risk OrderState Reject SkipMap Book BookInv Matching MatchingInv Modifications ModificationsProps MassCancel Snapshot.
From stdpp Require Import strings.
Local Open Scope N_scope.

(** ** Construction *)

Section Construction.
Context {PA : PriceLevelApi}.

(** The namespace is the random one [with_clock] draws. *)
Definition book_new (sym : string) (namespace : N) : OrderBook :=
  with_clock_and_namespace sym (MonotonicClock 0) namespace.
Definition with_tick_size (sym : string) (tick namespace : N) : OrderBook :=
  set_tick_size_opt (Some tick) (book_new sym namespace).
Definition with_lot_size (sym : string) (lot namespace : N) : OrderBook :=
  set_lot_size_opt (Some lot) (book_new sym namespace).
Definition with_stp_mode (sym : string) (mode : STPMode) (namespace : N) : OrderBook :=
  set_stp_mode mode (book_new sym namespace).

Definition set_tick_size (tick : N) : OrderBook -> OrderBook := set_tick_size_opt (Some tick).
Definition set_lot_size (lot : N) : OrderBook -> OrderBook := set_lot_size_opt (Some lot).
Definition set_trade_id_namespace (namespace : N) : OrderBook -> OrderBook :=
  set_generator (uuid_generator_new namespace).

Definition is_kill_switch_engaged (b : OrderBook) : bool := kill_switch b.

(** A new book is well formed and empty, whichever constructor made it. *)
Lemma new_books_empty sym namespace tick lot mode :
  Forall (fun b => book_rep b ∅)
    [book_new sym namespace; with_tick_size sym tick namespace; with_lot_size sym lot namespace;
     with_stp_mode sym mode namespace].
Proof. rewrite !Forall_cons. split_and!; [by apply empty_rep..|done]. Qed.
End Construction.

(** ** Exports *)

(** What else a level and its snapshot offer. *)
Class ExportApi `{!PriceLevelApi} `{!SnapshotApi} := {
  pl_hidden_quantity : PriceLevel -> N;
  pl_try_from : LevelSnapshot -> Result PriceLevelError PriceLevel;
}.

Section Exports.
Context {PA : PriceLevelApi} {SA : SnapshotApi} {EA : ExportApi}.

Definition hidden_quantity_at_price (price : N) (side : Side) (b : OrderBook) : option N :=
  pl_hidden_quantity <$> levels side b !! price.

(** The loop of [get_bids] and [get_asks]. *)
Definition export_levels (entries : list (N * PriceLevel)) : gmap N PriceLevel :=
  foldl (fun map entry => <[entry.1 := entry.2]> map) ∅ entries.
Definition get_bids (b : OrderBook) : gmap N PriceLevel := export_levels (sm_iter (levels Buy b)).
Definition get_asks (b : OrderBook) : gmap N PriceLevel := export_levels (sm_iter (levels Sell b)).

(** [collect] into a [Result] of a [BTreeMap]: up to the first error. *)
Fixpoint rebuild_levels (entries : list (N * PriceLevel)) : Result OrderBookError (gmap N PriceLevel) :=
  match entries with
  | [] => Ok ∅
  | (price, level) :: entries' =>
      match pl_try_from (pl_snapshot level) with
      | Err e => Err (EPriceLevelError e)
      | Ok price_level =>
          match rebuild_levels entries' with
          | Err e => Err e
          | Ok map => Ok (<[price := price_level]> map)
          end
      end
  end.
Definition get_bt_bids (b : OrderBook) : Result OrderBookError (gmap N PriceLevel) :=
  rebuild_levels (sm_iter (levels Buy b)).
Definition get_bt_asks (b : OrderBook) : Result OrderBookError (gmap N PriceLevel) :=
  rebuild_levels (sm_iter (levels Sell b)).

Definition get_order_locations_arc (b : OrderBook) : gmap Id (N * Side) := locations b.

Lemma export_levels_app l : forall m : gmap N PriceLevel, NoDup l.*1 ->
  foldl (fun map entry => <[entry.1 := entry.2]> map) m l = list_to_map l ∪ m.
Proof.
  induction l as [|[p lv] l IH]; intros m Hnd; csimpl; [by rewrite (left_id_L ∅ (∪))|].
  apply NoDup_cons in Hnd as [Hp Hnd]. rewrite IH by done.
  rewrite <- insert_union_l, insert_union_r; [done|]. by apply not_elem_of_list_to_map_1.
Qed.

Lemma sm_iter_map (m : gmap N PriceLevel) : list_to_map (sm_iter m) = m.
Proof.
  rewrite <- (list_to_map_to_list m) at 2. apply list_to_map_proper; [apply sm_iter_keys_NoDup|apply sm_iter_perm].
Qed.

(** The maps handed out are the sides of the book. *)
Theorem exports_are_sides b : get_bids b = levels Buy b /\ get_asks b = levels Sell b.
Proof.
  unfold get_bids, get_asks, export_levels.
  split; rewrite export_levels_app by apply sm_iter_keys_NoDup; by rewrite sm_iter_map, (right_id_L ∅ (∪)).
Qed.

Lemma rebuild_spec l : NoDup l.*1 ->
  match rebuild_levels l with
  | Ok map => forall p lv', map !! p = Some lv' <-> exists lv, (p, lv) ∈ l /\ pl_try_from (pl_snapshot lv) = Ok lv'
  | Err e => exists p lv e', (p, lv) ∈ l /\ pl_try_from (pl_snapshot lv) = Err e' /\ e = EPriceLevelError e'
  end.
Proof.
  induction l as [|[p lv] l IH]; csimpl; intros Hnd.
  - intros q lv'. rewrite lookup_empty. split; [done|]. by intros (? & ?%not_elem_of_nil & _).
  - apply NoDup_cons in Hnd as [Hp Hnd]. specialize (IH Hnd).
    destruct (pl_try_from (pl_snapshot lv)) as [lv1|e1] eqn:E; [|exists p, lv, e1; split_and!; [left|done..]].
    destruct (rebuild_levels l) as [map|e].
    + intros q lv'. destruct (decide (q = p)) as [->|Hq].
      * rewrite lookup_insert_eq. split.
        -- intros [= <-]. exists lv. split; [left|done].
        -- intros (lv0 & [[= <-]|Hin]%elem_of_cons & Ht); [congruence|].
           destruct Hp. by apply (list_elem_of_fmap_2 fst _ _ Hin).
      * rewrite lookup_insert_ne by done. rewrite IH. split.
        -- intros (lv0 & Hin & Ht). exists lv0. split; [by right|done].
        -- intros (lv0 & [[= ? ?]|Hin]%elem_of_cons & Ht); [done|]. by exists lv0.
    + destruct IH as (q & lv0 & e' & Hin & Ht & ->). exists q, lv0, e'. split_and!; [by right|done..].
Qed.

(** The rebuilt copies: one for every level of the side and none besides,
    or the error of a level of the side that cannot be rebuilt. *)
Theorem rebuilt_sides_exact (s : Side) b :
  match (match s with Buy => get_bt_bids b | Sell => get_bt_asks b end) with
  | Ok map => forall p lv',
      map !! p = Some lv' <-> exists lv, levels s b !! p = Some lv /\ pl_try_from (pl_snapshot lv) = Ok lv'
  | Err e => exists p lv e', levels s b !! p = Some lv /\ pl_try_from (pl_snapshot lv) = Err e' /\ e = EPriceLevelError e'
  end.
Proof.
  destruct s; unfold get_bt_bids, get_bt_asks;
    match goal with |- context [rebuild_levels (sm_iter ?m)] =>
      pose proof (rebuild_spec (sm_iter m) (sm_iter_keys_NoDup m)) as H end;
    destruct (rebuild_levels _); setoid_rewrite elem_of_sm_iter in H; exact H.
Qed.
End Exports.

(** ** The JSON form of a snapshot package *)

Section Json.
Context {PA : PriceLevelApi} {SA : SnapshotApi} {WC : WallClock}.
Context (compute_checksum : OrderBookSnapshot -> Result OrderBookError string).
(** [serde_json::to_string] and [from_str]; an error carries its text. *)
Context (to_string : OrderBookSnapshotPackage -> Result string string).
Context (from_str : string -> Result string OrderBookSnapshotPackage).

Definition to_json (p : OrderBookSnapshotPackage) : Result OrderBookError string :=
  match to_string p with Ok s => Ok s | Err error => Err (SerializationError (Lit error)) end.
Definition from_json (data : string) : Result OrderBookError OrderBookSnapshotPackage :=
  match from_str data with Ok p => Ok p | Err error => Err (DeserializationError (Lit error)) end.

Definition snapshot_to_json (depth : nat) : ST OrderBook (Result OrderBookError string) :=
  let? package := create_snapshot_package compute_checksum depth in
  sret (to_json package).

Definition restore_from_snapshot_json (data : string) : ST OrderBook (Result OrderBookError unit) := fun b =>
  match from_json data with
  | Err e => (Err e, b)
  | Ok package => restore_from_snapshot_package compute_checksum package b
  end.

(** What serde writes it reads back. *)
Context (serde_roundtrip : forall p s, to_string p = Ok s -> from_str s = Ok p).

(** Restoring the text of a snapshot is restoring the package it was made
    from, on any book. *)
Theorem snapshot_json_carries_package depth b text b1 :
  snapshot_to_json depth b = (Ok text, b1) ->
  exists package, create_snapshot_package compute_checksum depth b = (Ok package, b1) /\
    forall target, restore_from_snapshot_json text target = restore_from_snapshot_package compute_checksum package target.
Proof.
  unfold snapshot_to_json. intros H.
  apply stry_inv in H as [(package & b2 & E & H)|(x & b2 & _ & [=])]. unfold to_json, sret in H.
  destruct (to_string package) as [s|] eqn:Es; [|done]. injection H as -> <-. exists package. split; [done|].
  intros target. unfold restore_from_snapshot_json, from_json. by rewrite (serde_roundtrip _ _ Es).
Qed.

(** A text that does not parse changes nothing. *)
Lemma malformed_json_refused data error b :
  from_str data = Err error ->
  restore_from_snapshot_json data b = (Err (DeserializationError (Lit error)), b).
Proof. intros E. unfold restore_from_snapshot_json, from_json. by rewrite E. Qed.
End Json.
