(* ===== verification/WireFraming.v ===== *)
(** * Bytes, integers on the wire, and frames (wire/framing.rs, wire/mod.rs)

    A byte is a number below 256 and a buffer a list of bytes.  Integers are
    written in little-endian order at their width; a signed integer is written
    as its two's complement.  A frame is a four-byte length, a kind byte and a
    payload. *)

From stdpp Require Import strings.
From S2P Require Import Prelude.
Local Open Scope N_scope.

(** ** Integers as bytes *)

(** [to_le_bytes] of a [k]-byte unsigned integer. *)
Fixpoint to_le_bytes (k : nat) (n : N) : list N :=
  match k with
  | O => []
  | S k' => n mod 256 :: to_le_bytes k' (n / 256)
  end.

Fixpoint from_le_bytes (l : list N) : N :=
  match l with
  | [] => 0
  | b :: l' => b + 256 * from_le_bytes l'
  end.

(** The bits of an [i64], and back. *)
Definition i64_bits (z : Z) : N := Z.to_N (z mod 2 ^ 64)%Z.
Definition i64_of_bits (n : N) : Z :=
  if n <? 2 ^ 63 then Z.of_N n else (Z.of_N n - 2 ^ 64)%Z.

Definition is_byte (b : N) : Prop := b < 256.
Definition is_i64 (z : Z) : Prop := (I64_MIN <= z <= I64_MAX)%Z.

(** [buf.get(off..off + len)] *)
Definition slice (off len : nat) (buf : list N) : option (list N) :=
  if (off + len <=? length buf)%nat then Some (take len (drop off buf)) else None.

(** ** Frames *)

Inductive WireError :=
| Truncated
| UnknownKind (byte : N)
| InvalidPayload (reason : string).

(** [InvalidInput] of the io error. *)
Inductive FrameError := FrameTooLarge.

Definition LEN_PREFIX : nat := 4.
Definition KIND_SIZE : nat := 1.
Definition MIN_FRAME_SIZE : nat := LEN_PREFIX + KIND_SIZE.

(** What [encode_frame] writes to its output. *)
Definition encode_frame (kind : N) (payload : list N) : Result FrameError (list N) :=
  let body_len := N.of_nat (length payload + KIND_SIZE) in
  if body_len <=? U32_MAX then Ok (to_le_bytes LEN_PREFIX body_len ++ [kind] ++ payload)
  else Err FrameTooLarge.

Definition decode_frame (buf : list N) : Result WireError (N * list N * nat) :=
  if (length buf <? MIN_FRAME_SIZE)%nat then Err Truncated
  else
    match slice 0 LEN_PREFIX buf with
    | None => Err Truncated
    | Some len_bytes =>
        let body_len := N.to_nat (from_le_bytes len_bytes) in
        if (body_len <? KIND_SIZE)%nat then Err (InvalidPayload "frame body shorter than kind")
        else
          let total := (LEN_PREFIX + body_len)%nat in
          if (length buf <? total)%nat then Err Truncated
          else
            match buf !! LEN_PREFIX, slice (LEN_PREFIX + KIND_SIZE) (body_len - KIND_SIZE) buf with
            | Some kind, Some payload => Ok (kind, payload, total)
            | _, _ => Err Truncated
            end
    end.

(** ** Message kinds *)

Inductive MessageKind :=
| NewOrder | CancelOrder | CancelReplace | MassCancel | ExecReportKind | TradePrint | BookUpdate.

Definition kind_as_u8 (k : MessageKind) : N :=
  match k with
  | NewOrder => 1 | CancelOrder => 2 | CancelReplace => 3 | MassCancel => 4
  | ExecReportKind => 129 | TradePrint => 130 | BookUpdate => 131
  end.

Definition kind_from_u8 (byte : N) : Result WireError MessageKind :=
  match byte with
  | 1 => Ok NewOrder | 2 => Ok CancelOrder | 3 => Ok CancelReplace | 4 => Ok MassCancel
  | 129 => Ok ExecReportKind | 130 => Ok TradePrint | 131 => Ok BookUpdate
  | other => Err (UnknownKind other)
  end.

Definition is_inbound (k : MessageKind) : bool := kind_as_u8 k <? 128.
Definition is_outbound (k : MessageKind) : bool := 128 <=? kind_as_u8 k.

(** ** Facts on bytes *)

Lemma length_to_le k : forall n, length (to_le_bytes k n) = k.
Proof. induction k; intros n; simpl; auto. Qed.

Lemma to_le_bytes_ok k : forall n, Forall is_byte (to_le_bytes k n).
Proof.
  induction k as [|k IH]; intros n; simpl; constructor; [|apply IH].
  unfold is_byte. apply N.mod_lt. lia.
Qed.

Lemma from_to_le k : forall n, n < 256 ^ N.of_nat k -> from_le_bytes (to_le_bytes k n) = n.
Proof.
  induction k as [|k IH]; intros n Hn; cbn [to_le_bytes from_le_bytes]; [simpl in Hn; lia|].
  rewrite IH; [pose proof (N.div_mod n 256); lia|].
  rewrite Nat2N.inj_succ, N.pow_succ_r' in Hn. apply N.Div0.div_lt_upper_bound. lia.
Qed.

Lemma to_from_le l : Forall is_byte l -> to_le_bytes (length l) (from_le_bytes l) = l.
Proof.
  induction 1 as [|b l Hb Hl IH]; cbn [length from_le_bytes to_le_bytes]; [done|]. unfold is_byte in Hb.
  rewrite (N.mul_comm 256), N.Div0.mod_add, N.mod_small by done. f_equal.
  rewrite N.div_add, N.div_small by lia. exact IH.
Qed.

Lemma from_le_bound l : Forall is_byte l -> from_le_bytes l < 256 ^ N.of_nat (length l).
Proof.
  induction 1 as [|b l Hb Hl IH]; cbn [length from_le_bytes]; [simpl; lia|].
  rewrite Nat2N.inj_succ, N.pow_succ_r'. unfold is_byte in Hb. lia.
Qed.

Lemma i64_bits_bound z : i64_bits z < 2 ^ 64.
Proof.
  unfold i64_bits. pose proof (Z.mod_pos_bound z (2 ^ 64) ltac:(lia)).
  change (2 ^ 64) with (Z.to_N (2 ^ 64)%Z). lia.
Qed.

Lemma i64_of_bits_bits z : is_i64 z -> i64_of_bits (i64_bits z) = z.
Proof.
  unfold is_i64, I64_MIN, I64_MAX, i64_of_bits, i64_bits. intros Hz.
  destruct (Z.neg_nonneg_cases z) as [Hneg|Hpos].
  - assert (E : (z mod 2 ^ 64 = z + 2 ^ 64)%Z).
    { symmetry. apply (Z.mod_unique z (2 ^ 64) (-1)); lia. }
    rewrite E. destruct (N.ltb_spec (Z.to_N (z + 2 ^ 64)) (2 ^ 63)); lia.
  - rewrite Z.mod_small by lia. destruct (N.ltb_spec (Z.to_N z) (2 ^ 63)); lia.
Qed.

Lemma i64_bits_of_bits n : n < 2 ^ 64 -> i64_bits (i64_of_bits n) = n.
Proof.
  unfold i64_bits, i64_of_bits. intros Hn. destruct (N.ltb_spec n (2 ^ 63)).
  - rewrite Z.mod_small by lia. lia.
  - replace (Z.of_N n - 2 ^ 64)%Z with (Z.of_N n + (-1) * 2 ^ 64)%Z by lia.
    rewrite Z.mod_add by lia. rewrite Z.mod_small by lia. lia.
Qed.

Lemma i64_of_bits_range n : n < 2 ^ 64 -> is_i64 (i64_of_bits n).
Proof.
  unfold is_i64, I64_MIN, I64_MAX, i64_of_bits. intros Hn. destruct (N.ltb_spec n (2 ^ 63)); lia.
Qed.

Lemma slice_skip off len a l :
  (length a <= off)%nat -> slice off len (a ++ l) = slice (off - length a) len l.
Proof.
  intros Ha. unfold slice. rewrite length_app, drop_app_ge by lia.
  destruct (Nat.leb_spec (off + len) (length a + length l)), (Nat.leb_spec (off - length a + len) (length l));
    try done; lia.
Qed.

Lemma slice_here len a l : length a = len -> slice 0 len (a ++ l) = Some a.
Proof.
  intros Ha. unfold slice. rewrite length_app, (proj2 (Nat.leb_le _ _)) by lia.
  by rewrite drop_0, take_app_length' by lia.
Qed.

Lemma slice_all len l : length l = len -> slice 0 len l = Some l.
Proof. intros Hl. rewrite <- (app_nil_r l) at 1. by apply slice_here. Qed.

(** ** Frames round trip *)

(** A frame survives the wire.  Whatever follows it in the stream,
    decoding an encoded frame gives back its kind and payload and consumes
    exactly the bytes that were written; encoding fails only when the body
    does not fit the 32-bit length prefix. *)
Theorem frame_roundtrip kind payload rest :
  match encode_frame kind payload with
  | Ok bytes => decode_frame (bytes ++ rest) = Ok (kind, payload, length bytes)
  | Err FrameTooLarge => U32_MAX < N.of_nat (length payload + 1)
  end.
Proof.
  unfold encode_frame. destruct (N.leb_spec (N.of_nat (length payload + KIND_SIZE)) U32_MAX) as [Hl|Hl];
    [|exact Hl].
  unfold KIND_SIZE in *. set (n := N.of_nat (length payload + 1)) in *.
  assert (Hlen : length (to_le_bytes LEN_PREFIX n) = 4%nat) by apply length_to_le.
  unfold decode_frame, MIN_FRAME_SIZE, KIND_SIZE. rewrite <- !app_assoc. rewrite !length_app, Hlen.
  cbn [length app]. rewrite (proj2 (Nat.ltb_ge _ _)) by (unfold LEN_PREFIX; lia).
  rewrite (slice_here LEN_PREFIX) by exact Hlen.
  rewrite from_to_le by (unfold LEN_PREFIX, U32_MAX in *; simpl; lia).
  assert (Hn : N.to_nat n = (length payload + 1)%nat) by (unfold n; lia). rewrite Hn. rewrite (proj2 (Nat.ltb_ge _ _)) by lia.
  rewrite (proj2 (Nat.ltb_ge _ _)) by (unfold LEN_PREFIX; lia).
  rewrite lookup_app_r by (rewrite Hlen; done). rewrite Hlen.
  replace (LEN_PREFIX - 4)%nat with 0%nat by done. simpl lookup.
  rewrite slice_skip by (rewrite Hlen; unfold LEN_PREFIX; lia). rewrite Hlen.
  change (kind :: payload ++ rest) with ([kind] ++ payload ++ rest).
  rewrite slice_skip by (unfold LEN_PREFIX; simpl; lia).
  rewrite slice_here by (simpl; lia). do 2 f_equal. unfold LEN_PREFIX. lia.
Qed.

(** The frame decoder is canonical and never reads past the buffer: what
    it accepts is, byte for byte, the encoding of what it returns, within the
    first [used] bytes of the buffer. *)
Theorem decode_frame_canonical buf kind payload used :
  Forall is_byte buf -> decode_frame buf = Ok (kind, payload, used) ->
  (used <= length buf)%nat /\ is_byte kind /\ encode_frame kind payload = Ok (take used buf).
Proof.
  intros Hb. unfold decode_frame. destruct (Nat.ltb_spec (length buf) MIN_FRAME_SIZE) as [|Hmin]; [done|].
  unfold MIN_FRAME_SIZE, LEN_PREFIX, KIND_SIZE in *. cbn [Nat.add] in *.
  destruct buf as [|b0 [|b1 [|b2 [|b3 [|k rest]]]]]; simpl in Hmin; try lia.
  assert (H4 : Forall is_byte [b0; b1; b2; b3]) by (rewrite !Forall_cons in Hb; rewrite !Forall_cons, Forall_nil; tauto).
  pose proof (to_from_le _ H4) as Hle. pose proof (from_le_bound _ H4) as Hbd.
  change (slice 0 4 (b0 :: b1 :: b2 :: b3 :: k :: rest)) with (Some [b0; b1; b2; b3]).
  cbv iota beta. set (n := from_le_bytes [b0; b1; b2; b3]) in *. cbn [length] in Hle, Hbd.
  destruct (Nat.ltb_spec (N.to_nat n) 1) as [|Hn]; [done|].
  match goal with |- context [(?x <? ?y)%nat] => destruct (Nat.ltb_spec x y) as [|Ht]; [done|] end.
  cbn [lookup list_lookup]. cbn [length] in Ht.
  assert (Hs : slice 5 (N.to_nat n - 1) (b0 :: b1 :: b2 :: b3 :: k :: rest) =
               Some (take (N.to_nat n - 1) rest)).
  { unfold slice. cbn [length]. rewrite (proj2 (Nat.leb_le _ _)) by lia. done. }
  rewrite Hs. intros [= <- <- <-]. split; [cbn [length]; lia|]. split.
  { rewrite !Forall_cons in Hb. tauto. }
  unfold encode_frame, KIND_SIZE, LEN_PREFIX. rewrite length_take_le by lia.
  replace (N.to_nat n - 1 + 1)%nat with (N.to_nat n) by lia. rewrite N2Nat.id.
  rewrite (proj2 (N.leb_le n U32_MAX)) by (unfold U32_MAX; simpl in Hbd; lia).
  rewrite Hle. f_equal. simpl. destruct (N.to_nat n) as [|m] eqn:Em; [lia|]. simpl.
  by rewrite Nat.sub_0_r.
Qed.

Lemma decode_frame_canonical_witness :
  exists payload, decode_frame [3; 0; 0; 0; 2; 170; 187; 9] = Ok (2, payload, 7%nat) /\
    encode_frame 2 payload = Ok [3; 0; 0; 0; 2; 170; 187].
Proof.
  exists [170; 187]. split; [done|].
  apply (decode_frame_canonical [3; 0; 0; 0; 2; 170; 187; 9] 2 [170; 187] 7); [|done].
  by repeat constructor.
Defined.
