(* ===== verification/WireMessages.v ===== *)
(** * The messages of the wire protocol (wire/inbound, wire/outbound)

    Four inbound messages, read from their packed layout, and three outbound
    ones, written and read field by field; the admission of a [NewOrder] into
    the engine's order type.  Every codec round trips in both directions. *)

From S2P Require Import Prelude Types WireFraming.
Local Open Scope N_scope.

Definition rbind {E A B} (r : Result E A) (k : A -> Result E B) : Result E B :=
  match r with Ok a => k a | Err e => Err e end.
Declare Scope wire_scope.
Notation "'read!' x := c 'in' k" := (rbind c (fun x => k))
  (at level 10, x pattern at level 0, c at level 200, k at level 200) : wire_scope.
Local Open Scope wire_scope.

(** ** Fields at an offset *)

(** The little-endian field of [len] bytes at [off] of a packed struct. *)
Definition le_at (off len : nat) (buf : list N) : N := from_le_bytes (take len (drop off buf)).
Definition byte_at (off : nat) (buf : list N) : N := nth off buf 0.

(** [read_u64], [read_i64], [read_u16] of the outbound decoders. *)
Definition read_le (len : nat) (payload : list N) (off : nat) : Result WireError N :=
  match slice off len payload with
  | Some slot => Ok (from_le_bytes slot)
  | None => Err Truncated
  end.
Definition read_u64 := read_le 8.
Definition read_u16 := read_le 2.
Definition read_i64 (payload : list N) (off : nat) : Result WireError Z :=
  read! bits := read_le 8 payload off in Ok (i64_of_bits bits).
Definition read_u8 (payload : list N) (off : nat) : Result WireError N :=
  match payload !! off with Some b => Ok b | None => Err Truncated end.

Definition any_nonzero (l : list N) : bool := existsb (fun b => negb (b =? 0)) l.

(** ** Inbound messages *)

Record NewOrderWire := {
  no_client_ts : N; no_order_id : N; no_account_id : N; no_price : Z; no_qty : N;
  no_side : N; no_time_in_force : N; no_order_type : N; no_pad : list N;
}.
Definition new_order_bytes (w : NewOrderWire) : list N :=
  to_le_bytes 8 (no_client_ts w) ++ to_le_bytes 8 (no_order_id w) ++
  to_le_bytes 8 (no_account_id w) ++ to_le_bytes 8 (i64_bits (no_price w)) ++
  to_le_bytes 8 (no_qty w) ++ [no_side w] ++ [no_time_in_force w] ++ [no_order_type w] ++ no_pad w.
Definition decode_new_order (payload : list N) : Result WireError NewOrderWire :=
  if (length payload =? 48)%nat then
    Ok {| no_client_ts := le_at 0 8 payload; no_order_id := le_at 8 8 payload;
          no_account_id := le_at 16 8 payload; no_price := i64_of_bits (le_at 24 8 payload);
          no_qty := le_at 32 8 payload; no_side := byte_at 40 payload;
          no_time_in_force := byte_at 41 payload; no_order_type := byte_at 42 payload;
          no_pad := drop 43 payload |}
  else Err (InvalidPayload "NewOrder: payload size mismatch").

Record CancelOrderWire := { co_client_ts : N; co_order_id : N; co_account_id : N }.
Definition cancel_order_bytes (w : CancelOrderWire) : list N :=
  to_le_bytes 8 (co_client_ts w) ++ to_le_bytes 8 (co_order_id w) ++ to_le_bytes 8 (co_account_id w).
Definition decode_cancel_order (payload : list N) : Result WireError CancelOrderWire :=
  if (length payload =? 24)%nat then
    Ok {| co_client_ts := le_at 0 8 payload; co_order_id := le_at 8 8 payload;
          co_account_id := le_at 16 8 payload |}
  else Err (InvalidPayload "CancelOrder: payload size mismatch").

Record CancelReplaceWire := {
  cr_client_ts : N; cr_order_id : N; cr_account_id : N; cr_new_price : Z; cr_new_qty : N;
}.
Definition cancel_replace_bytes (w : CancelReplaceWire) : list N :=
  to_le_bytes 8 (cr_client_ts w) ++ to_le_bytes 8 (cr_order_id w) ++
  to_le_bytes 8 (cr_account_id w) ++ to_le_bytes 8 (i64_bits (cr_new_price w)) ++
  to_le_bytes 8 (cr_new_qty w).
Definition decode_cancel_replace (payload : list N) : Result WireError CancelReplaceWire :=
  if (length payload =? 40)%nat then
    Ok {| cr_client_ts := le_at 0 8 payload; cr_order_id := le_at 8 8 payload;
          cr_account_id := le_at 16 8 payload; cr_new_price := i64_of_bits (le_at 24 8 payload);
          cr_new_qty := le_at 32 8 payload |}
  else Err (InvalidPayload "CancelReplace: payload size mismatch").

Definition SCOPE_ALL : N := 0.
Definition SCOPE_BY_ACCOUNT : N := 1.
Definition SCOPE_BY_SIDE : N := 2.

Record MassCancelWire := { mc_client_ts : N; mc_account_id : N; mc_scope : N; mc_pad : list N }.
Definition mass_cancel_bytes (w : MassCancelWire) : list N :=
  to_le_bytes 8 (mc_client_ts w) ++ to_le_bytes 8 (mc_account_id w) ++ [mc_scope w] ++ mc_pad w.
Definition check_mass_cancel (scope : N) (pad : list N) : Result WireError unit :=
  if (scope =? SCOPE_ALL) || (scope =? SCOPE_BY_ACCOUNT) then
    if any_nonzero pad then Err (InvalidPayload "MassCancel: non-zero reserved padding") else Ok tt
  else if scope =? SCOPE_BY_SIDE then
    match head pad with
    | None => Err Truncated
    | Some first =>
        if negb (N.land first 254 =? 0)
        then Err (InvalidPayload "MassCancel: reserved bits set in BySide pad[0]")
        else if any_nonzero (drop 1 pad)
        then Err (InvalidPayload "MassCancel: non-zero reserved padding")
        else Ok tt
    end
  else Err (InvalidPayload "MassCancel: unknown scope").
Definition decode_mass_cancel (payload : list N) : Result WireError MassCancelWire :=
  if (length payload =? 24)%nat then
    let view := {| mc_client_ts := le_at 0 8 payload; mc_account_id := le_at 8 8 payload;
                   mc_scope := byte_at 16 payload; mc_pad := drop 17 payload |} in
    read! _ := check_mass_cancel (mc_scope view) (mc_pad view) in Ok view
  else Err (InvalidPayload "MassCancel: payload size mismatch").

(** ** Outbound messages *)

Record ExecReport := {
  er_engine_seq : N; er_order_id : N; er_status : N; er_filled_qty : N; er_remaining_qty : N;
  er_price : Z; er_reject_reason : N; er_pad : N;
}.
Definition STATUS_REJECTED : N := 4.
Definition status_to_wire (status : OrderStatus) : N :=
  match status with
  | Open => 0
  | PartiallyFilled _ _ => 1
  | Filled _ => 2
  | Cancelled _ _ => 3
  | Rejected _ => STATUS_REJECTED
  end.
Definition encode_exec_report (r : ExecReport) : list N :=
  to_le_bytes 8 (er_engine_seq r) ++ to_le_bytes 8 (er_order_id r) ++ [er_status r] ++
  to_le_bytes 8 (er_filled_qty r) ++ to_le_bytes 8 (er_remaining_qty r) ++
  to_le_bytes 8 (i64_bits (er_price r)) ++ to_le_bytes 2 (er_reject_reason r) ++ [er_pad r].
Definition decode_exec_report (payload : list N) : Result WireError ExecReport :=
  if negb (length payload =? 44)%nat then Err (InvalidPayload "ExecReport: payload size mismatch")
  else
    read! engine_seq := read_u64 payload 0 in
    read! order_id := read_u64 payload 8 in
    read! status := read_u8 payload 16 in
    if STATUS_REJECTED <? status then Err (InvalidPayload "ExecReport: unknown status")
    else
      read! filled_qty := read_u64 payload 17 in
      read! remaining_qty := read_u64 payload 25 in
      read! price := read_i64 payload 33 in
      read! reject_reason := read_u16 payload 41 in
      read! pad := read_u8 payload 43 in
      if negb (pad =? 0) then Err (InvalidPayload "ExecReport: non-zero reserved padding")
      else Ok {| er_engine_seq := engine_seq; er_order_id := order_id; er_status := status;
                 er_filled_qty := filled_qty; er_remaining_qty := remaining_qty;
                 er_price := price; er_reject_reason := reject_reason; er_pad := pad |}.

Record TradePrintWire := {
  tp_engine_seq : N; tp_maker_id : N; tp_taker_id : N; tp_price : Z; tp_qty : N; tp_ts : N;
}.
Definition encode_trade_print (t : TradePrintWire) : list N :=
  to_le_bytes 8 (tp_engine_seq t) ++ to_le_bytes 8 (tp_maker_id t) ++
  to_le_bytes 8 (tp_taker_id t) ++ to_le_bytes 8 (i64_bits (tp_price t)) ++
  to_le_bytes 8 (tp_qty t) ++ to_le_bytes 8 (tp_ts t).
Definition decode_trade_print (payload : list N) : Result WireError TradePrintWire :=
  if negb (length payload =? 48)%nat then Err (InvalidPayload "TradePrint: payload size mismatch")
  else
    read! engine_seq := read_u64 payload 0 in
    read! maker_id := read_u64 payload 8 in
    read! taker_id := read_u64 payload 16 in
    read! price := read_i64 payload 24 in
    read! qty := read_u64 payload 32 in
    read! ts := read_u64 payload 40 in
    Ok {| tp_engine_seq := engine_seq; tp_maker_id := maker_id; tp_taker_id := taker_id;
          tp_price := price; tp_qty := qty; tp_ts := ts |}.

Record BookUpdateWire := { bu_engine_seq : N; bu_side : N; bu_price : Z; bu_qty : N }.
Definition encode_book_update (u : BookUpdateWire) : list N :=
  to_le_bytes 8 (bu_engine_seq u) ++ [bu_side u] ++ to_le_bytes 8 (i64_bits (bu_price u)) ++
  to_le_bytes 8 (bu_qty u) ++ repeat 0 7.
Definition decode_book_update (payload : list N) : Result WireError BookUpdateWire :=
  if negb (length payload =? 32)%nat then Err (InvalidPayload "BookUpdate: payload size mismatch")
  else
    read! engine_seq := read_u64 payload 0 in
    read! side := read_u8 payload 8 in
    if negb (side =? 0) && negb (side =? 1) then Err (InvalidPayload "BookUpdate: unknown side")
    else
      read! price := read_i64 payload 9 in
      read! qty := read_u64 payload 17 in
      match slice 25 7 payload with
      | None => Err Truncated
      | Some pad =>
          if any_nonzero pad then Err (InvalidPayload "BookUpdate: non-zero reserved padding")
          else Ok {| bu_engine_seq := engine_seq; bu_side := side; bu_price := price; bu_qty := qty |}
      end.

(** ** Admission of a [NewOrder] *)

Section Admission.
(** [Id::from_u64] *)
Context (id_from_u64 : N -> Id).

Definition wire_side (byte : N) : option Side :=
  if byte =? 0 then Some Buy else if byte =? 1 then Some Sell else None.
Definition wire_tif (byte : N) : option TimeInForce :=
  if byte =? 0 then Some Gtc else if byte =? 1 then Some Ioc else
  if byte =? 2 then Some Fok else if byte =? 3 then Some Day else None.
Definition ORDER_TYPE_STANDARD : N := 0.

(** [Hash32::new] of the account number in the first eight of 32 bytes. *)
Definition account_hash (account_id : N) : Hash32 :=
  from_le_bytes (to_le_bytes 8 account_id ++ repeat 0 24).

Definition order_try_from (w : NewOrderWire) : Result WireError (OrderType unit) :=
  if any_nonzero (no_pad w) then Err (InvalidPayload "NewOrder: non-zero reserved padding")
  else if (no_price w <? 0)%Z then Err (InvalidPayload "NewOrder: negative price")
  else if (no_price w =? 0)%Z then Err (InvalidPayload "NewOrder: zero price")
  else if no_qty w =? 0 then Err (InvalidPayload "NewOrder: zero quantity")
  else if no_account_id w =? 0 then Err (InvalidPayload "NewOrder: account_id 0 reserved")
  else
    match wire_side (no_side w) with
    | None => Err (InvalidPayload "NewOrder: unknown side")
    | Some side =>
        match wire_tif (no_time_in_force w) with
        | None => Err (InvalidPayload "NewOrder: unknown time_in_force")
        | Some tif =>
            if negb (no_order_type w =? ORDER_TYPE_STANDARD)
            then Err (InvalidPayload "NewOrder: unsupported order_type")
            else Ok (Standard (id_from_u64 (no_order_id w)) (Z.to_N (no_price w)) (no_qty w) side
                       (account_hash (no_account_id w)) (no_client_ts w) tif tt)
        end
    end.
End Admission.

(** ** Well-formed messages: every field fits its type *)

Definition u64 (n : N) : Prop := n < 256 ^ 8.
Definition byte_list (n : nat) (l : list N) : Prop := length l = n /\ Forall is_byte l.

Definition wf_new_order (w : NewOrderWire) : Prop :=
  u64 (no_client_ts w) /\ u64 (no_order_id w) /\ u64 (no_account_id w) /\ is_i64 (no_price w) /\
  u64 (no_qty w) /\ is_byte (no_side w) /\ is_byte (no_time_in_force w) /\ is_byte (no_order_type w) /\
  byte_list 5 (no_pad w).
Definition wf_cancel_order (w : CancelOrderWire) : Prop :=
  u64 (co_client_ts w) /\ u64 (co_order_id w) /\ u64 (co_account_id w).
Definition wf_cancel_replace (w : CancelReplaceWire) : Prop :=
  u64 (cr_client_ts w) /\ u64 (cr_order_id w) /\ u64 (cr_account_id w) /\ is_i64 (cr_new_price w) /\
  u64 (cr_new_qty w).
Definition wf_mass_cancel (w : MassCancelWire) : Prop :=
  u64 (mc_client_ts w) /\ u64 (mc_account_id w) /\ is_byte (mc_scope w) /\ byte_list 7 (mc_pad w) /\
  check_mass_cancel (mc_scope w) (mc_pad w) = Ok tt.
Definition wf_exec_report (r : ExecReport) : Prop :=
  u64 (er_engine_seq r) /\ u64 (er_order_id r) /\ er_status r <= STATUS_REJECTED /\
  u64 (er_filled_qty r) /\ u64 (er_remaining_qty r) /\ is_i64 (er_price r) /\
  er_reject_reason r < 256 ^ 2 /\ er_pad r = 0.
Definition wf_trade_print (t : TradePrintWire) : Prop :=
  u64 (tp_engine_seq t) /\ u64 (tp_maker_id t) /\ u64 (tp_taker_id t) /\ is_i64 (tp_price t) /\
  u64 (tp_qty t) /\ u64 (tp_ts t).
Definition wf_book_update (u : BookUpdateWire) : Prop :=
  u64 (bu_engine_seq u) /\ bu_side u <= 1 /\ is_i64 (bu_price u) /\ u64 (bu_qty u).

(** ** Reading back what was written *)

Lemma le_at_here k n l : n < 256 ^ N.of_nat k -> le_at 0 k (to_le_bytes k n ++ l) = n.
Proof.
  intros Hn. unfold le_at. rewrite drop_0, take_app_length' by (by rewrite length_to_le).
  by apply from_to_le.
Qed.
Lemma le_at_skip off k a l :
  (length a <= off)%nat -> le_at off k (a ++ l) = le_at (off - length a) k l.
Proof. intros H. unfold le_at. by rewrite drop_app_ge. Qed.
Lemma byte_at_here b l : byte_at 0 ([b] ++ l) = b.
Proof. done. Qed.
Lemma byte_at_skip off a l : (length a <= off)%nat -> byte_at off (a ++ l) = byte_at (off - length a) l.
Proof. intros H. unfold byte_at. by rewrite app_nth2 by lia. Qed.
Lemma drop_skip off a (l : list N) : (length a <= off)%nat -> drop off (a ++ l) = drop (off - length a) l.
Proof. apply drop_app_ge. Qed.

(** The optional reads of the outbound decoders succeed within the buffer. *)
Lemma read_le_ok k p off : (off + k <= length p)%nat -> read_le k p off = Ok (le_at off k p).
Proof. intros H. unfold read_le, slice. by rewrite (proj2 (Nat.leb_le _ _)). Qed.
Lemma read_u8_ok p off : (off < length p)%nat -> read_u8 p off = Ok (byte_at off p).
Proof.
  intros H. unfold read_u8, byte_at. destruct (lookup_lt_is_Some_2 p off H) as [b Hb]. rewrite Hb.
  f_equal. symmetry. by apply nth_lookup_Some.
Qed.

(** ** Writing back what was read *)

Lemma le_at_bytes k off p :
  Forall is_byte p -> (off + k <= length p)%nat -> to_le_bytes k (le_at off k p) = take k (drop off p).
Proof.
  intros Hp Hl. unfold le_at.
  assert (Hlen : length (take k (drop off p)) = k) by (rewrite length_take, length_drop; lia).
  etransitivity; [|apply to_from_le; by apply Forall_take, Forall_drop]. by rewrite Hlen.
Qed.
Lemma le_at_bound k off p : Forall is_byte p -> le_at off k p < 256 ^ N.of_nat k.
Proof.
  intros Hp. unfold le_at. eapply N.lt_le_trans; [apply from_le_bound; by apply Forall_take, Forall_drop|].
  apply N.pow_le_mono_r; [lia|]. rewrite length_take. lia.
Qed.
Lemma byte_at_bound off p : Forall is_byte p -> (off < length p)%nat -> is_byte (byte_at off p).
Proof.
  intros Hp Ho. unfold byte_at. destruct (lookup_lt_is_Some_2 p off Ho) as [b Hb].
  rewrite (nth_lookup_Some _ _ _ _ Hb). rewrite Forall_forall in Hp. apply Hp. by eapply list_elem_of_lookup_2.
Qed.

Lemma chunk off k m (p : list N) : (off + k = m)%nat -> take k (drop off p) ++ drop m p = drop off p.
Proof. intros <-. rewrite <- (take_drop k (drop off p)) at 2. by rewrite drop_drop. Qed.
Lemma chunk1 off m p : (S off = m)%nat -> (off < length p)%nat -> [byte_at off p] ++ drop m p = drop off p.
Proof.
  intros <- Ho. unfold byte_at. destruct (lookup_lt_is_Some_2 p off Ho) as [b Hb].
  rewrite (nth_lookup_Some _ _ _ _ Hb). simpl. symmetry. by apply drop_S.
Qed.
Lemma chunk_last off k (p : list N) : (off + k = length p)%nat -> take k (drop off p) = drop off p.
Proof. intros Hl. apply take_ge. rewrite length_drop. lia. Qed.

(** Evaluate the reads of a written message, and the writes of a read one. *)
Lemma le_at_all k n : n < 256 ^ N.of_nat k -> le_at 0 k (to_le_bytes k n) = n.
Proof. intros Hn. rewrite <- (app_nil_r (to_le_bytes k n)). by apply le_at_here. Qed.

Ltac fits := first [assumption | exact (i64_bits_bound _) | (unfold u64, is_byte, STATUS_REJECTED in *; simpl; lia)].
Ltac read_back :=
  repeat (first
    [ rewrite le_at_here by fits | rewrite le_at_all by fits | rewrite byte_at_here
    | rewrite le_at_skip by (rewrite ?length_to_le; simpl; lia)
    | rewrite byte_at_skip by (rewrite ?length_to_le; simpl; lia)
    | rewrite drop_skip by (rewrite ?length_to_le; simpl; lia) ];
    rewrite ?length_to_le; cbn [length Nat.sub]);
  rewrite ?i64_of_bits_bits by assumption.
Ltac written := rewrite !length_app, ?length_to_le; cbn [length Nat.add Nat.eqb negb].
Ltac reads_ok := unfold read_u64, read_u16, read_i64;
  repeat (first [rewrite read_le_ok by (rewrite ?length_app, ?length_to_le; simpl; lia)
                |rewrite read_u8_ok by (rewrite ?length_app, ?length_to_le; simpl; lia)]; cbn [rbind]).

Lemma new_order_read w : wf_new_order w -> decode_new_order (new_order_bytes w) = Ok w.
Proof.
  destruct w as [ts id acct px q sd tif ty pad]. unfold wf_new_order, decode_new_order, new_order_bytes.
  cbn [no_client_ts no_order_id no_account_id no_price no_qty no_side no_time_in_force no_order_type no_pad].
  intros (H1 & H2 & H3 & H4 & H5 & H6 & H7 & H8 & H9 & H10). written. rewrite H9. cbn [Nat.add Nat.eqb].
  f_equal. f_equal; read_back; done.
Qed.

Lemma cancel_order_read w : wf_cancel_order w -> decode_cancel_order (cancel_order_bytes w) = Ok w.
Proof.
  destruct w as [ts id acct]. unfold wf_cancel_order, decode_cancel_order, cancel_order_bytes.
  cbn [co_client_ts co_order_id co_account_id]. intros (H1 & H2 & H3). written. f_equal. f_equal; read_back; done.
Qed.

Lemma cancel_replace_read w : wf_cancel_replace w -> decode_cancel_replace (cancel_replace_bytes w) = Ok w.
Proof.
  destruct w as [ts id acct px q]. unfold wf_cancel_replace, decode_cancel_replace, cancel_replace_bytes.
  cbn [cr_client_ts cr_order_id cr_account_id cr_new_price cr_new_qty]. intros (H1 & H2 & H3 & H4 & H5).
  written. f_equal. f_equal; read_back; done.
Qed.

Lemma mass_cancel_read w : wf_mass_cancel w -> decode_mass_cancel (mass_cancel_bytes w) = Ok w.
Proof.
  destruct w as [ts acct scope pad]. unfold wf_mass_cancel, decode_mass_cancel, mass_cancel_bytes.
  cbn [mc_client_ts mc_account_id mc_scope mc_pad]. intros (H1 & H2 & H3 & [H4 H5] & H6).
  written. rewrite H4. cbn [Nat.add Nat.eqb]. read_back. rewrite drop_0, H6. done.
Qed.

Lemma exec_report_read r : wf_exec_report r -> decode_exec_report (encode_exec_report r) = Ok r.
Proof.
  destruct r as [seq id st fq rq px rr pad]. unfold wf_exec_report, decode_exec_report, encode_exec_report.
  cbn [er_engine_seq er_order_id er_status er_filled_qty er_remaining_qty er_price er_reject_reason er_pad].
  intros (H1 & H2 & H3 & H4 & H5 & H6 & H7 & ->). written. reads_ok. read_back.
  rewrite (proj2 (N.ltb_ge _ _)) by done. done.
Qed.

Lemma trade_print_read t : wf_trade_print t -> decode_trade_print (encode_trade_print t) = Ok t.
Proof.
  destruct t as [seq mk tk px q ts]. unfold wf_trade_print, decode_trade_print, encode_trade_print.
  cbn [tp_engine_seq tp_maker_id tp_taker_id tp_price tp_qty tp_ts].
  intros (H1 & H2 & H3 & H4 & H5 & H6). written. reads_ok. read_back. done.
Qed.

Lemma book_update_read u : wf_book_update u -> decode_book_update (encode_book_update u) = Ok u.
Proof.
  destruct u as [seq sd px q]. unfold wf_book_update, decode_book_update, encode_book_update.
  cbn [bu_engine_seq bu_side bu_price bu_qty]. intros (H1 & H2 & H3 & H4). written. reads_ok. read_back.
  assert (Hs : negb (sd =? 0) && negb (sd =? 1) = false) by (assert (sd = 0 \/ sd = 1) as [->| ->] by lia; done).
  rewrite Hs. rewrite !slice_skip by (rewrite ?length_to_le; simpl; lia).
  rewrite !length_to_le. done.
Qed.

(** ** Codecs *)

Record Codec (A : Type) := {
  enc : A -> list N;
  dec : list N -> Result WireError A;
  wf : A -> Prop;
}.
Arguments enc {A}. Arguments dec {A}. Arguments wf {A}.

(** Every well-formed message survives the wire, and every accepted payload is
    the encoding of the well-formed message it decodes to. *)
Record exact {A} (c : Codec A) : Prop := {
  exact_read : forall w, wf c w -> dec c (enc c w) = Ok w;
  exact_write : forall p w, Forall is_byte p -> dec c p = Ok w -> enc c w = p /\ wf c w;
}.

Definition new_order_codec := {| enc := new_order_bytes; dec := decode_new_order; wf := wf_new_order |}.
Definition cancel_order_codec :=
  {| enc := cancel_order_bytes; dec := decode_cancel_order; wf := wf_cancel_order |}.
Definition cancel_replace_codec :=
  {| enc := cancel_replace_bytes; dec := decode_cancel_replace; wf := wf_cancel_replace |}.
Definition mass_cancel_codec :=
  {| enc := mass_cancel_bytes; dec := decode_mass_cancel; wf := wf_mass_cancel |}.
Definition exec_report_codec :=
  {| enc := encode_exec_report; dec := decode_exec_report; wf := wf_exec_report |}.
Definition trade_print_codec :=
  {| enc := encode_trade_print; dec := decode_trade_print; wf := wf_trade_print |}.
Definition book_update_codec :=
  {| enc := encode_book_update; dec := decode_book_update; wf := wf_book_update |}.

Ltac bounds := first
  [ apply (le_at_bound 8); assumption | apply (le_at_bound 2); assumption
  | apply byte_at_bound; [assumption|lia]
  | apply i64_of_bits_range; exact (le_at_bound 8 _ _ ltac:(eassumption)) ].

Lemma bits_at off p : Forall is_byte p -> i64_bits (i64_of_bits (le_at off 8 p)) = le_at off 8 p.
Proof. intros Hp. apply i64_bits_of_bits. exact (le_at_bound 8 off p Hp). Qed.

(** Turn the fields read from [p] back into its segments. *)
Ltac segments := rewrite ?bits_at by assumption; rewrite !le_at_bytes by (assumption || lia).

Lemma cancel_order_exact : exact cancel_order_codec.
Proof.
  split; [exact cancel_order_read|]. intros p w Hp. unfold cancel_order_codec. cbn [enc dec wf].
  unfold decode_cancel_order. destruct (Nat.eqb_spec (length p) 24) as [Hl|]; [|done]. intros [= <-].
  unfold cancel_order_bytes, wf_cancel_order. cbn [co_client_ts co_order_id co_account_id].
  split; [|split_and!; bounds]. segments.
  rewrite (chunk_last 16 8), (chunk 8 8 16), (chunk 0 8 8) by lia. apply drop_0.
Qed.

Lemma cancel_replace_exact : exact cancel_replace_codec.
Proof.
  split; [exact cancel_replace_read|]. intros p w Hp. unfold cancel_replace_codec. cbn [enc dec wf].
  unfold decode_cancel_replace. destruct (Nat.eqb_spec (length p) 40) as [Hl|]; [|done]. intros [= <-].
  unfold cancel_replace_bytes, wf_cancel_replace.
  cbn [cr_client_ts cr_order_id cr_account_id cr_new_price cr_new_qty].
  split; [|split_and!; bounds]. segments.
  rewrite (chunk_last 32 8), (chunk 24 8 32), (chunk 16 8 24), (chunk 8 8 16), (chunk 0 8 8) by lia.
  apply drop_0.
Qed.

Lemma new_order_exact : exact new_order_codec.
Proof.
  split; [exact new_order_read|]. intros p w Hp. unfold new_order_codec. cbn [enc dec wf].
  unfold decode_new_order. destruct (Nat.eqb_spec (length p) 48) as [Hl|]; [|done]. intros [= <-].
  unfold new_order_bytes, wf_new_order.
  cbn [no_client_ts no_order_id no_account_id no_price no_qty no_side no_time_in_force no_order_type no_pad].
  split.
  - segments. rewrite (chunk1 42 43), (chunk1 41 42), (chunk1 40 41), (chunk 32 8 40), (chunk 24 8 32),
      (chunk 16 8 24), (chunk 8 8 16), (chunk 0 8 8) by lia. apply drop_0.
  - split_and!; try bounds. split; [rewrite length_drop; lia|by apply Forall_drop].
Qed.

Lemma mass_cancel_exact : exact mass_cancel_codec.
Proof.
  split; [exact mass_cancel_read|]. intros p w Hp. unfold mass_cancel_codec. cbn [enc dec wf].
  unfold decode_mass_cancel. destruct (Nat.eqb_spec (length p) 24) as [Hl|]; [|done].
  cbn [mc_scope mc_pad]. destruct (check_mass_cancel _ _) as [[]|] eqn:Hc; [|done]. cbn [rbind]. intros [= <-].
  unfold mass_cancel_bytes, wf_mass_cancel. cbn [mc_client_ts mc_account_id mc_scope mc_pad]. split.
  - segments. rewrite (chunk1 16 17), (chunk 8 8 16), (chunk 0 8 8) by lia. apply drop_0.
  - split_and!; try bounds; [|done]. split; [rewrite length_drop; lia|by apply Forall_drop].
Qed.

Lemma exec_report_exact : exact exec_report_codec.
Proof.
  split; [exact exec_report_read|]. intros p w Hp. unfold exec_report_codec. cbn [enc dec wf].
  unfold decode_exec_report. destruct (Nat.eqb_spec (length p) 44) as [Hl|]; [|done]. cbn [negb]. reads_ok.
  destruct (N.ltb_spec STATUS_REJECTED (byte_at 16 p)) as [|Hst]; [done|].
  destruct (N.eqb_spec (byte_at 43 p) 0) as [Hpad|]; [|done]. cbn [negb]. intros [= <-].
  unfold encode_exec_report, wf_exec_report.
  cbn [er_engine_seq er_order_id er_status er_filled_qty er_remaining_qty er_price er_reject_reason er_pad].
  split; [|split_and!; try bounds; done]. segments.
  assert (Hend : [byte_at 43 p] = drop 43 p).
  { rewrite <- (chunk1 43 44 p) by lia. rewrite (drop_ge p 44) by lia. done. }
  rewrite Hend. rewrite (chunk 41 2 43), (chunk 33 8 41), (chunk 25 8 33), (chunk 17 8 25), (chunk1 16 17),
    (chunk 8 8 16), (chunk 0 8 8) by lia. apply drop_0.
Qed.

Lemma trade_print_exact : exact trade_print_codec.
Proof.
  split; [exact trade_print_read|]. intros p w Hp. unfold trade_print_codec. cbn [enc dec wf].
  unfold decode_trade_print. destruct (Nat.eqb_spec (length p) 48) as [Hl|]; [|done]. cbn [negb]. reads_ok.
  intros [= <-]. unfold encode_trade_print, wf_trade_print.
  cbn [tp_engine_seq tp_maker_id tp_taker_id tp_price tp_qty tp_ts].
  split; [|split_and!; bounds]. segments.
  rewrite (chunk_last 40 8), (chunk 32 8 40), (chunk 24 8 32), (chunk 16 8 24), (chunk 8 8 16), (chunk 0 8 8)
    by lia. apply drop_0.
Qed.

Lemma all_zero l : any_nonzero l = false -> l = repeat 0 (length l).
Proof.
  induction l as [|b l IH]; [done|]. unfold any_nonzero. simpl. intros [Hb Hl]%orb_false_iff.
  apply negb_false_iff, N.eqb_eq in Hb as ->. f_equal. by apply IH.
Qed.

Lemma book_update_exact : exact book_update_codec.
Proof.
  split; [exact book_update_read|]. intros p w Hp. unfold book_update_codec. cbn [enc dec wf].
  unfold decode_book_update. destruct (Nat.eqb_spec (length p) 32) as [Hl|]; [|done]. cbn [negb]. reads_ok.
  destruct (_ && _) eqn:Hs; [done|]. unfold slice. rewrite (proj2 (Nat.leb_le _ _)) by lia.
  destruct (any_nonzero _) eqn:Hz; [done|]. intros [= <-].
  unfold encode_book_update, wf_book_update. cbn [bu_engine_seq bu_side bu_price bu_qty]. split.
  - segments. apply all_zero in Hz. rewrite length_take_le in Hz by (rewrite length_drop; lia). rewrite <- Hz.
    rewrite (chunk_last 25 7), (chunk 17 8 25), (chunk 9 8 17), (chunk1 8 9), (chunk 0 8 8) by lia.
    apply drop_0.
  - split_and!; try bounds. apply andb_false_iff in Hs as [Hs|Hs];
      apply negb_false_iff, N.eqb_eq in Hs; rewrite Hs; lia.
Qed.

(** C33.  The wire codecs are exact.  For each of the seven messages, encoding
    a message whose fields fit their types, with what the decoder checks (the
    scope of a mass cancel, the status and padding of a report, the side of a
    book update) in order, and decoding it gives the message back, and a
    payload that is accepted is byte for byte the encoding of the message it
    decodes to: no two payloads mean the same message, and padding carries no
    hidden data. *)
Theorem wire_codecs_exact :
  exact new_order_codec /\ exact cancel_order_codec /\ exact cancel_replace_codec /\
  exact mass_cancel_codec /\ exact exec_report_codec /\ exact trade_print_codec /\
  exact book_update_codec.
Proof.
  split_and!; [apply new_order_exact|apply cancel_order_exact|apply cancel_replace_exact|
    apply mass_cancel_exact|apply exec_report_exact|apply trade_print_exact|apply book_update_exact].
Qed.

(** A [NewOrder] is admitted exactly when it is meaningful: padding
    zero, price and quantity positive, account not the reserved zero, side,
    time in force and order type known.  It then becomes the standard order
    with those fields, whose user is never the "no self-trade prevention"
    sentinel, and different accounts become different users; anything else is
    an [InvalidPayload]. *)
Theorem new_order_admission (id_from_u64 : N -> Id) w :
  wf_new_order w ->
  match order_try_from id_from_u64 w with
  | Ok o =>
      any_nonzero (no_pad w) = false /\ (0 < no_price w)%Z /\ 0 < no_qty w /\ no_account_id w <> 0 /\
      no_order_type w = ORDER_TYPE_STANDARD /\ o_user_id o = no_account_id w /\
      o_user_id o <> Hash32_zero /\
      exists side tif, wire_side (no_side w) = Some side /\ wire_tif (no_time_in_force w) = Some tif /\
        o = Standard (id_from_u64 (no_order_id w)) (Z.to_N (no_price w)) (no_qty w) side
              (no_account_id w) (no_client_ts w) tif tt
  | Err e => (exists reason, e = InvalidPayload reason) /\
      (any_nonzero (no_pad w) = true \/ (no_price w <= 0)%Z \/ no_qty w = 0 \/ no_account_id w = 0 \/
       wire_side (no_side w) = None \/ wire_tif (no_time_in_force w) = None \/
       no_order_type w <> ORDER_TYPE_STANDARD)
  end.
Proof.
  intros (_ & _ & Ha & _).
  assert (Hh : account_hash (no_account_id w) = no_account_id w).
  { unfold account_hash. rewrite <- (from_to_le 8 (no_account_id w) Ha) at 2. reflexivity. }
  unfold order_try_from. destruct (any_nonzero _) eqn:E1; [eauto 9|].
  destruct (Z.ltb_spec (no_price w) 0); [eauto 9 with lia|].
  destruct (Z.eqb_spec (no_price w) 0); [eauto 9 with lia|].
  destruct (N.eqb_spec (no_qty w) 0); [eauto 9|]. destruct (N.eqb_spec (no_account_id w) 0); [eauto 9|].
  destruct (wire_side _) as [side|]; [|eauto 9]. destruct (wire_tif _) as [tif|]; [|eauto 9].
  destruct (N.eqb_spec (no_order_type w) ORDER_TYPE_STANDARD); cbn [negb]; [|eauto 12].
  rewrite Hh. split_and!; try done; try lia. eauto.
Qed.

Lemma new_order_admission_witness :
  exists o, order_try_from (fun n => n) {| no_client_ts := 5; no_order_id := 42; no_account_id := 7;
      no_price := 9999; no_qty := 10; no_side := 1; no_time_in_force := 1; no_order_type := 0;
      no_pad := [0; 0; 0; 0; 0] |} = Ok o /\ o_user_id o = 7.
Proof.
  eexists. split; [reflexivity|].
  pose proof (new_order_admission (fun n => n) {| no_client_ts := 5; no_order_id := 42; no_account_id := 7;
      no_price := 9999; no_qty := 10; no_side := 1; no_time_in_force := 1; no_order_type := 0;
      no_pad := [0; 0; 0; 0; 0] |}) as H.
  apply H. split_and!; try done. by repeat constructor.
Defined.
