(* ===== verification/Operations.v ===== *)
(** * Public submission methods (operations.rs)

    Each builds an order stamped by the book's clock, behind the kill switch,
    and hands it to [add_order]; the market methods pass the kill switch and
    the (empty) risk gate and hand over to the matching engine. *)

From S2P Require Import Prelude Types PriceLevel OrderQuantity Fees Stp Clock Cache Risk OrderState Reject SkipMap Book Matching Modifications.
Local Open Scope N_scope.

Section Operations.
Context {PA : PriceLevelApi} {WC : WallClock} {T : Type} (dflt : T).

(** The kill-switch gate and the clock reading every builder starts with. *)
Definition stamped {A} (id : Id) (build : N -> OrderType T)
    (submit : OrderType T -> ST OrderBook (Result OrderBookError A)) :
    ST OrderBook (Result OrderBookError A) :=
  let? _ := check_kill_switch_or_reject id in
  let! ts := clock_now in
  submit (build ts).

Definition add_limit_order_with_user (id : Id) (price qty : N) (side : Side) (tif : TimeInForce)
    (user_id : Hash32) (extra : option T) : ST OrderBook (Result OrderBookError (OrderType T)) :=
  stamped id (fun ts => Standard id price qty side user_id ts tif (default dflt extra)) (add_order dflt).

Definition add_limit_order (id : Id) (price qty : N) (side : Side) (tif : TimeInForce)
    (extra : option T) : ST OrderBook (Result OrderBookError (OrderType T)) :=
  add_limit_order_with_user id price qty side tif Hash32_zero extra.

Definition add_limit_order_with_user_and_result (id : Id) (price qty : N) (side : Side)
    (tif : TimeInForce) (user_id : Hash32) (extra : option T) :
    ST OrderBook (Result OrderBookError (OrderType T * option TradeResult)) :=
  stamped id (fun ts => Standard id price qty side user_id ts tif (default dflt extra))
    (add_order_with_result dflt).

Definition add_limit_order_with_result (id : Id) (price qty : N) (side : Side) (tif : TimeInForce)
    (extra : option T) : ST OrderBook (Result OrderBookError (OrderType T * option TradeResult)) :=
  add_limit_order_with_user_and_result id price qty side tif Hash32_zero extra.

Definition add_iceberg_order_with_user (id : Id) (price visible hidden : N) (side : Side)
    (tif : TimeInForce) (user_id : Hash32) (extra : option T) :
    ST OrderBook (Result OrderBookError (OrderType T)) :=
  stamped id (fun ts => IcebergOrder id price visible hidden side user_id ts tif (default dflt extra))
    (add_order dflt).

Definition add_iceberg_order (id : Id) (price visible hidden : N) (side : Side) (tif : TimeInForce)
    (extra : option T) : ST OrderBook (Result OrderBookError (OrderType T)) :=
  add_iceberg_order_with_user id price visible hidden side tif Hash32_zero extra.

Definition add_post_only_order_with_user (id : Id) (price qty : N) (side : Side) (tif : TimeInForce)
    (user_id : Hash32) (extra : option T) : ST OrderBook (Result OrderBookError (OrderType T)) :=
  stamped id (fun ts => PostOnly id price qty side user_id ts tif (default dflt extra)) (add_order dflt).

Definition add_post_only_order (id : Id) (price qty : N) (side : Side) (tif : TimeInForce)
    (extra : option T) : ST OrderBook (Result OrderBookError (OrderType T)) :=
  add_post_only_order_with_user id price qty side tif Hash32_zero extra.

Definition submit_market_order_with_user (id : Id) (qty : N) (side : Side) (user_id : Hash32) :
    ST OrderBook (Result OrderBookError MatchResult) :=
  let? _ := check_kill_switch_or_reject id in
  let? _ := sret (check_market_admission user_id) in
  match_market_order_with_user id qty side user_id.

Definition submit_market_order (id : Id) (qty : N) (side : Side) :
    ST OrderBook (Result OrderBookError MatchResult) :=
  let? _ := check_kill_switch_or_reject id in
  let? _ := sret (check_market_admission Hash32_zero) in
  match_market_order id qty side.

Definition submit_market_order_by_amount_with_user (id : Id) (amount : N) (side : Side)
    (user_id : Hash32) : ST OrderBook (Result OrderBookError MatchResult) :=
  let? _ := check_kill_switch_or_reject id in
  let? _ := sret (check_market_admission user_id) in
  match_market_order_by_amount_with_user id amount side user_id.

Definition submit_market_order_by_amount (id : Id) (amount : N) (side : Side) :
    ST OrderBook (Result OrderBookError MatchResult) :=
  let? _ := check_kill_switch_or_reject id in
  let? _ := sret (check_market_admission Hash32_zero) in
  match_market_order_by_amount id amount side.
End Operations.
