(* ===== verification/Replay.v ===== *)
(** * Journal and replay (sequencer/types.rs, in_memory_journal.rs, replay.rs)

    The commands a journal records, the in-memory journal, and the engine that
    rebuilds a book from it: gap detection, skipping of rejected events, the
    application of every command. *)

From S2P Require Import Prelude Types PriceLevel OrderQuantity Fees Stp Clock Cache Risk OrderState Reject SkipMap Book BookInv Matching MatchingInv MatchingSteps MatchingProps Modifications ModificationsProps AddProps UpdateProps MassCancel Operations.
Local Open Scope N_scope.

Section Types.
Context {PA : PriceLevelApi} (T : Type).

Inductive SequencerCommand :=
| AddOrder (order : OrderType T)
| CancelOrder (id : Id)
| UpdateOrder (update : OrderUpdate)
| MarketOrder (id : Id) (qty : N) (side : Side)
| MarketOrderByAmount (id : Id) (amount : N) (side : Side)
| CancelAll
| CancelBySide (side : Side)
| CancelByUser (user_id : Hash32)
| CancelByPriceRange (side : Side) (min_price max_price : N)
| EvictExpiredOrders (now_ms : N).

Inductive SequencerResult :=
| OrderAdded (order_id : Id)
| OrderCancelled (order_id : Id)
| OrderUpdated (order_id : Id)
| TradeExecuted (trade_result : TradeResult)
| MassCancelled (result : MassCancelResult)
| ResultRejected (reason : string).

Record SequencerEvent := {
  sequence_num : N;
  timestamp_ns : N;
  command : SequencerCommand;
  event_result : SequencerResult;
}.
End Types.
Arguments AddOrder {T}. Arguments CancelOrder {T}. Arguments UpdateOrder {T}.
Arguments MarketOrder {T}. Arguments MarketOrderByAmount {T}. Arguments CancelAll {T}.
Arguments CancelBySide {T}. Arguments CancelByUser {T}. Arguments CancelByPriceRange {T}.
Arguments EvictExpiredOrders {T}.
Arguments sequence_num {PA T}. Arguments timestamp_ns {PA T}.
Arguments command {PA T}. Arguments event_result {PA T}.

Inductive JournalError :=
| JIo (message : string)
| CorruptEntry (sequence expected_crc actual_crc : N)
| DeserializationError (sequence : N) (message : string)
| SerializationError (message : string)
| EntryTooLarge (entry_bytes segment_size : N)
| InvalidDirectory
| MutexPoisoned
| SequenceNotFound (sequence : N)
| InvalidEntryHeader (offset : N) (message : string)
| CounterOverflow (counter : string).

Inductive ReplayError :=
| EmptyJournal
| InvalidSequence (from_sequence last_sequence : N)
| SequenceGap (expected found : N)
| SequenceOverflow (at_seq : N)
| ReplayOrderBookError (sequence_num : N) (source : OrderBookError)
| NamespaceRequiresFullReplay (from_sequence : N)
| SnapshotMismatch
| ReplayJournalError (e : JournalError).

(** What [ReplayEngine] needs of a journal: the trait's read side. *)
Class Journal (E J : Type) := {
  read_from : J -> N -> Result JournalError (list (Result JournalError E));
  last_sequence : J -> option N;
}.

Section Journal.
Context {PA : PriceLevelApi} {T : Type}.

(** [InMemoryJournal]: the vector of the events appended so far. *)
Record InMemoryJournal := { journal_events : list (SequencerEvent T) }.
Definition journal_new : InMemoryJournal := {| journal_events := [] |}.
Definition append (e : SequencerEvent T) (j : InMemoryJournal) : InMemoryJournal :=
  {| journal_events := journal_events j ++ [e] |}.
Definition journal_len (j : InMemoryJournal) : nat := length (journal_events j).

#[export] Instance in_memory_journal : Journal (SequencerEvent T) InMemoryJournal := {|
  read_from j sequence := Ok (Ok <$> filter (fun e => sequence <= sequence_num e) (journal_events j));
  last_sequence j := sequence_num <$> last (journal_events j);
|}.
End Journal.

Section Engine.
Context {PA : PriceLevelApi} {WC : WallClock} {T : Type} (dflt : T).

Record ReplayBookConfig := {
  rc_fee_schedule : option FeeSchedule;
  rc_stp_mode : STPMode;
  rc_tick_size : option N;
  rc_lot_size : option N;
  rc_min_order_size : option N;
  rc_max_order_size : option N;
  rc_trade_id_namespace : option N;
}.

Definition apply_to (c : ReplayBookConfig) (b : OrderBook) : OrderBook :=
  let b := set_lot_size_opt (rc_lot_size c) (set_tick_size_opt (rc_tick_size c)
             (set_stp_mode (rc_stp_mode c) (set_fee_schedule (rc_fee_schedule c) b))) in
  let b := match rc_min_order_size c with Some m => set_min_order_size m b | None => b end in
  let b := match rc_max_order_size c with Some m => set_max_order_size m b | None => b end in
  match rc_trade_id_namespace c with
  | Some ns => set_generator (uuid_generator_new ns) b
  | None => b
  end.

Definition is_rejected (r : SequencerResult) : bool :=
  match r with ResultRejected _ => true | _ => false end.

(** Lift a book operation's error. *)
Definition lift_error {A} (seq : N) (c : ST OrderBook (Result OrderBookError A)) :
    ST OrderBook (Result ReplayError unit) :=
  let! r := c in
  sret (match r with Ok _ => Ok tt | Err e => Err (ReplayOrderBookError seq e) end).
Definition ignore {A} (c : ST OrderBook A) : ST OrderBook (Result ReplayError unit) :=
  let! _ := c in sret (Ok tt).

Definition apply_command (seq : N) (c : SequencerCommand T) : ST OrderBook (Result ReplayError unit) :=
  match c with
  | AddOrder order => lift_error seq (add_order dflt order)
  | CancelOrder id => lift_error seq (cancel_order dflt id)
  | UpdateOrder update => lift_error seq (update_order dflt update)
  | MarketOrder id qty side => lift_error seq (submit_market_order id qty side)
  | MarketOrderByAmount id amount side => lift_error seq (submit_market_order_by_amount id amount side)
  | CancelAll => ignore cancel_all_orders
  | CancelBySide side => ignore (cancel_orders_by_side dflt side)
  | CancelByUser user_id => ignore (cancel_orders_by_user dflt user_id)
  | CancelByPriceRange side lo hi => ignore (cancel_orders_by_price_range dflt side lo hi)
  | EvictExpiredOrders now_ms => ignore (evict_expired_orders dflt now_ms)
  end.

Definition apply_event (e : SequencerEvent T) : ST OrderBook (Result ReplayError unit) :=
  if is_rejected (event_result e) then sret (Ok tt)
  else apply_command (sequence_num e) (command e).

(** The loop of [replay_into]: [last], [count] and [expected] are its local
    variables, [progress] the arguments of the calls of the callback. *)
Fixpoint replay_loop (entries : list (Result JournalError (SequencerEvent T)))
    (last_applied count expected : N) (progress : list (N * N)) :
    ST OrderBook (Result ReplayError (N * list (N * N))) :=
  match entries with
  | [] => sret (Ok (last_applied, progress))
  | Err e :: _ => sret (Err (ReplayJournalError e))
  | Ok event :: entries' =>
      if negb (sequence_num event =? expected) then
        sret (Err (SequenceGap expected (sequence_num event)))
      else
        let? _ := apply_event event in
        match checked_add U64_MAX expected 1 with
        | None => sret (Err (SequenceOverflow expected))
        | Some expected' =>
            if is_rejected (event_result event) then
              replay_loop entries' last_applied count expected' progress
            else
              match checked_add U64_MAX count 1 with
              | None => sret (Err (SequenceOverflow count))
              | Some count' =>
                  replay_loop entries' (sequence_num event) count' expected'
                    (progress ++ [(count', sequence_num event)])
              end
        end
  end.

Context {J : Type} `{!Journal (SequencerEvent T) J}.

Definition replay_into (journal : J) (from_sequence : N) :
    ST OrderBook (Result ReplayError (N * list (N * N))) :=
  match read_from journal from_sequence with
  | Err e => sret (Err (ReplayJournalError e))
  | Ok entries => replay_loop entries 0 0 from_sequence []
  end.

Definition check_namespace_full_replay (from_sequence : N) (c : ReplayBookConfig) :
    Result ReplayError unit :=
  if negb (from_sequence =? 0) && bool_decide (is_Some (rc_trade_id_namespace c))
  then Err (NamespaceRequiresFullReplay from_sequence) else Ok tt.

(** The checks and the run the six entry points share: [book] is the fresh
    book, [config] the configuration to apply, if any. *)
Definition replay_on (journal : J) (from_sequence : N) (book : OrderBook)
    (config : option ReplayBookConfig) : Result ReplayError (OrderBook * N) :=
  match last_sequence journal with
  | None => Err EmptyJournal
  | Some last_seq =>
      if last_seq <? from_sequence then Err (InvalidSequence from_sequence last_seq)
      else
        match (match config with
               | Some c => check_namespace_full_replay from_sequence c
               | None => Ok tt
               end) with
        | Err e => Err e
        | Ok _ =>
            let book' := match config with Some c => apply_to c book | None => book end in
            match replay_into journal from_sequence book' with
            | (Ok (last_applied, _), b') => Ok (b', last_applied)
            | (Err e, _) => Err e
            end
        end
  end.

Definition replay_from (journal : J) (from_sequence : N) (sym : string) (namespace : N) :=
  replay_on journal from_sequence (with_clock_and_namespace sym (MonotonicClock 0) namespace) None.
Definition replay_from_with_config (journal : J) (from_sequence : N) (sym : string) (namespace : N)
    (c : ReplayBookConfig) :=
  replay_on journal from_sequence (with_clock_and_namespace sym (MonotonicClock 0) namespace) (Some c).
Definition replay_from_with_clock (journal : J) (from_sequence : N) (sym : string) (namespace : N)
    (clk : Clock) :=
  replay_on journal from_sequence (with_clock_and_namespace sym clk namespace) None.
Definition replay_from_with_clock_and_config (journal : J) (from_sequence : N) (sym : string)
    (namespace : N) (clk : Clock) (c : ReplayBookConfig) :=
  replay_on journal from_sequence (with_clock_and_namespace sym clk namespace) (Some c).
End Engine.
