(* ===== verification/ReplayProps.v ===== *)
(** * Properties of journal replay

    The loop of the replay engine against a reference: applying the events of
    a gap-free journal one after the other.  Replay can be resumed, reports
    every gap, and keeps the book well formed whatever the journal holds. *)

From S2P Require Import Prelude Types PriceLevel PriceLevelFifo OrderQuantity Fees Stp Clock Cache Risk OrderState Reject SkipMap Book BookInv Matching MatchingInv MatchingSteps MatchingProps Modifications ModificationsProps AddProps UpdateProps MassCancel Operations Replay.
Local Open Scope N_scope.

Section Loop.
Context {PA : PriceLevelApi} {WC : WallClock} {T : Type} (dflt : T).
Implicit Types (es : list (SequencerEvent T)) (b : OrderBook).

(** The reference: apply the events in order, stop at the first error. *)
Fixpoint run_events es : ST OrderBook (Result ReplayError unit) :=
  match es with
  | [] => sret (Ok tt)
  | e :: es' => let? _ := apply_event dflt e in run_events es'
  end.

(** The events numbered [from], [from + 1], ... *)
Fixpoint contiguous (from : N) es : Prop :=
  match es with
  | [] => True
  | e :: es' => sequence_num e = from /\ contiguous (from + 1) es'
  end.

(** The events a replay acts on. *)
Definition effective (e : SequencerEvent T) : Prop := is_rejected (event_result e) = false.
#[export] Instance effective_dec e : Decision (effective e).
Proof. unfold effective. apply _. Defined.

(** What the loop's counters come to after [es]. *)
Definition last_after (last_applied : N) es : N :=
  default last_applied (sequence_num <$> last (filter effective es)).
Definition progress_after (count : N) es : list (N * N) :=
  imap (fun i e => (count + N.of_nat i + 1, sequence_num e)) (filter effective es).

Lemma last_after_cons last_applied e es :
  last_after last_applied (e :: es) =
  last_after (if decide (effective e) then sequence_num e else last_applied) es.
Proof.
  unfold last_after. rewrite filter_cons. case_decide; [|done].
  rewrite last_cons. by destruct (last (filter effective es)).
Qed.

Lemma progress_after_cons count e es :
  progress_after count (e :: es) =
  if decide (effective e) then (count + 1, sequence_num e) :: progress_after (count + 1) es
  else progress_after count es.
Proof.
  unfold progress_after. rewrite filter_cons. case_decide; [|done].
  rewrite imap_cons. f_equal; [f_equal; simpl; lia|].
  apply imap_ext. intros i x _. simpl. f_equal. lia.
Qed.

(** A contiguous prefix followed by anything. *)
Lemma replay_loop_app es rest : forall last_applied count from progress b,
  contiguous from es -> from + N.of_nat (length es) <= U64_MAX ->
  count + N.of_nat (length es) <= U64_MAX ->
  replay_loop dflt ((Ok <$> es) ++ rest) last_applied count from progress b =
  match run_events es b with
  | (Ok _, b') =>
      replay_loop dflt rest (last_after last_applied es)
        (count + N.of_nat (length (filter effective es))) (from + N.of_nat (length es))
        (progress ++ progress_after count es) b'
  | (Err e, b') => (Err e, b')
  end.
Proof.
  induction es as [|e es IH]; intros last_applied count from progress b Hc Hf Hn.
  { cbn [fmap list_fmap app run_events sret length]. unfold last_after, progress_after. simpl.
    by rewrite !N.add_0_r, app_nil_r. }
  destruct Hc as [Hs Hc]. cbn [length] in Hf, Hn.
  cbn [fmap list_fmap app replay_loop run_events]. rewrite Hs, N.eqb_refl. cbn [negb].
  unfold stry at 1 2. destruct (apply_event dflt e b) as [[u|err] b1]; [|done].
  unfold checked_add. rewrite !(proj2 (N.leb_le _ U64_MAX)) by lia.
  rewrite last_after_cons, progress_after_cons, filter_cons.
  destruct (decide (effective e)) as [Er|Er]; unfold effective in Er;
    [rewrite Er|apply not_false_is_true in Er; rewrite Er]; swap 1 2.
  - rewrite (IH _ _ _ _ _ Hc) by lia. destruct (run_events es b1) as [[?|?] b2]; [|done].
    f_equal; cbn [length]; lia.
  - rewrite (IH _ _ _ _ _ Hc) by lia. destruct (run_events es b1) as [[?|?] b2]; [|done].
    rewrite <- app_assoc. cbn [app length]. rewrite Hs. f_equal; lia.
Qed.

(** The longest gap-free prefix, and the event that breaks it. *)
Fixpoint split_gap (from : N) es : list (SequencerEvent T) * option (SequencerEvent T) :=
  match es with
  | [] => ([], None)
  | e :: es' =>
      if sequence_num e =? from
      then let '(pre, gap) := split_gap (from + 1) es' in (e :: pre, gap)
      else ([], Some e)
  end.

Lemma split_gap_spec es : forall from,
  let '(pre, gap) := split_gap from es in
  contiguous from pre /\
  match gap with
  | None => es = pre
  | Some e => (exists post, es = pre ++ e :: post) /\ sequence_num e <> from + N.of_nat (length pre)
  end.
Proof.
  induction es as [|e es IH]; intros from; simpl; [done|].
  destruct (N.eqb_spec (sequence_num e) from) as [Hs|Hs].
  - specialize (IH (from + 1)). destruct (split_gap (from + 1) es) as [pre [g|]].
    + destruct IH as (Hc & [post ->] & Hg). split; [done|]. split; [by exists post|cbn [length]; lia].
    + destruct IH as [Hc ->]. done.
  - split_and!; [done|by exists es|]. simpl. lia.
Qed.

Lemma split_gap_contiguous es : forall from, contiguous from es -> split_gap from es = (es, None).
Proof.
  induction es as [|e es IH]; intros from Hc; simpl; [done|]. destruct Hc as [-> Hc].
  by rewrite N.eqb_refl, (IH _ Hc).
Qed.

(** What a replay from [from] of the events [es] comes to. *)
Definition replay_reference (from : N) es :
    ST OrderBook (Result ReplayError (N * list (N * N))) := fun b =>
  let '(pre, gap) := split_gap from es in
  match run_events pre b with
  | (Err e, b') => (Err e, b')
  | (Ok _, b') =>
      match gap with
      | Some e => (Err (SequenceGap (from + N.of_nat (length pre)) (sequence_num e)), b')
      | None => (Ok (last_after 0 es, progress_after 0 es), b')
      end
  end.

Lemma replay_loop_reference es from b :
  from + N.of_nat (length es) <= U64_MAX ->
  replay_loop dflt (Ok <$> es) 0 0 from [] b = replay_reference from es b.
Proof.
  intros Hn. unfold replay_reference. pose proof (split_gap_spec es from) as Hsp.
  destruct (split_gap from es) as [pre [g|]]; destruct Hsp as [Hc Hsp].
  - destruct Hsp as [[post ->] Hg]. rewrite length_app in Hn. rewrite fmap_app.
    rewrite replay_loop_app by (done || lia).
    destruct (run_events pre b) as [[u|e] b']; [|done]. cbn [fmap list_fmap replay_loop].
    by rewrite (proj2 (N.eqb_neq _ _) Hg).
  - subst es. rewrite <- (app_nil_r (Ok <$> pre)), replay_loop_app by (done || lia).
    by destruct (run_events pre b) as [[u|e] b'].
Qed.

(** C8.  Replay is the in-order application of the journal.  Replaying an
    in-memory journal from [from] applies, in order and each once, the events
    numbered [from], [from + 1], ... up to the first gap, skipping those
    recorded as rejected, and stops at the first event the book refuses with
    that event's error.  It succeeds exactly when there is no gap and no
    refusal, and then reports the number of the last event applied and one
    progress call per applied event; at a gap it reports the number it
    expected and the number it found.  The sequence numbers up to the end of
    the journal are taken to fit a [u64]. *)
Theorem replay_exact (j : InMemoryJournal) from b :
  from + N.of_nat (journal_len j) <= U64_MAX ->
  replay_into dflt j from b =
    replay_reference from (filter (fun e => from <= sequence_num e) (journal_events j)) b.
Proof.
  intros Hn. unfold replay_into. simpl. apply replay_loop_reference. unfold journal_len in Hn.
  pose proof (length_filter (fun e => from <= sequence_num e) (journal_events j)). lia.
Qed.

(** ** Resuming *)

Lemma run_events_app es1 es2 b :
  run_events (es1 ++ es2) b =
  match run_events es1 b with (Ok _, b1) => run_events es2 b1 | (Err e, b1) => (Err e, b1) end.
Proof.
  revert b. induction es1 as [|e es1 IH]; intros b; simpl; [done|].
  unfold stry. by destruct (apply_event dflt e b) as [[u|err] b1].
Qed.

Lemma contiguous_app es1 es2 : forall from,
  contiguous from (es1 ++ es2) <->
  contiguous from es1 /\ contiguous (from + N.of_nat (length es1)) es2.
Proof.
  induction es1 as [|e es1 IH]; intros from; cbn [contiguous app length].
  - rewrite N.add_0_r. tauto.
  - rewrite IH. replace (from + 1 + N.of_nat (length es1)) with (from + N.of_nat (S (length es1))) by lia.
    tauto.
Qed.

Lemma contiguous_bounds es : forall from e, contiguous from es -> e ∈ es ->
  from <= sequence_num e < from + N.of_nat (length es).
Proof.
  induction es as [|x es IH]; intros from e Hc He; [by apply elem_of_nil in He|].
  destruct Hc as [Hs Hc]. cbn [length]. apply elem_of_cons in He as [->|He]; [lia|].
  specialize (IH _ _ Hc He). lia.
Qed.

Lemma read_suffix es1 es2 from :
  contiguous from (es1 ++ es2) ->
  filter (fun e => from + N.of_nat (length es1) <= sequence_num e) (es1 ++ es2) = es2.
Proof.
  intros [H1 H2]%contiguous_app. rewrite filter_app, list_filter_none, list_filter_all; [done| |].
  - intros e He. pose proof (contiguous_bounds _ _ _ H2 He). lia.
  - intros e He. pose proof (contiguous_bounds _ _ _ H1 He). lia.
Qed.

Lemma replay_reference_run from es b :
  contiguous from es ->
  replay_reference from es b =
  match run_events es b with
  | (Ok _, b') => (Ok (last_after 0 es, progress_after 0 es), b')
  | (Err e, b') => (Err e, b')
  end.
Proof. intros Hc. unfold replay_reference. by rewrite (split_gap_contiguous _ _ Hc). Qed.

(** Replay can be resumed.  If a gap-free journal starting at [from]
    is replayed, then grows, replaying the grown journal from the next number
    on the book obtained so far gives the same book, and fails with the same
    error if it fails, as replaying the whole grown journal from the start. *)
Theorem replay_resumes (j j' : InMemoryJournal) es from b x b1 :
  journal_events j' = journal_events j ++ es -> contiguous from (journal_events j') ->
  from + 2 * N.of_nat (journal_len j') <= U64_MAX ->
  replay_into dflt j from b = (Ok x, b1) ->
  let resumed := replay_into dflt j' (from + N.of_nat (journal_len j)) b1 in
  let whole := replay_into dflt j' from b in
  resumed.2 = whole.2 /\
  (forall e, resumed.1 = Err e <-> whole.1 = Err e).
Proof.
  intros Hj Hc Hn H. unfold replay_into, journal_len in *. simpl in *.
  rewrite Hj in *. pose proof Hc as [Hc1 Hc2]%contiguous_app. rewrite length_app in Hn.
  assert (Hall : forall l, contiguous from l -> filter (fun e => from <= sequence_num e) l = l).
  { intros l Hl. apply list_filter_all. intros e He. apply (contiguous_bounds _ _ _ Hl He). }
  rewrite (Hall _ Hc1), replay_loop_reference, (replay_reference_run _ _ _ Hc1) in H by lia.
  destruct (run_events (journal_events j) b) as [[u|e] b2] eqn:E; simplify_eq.
  rewrite read_suffix, (Hall _ Hc), !replay_loop_reference by (done || rewrite ?length_app; lia).
  rewrite !replay_reference_run, run_events_app, E by done.
  by destruct (run_events es b1) as [[?|?] ?].
Qed.
End Loop.

Section Wellformed.
Context {PA : PriceLevelApi} {PL : PriceLevelLaws} {WC : WallClock} {T : Type} (dflt : T).

Definition sane_command (c : SequencerCommand T) : Prop :=
  match c with UpdateOrder (UpdateQuantity _ q) => 0 < q | _ => True end.
Definition sane_entry (x : Result JournalError (SequencerEvent T)) : Prop :=
  match x with Ok e => sane_command (command e) | Err _ => True end.

(** Some content: the book is well formed under the same configuration. *)
Definition well_kept b b' : Prop := book_config b' = book_config b /\ exists R, book_rep b' R.

Lemma quiet_emit_trade m : runs_in quiet (emit_trade_result m).
Proof. unfold emit_trade_result. runs; try intros ?; by apply quiet_same. Qed.

Lemma drop_ids_sub F (R : Contents) : drop_ids F R ⊆ R.
Proof. apply map_subseteq_spec. by intros i x [? _]%drop_ids_Some. Qed.

(** A market order only takes content away. *)
Lemma submit_shrinks order_id side mode b b' R (r : Result OrderBookError MatchResult) :
  book_rep b R ->
  (let? _ := check_kill_switch_or_reject order_id in
   let? _ := sret (check_market_admission Hash32_zero) in
   let? m := (let? o := match_order_inner order_id side mode Hash32_zero TakerStandard in
              sret (Ok (result o))) in
   do! emit_trade_result m in sret (Ok m)) b = (r, b') ->
  book_config b' = book_config b /\ exists R', R' ⊆ R /\ book_rep b' R'.
Proof.
  intros Hrep H.
  apply stry_inv in H as [(? & b1 & E & H)|(e & b1 & E & H)];
    apply (runs_in_inv quiet) in E; [| |simplify_eq|]; try (eauto with runs);
    (assert (Hrep1 : book_rep b1 R) by (by eapply book_rep_quiet)).
  2: { split; [apply E|]. by exists R. }
  unfold stry at 1, sret at 1, check_market_admission in H. cbn beta iota in H.
  assert (Hcfg : book_config b1 = book_config b) by apply E.
  apply stry_inv in H as [(m & b2 & E2 & H)|(e & b2 & E2 & H)].
  - apply stry_ok_inv in E2 as (o & b3 & E2 & E3). st_inv E3.
    apply (match_rep _ _ _ _ _ _ R) in E2 as (C & F & Hrep2 & Hc2 & _); [|done].
    apply sbind_inv in H as (u & b4 & E4 & H). st_inv H.
    apply (runs_in_inv quiet) in E4; [|apply quiet_emit_trade].
    split; [|exists (drop_ids (C ++ F) R); split; [apply drop_ids_sub|by eapply book_rep_quiet]]. destruct E4 as [[_ E4] _]. congruence.
  - simplify_eq. apply stry_inv in E2 as [(o & b3 & E2 & E3)|(e' & b3 & E2 & E3)].
    + done.
    + simplify_eq. apply (match_rep _ _ _ _ _ _ R) in E2 as (C & F & Hrep2 & Hc2 & _); [|done].
      split; [congruence|]. eexists. split; [apply drop_ids_sub|exact Hrep2].
Qed.

Lemma submit_kept order_id side mode b b' R (r : Result OrderBookError MatchResult) :
  book_rep b R ->
  (let? _ := check_kill_switch_or_reject order_id in
   let? _ := sret (check_market_admission Hash32_zero) in
   let? m := (let? o := match_order_inner order_id side mode Hash32_zero TakerStandard in
              sret (Ok (result o))) in
   do! emit_trade_result m in sret (Ok m)) b = (r, b') ->
  well_kept b b'.
Proof. intros Hrep H. apply (submit_shrinks _ _ _ _ _ R) in H as (? & R' & _ & ?); [|done]. split; eauto. Qed.

Lemma apply_command_kept seq c b R r b' :
  book_rep b R -> sane_command c -> apply_command dflt seq c b = (r, b') -> well_kept b b'.
Proof.
  intros Hrep Hc H. unfold apply_command, lift_error, ignore in H.
  destruct c as [order|id|update|id qty side|id amount side| |side|user|side lo hi|now];
    apply sbind_inv in H as (x & b1 & E & H); st_inv H.
  - unfold add_order in E. apply stry_inv in E as [(y & b2 & E & H)|(e & b2 & E & H)]; st_inv H;
      simplify_eq; apply (add_rep _ _ _ _ R) in E as (? & C & F & rested & ? & _); try done; split; eauto.
  - apply (cancel_rep _ _ _ _ R) in E as (? & ? & _); [|done]. split; eauto.
  - apply (update_rep _ _ _ R) in E as (? & R' & ? & _); [|done|by destruct update]. split; eauto.
  - by apply (submit_kept id side (BaseQty qty None) _ _ R) in E.
  - by apply (submit_kept id side (QuoteAmount amount) _ _ R) in E.
  - apply (cancel_all_empties _ R) in E as (? & ? & _); [|done]. split; eauto.
  - apply (side_removes _ _ _ R) in E as [_ [? ? _]]; [|done]. split; eauto.
  - apply (user_removes _ _ _ R) in E as [_ [? ? _]]; [|done]. split; eauto.
  - apply (price_range_removes _ _ _ _ _ R) in E as [_ [? ? _]]; [|done]. split; eauto.
  - apply (evict_batch _ _ _ R) in E as (_ & l & _ & Hb); [|done].
    split; [apply Hb|]. eexists. by eapply batch_rep.
Qed.

Lemma replay_loop_kept entries : forall last_applied count from progress b R r b',
  book_rep b R -> Forall sane_entry entries ->
  replay_loop dflt entries last_applied count from progress b = (r, b') -> well_kept b b'.
Proof.
  induction entries as [|[e|err] entries IH]; intros last_applied count from progress b R r b' Hrep Hs H;
    cbn [replay_loop] in H; [st_inv H; split; eauto| |st_inv H; split; eauto].
  apply Forall_cons in Hs as [He Hs]. destruct (negb _); [st_inv H; split; eauto|].
  assert (Hstep : forall x b1, apply_event dflt e b = (x, b1) -> well_kept b b1).
  { intros x b1 E. unfold apply_event in E. destruct (is_rejected _); [st_inv E; split; eauto|].
    by eapply apply_command_kept. }
  apply stry_inv in H as [(u & b1 & [Hcf [R1 Hrep1]]%Hstep & H)|(e' & b1 & E%Hstep & H)]; [|by simplify_eq].
  destruct (checked_add _ from 1); [|st_inv H; split; eauto].
  destruct (is_rejected _); [|destruct (checked_add _ count 1); [|st_inv H; split; eauto]];
    apply (IH _ _ _ _ _ R1) in H as [? ?]; try done; split; try done; congruence.
Qed.

(** C25.  Replay never corrupts the book.  Whatever journal is replayed,
    from whatever sequence number, on whatever well-formed book — with gaps,
    unreadable entries, refused commands, and provided in-place quantity
    updates are to a positive quantity — the book it ends with, also when the
    replay fails halfway, is well formed and keeps its configuration: levels,
    location index and user index agree, no level is empty and the cached
    best prices are right. *)
Theorem replay_keeps_book {J} `{!Journal (SequencerEvent T) J} (j : J) from b r b' :
  book_rep b (content b) ->
  (forall entries, read_from j from = Ok entries -> Forall sane_entry entries) ->
  replay_into dflt j from b = (r, b') ->
  book_config b' = book_config b /\ book_rep b' (content b').
Proof.
  intros Hrep Hs H. unfold replay_into in H.
  destruct (read_from j from) as [entries|e]; [|by st_inv H].
  apply (replay_loop_kept _ _ _ _ _ _ (content b)) in H as [? [R Hr]]; [|done|by apply Hs].
  split; [done|]. by rewrite <- (rests_content _ _ (rep_rests _ _ Hr)).
Qed.
End Wellformed.
