(* ===== verification/SubmitGate.v ===== *)
(** * Concurrent callers and the submit gate (book.rs)

    A book is shared between threads.  Every public mutating entry point
    takes a guard of the submit gate, a reader/writer lock, when it is entered
    and drops it when it returns: a fill-or-kill submission takes it
    exclusively, every other one shared.  Queries of the best prices take no
    lock; they may refill the cache at any time.

    The work of a call is a tree of steps, [Thread]: steps that act on the
    shared state at once, and steps that take and drop a guard.  A thread may
    take the gate again while it holds it, as a listener that calls back into
    the book does; the lock is the standard library's, which is not re-entrant
    and lets no reader in while a writer is queued.  A [System] is the shared
    state and the calls under way, each with the guards it holds; its
    transition function [gate_step] interleaves them.

    [guarded] is the discipline of the entry points: one guard around a body
    that takes none.  Under it an exclusive call is atomic and no set of
    calls can block itself; [ReentrantCallback] of the scenarios shows what
    happens to a call that breaks it. *)

From S2P Require Import Prelude.
Local Open Scope N_scope.

Inductive GateMode := Shared | Exclusive.
#[global] Instance GateMode_eq_dec : EqDecision GateMode.
Proof. solve_decision. Defined.

(** ** Threads *)

Inductive Thread (S R : Type) :=
| Returned (r : R)
(** the step's effect on the shared state, and how the thread goes on, both
    from the state it finds *)
| Running (effect : S -> S) (next : S -> Thread S R)
(** [read()] or [write()] *)
| Locking (m : GateMode) (rest : Thread S R)
(** the guard taken last is dropped *)
| Unlocking (rest : Thread S R).
Arguments Returned {S R} r. Arguments Running {S R} effect next.
Arguments Locking {S R} m rest. Arguments Unlocking {S R} rest.

(** A thread that is not interrupted. *)
Fixpoint run_alone {S R} (th : Thread S R) : ST S R :=
  match th with
  | Returned r => sret r
  | Running effect next => fun s => run_alone (next s) (effect s)
  | Locking _ rest | Unlocking rest => run_alone rest
  end.

(** A computation as one step, and what follows it. *)
Definition at_once {S R A} (c : ST S A) (k : A -> Thread S R) : Thread S R :=
  Running (fun s => (c s).2) (fun s => k (c s).1).

Lemma run_at_once {S R A} (c : ST S A) (k : A -> Thread S R) s :
  run_alone (at_once c k) s = (let! a := c in run_alone (k a)) s.
Proof. unfold at_once, sbind. simpl. by destruct (c s). Qed.

(** [let _gate = ...;] at the top of a function whose body is [th]. *)
Fixpoint release_at_end {S R} (th : Thread S R) : Thread S R :=
  match th with
  | Returned r => Unlocking (Returned r)
  | Running effect next => Running effect (fun s => release_at_end (next s))
  | Locking m rest => Locking m (release_at_end rest)
  | Unlocking rest => Unlocking (release_at_end rest)
  end.
Definition guarded {S R} (m : GateMode) (th : Thread S R) : Thread S R := Locking m (release_at_end th).

(** The body takes no guard of its own: it calls ungated inner functions. *)
Fixpoint ungated {S R} (th : Thread S R) : Prop :=
  match th with
  | Returned _ => True
  | Running _ next => forall s, ungated (next s)
  | Locking _ _ | Unlocking _ => False
  end.

Definition Tid := N.

Section System.
Context {S R EP Q : Type} (query : Q -> S -> S).

(** A call under way: what was called, the guards it holds, the last one
    first, whether it is queued for writing, what is left to do. *)
Record Pending := {
  entry : EP;
  guards : list GateMode;
  queued : bool;
  thread : Thread S R;
}.

Record System := {
  shared : S;
  calls : gmap Tid Pending;
  replies : list (Tid * R);
}.

(** ** The gate *)

(** [std::sync::RwLock<()>], by the guards outstanding and the writers queued:
    [write()] returns when no guard is held, [read()] when no writer holds
    one and none is queued. *)
Definition unheld (cs : gmap Tid Pending) : Prop := map_Forall (fun _ c => guards c = []) cs.
Definition no_writer (cs : gmap Tid Pending) : Prop := map_Forall (fun _ c => Exclusive ∉ guards c) cs.
Definition no_queue (cs : gmap Tid Pending) : Prop := map_Forall (fun _ c => queued c = false) cs.

Definition gate_free (m : GateMode) (cs : gmap Tid Pending) : bool :=
  match m with
  | Shared => bool_decide (map_Forall (fun _ c => Exclusive ∉ guards c) cs /\
                           map_Forall (fun _ c => queued c = false) cs)
  | Exclusive => bool_decide (map_Forall (fun _ c => guards c = []) cs)
  end.

Lemma gate_free_shared cs : gate_free Shared cs = true <-> no_writer cs /\ no_queue cs.
Proof. apply bool_decide_eq_true. Qed.
Lemma gate_free_exclusive cs : gate_free Exclusive cs = true <-> unheld cs.
Proof. apply bool_decide_eq_true. Qed.

Inductive Event :=
| Invoke (t : Tid) (e : EP) (th : Thread S R)
| Enqueue (t : Tid)
| Acquire (t : Tid)
| Advance (t : Tid)
| Release (t : Tid)
| Reply_to (t : Tid)
| Ask (q : Q).

Definition set_call (t : Tid) (c : Pending) (s : System) : System :=
  {| shared := shared s; calls := <[t := c]> (calls s); replies := replies s |}.

Definition gate_step (ev : Event) (s : System) : option System :=
  match ev with
  | Invoke t e th =>
      match calls s !! t with
      | None => Some (set_call t {| entry := e; guards := []; queued := false; thread := th |} s)
      | Some _ => None
      end
  | Enqueue t =>
      match calls s !! t with
      | Some {| entry := e; guards := gs; queued := false; thread := Locking Exclusive rest |} =>
          Some (set_call t {| entry := e; guards := gs; queued := true;
                              thread := Locking Exclusive rest |} s)
      | _ => None
      end
  | Acquire t =>
      match calls s !! t with
      | Some {| entry := e; guards := gs; thread := Locking m rest |} =>
          if gate_free m (calls s) then
            Some (set_call t {| entry := e; guards := m :: gs; queued := false; thread := rest |} s)
          else None
      | _ => None
      end
  | Advance t =>
      match calls s !! t with
      | Some {| entry := e; guards := gs; queued := qd; thread := Running effect next |} =>
          Some {| shared := effect (shared s);
                  calls := <[t := {| entry := e; guards := gs; queued := qd;
                                     thread := next (shared s) |}]> (calls s);
                  replies := replies s |}
      | _ => None
      end
  | Release t =>
      match calls s !! t with
      | Some {| entry := e; guards := _ :: gs; queued := qd; thread := Unlocking rest |} =>
          Some (set_call t {| entry := e; guards := gs; queued := qd; thread := rest |} s)
      | _ => None
      end
  | Reply_to t =>
      match calls s !! t with
      | Some {| guards := []; thread := Returned r |} =>
          Some {| shared := shared s; calls := delete t (calls s); replies := replies s ++ [(t, r)] |}
      | _ => None
      end
  | Ask q => Some {| shared := query q (shared s); calls := calls s; replies := replies s |}
  end.

Fixpoint gate_run (tr : list Event) (s : System) : option System :=
  match tr with
  | [] => Some s
  | ev :: tr => match gate_step ev s with Some s' => gate_run tr s' | None => None end
  end.

Lemma gate_run_app tr1 tr2 s :
  gate_run (tr1 ++ tr2) s = match gate_run tr1 s with Some s' => gate_run tr2 s' | None => None end.
Proof.
  revert s. induction tr1 as [|ev tr1 IH]; intros s; [done|]. simpl. destruct (gate_step ev s); [apply IH|done].
Qed.

Lemma gate_run_one ev s : gate_run [ev] s = gate_step ev s.
Proof. simpl. by destruct (gate_step ev s). Qed.

Definition system_new (x : S) : System := {| shared := x; calls := ∅; replies := [] |}.

(** What a step does to its call, in shared state [x], when the gate can be
    taken in the modes [free]: [None] when it has replied. *)
Inductive call_step (free : GateMode -> bool) (x : S) (c : Pending) : option Pending -> Prop :=
| CsEnqueue rest : queued c = false -> thread c = Locking Exclusive rest ->
    call_step free x c (Some {| entry := entry c; guards := guards c; queued := true; thread := thread c |})
| CsAcquire m rest : free m = true -> thread c = Locking m rest ->
    call_step free x c (Some {| entry := entry c; guards := m :: guards c; queued := false; thread := rest |})
| CsAdvance effect next : thread c = Running effect next ->
    call_step free x c (Some {| entry := entry c; guards := guards c; queued := queued c; thread := next x |})
| CsRelease m gs rest : guards c = m :: gs -> thread c = Unlocking rest ->
    call_step free x c (Some {| entry := entry c; guards := gs; queued := queued c; thread := rest |})
| CsReply r : guards c = [] -> thread c = Returned r -> call_step free x c None.

Definition own_work (ev : Event) : Prop :=
  match ev with Invoke _ _ _ | Ask _ => False | _ => True end.
Definition event_of (ev : Event) : option Tid :=
  match ev with
  | Invoke _ _ _ | Ask _ => None
  | Enqueue t | Acquire t | Advance t | Release t | Reply_to t => Some t
  end.

(** An own step changes the call it is of, and no other. *)
Lemma own_step_inv ev s s' : own_work ev -> gate_step ev s = Some s' ->
  exists t c o, event_of ev = Some t /\ calls s !! t = Some c /\ call_step (fun m => gate_free m (calls s)) (shared s) c o /\
    calls s' = partial_alter (fun _ => o) t (calls s) /\
    match o with
    | Some _ => replies s' = replies s
    | None => exists r, replies s' = replies s ++ [(t, r)] /\ thread c = Returned r
    end.
Proof.
  destruct ev as [t e th|t|t|t|t|t|q]; simpl; try done; intros _ H;
    destruct (calls s !! t) as [[e gs qd th]|] eqn:Ht; try done; exists t; eexists.
  - destruct qd; [done|]. destruct th as [| |[]|]; try done. injection H as <-. eexists (Some _). split_and!; try done.
    by eapply CsEnqueue.
  - destruct th as [| |m rest|]; try done. destruct (gate_free _ _) eqn:Ef; [|done]. injection H as <-.
    eexists (Some _). split_and!; try done. by eapply CsAcquire.
  - destruct th as [|effect next| |]; try done. injection H as <-. eexists (Some _). split_and!; try done.
    by eapply CsAdvance.
  - destruct gs as [|m gs]; [done|]. destruct th; try done. injection H as <-. eexists (Some _).
    split_and!; try done. by eapply CsRelease.
  - destruct gs; [|done]. destruct th as [r| | |]; try done. injection H as <-. exists None.
    split_and!; try done; [by eapply CsReply|]. by exists r.
Qed.

(** A reply stands. *)
Lemma step_replies ev s s' x : gate_step ev s = Some s' -> x ∈ replies s -> x ∈ replies s'.
Proof.
  intros H Hx. destruct (decide (event_of ev = None)) as [He|He].
  - destruct ev as [t e th|t|t|t|t|t|q]; try done; simpl in H; [|by simplify_eq].
    destruct (calls s !! t); [done|]. by simplify_eq.
  - assert (Hw : own_work ev) by (by destruct ev).
    destruct (own_step_inv _ _ _ Hw H) as (t & c & o & _ & _ & _ & _ & Hr). destruct o; [by rewrite Hr|].
    destruct Hr as (r & -> & _). apply elem_of_app. by left.
Qed.

Lemma replies_kept tr : forall s s' x, gate_run tr s = Some s' -> x ∈ replies s -> x ∈ replies s'.
Proof.
  induction tr as [|ev tr IH]; intros s s' x H Hx; simpl in H; [by injection H as <-|].
  destruct (gate_step ev s) as [s1|] eqn:E; [|done]. by eapply IH, step_replies.
Qed.

(** ** Calls cannot run for ever *)

(** What is left of a call: a subtree of its thread, or a place in the queue. *)
Inductive less_left : Pending -> Pending -> Prop :=
| LessLeft free x c c' : call_step free x c (Some c') -> less_left c' c.

Lemma less_left_inv c' c : less_left c' c ->
  match thread c with
  | Returned _ => False
  | Running _ next => exists x, thread c' = next x
  | Locking m rest => thread c' = rest \/
      (queued c = false /\ queued c' = true /\ thread c' = Locking m rest)
  | Unlocking rest => thread c' = rest
  end.
Proof.
  destruct 1 as [free x c c' Hs]. inversion Hs as [rest Hq Ht|m rest Hf Ht|effect next Ht|m gs rest Hg Ht|]; rewrite Ht; simpl.
  - by right.
  - by left.
  - by exists x.
  - done.
Qed.

Lemma less_left_wf : well_founded less_left.
Proof.
  assert (H : forall th c, thread c = th -> Acc less_left c); [|intros c; by eapply H].
  induction th as [r|effect next IH|m rest IH|rest IH]; intros c Hth; constructor; intros c' Hl;
    pose proof (less_left_inv _ _ Hl) as Hi; rewrite Hth in Hi.
  - destruct Hi.
  - destruct Hi as [x Hx]. exact (IH x c' Hx).
  - destruct Hi as [Hx|(_ & Hq & Hx)]; [exact (IH c' Hx)|].
    constructor. intros c2 Hl2. pose proof (less_left_inv _ _ Hl2) as Hi2. rewrite Hx in Hi2.
    destruct Hi2 as [Hx2|(Hq2 & _)]; [exact (IH c2 Hx2)|congruence].
  - exact (IH c' Hi).
Qed.

(** One call of many goes on or replies. *)
Inductive calls_step : gmap Tid Pending -> gmap Tid Pending -> Prop :=
| CallsStep free x cs t c o : cs !! t = Some c -> call_step free x c o -> calls_step (partial_alter (fun _ => o) t cs) cs.

Lemma calls_step_insert cs : Acc calls_step cs -> forall c t, cs !! t = None -> Acc less_left c ->
  Acc calls_step (<[t := c]> cs).
Proof.
  induction 1 as [cs Hcs IH]. intros c t Ht Hc. induction Hc as [c Hc IHc].
  constructor. intros cs' Hs. inversion Hs as [free x cs1 t1 c1 o Hl Hstep]; subst.
  destruct (decide (t1 = t)) as [->|Hne].
  - rewrite lookup_insert_eq in Hl. injection Hl as <-. destruct o as [c'|].
    + change (Acc calls_step (<[t := c']> (<[t := c]> cs))). rewrite insert_insert_eq. apply IHc. by econstructor.
    + change (Acc calls_step (delete t (<[t := c]> cs))). rewrite delete_insert_id by done. by constructor.
  - rewrite lookup_insert_ne in Hl by done.
    assert (E : partial_alter (fun _ => o) t1 (<[t:=c]> cs) = <[t:=c]> (partial_alter (fun _ => o) t1 cs)).
    { destruct o as [c'|]; [exact (insert_insert_ne cs t1 t c' c Hne)|exact (delete_insert_ne cs t1 t c Hne)]. }
    rewrite E. apply IH; [by econstructor|by rewrite lookup_partial_alter_ne|by constructor].
Qed.

Lemma calls_step_wf : well_founded calls_step.
Proof.
  intros cs. induction cs as [|t c cs Ht IH] using map_ind.
  - constructor. intros cs' Hs. inversion Hs as [free x cs1 t c o Hl]; subst. by rewrite lookup_empty in Hl.
  - exact (calls_step_insert _ IH _ _ Ht (less_left_wf c)).
Qed.

(** [s2] follows [s1] by the work of a call under way. *)
Definition works (s2 s1 : System) : Prop := exists ev, own_work ev /\ gate_step ev s1 = Some s2.

Lemma works_wf : well_founded works.
Proof.
  intros s. remember (calls s) as cs eqn:E. revert s E.
  induction (calls_step_wf cs) as [cs _ IH]. intros s ->. constructor. intros s' (ev & Hw & Hs).
  destruct (own_step_inv _ _ _ Hw Hs) as (t & c & o & _ & Hc & Hcs & Hd & _).
  apply (IH (calls s')); [|reflexivity]. rewrite Hd. by econstructor.
Qed.

(** ** The discipline of the entry points *)

Context (gate_of : EP -> GateMode) (body_ok : EP -> Thread S R -> Prop).

(** Where a guarded call can be. *)
Inductive phase (c : Pending) : Prop :=
| Waiting body : guards c = [] -> (queued c = true -> gate_of (entry c) = Exclusive) ->
    thread c = guarded (gate_of (entry c)) body -> ungated body -> body_ok (entry c) body -> phase c
| Inside body : guards c = [gate_of (entry c)] -> queued c = false ->
    thread c = release_at_end body -> ungated body -> phase c
| Done r : guards c = [] -> queued c = false -> thread c = Returned r -> phase c.

(** Calls are guarded as their entry points say. *)
Definition proper_call (ev : Event) : Prop :=
  match ev with
  | Invoke _ e th => exists body, th = guarded (gate_of e) body /\ ungated body /\ body_ok e body
  | _ => True
  end.

Record disciplined (s : System) : Prop := {
  di_phase : forall t c, calls s !! t = Some c -> phase c;
  di_alone : forall t c t' c', calls s !! t = Some c -> Exclusive ∈ guards c ->
    calls s !! t' = Some c' -> guards c' <> [] -> t' = t;
}.

Lemma disciplined_new x : disciplined (system_new x).
Proof. split; intros *; simpl; rewrite lookup_empty; done. Qed.

Lemma call_step_phase free x c o : phase c -> call_step free x c o -> match o with Some c' => phase c' | None => True end.
Proof.
  destruct c as [e gs qd th]. intros [body Hg Hq Hth Hu Hb|body Hg Hq Hth Hu|r Hg Hq Hth]; simpl in *; subst.
  - inversion 1 as [rest Hq' Ht|m rest Hf Ht|effect next Ht|m gs rest Hg Ht|r Hg Ht]; subst; simpl in *; try done.
    + eapply (Waiting _ body); [done| |done..]. simpl. unfold guarded in Ht. by intros _; injection Ht.
    + unfold guarded in Ht. injection Ht as Hm <-. subst m. by eapply (Inside _ body).
  - inversion 1 as [rest Hq' Ht|m rest Hf Ht|effect next Ht|m gs rest Hg Ht|r Hg Ht]; subst; simpl in *; try done;
      destruct body as [r'|effect' next'| |]; simpl in *; try done.
    + injection Ht as -> <-. by eapply (Inside _ (next' x)).
    + injection Hg as _ <-. injection Ht as <-. by eapply (Done _ r').
  - by inversion 1.
Qed.

(** How the guards of a call change. *)
Lemma call_step_guards free x c c' : call_step free x c (Some c') ->
  (forall m, m ∈ guards c' -> m ∈ guards c) /\ (guards c' <> [] -> guards c <> []) \/
  exists m, free m = true /\ guards c' = m :: guards c.
Proof.
  inversion 1 as [| m rest Hf Ht| |m gs rest Hg Ht|]; subst; simpl; [left; auto|right; eauto|left; auto|].
  left. rewrite Hg. split; [intros; by right|done].
Qed.

Lemma own_step_disciplined ev s s' : own_work ev -> gate_step ev s = Some s' -> disciplined s -> disciplined s'.
Proof.
  intros Hw Hs [Hph Hal]. destruct (own_step_inv _ _ _ Hw Hs) as (t & c & o & Hev & Hc & Hcs & Hd & _).
  pose proof (call_step_phase _ _ _ _ (Hph _ _ Hc) Hcs) as Hp.
  assert (Hl : forall t' c', calls s' !! t' = Some c' -> t' = t /\ o = Some c' \/ t' <> t /\ calls s !! t' = Some c').
  { intros t' c'. rewrite Hd. destruct (decide (t' = t)) as [->|Hne];
      [rewrite lookup_partial_alter_eq|rewrite lookup_partial_alter_ne by done]; auto. }
  split.
  - intros t' c' [[-> ->]|[_ Hc']]%Hl; [done|by eapply Hph].
  - intros t1 c1 t2 c2 H1 Hx H2 Hg. apply Hl in H1, H2.
    destruct H1 as [[-> ->]|[Hn1 H1]], H2 as [[-> Ho]|[Hn2 H2]]; [done| | |by eapply Hal].
    + destruct (call_step_guards _ _ _ _ Hcs) as [[Hm _]|(m & Hf & Hg1)]; [eapply (Hal t c); eauto|].
      rewrite Hg1 in Hx. apply elem_of_cons in Hx as [<-|Hx]; [|eapply (Hal t c); eauto].
      apply gate_free_exclusive in Hf. by destruct Hg, (Hf _ _ H2).
    + subst o. destruct (call_step_guards _ _ _ _ Hcs) as [[_ Hm]|(m & Hf & Hg2)]; [eapply (Hal t1 c1 t c); eauto|].
      destruct m; [apply gate_free_shared in Hf as [Hf _]; by destruct (Hf _ _ H1)|].
      apply gate_free_exclusive in Hf. rewrite (Hf _ _ H1) in Hx. by apply elem_of_nil in Hx.
Qed.

Lemma step_disciplined ev s s' : proper_call ev -> gate_step ev s = Some s' -> disciplined s -> disciplined s'.
Proof.
  intros Hp Hs Hd. destruct ev as [t e th|t|t|t|t|t|q]; try (refine (own_step_disciplined _ _ _ _ Hs Hd); exact I); simpl in *.
  - destruct (calls s !! t) eqn:Ht; [done|]. injection Hs as <-. destruct Hp as (body & -> & Hu & Hb), Hd as [Hph Hal].
    split; simpl.
    + intros t' c'. destruct (decide (t' = t)) as [->|Hne]; [rewrite lookup_insert_eq|rewrite lookup_insert_ne by done; apply Hph].
      intros [= <-]. by eapply Waiting.
    + intros t1 c1 t2 c2. rewrite !lookup_insert_Some. intros [[<- <-]|[? ?]] Hx [[<- <-]|[? ?]] Hg; simpl in *;
        try done; [by apply elem_of_nil in Hx|by eapply Hal].
  - injection Hs as <-. destruct Hd. by split.
Qed.

Lemma run_disciplined tr : forall s s', Forall proper_call tr -> gate_run tr s = Some s' ->
  disciplined s -> disciplined s'.
Proof.
  induction tr as [|ev tr IH]; intros s s' Hp H Hd; simpl in H; [by injection H as <-|].
  apply Forall_cons in Hp as [Hp Hps]. destruct (gate_step ev s) as [s1|] eqn:E; [|done].
  by eapply IH, step_disciplined.
Qed.

(** ** No deadlock *)

Lemma holder_steps s t c : calls s !! t = Some c -> phase c -> guards c <> [] ->
  exists ev s', own_work ev /\ gate_step ev s = Some s'.
Proof.
  intros Hc Hp Hg. destruct Hp as [body Hg' _ _ _ _|body Hg' Hq Hth Hu|r Hg' _ _]; try done.
  destruct c as [e gs qd th]. simpl in *. subst gs th.
  destruct body as [r|effect next| |]; try done.
  - exists (Release t). simpl. rewrite Hc. by eexists.
  - exists (Advance t). simpl. rewrite Hc. by eexists.
Qed.

(** Somebody can go on: a holder; or else, the gate being unheld, a queued
    writer; or else, nobody being queued either, anybody. *)
Lemma someone_steps s : disciplined s -> calls s <> ∅ -> exists ev s', own_work ev /\ gate_step ev s = Some s'.
Proof.
  intros [Hph _] Hne.
  destruct (decide (map_Forall (fun _ c => guards c = []) (calls s))) as [Hun|Hh].
  2: { apply map_not_Forall in Hh as (t & c & Hc & Hg); [|apply _]. eapply holder_steps; eauto. }
  assert (Hgo : forall t c, calls s !! t = Some c ->
    (gate_of (entry c) = Shared -> no_queue (calls s)) -> exists ev s', own_work ev /\ gate_step ev s = Some s').
  { intros t c Hc Hq. destruct (Hph _ _ Hc) as [body Hg Hqd Hth Hu Hb|body Hg|r Hg Hq' Hth].
    - exists (Acquire t). simpl. rewrite Hc. destruct c as [e gs qd th]. simpl in *. subst gs th. simpl.
      assert (Hf : gate_free (gate_of e) (calls s) = true).
      { destruct (gate_of e) eqn:Em; [|by apply gate_free_exclusive]. apply gate_free_shared. split; [|auto].
        intros t' c' Hc'. rewrite (Hun _ _ Hc'). apply not_elem_of_nil. }
      rewrite Hf. by eexists.
    - by rewrite (Hun _ _ Hc) in Hg.
    - exists (Reply_to t). simpl. rewrite Hc. destruct c. simpl in *. subst. by eexists. }
  destruct (decide (map_Forall (fun _ c => queued c = false) (calls s))) as [Hnq|Hq].
  - apply map_choose in Hne as (t & c & Hc). by eapply Hgo.
  - apply map_not_Forall in Hq as (t & c & Hc & Hq); [|apply _]. destruct (gate_of (entry c)) eqn:Em.
    + destruct (Hph _ _ Hc) as [body _ Hqd _ _ _|body _ Hq' _ _|r _ Hq' _]; try done.
      apply not_false_is_true in Hq. by rewrite Hqd in Em.
    + eapply Hgo; [done|]. congruence.
Qed.

Lemma all_finish s : disciplined s ->
  exists tr s', Forall own_work tr /\ gate_run tr s = Some s' /\ calls s' = ∅ /\
    forall t, is_Some (calls s !! t) -> exists r, (t, r) ∈ replies s'.
Proof.
  induction (works_wf s) as [s _ IH]. intros Hd.
  destruct (decide (calls s = ∅)) as [He|Hne].
  { exists [], s. rewrite He. split_and!; [constructor|done|done|]. intros t [? H]. by rewrite lookup_empty in H. }
  destruct (someone_steps s Hd Hne) as (ev & s1 & Hw & Hs).
  destruct (IH s1) as (tr & s' & Hws & Hr & He & Hrep); [by exists ev|by eapply own_step_disciplined|].
  exists (ev :: tr), s'. split_and!; [by constructor|simpl; by rewrite Hs|done|].
  destruct (own_step_inv _ _ _ Hw Hs) as (t & c & o & _ & Hc & _ & Hd' & Ho). intros t' Ht'.
  destruct (decide (t' = t)) as [->|Hn]; [|apply Hrep; by rewrite Hd', lookup_partial_alter_ne].
  destruct o as [c'|]; [apply Hrep; rewrite Hd', lookup_partial_alter_eq; by eexists|].
  destruct Ho as (r & Ho & _). exists r. eapply replies_kept; [exact Hr|]. rewrite Ho. apply elem_of_app. right. by left.
Qed.

(** ** An exclusive window *)

(** The guard of [t] is still held, and nobody asks for a price. *)
Definition undisturbed (t : Tid) (ev : Event) : Prop :=
  match ev with Release t' => t' <> t | Ask _ => False | _ => True end.

(** [t] holds the gate alone; what it has left to do gives [out]. *)
Definition working (t : Tid) (out : R * S) (s : System) : Prop :=
  exists c body, calls s !! t = Some c /\ guards c = [Exclusive] /\ queued c = false /\
    thread c = release_at_end body /\ ungated body /\ run_alone body (shared s) = out.

Lemma exclusive_step s t ev s' out : disciplined s -> working t out s ->
  undisturbed t ev -> gate_step ev s = Some s' -> working t out s'.
Proof.
  intros [Hph Hal] (c & body & Hc & Hg & Hq & Hth & Hu & Hout) Hun.
  assert (Hother : forall t' e gs qd effect next,
    calls s !! t' = Some {| entry := e; guards := gs; queued := qd; thread := Running effect next |} -> t' = t).
  { intros t' e gs qd effect next Hc'. eapply (Hal t c t'); [done|rewrite Hg; by left|exact Hc'|].
    destruct (Hph _ _ Hc') as [? _ _ Hx _ _|? Hx _ _ _|? _ _ Hx]; simpl in *; [done|by rewrite Hx|done]. }
  assert (Hkeep : forall t' c', t' <> t -> working t out (set_call t' c' s)).
  { intros t' c' Hne. exists c, body. simpl. by rewrite lookup_insert_ne. }
  destruct c as [e gs qd th]. simpl in *. subst gs qd th.
  assert (Hnl : forall m rest, release_at_end body <> Locking m rest) by (by destruct body).
  destruct ev as [t' e' th'|t'|t'|t'|t'|t'|q]; simpl in *; [| | | | | |done];
    destruct (decide (t' = t)) as [->|Hne].
  - by rewrite Hc.
  - destruct (calls s !! t'); [done|]. intros [= <-]. auto.
  - rewrite Hc. by destruct body.
  - destruct (calls s !! t') as [[? ? [] [| |[]|]]|]; try done. intros [= <-]. auto.
  - rewrite Hc. by destruct body.
  - destruct (calls s !! t') as [[? ? ? [| |m|]]|]; try done. destruct (gate_free _ _); [|done]. intros [= <-]. auto.
  - rewrite Hc. destruct body as [r|effect next| |]; try done. intros [= <-].
    eexists _, (next (shared s)). simpl. rewrite lookup_insert_eq. by split_and!.
  - destruct (calls s !! t') as [[? ? ? [|effect next| |]]|] eqn:Ht; try done. by destruct Hne, (Hother _ _ _ _ _ _ Ht).
  - done.
  - destruct (calls s !! t') as [[? [|m gs] ? [| | |]]|]; try done. intros [= <-]. auto.
  - by rewrite Hc.
  - destruct (calls s !! t') as [[? [] ? [r| | |]]|]; try done. intros [= <-].
    eexists _, body. simpl. rewrite lookup_delete_ne by done. by split_and!.
Qed.

Lemma exclusive_run t out tr : forall s s', disciplined s -> working t out s ->
  Forall proper_call tr -> Forall (undisturbed t) tr -> gate_run tr s = Some s' -> working t out s'.
Proof.
  induction tr as [|ev tr IH]; intros s s' Hd Hw Hp Hq H; simpl in H; [by injection H as <-|].
  apply Forall_cons in Hq as [Hq Hqs]. apply Forall_cons in Hp as [Hp Hps].
  destruct (gate_step ev s) as [s1|] eqn:E; [|done].
  eapply IH; [by eapply step_disciplined|by eapply exclusive_step|done|done|done].
Qed.

(** From its acquisition to its release an exclusive call runs as if alone,
    and then it has its result. *)
Lemma exclusive_window s0 s1 s2 s3 t c tr : disciplined s0 -> calls s0 !! t = Some c ->
  gate_of (entry c) = Exclusive -> gate_step (Acquire t) s0 = Some s1 ->
  Forall proper_call tr -> Forall (undisturbed t) tr -> gate_run tr s1 = Some s2 ->
  gate_step (Release t) s2 = Some s3 ->
  exists body r c3, body_ok (entry c) body /\ run_alone body (shared s0) = (r, shared s3) /\
    calls s3 !! t = Some c3 /\ guards c3 = [] /\ thread c3 = Returned r.
Proof.
  intros Hd Hc Hm H1 Hp Hq H2 H3.
  destruct (di_phase _ Hd _ _ Hc) as [body Hg Hqd Hth Hu Hb|body Hg _ Hth Hu|r Hg _ Hth];
    destruct c as [e gs qd th]; simpl in *; subst gs th; rewrite Hc in H1; simpl in H1.
  2: { by destruct body. }
  2: { done. }
  rewrite Hm in H1. destruct (gate_free Exclusive (calls s0)) eqn:Ef; [|done]. injection H1 as <-.
  destruct (exclusive_run t (run_alone body (shared s0)) tr
    (set_call t {| entry := e; guards := [Exclusive]; queued := false; thread := release_at_end body |} s0) s2)
    as ([e2 gs2 qd2 th2] & body2 & Hc2 & Hg2 & _ & Hth2 & Hu2 & Hout); [|eexists _, body; simpl; rewrite lookup_insert_eq; by split_and!|done..|].
  { eapply (own_step_disciplined (Acquire t) s0); [done| |done].
    cbn [gate_step]. rewrite Hc. unfold guarded. by rewrite Hm, Ef. }
  simpl in *. subst gs2 th2. rewrite Hc2 in H3. destruct body2 as [r| | |]; try done. injection H3 as <-.
  exists body, r. eexists. simpl. rewrite lookup_insert_eq, <- Hout. by split_and!.
Qed.
End System.
