(* ===== verification/GatedBook.v ===== *)
(** * The book behind its submit gate (book.rs, modifications.rs, mass_cancel.rs, matching.rs)

    The public mutating entry points, the mode in which each holds the gate,
    and what that gives to concurrent callers that keep to them: a
    fill-or-kill submission is atomic and so all or nothing among any other
    calls, and no set of calls can block itself.  Left open is how the steps of two shared calls
    interleave inside the book's maps.

    [match_order] is [match_order_with_user] for the zero user.  Calls that
    write without the gate are not among the entry points: the kill switch,
    the market close and the sequence number drawn after a market or limit
    match (single atomics), and [restore_from_snapshot]. *)

From S2P Require Import Prelude Types PriceLevel OrderQuantity Fees Stp Clock Cache Risk OrderState Reject SkipMap Book BookInv Matching MatchingInv MatchingSteps SweepFrame MatchingProps Modifications ModificationsProps AddProps MassCancel Operations SubmitGate.
Local Open Scope N_scope.

Section GatedBook.
Context {PA : PriceLevelApi} {WC : WallClock} {T : Type} (dflt : T).

Inductive EntryPoint :=
| CallAddOrder (order : OrderType T)
| CallAddOrderWithResult (order : OrderType T)
| CallUpdateOrder (update : OrderUpdate)
| CallCancelOrder (order_id : Id)
| CallMatchOrder (order_id : Id) (side : Side) (quantity : N) (limit : option N) (user_id : Hash32)
| CallMatchByAmount (order_id : Id) (amount : N) (side : Side) (user_id : Hash32)
| CallCancelAll
| CallCancelBySide (side : Side)
| CallCancelByUser (user_id : Hash32)
| CallCancelByPriceRange (side : Side) (min_price max_price : N)
| CallEvictExpired (now_ms : N).

Inductive Reply :=
| Added (r : Result OrderBookError (OrderType T))
| AddedWithResult (r : Result OrderBookError (OrderType T * option TradeResult))
| Updated (r : Result OrderBookError (option (OrderType T)))
| Matched (r : Result OrderBookError MatchResult)
| MassCancelled (r : MassCancelResult)
| Evicted (l : list (OrderType T)).

Definition acquire_submit_gate (exclusive : bool) : GateMode := if exclusive then Exclusive else Shared.

(** The guard each entry point takes first. *)
Definition gate_mode (e : EntryPoint) : GateMode :=
  match e with
  | CallAddOrder order | CallAddOrderWithResult order => acquire_submit_gate (is_fill_or_kill order)
  | _ => Shared
  end.

Definition reply_with {A} (c : ST OrderBook A) (reply : A -> Reply) : ST OrderBook Reply :=
  let! a := c in sret (reply a).

(** What runs under the guard. *)
Definition entry_body (e : EntryPoint) : ST OrderBook Reply :=
  match e with
  | CallAddOrder order => reply_with (add_order dflt order) Added
  | CallAddOrderWithResult order => reply_with (add_order_with_result dflt order) AddedWithResult
  | CallUpdateOrder update => reply_with (update_order dflt update) Updated
  | CallCancelOrder order_id => reply_with (cancel_order dflt order_id) Updated
  | CallMatchOrder order_id side quantity limit user_id =>
      reply_with (match_order_with_user order_id side quantity limit user_id) Matched
  | CallMatchByAmount order_id amount side user_id =>
      reply_with (match_market_order_by_amount_with_user order_id amount side user_id) Matched
  | CallCancelAll => reply_with cancel_all_orders MassCancelled
  | CallCancelBySide side => reply_with (cancel_orders_by_side dflt side) MassCancelled
  | CallCancelByUser user_id => reply_with (cancel_orders_by_user dflt user_id) MassCancelled
  | CallCancelByPriceRange side lo hi => reply_with (cancel_orders_by_price_range dflt side lo hi) MassCancelled
  | CallEvictExpired now_ms => reply_with (evict_expired_orders dflt now_ms) Evicted
  end.

(** The queries that run without the gate and write to the book's cache. *)
Inductive PriceQuery := BestBid | BestAsk.
Definition ask_price (q : PriceQuery) (b : OrderBook) : OrderBook :=
  match q with BestBid => (best_bid b).2 | BestAsk => (best_ask b).2 end.

Definition BookCall : Type := Pending (S := OrderBook) (R := Reply) (EP := EntryPoint).
Definition BookSystem : Type := System (S := OrderBook) (R := Reply) (EP := EntryPoint).
Definition BookAction : Type := Event (S := OrderBook) (R := Reply) (EP := EntryPoint) (Q := PriceQuery).
Definition book_run : list BookAction -> BookSystem -> option BookSystem := gate_run ask_price.
Definition book_step_of : BookAction -> BookSystem -> option BookSystem := gate_step ask_price.

(** A thread that does the work of an entry point, cut into steps somehow. *)
Definition implements (th : Thread OrderBook Reply) (e : EntryPoint) : Prop :=
  forall b, run_alone th b = entry_body e b.

(** Calls are made the way the entry points make them: the guard of the entry
    point around a body that takes none and does its work. *)
Definition proper (ev : BookAction) : Prop :=
  match ev with
  | Invoke _ e th => exists body, th = guarded (gate_mode e) body /\ ungated body /\ implements body e
  | _ => True
  end.

Definition well_called : BookSystem -> Prop := disciplined gate_mode (fun e body => implements body e).

Lemma proper_iff ev : proper ev <-> proper_call gate_mode (fun e body => implements body e) ev.
Proof. by destruct ev. Qed.

Lemma proper_all tr : Forall proper tr -> Forall (proper_call gate_mode (fun e body => implements body e)) tr.
Proof. intros H. eapply Forall_impl; [exact H|]. intros ev. apply proper_iff. Qed.

Lemma book_run_called b0 tr (s : BookSystem) : Forall proper tr -> book_run tr (system_new b0) = Some s ->
  well_called s.
Proof.
  intros Hp Hr. eapply run_disciplined; [by apply proper_all|exact Hr|apply disciplined_new].
Qed.

(** ** Fill or kill among concurrent callers *)

(** A concurrent history: from a book nobody uses, proper calls up to [s0];
    there the call of [t] gets the gate, whatever follows up to [s2], where
    it gives it back. *)
Record window (b0 : OrderBook) (before inside : list BookAction) (t : Tid) (c : Pending)
    (s0 s1 s2 s3 : BookSystem) : Prop := {
  w_proper : Forall proper (before ++ inside);
  w_reached : book_run before (system_new b0) = Some s0;
  w_call : calls s0 !! t = Some c;
  w_acquire : book_step_of (Acquire t) s0 = Some s1;
  w_quiet : Forall (undisturbed t) inside;
  w_ran : book_run inside s1 = Some s2;
  w_release : book_step_of (Release t) s2 = Some s3;
}.

(** The call of [t] has its result and gives it as its next step. *)
Definition about_to_reply (t : Tid) (r : Reply) (s : BookSystem) : Prop :=
  exists c s', calls s !! t = Some c /\ thread c = Returned r /\
    book_step_of (Reply_to t) s = Some s' /\ replies s' = replies s ++ [(t, r)].

Lemma window_atomic b0 before inside t c s0 s1 s2 s3 :
  window b0 before inside t c s0 s1 s2 s3 -> gate_mode (entry c) = Exclusive ->
  exists r, about_to_reply t r s3 /\ entry_body (entry c) (shared s0) = (r, shared s3).
Proof.
  intros [[Hp Hp']%Forall_app Hr Hc H1 Hq H2 H3] Hm.
  pose proof (book_run_called _ _ _ Hp Hr) as Hd.
  destruct (exclusive_window ask_price gate_mode (fun e body => implements body e) _ _ _ _ _ _ _
    Hd Hc Hm H1 (proper_all _ Hp') Hq H2 H3) as (body & r & c3 & Himp & Hrun & Hc3 & Hg3 & Hth3).
  exists r. rewrite <- Hrun. split; [|symmetry; apply Himp]. exists c3. unfold book_step_of. simpl.
  rewrite Hc3. destruct c3 as [e gs qd th]. simpl in *. subst gs th. eexists. by split_and!.
Qed.

Definition fok_of (e : EntryPoint) : option (OrderType T) :=
  match e with
  | CallAddOrder order | CallAddOrderWithResult order => if is_fill_or_kill order then Some order else None
  | _ => None
  end.

(** The reply of either form of submission, from the result of the add. *)
Definition answers (r : Reply) (r' : Result OrderBookError (OrderType T * option TradeResult)) : Prop :=
  match r with
  | Added x => x = result_map fst r'
  | AddedWithResult x => x = r'
  | _ => False
  end.

Definition wants_result (e : EntryPoint) : bool :=
  match e with CallAddOrderWithResult _ => true | _ => false end.

Lemma fok_exclusive e order : fok_of e = Some order -> gate_mode e = Exclusive.
Proof. by destruct e; simpl; try done; destruct (is_fill_or_kill _). Qed.

(** Either form of submission runs [add_order_inner] and answers with its result. *)
Lemma fok_entry e order b r b' : fok_of e = Some order -> entry_body e b = (r, b') ->
  is_fill_or_kill order = true /\
  exists r', add_order_inner dflt order (wants_result e) b = (r', b') /\ answers r r'.
Proof.
  destruct e; simpl; try done; destruct (is_fill_or_kill _) eqn:Ef; try done; intros [= ->] H; split; try done;
    unfold reply_with in H; apply sbind_inv in H as (a & b1 & E & [= <- <-]).
  - unfold add_order in E. apply stry_inv in E as [(x & b2 & E & [= <- <-])|(x & b2 & E & [= -> ->])];
      eexists; (split; [exact E|]); done.
  - eexists. by split; [exact E|].
Qed.
End GatedBook.

Section GatedProps.
Context {PA : PriceLevelApi} {PL : PriceLevelLaws} {WC : WallClock} {T : Type} (dflt : T).

(** C13.  Fill or kill among concurrent callers.  Let any number of threads
    call the mutating entry points of a book, each cut into steps in any way,
    guarded as its entry point is, the steps interleaved in any order the gate
    allows.  From the moment a fill-or-kill submission gets the gate to the
    moment it gives it back, other calls may arrive, queue and wait, but the
    book goes from what the submission found to what it leaves exactly as if
    it had run alone, and the call then replies with the result of that run.
    On a well-formed book whose levels' totals fit a u64, a submission that is
    not post-only, of positive u64 quantity, is so all or nothing
    ([filled_or_killed]): refused by admission, with every level, index and
    setting as it was found, or executed whole, the book left as its sweep
    left it.  (Price queries, which take no gate, are assumed not to run in
    between: they can write the cache.) *)
Theorem fok_atomic_among_callers b0 before inside t c s0 s1 s2 s3 order Rs :
  window dflt b0 before inside t c s0 s1 s2 s3 -> fok_of (entry c) = Some order ->
  book_rep (shared s0) Rs -> depth_u64 (shared s0) -> is_post_only order = false ->
  0 < total_quantity order -> total_quantity order <= U64_MAX ->
  exists r r', about_to_reply t r s3 /\ entry_body dflt (entry c) (shared s0) = (r, shared s3) /\
    answers r r' /\ filled_or_killed order (wants_result (entry c)) (shared s0) r' (shared s3).
Proof.
  intros Hw Hf Hrep Hd Hpo Hq1 Hq2.
  destruct (window_atomic _ _ _ _ _ _ _ _ _ _ Hw (fok_exclusive _ _ Hf)) as (r & Hr & Hb).
  destruct (fok_entry _ _ _ _ _ _ Hf Hb) as (Hk & r' & Hrun & Hans). exists r, r'.
  split_and!; [done..|]. by eapply fok_outcome.
Qed.

End GatedProps.
