(* ===== verification/EventStream.v ===== *)
(** * The outbound event stream (book.rs next_engine_seq, and its callers)

    Every level change and every trade a book hands to its listeners carries
    a number minted from one counter.  This file shows that no operation
    rewrites what was emitted, and how the numbers run: [emits] describes the
    stream an operation may add, rule by rule; [streams] is the relation it
    induces between two states of a book, a preorder, so that the
    preservation calculus carries it through every operation of the engine.
    A restore of a snapshot package sets the counter: a life of a book with
    restores ([book_life]) falls into stretches, each numbered on its own. *)

From stdpp Require Import sorting.
From S2P Require Import Prelude Float64 Types PriceLevel OrderQuantity Fees Stp Clock Cache Risk OrderState Reject SkipMap Book BookInv Matching Depth Modifications MassCancel Repricing Snapshot SnapshotProps Operations Replay.
Local Open Scope N_scope.

(** The number an event carries. *)
Definition event_seq {PA : PriceLevelApi} (e : BookEvent) : N :=
  match e with LevelChanged _ _ _ seq => seq | TradeEmitted tr => tr_engine_seq tr end.

Section Emits.
Context {PA : PriceLevelApi} (cfg : BookConfig).

(** The listener an event is meant for is installed, and a trade names the
    book's symbol. *)
Definition heard (e : BookEvent) : Prop :=
  match e with
  | LevelChanged _ _ _ _ => price_level_changed_listener cfg = true
  | TradeEmitted tr => trade_listener cfg = true /\ tr_symbol tr = symbol cfg
  end.

Definition bump (seq : N) : N := wrapping_add U64_MAX seq 1.

(** [emits s k l s']: from counter [s] to counter [s'], [k] numbers are
    minted and the events [l] are emitted.  A number without an event is
    only minted when no trade listener is installed: it goes into the result
    the caller asked for. *)
Inductive emits (s : N) : nat -> list BookEvent -> N -> Prop :=
| emits_nil : emits s 0 [] s
| emits_event k l s' e : emits s k l s' -> event_seq e = s' -> heard e -> emits s (S k) (l ++ [e]) (bump s')
| emits_unheard k l s' : emits s k l s' -> trade_listener cfg = false -> emits s (S k) l (bump s').

Lemma emits_trans s k1 l1 s1 k2 l2 s2 :
  emits s k1 l1 s1 -> emits s1 k2 l2 s2 -> emits s (k2 + k1) (l1 ++ l2) s2.
Proof.
  intros H1. induction 1 as [|k l s' e _ IH He Hh|k l s' _ IH Ht]; simpl.
  - by rewrite app_nil_r.
  - rewrite app_assoc. by constructor.
  - by constructor.
Qed.

Lemma emits_heard s k l s' : emits s k l s' -> Forall heard l.
Proof. induction 1; [constructor|apply Forall_app; auto|done]. Qed.

Lemma emits_length s k l s' : emits s k l s' -> (length l <= k)%nat.
Proof. induction 1; rewrite ?length_app; simpl; lia. Qed.

(** With a trade listener every number goes out. *)
Lemma emits_complete s k l s' : trade_listener cfg = true -> emits s k l s' -> length l = k.
Proof. intros Ht. induction 1; rewrite ?length_app; simpl; [done|lia|congruence]. Qed.

(** As long as the 64-bit counter does not wrap, it counts the numbers. *)
Lemma emits_counter s k l s' : emits s k l s' -> s + N.of_nat k <= U64_MAX -> s' = s + N.of_nat k.
Proof.
  induction 1 as [|k l s' e _ IH He Hh|k l s' _ IH Ht]; intros Hw; [lia|..];
    rewrite IH by lia; unfold bump, wrapping_add; rewrite N.mod_small by lia; lia.
Qed.

Lemma emits_range s k l s' : emits s k l s' -> s + N.of_nat k <= U64_MAX ->
  Forall (fun e => s <= event_seq e < s + N.of_nat k) l.
Proof.
  induction 1 as [|k l s' e H IH He Hh|k l s' H IH Ht]; intros Hw; [constructor|..].
  - apply Forall_app. split; [|constructor; [|done]].
    + eapply Forall_impl; [apply IH; lia|]. simpl. lia.
    + rewrite He, (emits_counter _ _ _ _ H); lia.
  - eapply Forall_impl; [apply IH; lia|]. simpl. lia.
Qed.

Lemma emits_sorted s k l s' : emits s k l s' -> s + N.of_nat k <= U64_MAX ->
  StronglySorted N.lt (event_seq <$> l).
Proof.
  induction 1 as [|k l s' e H IH He Hh|k l s' H IH Ht]; intros Hw; [constructor| |apply IH; lia].
  rewrite fmap_app. apply StronglySorted_app_2; [|apply IH; lia|repeat constructor].
  intros x y Hx%list_elem_of_fmap Hy%list_elem_of_singleton. subst y. destruct Hx as (e' & -> & Hin).
  eapply Forall_forall in Hin; [|eapply emits_range; [done|lia]]. simpl in Hin.
  rewrite He, (emits_counter _ _ _ _ H) by lia. lia.
Qed.

(** With a trade listener the numbers are consecutive. *)
Lemma emits_consecutive s k l s' : trade_listener cfg = true -> emits s k l s' ->
  s + N.of_nat k <= U64_MAX -> event_seq <$> l = (fun i => s + N.of_nat i) <$> seq 0 (length l).
Proof.
  intros Ht. induction 1 as [|k l s' e H IH He Hh|k l s' H IH Ht']; intros Hw; [done| |congruence].
  rewrite length_app, Nat.add_comm, seq_S, !fmap_app, <- IH by lia. simpl.
  rewrite He, (emits_counter _ _ _ _ H), (emits_complete _ _ _ _ Ht H) by lia. done.
Qed.
End Emits.

Section Streams.
Context {PA : PriceLevelApi} {WC : WallClock}.

Definition streams (b b' : OrderBook) : Prop :=
  book_config b' = book_config b /\
  exists k l, events b' = events b ++ l /\ emits (book_config b) (engine_seq b) k l (engine_seq b').

#[global] Instance streams_preorder : PreOrder streams.
Proof.
  split.
  - intros b. split; [done|]. exists 0%nat, []. rewrite app_nil_r. split; [done|constructor].
  - intros b1 b2 b3 [Hc1 (k1 & l1 & E1 & H1)] [Hc2 (k2 & l2 & E2 & H2)].
    split; [congruence|]. exists (k2 + k1)%nat, (l1 ++ l2). rewrite E2, E1, app_assoc. split; [done|].
    rewrite Hc1 in H2. by eapply emits_trans.
Qed.

Lemma streams_same b b' :
  events b' = events b -> engine_seq b' = engine_seq b -> book_config b' = book_config b -> streams b b'.
Proof.
  intros He Hs Hc. split; [done|]. exists 0%nat, []. rewrite He, Hs, app_nil_r. split; [done|constructor].
Qed.

(** One number, one event. *)
Lemma streams_event b b' e :
  book_config b' = book_config b -> events b' = events b ++ [e] -> engine_seq b' = bump (engine_seq b) ->
  event_seq e = engine_seq b -> heard (book_config b) e -> streams b b'.
Proof.
  intros Hc He Hs Hn Hh. split; [done|]. exists 1%nat, [e]. split; [done|]. rewrite Hs.
  apply (emits_event _ _ 0 []); [constructor|done..].
Qed.

Lemma streams_unheard b b' :
  book_config b' = book_config b -> events b' = events b -> engine_seq b' = bump (engine_seq b) ->
  trade_listener (book_config b) = false -> streams b b'.
Proof.
  intros Hc He Hs Ht. split; [done|]. exists 1%nat, []. rewrite He, app_nil_r. split; [done|]. rewrite Hs.
  apply emits_unheard; [constructor|done].
Qed.

(** A branch taken on what the state says. *)
Lemma streams_listening (m : ST OrderBook unit) (f : OrderBook -> bool) :
  (forall b, f b = true -> streams b (m b).2) -> runs_in streams (let! on := sget f in swhen on m).
Proof. intros H b. unfold sbind, sget, swhen. destruct (f b) eqn:E; [by apply H|reflexivity]. Qed.

Lemma streams_listening_then {A} (m : ST OrderBook unit) (f : OrderBook -> bool) (k : ST OrderBook A) :
  (forall b, f b = true -> streams b (m b).2) -> runs_in streams k ->
  runs_in streams (let! on := sget f in do! swhen on m in k).
Proof.
  intros H Hk b. etrans; [exact (streams_listening m f H b)|].
  unfold sbind, sget. destruct (swhen (f b) m b) as [[] b1]. apply Hk.
Qed.

(** The operations that mint. *)

Lemma with_fees_symbol sym m fees : tr_symbol (with_fees sym m fees) = sym.
Proof. unfold with_fees. by repeat case_match. Qed.

Local Ltac one_event :=
  eapply streams_event; [reflexivity|reflexivity|reflexivity|reflexivity|
    unfold heard; first [assumption|split; [assumption|apply with_fees_symbol]]].

Lemma streams_notify_level s lv : runs_in streams (notify_level s lv).
Proof. apply streams_listening. intros b Hb. one_event. Qed.

Lemma streams_emit_trade m : runs_in streams (emit_trade_result m).
Proof.
  intros b. unfold emit_trade_result, sbind, sget, swhen.
  destruct (negb _ && trade_listener (book_config b)) eqn:E; [|reflexivity].
  apply andb_true_iff in E as [_ E]. one_event.
Qed.

Lemma streams_emit_own m want : runs_in streams (emit_own_trades m want).
Proof.
  intros b. unfold emit_own_trades, sbind, sget, swhen. destruct (bool_decide _); [reflexivity|].
  destruct (trade_listener (book_config b)) eqn:E; rewrite ?orb_true_r, ?orb_false_r; [one_event|].
  destruct want; [by apply streams_unheard|reflexivity].
Qed.

Lemma streams_announce side b :
  price_level_changed_listener (book_config b) = true -> streams b (announce_empty side b).2.
Proof.
  unfold announce_empty, sbind at 1, sget. generalize (sm_iter (levels side b)). intros entries.
  revert b. induction entries as [|kv entries IH]; intros b Hb; [reflexivity|].
  simpl siter. unfold sbind at 1. etrans; [|by apply IH]. one_event.
Qed.
End Streams.

#[export] Hint Resolve streams_notify_level streams_emit_trade streams_emit_own : runs.
(** An update that touches neither the stream, nor the counter, nor the
    configuration. *)
#[export] Hint Extern 1 (streams ?b _) => (apply streams_same; reflexivity) : runs.

(** ** The engine *)

Section Engine.
Context {PA : PriceLevelApi} {WC : WallClock} {T : Type} (dflt : T).

Lemma streams_best_bid : runs_in streams best_bid.
Proof. intros b. unfold best_bid. destruct (get_cached_best_bid _); by apply streams_same. Qed.
Lemma streams_best_ask : runs_in streams best_ask.
Proof. intros b. unfold best_ask. destruct (get_cached_best_ask _); by apply streams_same. Qed.
Lemma streams_clock_now : runs_in streams clock_now.
Proof. intros b. unfold clock_now. destruct (now_millis _). by apply streams_same. Qed.
Lemma streams_on_risk {A} (c : ST RiskState A) : runs_in streams (on_risk c).
Proof. intros b. unfold on_risk. destruct (c _). by apply streams_same. Qed.
Hint Resolve streams_best_bid streams_best_ask streams_clock_now streams_on_risk : runs.

Lemma streams_match_level s p lv q id k ts : runs_in streams (match_level s p lv q id k ts).
Proof. intros b. unfold match_level. destruct (pl_match_order _ _ _ _ _ _ _) as [[? ?] ?]. by apply streams_same. Qed.
Lemma streams_cancel_maker p lv s id r : runs_in streams (cancel_resting_maker_on_level p lv s id r).
Proof. unfold cancel_resting_maker_on_level. runs. Qed.
Hint Resolve streams_match_level streams_cancel_maker : runs.
Lemma streams_own_makers p s u os : forall lv, runs_in streams (cancel_own_makers p lv s u os).
Proof. induction os; intros; simpl; runs. Qed.
Lemma streams_process w m p lv s : runs_in streams (process_level_match w m p lv s).
Proof. unfold process_level_match. runs. Qed.
Hint Resolve streams_own_makers streams_process : runs.
Lemma streams_fill w s p lv q id ts : runs_in streams (fill_level w s p lv q id ts).
Proof. unfold fill_level. runs. Qed.
Hint Resolve streams_fill : runs.
Lemma streams_level tk w p lv : runs_in streams (level_step tk w p lv).
Proof. unfold level_step, normal_match, fill_safe. runs. Qed.
Hint Resolve streams_level : runs.
Lemma streams_walk tk entries : forall w, runs_in streams (walk_levels tk w entries).
Proof. induction entries as [|[p lv] entries IH]; intros w; simpl; runs. Qed.
Hint Resolve streams_walk : runs.
Lemma streams_match id s mode u k : runs_in streams (match_order_inner id s mode u k).
Proof. unfold match_order_inner, finish_walk. runs. Qed.
Hint Resolve streams_match : runs.

Lemma streams_cancel id r : runs_in streams (cancel_order_with_reason dflt id r).
Proof. unfold cancel_order_with_reason. runs. Qed.
Hint Resolve streams_cancel : runs.

Lemma streams_shape o : runs_in streams (validate_order_shape (T := T) o).
Proof.
  unfold validate_order_shape, reject_if, has_expired, check_post_only_cross, will_cross_market, opposite_best,
    check_fok, reject_if. runs.
Qed.
Lemma streams_risk_limit a p q : runs_in streams (check_risk_limit_admission a p q).
Proof. unfold check_risk_limit_admission, risk_reference, resolve_reference_price. runs. Qed.
Lemma streams_risk_modify id a p q : runs_in streams (check_risk_modify_admission id a p q).
Proof. unfold check_risk_modify_admission, risk_reference, resolve_reference_price. runs. Qed.
Hint Resolve streams_shape streams_risk_limit streams_risk_modify : runs.

Lemma streams_guard c on_err :
  runs_in streams c -> (forall e b, streams b (on_err e b)) -> runs_in streams (guard_with c on_err).
Proof. intros Hc He. unfold guard_with. runs. Qed.
Lemma streams_record o e b : streams b (record_shape_rejection (T := T) o e b).
Proof. by destruct e; apply streams_same. Qed.
Lemma streams_register o b : streams b (register_special (T := T) o b).
Proof. by destruct o; apply streams_same. Qed.
Hint Resolve streams_guard streams_record streams_register : runs.
Lemma streams_admission o : runs_in streams (admission (T := T) o).
Proof.
  unfold admission, check_kill_switch_or_reject, reject_if, check_headroom, will_cross_market.
  repeat (apply streams_guard || runs_step); runs.
Qed.
Lemma streams_rest o r q f : runs_in streams (rest_order dflt o r q f).
Proof. unfold rest_order. runs. Qed.
Hint Resolve streams_admission streams_rest : runs.
Lemma streams_add o want : runs_in streams (add_order_inner dflt o want).
Proof. unfold add_order_inner, settle, match_order_with_user_outcome, opposite_best. runs. Qed.
Hint Resolve streams_add : runs.
Lemma streams_modify id o : runs_in streams (cancel_then_add dflt id o).
Proof. unfold cancel_then_add, check_modify, check_modify_stp_self_cross, reject_if. runs. Qed.
Hint Resolve streams_modify : runs.
Lemma streams_update u : runs_in streams (update_order dflt u).
Proof.
  unfold update_order, check_kill_switch, update_price, update_quantity, update_price_and_quantity, replace_order,
    update_cancel, drop_if_empty. runs.
Qed.
Hint Resolve streams_update : runs.

Lemma streams_cancel_each ids r : runs_in streams (cancel_each dflt ids r).
Proof. induction ids; simpl; runs. Qed.
Hint Resolve streams_cancel_each : runs.
Lemma streams_batch ids r : runs_in streams (cancel_order_batch_with_reason dflt ids r).
Proof. unfold cancel_order_batch_with_reason. runs. Qed.
Hint Resolve streams_batch : runs.
Lemma streams_evict now : runs_in streams (evict_expired_orders dflt now).
Proof. unfold evict_expired_orders. runs. Qed.
Hint Resolve streams_evict : runs.
Lemma streams_cancel_all : runs_in streams cancel_all_orders.
Proof.
  unfold cancel_all_orders. do 2 (runs_step; [by runs|]). runs_step; [by runs|].
  apply streams_listening_then; [|by runs]. intros b Hb. unfold sbind.
  destruct (announce_empty Buy b) as [[] b1] eqn:E. pose proof (streams_announce Buy b Hb) as H. rewrite E in H. simpl in H.
  etrans; [exact H|]. apply streams_announce. by rewrite (proj1 H).
Qed.
Lemma streams_market id q s : runs_in streams (submit_market_order id q s).
Proof.
  unfold submit_market_order, check_kill_switch_or_reject, match_market_order, match_market_order_with_user,
    match_order_with_user, match_order_with_user_outcome. runs.
Qed.
Lemma streams_market_amount id q s : runs_in streams (submit_market_order_by_amount id q s).
Proof.
  unfold submit_market_order_by_amount, check_kill_switch_or_reject, match_market_order_by_amount,
    match_market_order_by_amount_with_user,
    match_order_by_amount_with_user. runs.
Qed.
Hint Resolve streams_cancel_all streams_market streams_market_amount : runs.
Lemma streams_command seq c : runs_in streams (apply_command dflt seq c).
Proof.
  unfold apply_command, lift_error, ignore, add_order, cancel_order, cancel_orders_by_side, cancel_orders_by_user,
    cancel_orders_by_price_range. runs.
Qed.

Context {ID : IdDisplay}.
Lemma streams_reprice_to id p f t : runs_in streams (reprice_to dflt id p f t).
Proof. unfold reprice_to. runs. Qed.
Hint Resolve streams_reprice_to : runs.
Lemma streams_pegged_loop bid ask mid last ids : forall t,
  runs_in streams (reprice_pegged_loop dflt bid ask mid last ids t).
Proof. induction ids; intros; simpl; unfold reprice_pegged_one; runs. Qed.
Lemma streams_trailing_loop ids : forall t, runs_in streams (reprice_trailing_loop dflt ids t).
Proof. induction ids; intros; simpl; unfold reprice_trailing_one; runs. Qed.
Hint Resolve streams_pegged_loop streams_trailing_loop : runs.
Lemma streams_pegged : runs_in streams (reprice_pegged_orders dflt).
Proof. unfold reprice_pegged_orders, reprice_pegged_collecting, mid_price. runs. Qed.
Lemma streams_trailing : runs_in streams (reprice_trailing_stops dflt).
Proof. unfold reprice_trailing_stops, reprice_trailing_collecting. runs. Qed.

(** ** A book's life *)

Lemma streams_match_market id q s u : runs_in streams (match_market_order_with_user id q s u).
Proof. unfold match_market_order_with_user, match_order_with_user, match_order_with_user_outcome. runs. Qed.
Lemma streams_match_limit id q s p u : runs_in streams (match_limit_order_with_user id q s p u).
Proof. unfold match_limit_order_with_user, match_order_with_user, match_order_with_user_outcome. runs. Qed.
Lemma streams_match_amount id q s u : runs_in streams (match_market_order_by_amount_with_user id q s u).
Proof. unfold match_market_order_by_amount_with_user, match_order_by_amount_with_user. runs. Qed.

(** Neither the stream, nor the counter, nor the configuration changes. *)
Definition silent (b b' : OrderBook) : Prop :=
  events b' = events b /\ engine_seq b' = engine_seq b /\ book_config b' = book_config b.

#[global] Instance silent_preorder : PreOrder silent.
Proof. split; [by intros b|]. intros b1 b2 b3 (H1 & H2 & H3) (H4 & H5 & H6). split_and!; congruence. Qed.

Lemma silent_reindex rebuild x b : silent b (reindex_order rebuild x b).
Proof. destruct x as [[p s] o]. by destruct o, rebuild. Qed.

(** Installing the restored levels announces nothing and mints nothing. *)
Lemma silent_commit {SA : SnapshotApi} prepared rebuild b :
  silent b (commit_restored_levels prepared rebuild b).
Proof.
  unfold commit_restored_levels. cbv zeta.
  match goal with |- silent _ (foldl _ ?x ?l) => transitivity x; [by split_and!|generalize x, l] end.
  intros b1 l. revert b1. induction l as [|y l IH]; intros b1; simpl; [reflexivity|].
  transitivity (reindex_order rebuild y b1); [apply silent_reindex|apply IH].
Qed.

Context {SA : SnapshotApi} (compute_checksum : OrderBookSnapshot -> Result OrderBookError string).

(** What a caller can do to a book between two restores of a package: the
    sequenced commands, the submission that returns its trades, the matching
    entry points, the re-pricing passes, the kill switch and the market close,
    a restore of levels alone, and a package restore that fails. *)
Inductive book_step (b : OrderBook) : OrderBook -> Prop :=
| step_apply seq c : book_step b (apply_command dflt seq c b).2
| step_submit order : book_step b (add_order_with_result dflt order b).2
| step_match_market id q s u : book_step b (match_market_order_with_user id q s u b).2
| step_match_limit id q s p u : book_step b (match_limit_order_with_user id q s p u b).2
| step_match_amount id q s u : book_step b (match_market_order_by_amount_with_user id q s u b).2
| step_pegged : book_step b (reprice_pegged_orders dflt b).2
| step_trailing : book_step b (reprice_trailing_stops dflt b).2
| step_kill_switch on : book_step b (set_kill_switch on b)
| step_market_close ts : book_step b (set_market_close_timestamp ts b)
| step_restore_levels s : book_step b (restore_from_snapshot s b).2
| step_restore_fails pkg e b' : restore_from_snapshot_package compute_checksum pkg b = (Err e, b') -> book_step b b'.

Lemma book_step_streams b b' : book_step b b' -> streams b b'.
Proof.
  destruct 1 as [| | | | | | |on|ts|s|pkg e b' H]; [apply streams_command|apply streams_add|apply streams_match_market|
    apply streams_match_limit|apply streams_match_amount|apply streams_pegged|apply streams_trailing|
    by apply streams_same|by apply streams_same| |].
  - unfold restore_from_snapshot. destruct (ensure_snapshot_symbol s b); [|reflexivity].
    destruct (prepare_snapshot_levels s) as [prepared|]; [|reflexivity].
    destruct (silent_commit prepared false b) as (H1 & H2 & H3). by apply streams_same.
  - apply restore_inv in H as ->. reflexivity.
Qed.
Lemma book_steps_streams b b' : rtc book_step b b' -> streams b b'.
Proof. induction 1 as [|b1 b2 b3 H _ IH]; [reflexivity|]. etrans; [by apply book_step_streams|done]. Qed.

(** A life of a book: steps, and in between the restores of the packages
    [pkgs]. *)
Inductive book_life : OrderBook -> list OrderBookSnapshotPackage -> OrderBook -> Prop :=
| life_steps b b' : rtc book_step b b' -> book_life b [] b'
| life_restore b b1 pkg u b2 pkgs b' : rtc book_step b b1 ->
    restore_from_snapshot_package compute_checksum pkg b1 = (Ok u, b2) ->
    book_life b2 pkgs b' -> book_life b (pkg :: pkgs) b'.

(** A restore announces nothing, sets the counter to the package's and keeps
    symbol and listeners. *)
Lemma restore_stream pkg b u b' :
  restore_from_snapshot_package compute_checksum pkg b = (Ok u, b') ->
  events b' = events b /\ engine_seq b' = pk_engine_seq pkg /\
  trade_listener (book_config b') = trade_listener (book_config b) /\
  forall e, heard (book_config b') e <-> heard (book_config b) e.
Proof.
  intros (_ & _ & prepared & _ & ->)%restore_inv. unfold restored.
  match goal with |- context [commit_restored_levels prepared true ?x] =>
    destruct (silent_commit prepared true x) as (He & _ & Hc); set (b1 := commit_restored_levels prepared true x) in * end.
  assert (Hl : book_config b1 = book_config b) by exact Hc.
  split_and!; [exact He|done|simpl; by rewrite Hl|]. intros e. unfold heard. simpl. by rewrite Hl.
Qed.

(** How a stretch of the stream is numbered from [start]: [minted] numbers
    were drawn, the events [new] went out. *)
Definition numbered (cfg : BookConfig) (start : N) (stretch : nat * list BookEvent) : Prop :=
  let '(minted, new) := stretch in
  Forall (heard cfg) new /\ (length new <= minted)%nat /\
  (start + N.of_nat minted <= U64_MAX ->
     Forall (fun e => start <= event_seq e < start + N.of_nat minted) new /\
     StronglySorted N.lt (event_seq <$> new) /\
     (trade_listener cfg = true ->
        minted = length new /\
        event_seq <$> new = (fun i => start + N.of_nat i) <$> seq 0 (length new))).

Lemma streams_numbered b b' : streams b b' -> exists minted new,
  events b' = events b ++ new /\ numbered (book_config b) (engine_seq b) (minted, new) /\
  (engine_seq b + N.of_nat minted <= U64_MAX -> engine_seq b' = engine_seq b + N.of_nat minted).
Proof.
  intros [_ (k & l & He & Hl)]. exists k, l. split_and!; [done| |by eapply emits_counter].
  split_and!; [by eapply emits_heard|by eapply emits_length|]. intros Hw.
  split_and!; [by eapply emits_range|by eapply emits_sorted|]. intros Ht.
  split; [symmetry; by eapply emits_complete|by eapply emits_consecutive].
Qed.

Lemma numbered_heard cfg cfg' start x :
  trade_listener cfg' = trade_listener cfg -> (forall e, heard cfg' e <-> heard cfg e) ->
  numbered cfg' start x -> numbered cfg start x.
Proof.
  destruct x as [k l]. intros Ht Hh (H1 & H2 & H3). rewrite Ht in H3. split_and!; [|done|done].
  eapply Forall_impl; [exact H1|]. intros e. apply Hh.
Qed.

(** C11.  The outbound stream is append-only and numbered in stretches.
    Whatever callers do to a book — commands, submissions, matches,
    re-pricing passes, kill switch, market close, restores — the events its
    listeners have received stay as they were and new ones follow, each for a
    listener that is installed.  Each restore of a snapshot package begins a
    new stretch, numbered from the counter in the package; within a stretch,
    while the 64-bit counter does not overflow, the numbers lie between its
    start and the counter at its end and strictly increase, and with a trade
    listener installed they are consecutive, so that a receiver can tell that
    it has missed nothing.  Across a restore they may start again:
    [restore_repeats_numbers] is a life in which a number is used twice. *)
Theorem event_stream_sequenced b pkgs b' :
  book_life b pkgs b' ->
  let starts := engine_seq b :: (pk_engine_seq <$> pkgs) in
  exists stretches,
    events b' = events b ++ concat (snd <$> stretches) /\
    Forall2 (numbered (book_config b)) starts stretches /\
    (forall start minted new, last (zip starts stretches) = Some (start, (minted, new)) ->
       start + N.of_nat minted <= U64_MAX -> engine_seq b' = start + N.of_nat minted).
Proof.
  intros Hlife. simpl. induction Hlife as [b b' Hs|b b1 pkg u b2 pkgs b' Hs Hr _ (xs & He & Hx & Hl)].
  - apply book_steps_streams, streams_numbered in Hs as (k & l & He & Hn & Hc). exists [(k, l)]. simpl.
    rewrite app_nil_r. split_and!; [done|by constructor; [exact Hn|constructor]|]. intros start m new [= <- <- <-]. exact Hc.
  - apply book_steps_streams in Hs. pose proof (proj1 Hs) as Hcfg.
    apply streams_numbered in Hs as (k & l & He1 & Hn & _).
    apply restore_stream in Hr as (He2 & Hs2 & Ht2 & Hh2). rewrite Hcfg in Ht2, Hh2. rewrite Hs2 in Hx, Hl.
    exists ((k, l) :: xs). simpl. rewrite He, He2, He1, app_assoc. split_and!; [done| |].
    + constructor; [done|]. eapply Forall2_impl; [exact Hx|]. intros start x. by apply numbered_heard.
    + intros start m new. destruct xs as [|x xs]; [by inversion Hx|]. exact (Hl start m new).
Qed.
End Engine.
