(* ===== verification/ReplayVerify.v ===== *)
(** * The replay oracle (sequencer/replay.rs)

    [snapshots_match], which compares two snapshots level by level, and
    [ReplayEngine::verify], which replays a journal and compares the outcome
    with an expected snapshot. *)

From S2P Require Import Prelude Types PriceLevel OrderQuantity Fees Stp Clock Cache Risk OrderState Reject SkipMap Book BookInv Matching MatchingInv MatchingSteps MatchingProps Modifications ModificationsProps AddProps UpdateProps MassCancel Operations Depth DepthProps Snapshot SnapshotQueries Replay ReplayProps.
From stdpp Require Import sorting strings.
Local Open Scope N_scope.

#[export] Instance OrderType_eq_dec {T} `{EqDecision T} : EqDecision (OrderType T).
Proof. solve_decision. Defined.

(** The deterministic part of a level's statistics. *)
Record LevelStatistics := {
  orders_added : N;
  orders_removed : N;
  orders_executed : N;
  quantity_executed : N;
  value_executed : N;
  stats_degraded : bool;
}.

(** What the comparison uses of a level snapshot besides price and visible quantity. *)
Class LevelStateApi `{SnapshotQueryApi} := {
  ls_hidden_quantity : LevelSnapshot -> N;
  ls_order_count : LevelSnapshot -> N;
  ls_orders : LevelSnapshot -> list (OrderType unit);
  ls_statistics : LevelSnapshot -> LevelStatistics;
}.

Section Verify.
Context {PA : PriceLevelApi} {SA : SnapshotApi} {SQ : SnapshotQueryApi} {LA : LevelStateApi}.

Definition levels_match (a b : LevelSnapshot) : bool :=
  if negb (ls_price a =? ls_price b) || negb (ls_visible_quantity a =? ls_visible_quantity b)
     || negb (ls_hidden_quantity a =? ls_hidden_quantity b) || negb (ls_order_count a =? ls_order_count b)
  then false
  else if negb (bool_decide (ls_orders a = ls_orders b)) then false
  else
    let stats_a := ls_statistics a in
    let stats_b := ls_statistics b in
    (orders_added stats_a =? orders_added stats_b) && (orders_removed stats_a =? orders_removed stats_b) &&
    (orders_executed stats_a =? orders_executed stats_b) &&
    (quantity_executed stats_a =? quantity_executed stats_b) &&
    (value_executed stats_a =? value_executed stats_b) &&
    Bool.eqb (stats_degraded stats_a) (stats_degraded stats_b).

(** [sort_by_key(|level| level.price())], which is stable. *)
Fixpoint insert_level (x : LevelSnapshot) (l : list LevelSnapshot) : list LevelSnapshot :=
  match l with
  | [] => [x]
  | y :: l' => if ls_price x <=? ls_price y then x :: l else y :: insert_level x l'
  end.
Definition sort_levels (l : list LevelSnapshot) : list LevelSnapshot := foldr insert_level [] l.

Definition sides_match (actual expected : list LevelSnapshot) : bool :=
  if negb (Nat.eqb (length actual) (length expected)) then false
  else forallb (fun ab => levels_match ab.1 ab.2) (zip (sort_levels actual) (sort_levels expected)).

Definition snapshots_match (actual expected : OrderBookSnapshot) : bool :=
  if negb (String.eqb (sn_symbol actual) (sn_symbol expected)) then false
  else sides_match (sn_bids actual) (sn_bids expected) && sides_match (sn_asks actual) (sn_asks expected).

Section Engine.
Context {WC : WallClock} {T : Type} (dflt : T) {J : Type} `{!Journal (SequencerEvent T) J}.

(** [namespace] is the one the fresh book draws; [usize::MAX] levels are all of them. *)
Definition verify (namespace : N) (journal : J) (expected : OrderBookSnapshot) : Result ReplayError bool :=
  match replay_from dflt journal 0 (sn_symbol expected) namespace with
  | Err e => Err e
  | Ok (book, _) =>
      let depth := max (size (levels Buy book)) (size (levels Sell book)) in
      Ok (snapshots_match (create_snapshot depth book).1 expected)
  end.
End Engine.

(** ** What the comparison compares *)

Record LevelState := {
  st_price : N;
  st_visible : N;
  st_hidden : N;
  st_count : N;
  st_orders : list (OrderType unit);
  st_statistics : LevelStatistics;
}.
Definition level_state (s : LevelSnapshot) : LevelState :=
  {| st_price := ls_price s; st_visible := ls_visible_quantity s; st_hidden := ls_hidden_quantity s;
     st_count := ls_order_count s; st_orders := ls_orders s; st_statistics := ls_statistics s |}.

Lemma levels_match_spec a b : levels_match a b = true <-> level_state a = level_state b.
Proof.
  unfold levels_match, level_state. split.
  - destruct (_ || _) eqn:H1; [done|]. bool_prop.
    destruct (bool_decide_reflect (ls_orders a = ls_orders b)); simpl; [|done].
    destruct (ls_statistics a), (ls_statistics b); simpl. intros Hs. bool_prop.
    match goal with H : Bool.eqb _ _ = true |- _ => apply Bool.eqb_prop in H end. congruence.
  - intros [= -> -> -> -> -> ->]. rewrite !N.eqb_refl, bool_decide_eq_true_2, Bool.eqb_reflx by done. done.
Qed.

Lemma insert_level_perm x l : insert_level x l ≡ₚ x :: l.
Proof.
  induction l as [|y l IH]; simpl; [done|]. destruct (_ <=? _); [done|]. rewrite IH. apply Permutation_swap.
Qed.
Lemma sort_levels_perm l : sort_levels l ≡ₚ l.
Proof. induction l as [|x l IH]; simpl; [done|]. by rewrite insert_level_perm, IH. Qed.

Definition price_le (a b : LevelSnapshot) : Prop := ls_price a <= ls_price b.
Lemma sort_levels_sorted l : StronglySorted price_le (sort_levels l).
Proof.
  induction l as [|x l IH]; simpl; [constructor|]. induction IH as [|y l' Hs IH Hy]; simpl; [by repeat constructor|].
  destruct (N.leb_spec (ls_price x) (ls_price y)) as [Hle|Hgt].
  - constructor; [by constructor|]. constructor; [done|]. eapply Forall_impl; [exact Hy|]. unfold price_le. simpl. lia.
  - constructor; [done|]. rewrite insert_level_perm. constructor; [unfold price_le; lia|done].
Qed.

Lemma zip_match l1 : forall l2, length l1 = length l2 ->
  forallb (fun ab => levels_match ab.1 ab.2) (zip l1 l2) = true <-> level_state <$> l1 = level_state <$> l2.
Proof.
  induction l1 as [|a l1 IH]; intros [|b l2] Hl; simplify_eq/=; [done|].
  rewrite andb_true_iff, IH, levels_match_spec by done. csimpl.
  split; [by intros [-> ->]|]. intros H. split; [apply (inj Some); exact (f_equal head H)|exact (f_equal tail H)].
Qed.

(** Strictly sorted by price, when no price repeats. *)
Definition state_lt (a b : LevelState) : Prop := st_price a < st_price b.
#[local] Instance state_lt_antisym : AntiSymm (=) state_lt.
Proof. intros x y. unfold state_lt. lia. Qed.
Lemma sorted_states l : NoDup (ls_price <$> l) -> StronglySorted state_lt (level_state <$> sort_levels l).
Proof.
  intros Hnd. rewrite <- (sort_levels_perm l) in Hnd. pose proof (sort_levels_sorted l) as Hs.
  induction Hs as [|x l' Hs IH Hx]; csimpl; [constructor|]. apply NoDup_cons in Hnd as [Hn Hnd].
  constructor; [by apply IH|]. apply Forall_fmap, Forall_forall. intros y Hy. rewrite Forall_forall in Hx.
  specialize (Hx y Hy). unfold state_lt, compose, price_le in *. simpl.
  assert (ls_price x <> ls_price y); [|lia]. intros E. apply Hn. rewrite E. by apply list_elem_of_fmap_2.
Qed.

Lemma state_prices (l : list LevelSnapshot) : ls_price <$> l = st_price <$> (level_state <$> l).
Proof. by rewrite <- list_fmap_compose. Qed.

Lemma sides_match_spec l1 l2 : NoDup (ls_price <$> l1) ->
  sides_match l1 l2 = true <-> level_state <$> l1 ≡ₚ level_state <$> l2.
Proof.
  intros Hnd. unfold sides_match. destruct (Nat.eqb_spec (length l1) (length l2)) as [Hl|Hl]; simpl.
  - rewrite zip_match by by rewrite !sort_levels_perm. split.
    + intros E. by rewrite <- (sort_levels_perm l1), <- (sort_levels_perm l2), E.
    + intros Hp. apply (StronglySorted_unique state_lt).
      * by apply sorted_states.
      * apply sorted_states. rewrite state_prices, <- Hp, <- state_prices. done.
      * by rewrite !sort_levels_perm.
  - split; [done|]. intros Hp. apply Permutation_length in Hp. by rewrite !length_fmap in Hp.
Qed.

(** ** What it means to pass *)

(** The content a snapshot shows: a finite map from prices to level states. *)
Definition shown (l : list LevelSnapshot) : gmap N LevelState := list_to_map ((fun s => (ls_price s, level_state s)) <$> l).
Definition book_states (side : Side) (b : OrderBook) : gmap N LevelState :=
  (fun lv => level_state (pl_snapshot lv)) <$> levels side b.

Lemma shown_perm l1 l2 : NoDup (ls_price <$> l1) -> NoDup (ls_price <$> l2) ->
  level_state <$> l1 ≡ₚ level_state <$> l2 <-> shown l1 = shown l2.
Proof.
  intros H1 H2. unfold shown.
  set (f := fun st => (st_price st, st)). assert (Hf : forall l : list LevelSnapshot,
    (fun s => (ls_price s, level_state s)) <$> l = f <$> (level_state <$> l)) by (intros l; by rewrite <- list_fmap_compose).
  rewrite !Hf. assert (Hk : forall l : list LevelSnapshot, NoDup (ls_price <$> l) -> NoDup (f <$> (level_state <$> l)).*1).
  { intros l H. rewrite <- !list_fmap_compose. done. }
  split; intros H.
  - apply list_to_map_proper; [by apply Hk|by rewrite H].
  - apply list_to_map_inj in H; [|by apply Hk..]. apply (fmap_Permutation snd) in H.
    rewrite <- !list_fmap_compose in H. exact H.
Qed.

Section Passing.
Context {SL : SnapshotLaws} {QL : SnapshotQueryLaws} {WC : WallClock}.

Lemma full_side side depth b R : rests b R -> (size (levels side b) <= depth)%nat ->
  NoDup (ls_price <$> entry_snapshots side depth b) /\ shown (entry_snapshots side depth b) = book_states side b.
Proof.
  intros Hr Hd. unfold entry_snapshots.
  rewrite take_ge by by rewrite depth_entries_perm, sm_iter_perm, length_map_to_list.
  assert (Hp : forall kv, kv ∈ depth_entries side b -> ls_price (pl_snapshot kv.2) = kv.1).
  { intros [p lv] H%elem_of_depth_entries. rewrite snapshot_price_spec. simpl. by apply (rests_price _ _ Hr) in H. }
  assert (Hnd : NoDup (depth_entries side b).*1) by (rewrite depth_entries_perm, sm_iter_perm; apply NoDup_fst_map_to_list).
  split.
  - rewrite <- list_fmap_compose. rewrite (list_fmap_ext _ fst); [done|].
    intros i kv H%list_elem_of_lookup_2. by apply Hp.
  - unfold shown, book_states. rewrite <- list_fmap_compose.
    rewrite (list_fmap_ext _ (prod_map id (fun lv => level_state (pl_snapshot lv)))).
    2: { intros i [p lv] H%list_elem_of_lookup_2. unfold compose, prod_map. simpl. f_equal. exact (Hp _ H). }
    rewrite list_to_map_fmap. f_equal. apply map_eq. intros k. apply option_eq. intros lv.
    rewrite <- elem_of_list_to_map by done. apply elem_of_depth_entries.
Qed.

Lemma create_snapshot_symbol depth b : sn_symbol (create_snapshot depth b).1 = symbol (book_config b).
Proof. unfold create_snapshot, sbind, sget. by destruct (clock_now b). Qed.

(** The comparison of a full snapshot of a book with an expected one. *)
Lemma full_snapshot_matches b R expected :
  rests b R -> NoDup (ls_price <$> sn_bids expected) -> NoDup (ls_price <$> sn_asks expected) ->
  symbol (book_config b) = sn_symbol expected ->
  snapshots_match (create_snapshot (max (size (levels Buy b)) (size (levels Sell b))) b).1 expected = true <->
    shown (sn_bids expected) = book_states Buy b /\ shown (sn_asks expected) = book_states Sell b.
Proof.
  intros Hr Hb Ha Hsym. set (depth := max _ _).
  destruct (create_snapshot_sides depth b) as [Sb Sa]. unfold snapshots_match.
  rewrite create_snapshot_symbol, Hsym, String.eqb_refl, Sb, Sa. simpl.
  destruct (full_side Buy depth b R Hr ltac:(unfold depth; lia)) as [Nb <-].
  destruct (full_side Sell depth b R Hr ltac:(unfold depth; lia)) as [Na <-].
  rewrite andb_true_iff, !sides_match_spec, !shown_perm by done. split; by intros [-> ->].
Qed.

(** C38.  The replay oracle decides equality of content.  When the journal
    replays, [verify] answers, and it answers [true] exactly when the
    expected snapshot shows, price by price and whatever the order of its
    levels, the state of every level of the replayed book: quantities, order
    count, the orders in queue order and the deterministic statistics.  When
    the replay fails, [verify] fails with the same error.  The journal holds
    no in-place re-size to zero and the expected snapshot no price twice on a
    side. *)
Theorem verify_exact {PL : PriceLevelLaws} {T} (dflt : T) {J} `{!Journal (SequencerEvent T) J} namespace (j : J) expected :
  (forall entries, read_from j 0 = Ok entries -> Forall sane_entry entries) ->
  NoDup (ls_price <$> sn_bids expected) -> NoDup (ls_price <$> sn_asks expected) ->
  match replay_from dflt j 0 (sn_symbol expected) namespace with
  | Ok (book, _) =>
      exists v, verify dflt namespace j expected = Ok v /\
        (v = true <-> shown (sn_bids expected) = book_states Buy book /\
                      shown (sn_asks expected) = book_states Sell book)
  | Err e => verify dflt namespace j expected = Err e
  end.
Proof.
  intros Hs Hb Ha. unfold verify.
  destruct (replay_from dflt j 0 (sn_symbol expected) namespace) as [[book last]|e] eqn:E; [|done].
  eexists. split; [done|].
  assert (Hk : well_kept (with_clock_and_namespace (sn_symbol expected) (MonotonicClock 0) namespace) book).
  { unfold replay_from, replay_on in E. destruct (last_sequence j) as [ls|]; [|done]. destruct (ls <? 0); [done|].
    unfold replay_into in E. destruct (read_from j 0) as [entries|] eqn:Er; [|done].
    destruct (replay_loop _ _ _ _ _ _ _) as [[[la pr]|] b'] eqn:El; [|done]. injection E as -> ->.
    eapply (replay_loop_kept dflt entries); [|by apply Hs|exact El]. by apply empty_rep. }
  destruct Hk as [Hc [R Hr]]. apply (full_snapshot_matches book R); [apply Hr|done|done|]. by rewrite Hc.
Qed.
End Passing.
End Verify.
