(* ===== verification/UncrossedCommands.v ===== *)
(** * No command leaves the book crossed

    The invariant of [add_order] carried over to every command a sequencer
    applies, and to every sequence of commands. *)

From S2P Require Import Prelude Types PriceLevel OrderQuantity Fees Stp Clock Cache Risk OrderState Reject SkipMap Book BookInv Matching MatchingInv MatchingSteps MatchingProps Modifications ModificationsProps AddProps UpdateProps Uncrossed MassCancel Operations Replay ReplayProps.
Local Open Scope N_scope.

Section UncrossedCommands.
Context {PA : PriceLevelApi} {PL : PriceLevelLaws} {WC : WallClock} {T : Type} (dflt : T).
Implicit Types (b : OrderBook) (R : Contents).

Lemma uncrossed_sub R R' : R' ⊆ R -> uncrossed_content R -> uncrossed_content R'.
Proof. intros Hs Hu i j p q u v Hi Hj. eapply Hu; eapply lookup_weaken; eauto. Qed.

(** A book that only lost content. *)
Lemma uncrossed_shrunk b R b' R' : book_rep b R -> uncrossed b -> book_rep b' R' -> R' ⊆ R -> uncrossed b'.
Proof.
  intros Hrep Hu Hrep' Hs. apply (uncrossed_iff _ _ Hrep'). apply (uncrossed_iff _ _ Hrep) in Hu.
  by eapply uncrossed_sub.
Qed.

Lemma uncrossed_quiet b b' : quiet b b' -> uncrossed b -> uncrossed b'.
Proof. intros [Hs _] Hu pb pa. rewrite !(same_core_levels _ _ _ Hs). apply Hu. Qed.
Lemma drawable_quiet b b' : quiet b b' -> drawable b -> drawable b'.
Proof. intros [Hs _] Hd s p lv o. rewrite (same_core_levels _ _ _ Hs). apply Hd. Qed.

Lemma cancel_drawable id reason b R r b' :
  book_rep b R -> cancel_order_with_reason dflt id reason b = (r, b') -> drawable b -> drawable b'.
Proof.
  intros Hrep H Hd s p lv' o Hlv Ho. apply (cancel_shape _ _ _ _ R) in H; [|by apply book_rep_shelved].
  destruct (ca_queues _ _ _ _ _ H _ _ _ Hlv) as (lv & Hlv0 & Hq). rewrite Hq in Ho.
  apply list_elem_of_filter in Ho as [_ Ho]. by eapply Hd.
Qed.

(** What every step of a modify keeps. *)
Record sound b R : Prop := {
  so_rep : book_rep b R;
  so_drawable : drawable b;
  so_uncrossed : uncrossed b;
  so_lot : default 1 (lot_size (book_config b)) <= 1;
}.

Lemma sound_quiet b b' R : quiet b b' -> sound b R -> sound b' R.
Proof.
  intros Hq [H1 H2 H3 H4]. split; [by eapply book_rep_quiet|by eapply drawable_quiet|by eapply uncrossed_quiet|].
  by rewrite (proj2 (proj1 Hq)).
Qed.

Lemma sound_cancel id reason b R r b' : sound b R ->
  cancel_order_with_reason dflt id reason b = (r, b') -> sound b' (delete id R).
Proof.
  intros [H1 H2 H3 H4] H. pose proof (cancel_drawable _ _ _ _ _ _ H1 H H2) as Hd.
  apply (cancel_rep _ _ _ _ R) in H as (Hrep & Hcfg & _); [|done]. split; [done|done| |by rewrite Hcfg].
  eapply uncrossed_shrunk; [exact H1|done|exact Hrep|apply delete_subseteq].
Qed.

Lemma cancel_then_add_uncrossed id new b R r b' : sound b R ->
  cancel_then_add dflt id new b = (r, b') -> uncrossed b'.
Proof.
  intros Hs H. unfold cancel_then_add in H.
  apply stry_inv in H as [(u & b1 & E & H)|(e & b1 & E & H)];
    apply (runs_in_inv _ _ _ _ _ (quiet_check_modify _ _)) in E; apply (sound_quiet _ _ _ E) in Hs.
  2: { simplify_eq. apply Hs. }
  apply stry_inv in H as [(c & b2 & E2 & H)|(e & b2 & E2 & H)]; apply (sound_cancel _ _ _ _ _ _ Hs) in E2 as Hs2;
    [|simplify_eq; apply Hs2]. destruct Hs2 as [H1 H2 H3 H4].
  apply stry_inv in H as [(x & b3 & E3 & H)|(e & b3 & E3 & H)];
    apply (add_keeps_uncrossed _ _ _ _ _ _ _ H1 H2 H3 H4) in E3; st_inv H; by simplify_eq.
Qed.

Lemma modify_arm_uncrossed (f : OrderType T -> OrderType T) id b R r b' : sound b R ->
  (let! original := sget (get_order dflt id) in
   match original with
   | None => sret (Ok None)
   | Some original => cancel_then_add dflt id (f original)
   end) b = (r, b') -> uncrossed b'.
Proof.
  intros Hs H. apply sbind_inv in H as (o & b0 & [-> ->]%sget_inv & H).
  destruct (get_order dflt id b) as [o|]; [by eapply cancel_then_add_uncrossed|st_inv H; apply Hs].
Qed.

Lemma update_uncrossed update b R r b' : sound b R ->
  (match update with UpdateQuantity _ q => 0 < q | _ => True end) ->
  update_order dflt update b = (r, b') -> uncrossed b'.
Proof.
  intros Hs Hq H. pose proof (update_rep dflt update b R r b' (so_rep _ _ Hs) Hq H) as (_ & R' & Hrep' & He).
  assert (Hsub : R' ⊆ R -> uncrossed b') by (eapply uncrossed_shrunk; [apply Hs|apply Hs|exact Hrep']).
  unfold update_order in H. apply stry_inv in H as [(? & b1 & E & H)|(e & b1 & E & H)].
  2: { simplify_eq. destruct (is_modify update); [|by st_inv E]. apply (runs_in_inv _ _ _ _ _ quiet_kill) in E.
       by apply (sound_quiet _ _ _ E) in Hs as []. }
  assert (Eq : quiet b b1).
  { destruct (is_modify update); [by apply (runs_in_inv _ _ _ _ _ quiet_kill) in E|]. by st_inv E. }
  apply sbind_inv in H as (? & b2 & ->%smod_inv & H). set (b2 := set_cache invalidate b1) in *.
  assert (Hs2 : sound b2 R).
  { eapply sound_quiet; [|exact Hs]. etransitivity; [exact Eq|apply quiet_invalidate]. }
  destruct update as [id p|id q|id p q|id|id p q s]; unfold update_effect in He.
  - unfold update_price in H. apply sbind_inv in H as (loc & b0 & [-> ->]%sget_inv & H).
    destruct (locations b2 !! id) as [[old ?]|]; [|st_inv H; apply Hs2].
    destruct (old =? p); [st_inv H; apply Hs2|].
    exact (modify_arm_uncrossed (fun o => set_price o p) _ _ R _ _ Hs2 H).
  - apply Hsub. by rewrite He.
  - unfold update_price_and_quantity in H. apply sbind_inv in H as (loc & b0 & [-> ->]%sget_inv & H).
    destruct (locations b2 !! id) as [?|]; [|st_inv H; apply Hs2].
    exact (modify_arm_uncrossed (fun o => set_quantity (set_price o p) q) _ _ R _ _ Hs2 H).
  - apply Hsub. destruct He as [-> _]. apply delete_subseteq.
  - exact (modify_arm_uncrossed (fun o => replace_fields o id p q s) _ _ R _ _ Hs2 H).
Qed.

Lemma command_uncrossed seq c b R r b' : sound b R -> sane_command c ->
  apply_command dflt seq c b = (r, b') -> uncrossed b'.
Proof.
  intros Hs Hc H. pose proof Hs as [Hrep Hd Hu Hlot].
  assert (Hsub : forall R', book_rep b' R' -> R' ⊆ R -> uncrossed b')
    by (intros R' Hr' Hs'; by eapply (uncrossed_shrunk b R)).
  unfold apply_command, lift_error, ignore in H.
  destruct c as [order|id|update|id qty side|id amount side| |side|user|side lo hi|now];
    apply sbind_inv in H as (x & b1 & E & H); st_inv H.
  - unfold add_order in E. apply stry_inv in E as [(y & b2 & E & H)|(e & b2 & E & H)]; st_inv H;
      simplify_eq; by apply (add_keeps_uncrossed _ _ _ _ R) in E.
  - apply (cancel_rep _ _ _ _ R) in E as (Hr' & _ & _); [|done]. eapply Hsub; [exact Hr'|apply delete_subseteq].
  - eapply (update_uncrossed update); [exact Hs|by destruct update|exact E].
  - apply (submit_shrinks id side (BaseQty qty None) _ _ R) in E as (_ & R' & ? & ?); [by eapply Hsub|done].
  - apply (submit_shrinks id side (QuoteAmount amount) _ _ R) in E as (_ & R' & ? & ?); [by eapply Hsub|done].
  - apply (cancel_all_empties _ R) in E as (Hr' & _); [|done]. eapply Hsub; [exact Hr'|apply map_empty_subseteq].
  - apply (side_removes _ _ _ R) in E as [_ [Hr' _ _]]; [|done]. eapply Hsub; [exact Hr'|apply drop_ids_sub].
  - apply (user_removes _ _ _ R) in E as [_ [Hr' _ _]]; [|done]. eapply Hsub; [exact Hr'|apply drop_ids_sub].
  - apply (price_range_removes _ _ _ _ _ R) in E as [_ [Hr' _ _]]; [|done]. eapply Hsub; [exact Hr'|apply drop_ids_sub].
  - apply (evict_batch _ _ _ R) in E as (_ & l & _ & Hb); [|done].
    eapply Hsub; [by eapply batch_rep|apply drop_ids_sub].
Qed.

(** A sequence of commands applied one after the other, whatever each answers. *)
Definition run_commands (cs : list (SequencerCommand T)) b : OrderBook :=
  foldl (fun b c => (apply_command dflt 0 c b).2) b cs.

(** Every book the sequence starts a command on has only drawable orders. *)
Fixpoint drawable_along (cs : list (SequencerCommand T)) b : Prop :=
  match cs with
  | [] => True
  | c :: cs => drawable b /\ drawable_along cs (apply_command dflt 0 c b).2
  end.

(** C1.  The book is never left crossed.  Start from a well-formed book whose
    bids are all below its asks and apply any sequence of commands: orders
    of every kind, cancels, re-prices, re-sizes and replaces, market orders
    by quantity and by amount, mass cancels and expiry, each with whatever
    outcome and under any self-trade prevention mode.  Then every bid is
    below every ask again, provided that no order without drawable quantity
    rests on the way, no resting order is re-sized in place to zero, and no
    lot size above one is set (for which a sweep leaves no sub-lot
    remainder). *)
Theorem commands_keep_uncrossed cs b :
  book_rep b (content b) -> uncrossed b -> default 1 (lot_size (book_config b)) <= 1 ->
  Forall sane_command cs -> drawable_along cs b ->
  uncrossed (run_commands cs b) /\ book_rep (run_commands cs b) (content (run_commands cs b)).
Proof.
  revert b. induction cs as [|c cs IH]; intros b Hrep Hu Hlot Hcs Hd; simpl; [done|].
  apply Forall_cons in Hcs as [Hc Hcs]. destruct Hd as [Hd Hds].
  destruct (apply_command dflt 0 c b) as [r b1] eqn:E. simpl in *.
  assert (Hu1 : uncrossed b1) by (eapply (command_uncrossed 0 c b (content b)); [by split|done|exact E]).
  apply (apply_command_kept _ _ _ _ (content b)) in E as [Hcfg [R1 Hr1]]; [|done|done].
  apply IH; [|done|by rewrite Hcfg|done|done]. by rewrite <- (rests_content _ _ (rep_rests _ _ Hr1)).
Qed.

End UncrossedCommands.
