(* ===== verification/Manager.v ===== *)
(** * Several books under one manager (manager.rs)

    The two managers differ only in the channel they hand trade events to
    and in what runs the processor, a thread or a task; both channels are
    unbounded, and one model serves both.  The listener [add_book] installs
    wraps every trade of the book in a [TradeEvent] and sends it; the
    processor receives one event after the other.  Sending cannot fail: the
    manager or its processor holds the receiver.  A book that was removed,
    and so belongs to the caller, is not followed further. *)

From S2P Require Import Prelude Types PriceLevel OrderQuantity Fees Stp Clock Cache Risk OrderState Reject SkipMap Book BookInv Matching MatchingInv MatchingSteps MatchingProps Depth Modifications ModificationsProps AddProps UpdateProps MassCancel Repricing RepricingProps Operations Replay ReplayProps.
From stdpp Require Import strings.
Local Open Scope N_scope.

Inductive ManagerError :=
| ProcessorAlreadyStarted
| BookAlreadyExists (symbol : string).

Section Manager.
Context {PA : PriceLevelApi} {WC : WallClock} {T : Type} (dflt : T).

(** The envelope of a trade (trade.rs). *)
Record TradeEvent := {
  te_symbol : string;
  te_trade_result : TradeResult;
  te_timestamp : N;
  te_engine_seq : N;
}.

Record BookManager := {
  books : gmap string OrderBook;
  (** sent and not yet received, oldest first *)
  trade_channel : list TradeEvent;
  trade_receiver : bool;
  (** history: what [process_trade_event] was called with, in order; it only
      logs *)
  processed : list TradeEvent;
}.

Definition manager_new : BookManager :=
  {| books := ∅; trade_channel := []; trade_receiver := true; processed := [] |}.

Definition start_trade_processor (m : BookManager) : Result ManagerError unit * BookManager :=
  if trade_receiver m then
    (Ok tt, {| books := books m; trade_channel := trade_channel m; trade_receiver := false;
               processed := processed m |})
  else (Err ProcessorAlreadyStarted, m).

(** One round of the processor's [while let Ok(trade_event) = receiver.recv()];
    it waits while the channel is empty. *)
Definition process_next (m : BookManager) : BookManager :=
  match trade_receiver m, trade_channel m with
  | false, e :: c =>
      {| books := books m; trade_channel := c; trade_receiver := false; processed := processed m ++ [e] |}
  | _, _ => m
  end.

(** The namespace of the new book's trade ids is random. *)
Definition add_book (sym : string) (namespace : N) (m : BookManager) : Result ManagerError unit * BookManager :=
  match books m !! sym with
  | Some _ => (Err (BookAlreadyExists sym), m)
  | None => (Ok tt, {| books := <[sym := with_trade_listener sym namespace]> (books m);
                       trade_channel := trade_channel m; trade_receiver := trade_receiver m;
                       processed := processed m |})
  end.

(** The listener of a managed book. *)
Definition forward_trade (timestamp : N) (trade_result : TradeResult) : TradeEvent :=
  {| te_symbol := tr_symbol trade_result; te_trade_result := trade_result; te_timestamp := timestamp;
     te_engine_seq := tr_engine_seq trade_result |}.

Definition trade_of_event (e : BookEvent) : option TradeResult :=
  match e with TradeEmitted tr => Some tr | LevelChanged _ _ _ _ => None end.
Definition trades_of (l : list BookEvent) : list TradeResult := omap trade_of_event l.

(** What the listener sends while the book goes from [b] to [b']; [stamp i]
    is the reading of the wall clock at its [i]-th call. *)
Definition forwarded (stamp : nat -> N) (b b' : OrderBook) : list TradeEvent :=
  imap (fun i => forward_trade (stamp i)) (trades_of (drop (length (events b)) (events b'))).

Definition get_book (sym : string) (m : BookManager) : option OrderBook := books m !! sym.
Definition has_book (sym : string) (m : BookManager) : bool := bool_decide (is_Some (books m !! sym)).
Definition book_count (m : BookManager) : nat := size (books m).
Definition symbols (m : BookManager) : gset string := dom (books m).

Definition remove_book (sym : string) (m : BookManager) : option OrderBook * BookManager :=
  (books m !! sym, {| books := delete sym (books m); trade_channel := trade_channel m;
                      trade_receiver := trade_receiver m; processed := processed m |}).

(** Every book is run and its result filed under its symbol.  The hash map
    yields the books in any order, which shows only in the order of trade
    events; the operations below emit none. *)
Definition across_books {A} (stamp : nat -> N) (op : ST OrderBook A) (m : BookManager) :
    gmap string A * BookManager :=
  ((fun b => (op b).1) <$> books m,
   {| books := (fun b => (op b).2) <$> books m;
      trade_channel := trade_channel m ++ (kv ← map_to_list (books m); forwarded stamp kv.2 (op kv.2).2);
      trade_receiver := trade_receiver m; processed := processed m |}).

Definition cancel_all_across_books (stamp : nat -> N) :
    BookManager -> gmap string MassCancelResult * BookManager :=
  across_books stamp cancel_all_orders.
Definition cancel_by_user_across_books (stamp : nat -> N) (user_id : Hash32) :
    BookManager -> gmap string MassCancelResult * BookManager :=
  across_books stamp (cancel_orders_by_user dflt user_id).
Definition cancel_by_side_across_books (stamp : nat -> N) (side : Side) :
    BookManager -> gmap string MassCancelResult * BookManager :=
  across_books stamp (cancel_orders_by_side dflt side).
Definition evict_expired_across_books (stamp : nat -> N) (now_ms : N) :
    BookManager -> gmap string (list (OrderType T)) * BookManager :=
  across_books stamp (evict_expired_orders dflt now_ms).

(** An operation on one managed book, through [get_book]. *)
Definition on_book {A} (stamp : nat -> N) (sym : string) (op : ST OrderBook A) (m : BookManager) :
    option A * BookManager :=
  match books m !! sym with
  | Some b => let '(a, b') := op b in
              (Some a, {| books := <[sym := b']> (books m);
                          trade_channel := trade_channel m ++ forwarded stamp b b';
                          trade_receiver := trade_receiver m; processed := processed m |})
  | None => (None, m)
  end.

Definition manager_evict_expired_orders (stamp : nat -> N) (sym : string) (now_ms : N) :
    BookManager -> option (list (OrderType T)) * BookManager :=
  on_book stamp sym (evict_expired_orders dflt now_ms).
End Manager.

Section ManagerProps.
Context {PA : PriceLevelApi} {PL : PriceLevelLaws} {WC : WallClock} {ID : IdDisplay} {T : Type} (dflt : T).
Implicit Types (m : BookManager) (b : OrderBook).

(** ** The system as a transition system *)

Inductive manager_step : BookManager -> BookManager -> Prop :=
| step_processor m : manager_step m (start_trade_processor m).2
| step_receive m : manager_step m (process_next m)
| step_add sym namespace m : manager_step m (add_book sym namespace m).2
| step_remove sym m : manager_step m (remove_book sym m).2
| step_command stamp sym seq c m : sane_command c ->
    manager_step m (on_book stamp sym (apply_command dflt seq c) m).2
| step_reprice_pegged stamp sym m : manager_step m (on_book stamp sym (reprice_pegged_orders dflt) m).2
| step_reprice_trailing stamp sym m : manager_step m (on_book stamp sym (reprice_trailing_stops dflt) m).2
| step_evict stamp sym now m : manager_step m (manager_evict_expired_orders dflt stamp sym now m).2
| step_cancel_all stamp m : manager_step m (cancel_all_across_books stamp m).2
| step_cancel_user stamp user m : manager_step m (cancel_by_user_across_books dflt stamp user m).2
| step_cancel_side stamp side m : manager_step m (cancel_by_side_across_books dflt stamp side m).2
| step_evict_all stamp now m : manager_step m (evict_expired_across_books dflt stamp now m).2.

(** A book filed under its own symbol, with the engine's invariant. *)
Definition book_ok (sym : string) b : Prop := symbol (book_config b) = sym /\ exists R, book_rep b R.
Definition managed m : Prop := map_Forall book_ok (books m).

(** An operation that keeps any well-formed book well formed. *)
Definition keeps {A} (op : ST OrderBook A) : Prop :=
  forall b R a b', book_rep b R -> op b = (a, b') -> well_kept b b'.

Lemma well_kept_ok sym b b' : well_kept b b' -> book_ok sym b -> book_ok sym b'.
Proof. intros [Hc Hr] [Hs _]. split; [by rewrite Hc|done]. Qed.

Lemma on_book_managed {A} stamp sym (op : ST OrderBook A) m :
  keeps op -> managed m -> managed (on_book stamp sym op m).2.
Proof.
  intros Hop Hm. unfold on_book. destruct (books m !! sym) as [b|] eqn:Hb; [|done].
  destruct (op b) as [a b'] eqn:E. intros sym' b2 H. simpl in H.
  apply lookup_insert_Some in H as [[<- <-]|[_ H]]; [|by apply Hm].
  pose proof (Hm _ _ Hb) as Hok. destruct Hok as [Hs [R Hrep]].
  eapply well_kept_ok; [by eapply Hop|]. split; [done|by exists R].
Qed.

Lemma across_managed {A} stamp (op : ST OrderBook A) m : keeps op -> managed m -> managed (across_books stamp op m).2.
Proof.
  intros Hop Hm sym b'. simpl. rewrite lookup_fmap, fmap_Some. intros (b & Hb & ->).
  destruct (Hm _ _ Hb) as [Hs [R Hrep]]. destruct (op b) as [a b1] eqn:E. simpl.
  eapply well_kept_ok; [by eapply Hop|]. split; [done|by exists R].
Qed.

Lemma keeps_evict now : keeps (evict_expired_orders dflt now).
Proof.
  intros b R a b' Hrep H. apply (evict_batch _ _ _ R) in H as (_ & l & _ & E); [|done].
  split; [apply E|]. eexists. by eapply batch_rep.
Qed.
Lemma keeps_cancel_all : keeps cancel_all_orders.
Proof. intros b R a b' Hrep H. apply (cancel_all_empties _ R) in H as (? & ? & _); [|done]. split; eauto. Qed.
Lemma keeps_cancel_user user : keeps (cancel_orders_by_user dflt user).
Proof. intros b R a b' Hrep H. apply (user_removes _ _ _ R) in H as [_ [? ? _]]; [|done]. split; eauto. Qed.
Lemma keeps_cancel_side side : keeps (cancel_orders_by_side dflt side).
Proof. intros b R a b' Hrep H. apply (side_removes _ _ _ R) in H as [_ [? ? _]]; [|done]. split; eauto. Qed.
Lemma keeps_reprice_pegged : keeps (reprice_pegged_orders dflt).
Proof. intros b R a b' Hrep H. apply (pegged_moves _ _ R) in H as (? & R' & ? & _); [|done]. split; eauto. Qed.
Lemma keeps_reprice_trailing : keeps (reprice_trailing_stops dflt).
Proof. intros b R a b' Hrep H. apply (trailing_moves _ _ R) in H as (? & R' & ? & _); [|done]. split; eauto. Qed.
Lemma keeps_command seq c : sane_command c -> keeps (apply_command dflt seq c).
Proof. intros Hc b R a b' Hrep H. by eapply apply_command_kept. Qed.

Lemma step_managed m m' : manager_step m m' -> managed m -> managed m'.
Proof.
  intros Hs Hm. destruct Hs.
  - unfold start_trade_processor. by destruct (trade_receiver m).
  - unfold process_next. by destruct (trade_receiver m), (trade_channel m).
  - unfold add_book. destruct (books m !! sym); [done|]. intros sym' b H. simpl in H.
    apply lookup_insert_Some in H as [[<- <-]|[_ H]]; [|by apply Hm].
    split; [done|]. exists ∅. by apply empty_rep.
  - intros sym' b H. simpl in H. apply lookup_delete_Some in H as [_ H]. by apply Hm.
  - apply on_book_managed; [by apply keeps_command|done].
  - apply on_book_managed; [apply keeps_reprice_pegged|done].
  - apply on_book_managed; [apply keeps_reprice_trailing|done].
  - apply on_book_managed; [apply keeps_evict|done].
  - apply across_managed; [apply keeps_cancel_all|done].
  - apply across_managed; [apply keeps_cancel_user|done].
  - apply across_managed; [apply keeps_cancel_side|done].
  - apply across_managed; [apply keeps_evict|done].
Qed.

(** C5.  Every reachable system is well formed.  Starting from an empty
    manager, after any sequence of adding and removing books, commands on a
    book (submit, market, cancel, modify, mass cancel, expiry), re-pricing
    passes and operations across all books, every managed book is filed
    under its own symbol and satisfies the engine's invariant.  One modify is
    excepted: an in-place re-size of a resting order to the quantity zero
    ([sane_command] asks for a positive one).  What the level does with it is
    the price-level library's affair, and the engine takes the id out of its
    index only if the level has become empty. *)
Theorem reachable_books_ok m :
  rtc manager_step manager_new m ->
  forall sym b, get_book sym m = Some b ->
    symbol (book_config b) = sym /\ book_rep b (content b).
Proof.
  intros Hr sym b Hb.
  assert (Hm : managed m).
  { assert (H0 : managed manager_new) by (by intros ? ? ?).
    revert H0. induction Hr as [|m1 m2 m3 Hs _ IH]; [done|]. intros H0. by apply IH, (step_managed m1). }
  destruct (Hm _ _ Hb) as [Hs [R Hrep]]. split; [done|].
  by rewrite <- (rests_content b R (rep_rests _ _ Hrep)).
Qed.

(** Cancelling a user across books is exact.  One result is reported
    per managed symbol; in every book the orders cancelled are exactly the
    user's, which are gone afterwards, and the orders of everyone else are
    where they were. *)
Theorem cancel_by_user_across_exact stamp user m results m' :
  managed m -> cancel_by_user_across_books dflt stamp user m = (results, m') ->
  dom results = symbols m /\ symbols m' = symbols m /\
  forall sym b, get_book sym m = Some b -> exists res b',
    results !! sym = Some res /\ get_book sym m' = Some b' /\
    (forall id, id ∈ cancelled_order_ids res <-> exists loc, content b !! id = Some (loc, user)) /\
    content b' = filter (fun kv => kv.2.2 <> user) (content b).
Proof.
  intros Hm [= <- <-]. unfold symbols, get_book. simpl. rewrite !dom_fmap_L. split_and!; [done..|].
  intros sym b Hb. rewrite !lookup_fmap, Hb. destruct (Hm _ _ Hb) as [_ [R Hrep]].
  destruct (cancel_orders_by_user dflt user b) as [res b'] eqn:E. exists res, b'. simpl. rewrite E. split_and!; [done|done|..].
  all: apply (user_removes _ _ _ R) in E as [Hids [Hrep' _ _]]; [|done].
  all: pose proof (fun id => user_elem b R user id Hrep) as Hel; rewrite <- Hids in Hel.
  all: rewrite <- (rests_content b R (rep_rests _ _ Hrep)).
  - done.
  - rewrite <- (rests_content b' _ (rep_rests _ _ Hrep')). apply drop_ids_filter.
    intros id [loc u] HR. simpl. rewrite Hel, HR. split; [naive_solver|]. intros ->%dec_stable. eauto.
Qed.
End ManagerProps.
