(* ===== verification/ManagerChannel.v ===== *)
(** * The trade channel of the manager (manager.rs)

    The trades of all managed books go through one channel to one processor.
    What the processor has received and what still waits is, book by book,
    what the books emitted, those removed meanwhile included: the append-only
    event streams of the books make it so.  [manager_history] is a reachable
    system with the record of the books that were removed on the way. *)

From S2P Require Import Prelude Types PriceLevel OrderQuantity Fees Stp Clock Cache Risk OrderState Reject SkipMap Book BookInv Matching MatchingInv Depth Modifications ModificationsProps MassCancel Repricing Operations Replay ReplayProps EventStream Manager.
From stdpp Require Import strings.
Local Open Scope N_scope.

(** ** Cancelling emits no trade *)

Section Tradeless.
Context {PA : PriceLevelApi} {WC : WallClock} {T : Type} (dflt : T).

Definition tradeless (b b' : OrderBook) : Prop :=
  book_config b' = book_config b /\ exists l, events b' = events b ++ l /\ trades_of l = [].

#[global] Instance tradeless_preorder : PreOrder tradeless.
Proof.
  split.
  - intros b. split; [done|]. exists []. by rewrite app_nil_r.
  - intros b1 b2 b3 [Hc1 (l1 & E1 & H1)] [Hc2 (l2 & E2 & H2)]. split; [congruence|].
    exists (l1 ++ l2). rewrite E2, E1, app_assoc. split; [done|]. unfold trades_of in *.
    by rewrite omap_app, H1, H2.
Qed.

Lemma tradeless_same b b' : events b' = events b -> book_config b' = book_config b -> tradeless b b'.
Proof. intros He Hc. split; [done|]. exists []. by rewrite app_nil_r. Qed.

Lemma tradeless_level s p q seq b : tradeless b (push_event (LevelChanged s p q seq) b).
Proof. split; [done|]. by exists [LevelChanged s p q seq]. Qed.

#[local] Hint Extern 1 (tradeless ?b _) => (apply tradeless_same; reflexivity) : runs.
#[local] Hint Resolve tradeless_level : runs.

Lemma tradeless_next_seq : runs_in tradeless next_engine_seq.
Proof. intros b. by apply tradeless_same. Qed.
#[local] Hint Resolve tradeless_next_seq : runs.
Lemma tradeless_notify s lv : runs_in tradeless (notify_level s lv).
Proof. unfold notify_level. runs. Qed.
#[local] Hint Resolve tradeless_notify : runs.
Lemma tradeless_cancel id r : runs_in tradeless (cancel_order_with_reason dflt id r).
Proof. unfold cancel_order_with_reason. runs. Qed.
#[local] Hint Resolve tradeless_cancel : runs.
Lemma tradeless_cancel_each ids r : runs_in tradeless (cancel_each dflt ids r).
Proof. induction ids; simpl; runs. Qed.
#[local] Hint Resolve tradeless_cancel_each : runs.

Lemma tradeless_cancel_all : runs_in tradeless cancel_all_orders.
Proof. unfold cancel_all_orders, announce_empty. runs. Qed.
Lemma tradeless_user user : runs_in tradeless (cancel_orders_by_user dflt user).
Proof. unfold cancel_orders_by_user, cancel_order_batch_with_reason. runs. Qed.
Lemma tradeless_side side : runs_in tradeless (cancel_orders_by_side dflt side).
Proof. unfold cancel_orders_by_side, cancel_order_batch_with_reason. runs. Qed.
Lemma tradeless_evict now : runs_in tradeless (evict_expired_orders dflt now).
Proof. unfold evict_expired_orders. runs. Qed.
End Tradeless.

(** ** What went through the channel *)

Section Channel.
Context {PA : PriceLevelApi} {PL : PriceLevelLaws} {WC : WallClock} {ID : IdDisplay} {T : Type} (dflt : T).
Implicit Types (m : BookManager) (b : OrderBook).

(** Everything ever sent, in the order of sending. *)
Definition sent m : list TradeEvent := processed m ++ trade_channel m.

Definition of_symbol (sym : string) (l : list TradeEvent) : list TradeResult :=
  te_trade_result <$> filter (fun e => te_symbol e = sym) l.

(** The envelope repeats what the trade says. *)
Definition envelope (e : TradeEvent) : Prop :=
  te_symbol e = tr_symbol (te_trade_result e) /\ te_engine_seq e = tr_engine_seq (te_trade_result e).

(** The books that are managed in [m] and no longer in [m']. *)
Definition gone m m' : list (string * OrderBook) :=
  map_to_list (filter (fun kv => get_book kv.1 m' = None) (books m)).

(** A reachable system, with the books removed so far, the first one first. *)
Inductive manager_history : list (string * OrderBook) -> BookManager -> Prop :=
| history_new : manager_history [] manager_new
| history_step removed m m' : manager_history removed m -> manager_step dflt m m' ->
    manager_history (removed ++ gone m m') m'.

(** The trades the removed books of a symbol had emitted when they left. *)
Definition removed_trades (sym : string) (removed : list (string * OrderBook)) : list TradeResult :=
  x ← filter (fun x => x.1 = sym) removed; trades_of (events x.2).

(** The trades the book of a symbol, if it is managed, has emitted. *)
Definition book_trades (sym : string) m : list TradeResult :=
  match get_book sym m with Some b => trades_of (events b) | None => [] end.

Record channel_ok (removed : list (string * OrderBook)) m : Prop := {
  co_envelope : Forall envelope (sent m);
  co_symbol : forall sym b, books m !! sym = Some b -> symbol (book_config b) = sym;
  co_sent : forall sym, of_symbol sym (sent m) = removed_trades sym removed ++ book_trades sym m;
  co_receiver : trade_receiver m = true -> processed m = [];
}.

Lemma of_symbol_app sym l1 l2 : of_symbol sym (l1 ++ l2) = of_symbol sym l1 ++ of_symbol sym l2.
Proof. unfold of_symbol. by rewrite filter_app, fmap_app. Qed.

Lemma forward_envelope stamp b b' : Forall envelope (forwarded stamp b b').
Proof.
  apply Forall_lookup. intros i e. unfold forwarded. rewrite list_lookup_imap, fmap_Some.
  intros (tr & _ & ->). done.
Qed.

(** The events of an operation on a book go out under the book's symbol, and
    are its new trades. *)
Lemma forwarded_symbol stamp b b' l sym : events b' = events b ++ l -> Forall (heard (book_config b)) l ->
  of_symbol sym (forwarded stamp b b') = if decide (symbol (book_config b) = sym) then trades_of l else [].
Proof.
  intros He Hh. unfold forwarded. rewrite He, drop_app_length.
  assert (Ht : Forall (fun tr => tr_symbol tr = symbol (book_config b)) (trades_of l)).
  { clear He. induction Hh as [|[|tr] l He Hl IH]; [constructor|done|]. constructor; [apply He|done]. }
  clear He Hh. revert stamp. induction Ht as [|tr trs Htr _ IH]; intros stamp; [by case_decide|].
  change (imap (fun i => forward_trade (stamp i)) (tr :: trs)) with
    ([forward_trade (stamp 0%nat) tr] ++ imap (fun i => forward_trade (stamp (S i))) trs).
  rewrite of_symbol_app, (IH (fun i => stamp (S i))). unfold of_symbol. rewrite filter_cons. simpl.
  rewrite Htr. by repeat case_decide.
Qed.

Lemma on_book_channel {A} removed stamp sym (op : ST OrderBook A) m :
  runs_in streams op -> channel_ok removed m -> channel_ok removed (on_book stamp sym op m).2.
Proof.
  intros Hop Hm. unfold on_book. destruct (books m !! sym) as [b|] eqn:Hb; [|done].
  destruct (op b) as [a b'] eqn:E. apply (runs_in_inv streams) in E as [Hc (k & l & He & Hl)]; [|done].
  apply emits_heard in Hl. pose proof (co_symbol _ _ Hm _ _ Hb) as Hs. split; simpl; [..|apply Hm].
  - unfold sent. simpl. rewrite app_assoc. apply Forall_app. split; [apply Hm|apply forward_envelope].
  - intros sym' b2 [[<- <-]|[_ H]]%lookup_insert_Some; [congruence|by eapply co_symbol].
  - intros sym'. unfold sent. simpl. rewrite app_assoc, of_symbol_app.
    pose proof (co_sent _ _ Hm sym') as Hx. unfold sent in Hx. rewrite Hx.
    rewrite (forwarded_symbol _ _ _ _ _ He Hl), Hs, <- app_assoc. f_equal. unfold book_trades, get_book. simpl.
    destruct (decide (sym = sym')) as [<-|Hne].
    + rewrite lookup_insert_eq, Hb, He. unfold trades_of. by rewrite omap_app.
    + by rewrite lookup_insert_ne, app_nil_r.
Qed.

Lemma across_channel {A} removed stamp (op : ST OrderBook A) m :
  runs_in tradeless op -> channel_ok removed m -> channel_ok removed (across_books stamp op m).2.
Proof.
  intros Hop Hm.
  assert (Hnone : forall b, forwarded stamp b (op b).2 = []).
  { intros b. destruct (Hop b) as [_ (l & He & Hl)]. unfold forwarded. by rewrite He, drop_app_length, Hl. }
  assert (Hs : sent (across_books stamp op m).2 = sent m).
  { unfold sent. simpl. rewrite <- (app_nil_r (trade_channel m)) at 2. do 2 f_equal.
    induction (map_to_list (books m)) as [|kv l IH]; [done|]. csimpl. by rewrite Hnone. }
  split; rewrite ?Hs; [apply Hm| | |apply Hm].
  - intros sym b'. simpl. rewrite lookup_fmap, fmap_Some. intros (b & Hb & ->).
    destruct (Hop b) as [Hc _]. rewrite Hc. by eapply co_symbol.
  - intros sym. rewrite (co_sent _ _ Hm). f_equal. unfold book_trades, get_book. simpl. rewrite lookup_fmap.
    destruct (books m !! sym) as [b|]; [|done]. simpl. destruct (Hop b) as [_ (l & He & Hl)].
    unfold trades_of in *. by rewrite He, omap_app, Hl, app_nil_r.
Qed.

(** A manager with the same books and the same channel. *)
Lemma channel_ok_same removed m m' :
  sent m' = sent m -> (trade_receiver m' = true -> trade_receiver m = true /\ processed m' = processed m) ->
  books m' = books m -> channel_ok removed m -> channel_ok removed m'.
Proof.
  intros Hs Hr Hb Hm. split; rewrite ?Hs, ?Hb; [apply Hm|apply Hm| |].
  - intros sym. rewrite (co_sent _ _ Hm). unfold book_trades, get_book. by rewrite Hb.
  - intros H. destruct (Hr H) as [H1 ->]. by apply (co_receiver _ _ Hm).
Qed.

(** A step that drops no book. *)
Lemma gone_none m m' : (forall sym, get_book sym m' = None -> get_book sym m = None) -> gone m m' = [].
Proof.
  intros Hd. unfold gone. apply map_to_list_empty_iff. apply map_empty. intros sym.
  apply eq_None_not_Some. intros [b [Hb Hn]%map_lookup_filter_Some]. apply Hd in Hn. simpl in Hn.
  unfold get_book in Hn. congruence.
Qed.

Lemma channel_ok_kept removed m m' :
  (forall sym, get_book sym m' = None -> get_book sym m = None) ->
  channel_ok removed m' -> channel_ok (removed ++ gone m m') m'.
Proof. intros Hd. by rewrite gone_none, app_nil_r. Qed.

Lemma gone_removed sym m b : books m !! sym = Some b -> gone m (remove_book sym m).2 = [(sym, b)].
Proof.
  intros Hb. unfold gone, remove_book, get_book. simpl. rewrite <- (map_to_list_singleton sym b). f_equal.
  apply map_eq. intros sym'. apply option_eq. intros b'.
  rewrite map_lookup_filter_Some, lookup_singleton_Some. simpl. rewrite lookup_delete_None. naive_solver.
Qed.

Lemma remove_channel removed sym m : channel_ok removed m ->
  channel_ok (removed ++ gone m (remove_book sym m).2) (remove_book sym m).2.
Proof.
  intros Hm. destruct (books m !! sym) as [b|] eqn:Hb.
  - rewrite (gone_removed _ _ _ Hb). split; simpl; [apply Hm| | |apply Hm].
    + intros sym' b' [_ H]%lookup_delete_Some. by eapply co_symbol.
    + intros sym'. change (sent (remove_book sym m).2) with (sent m). rewrite (co_sent _ _ Hm).
      unfold removed_trades, book_trades, get_book. simpl. rewrite filter_app, bind_app.
      destruct (decide (sym = sym')) as [<-|Hne].
      * rewrite Hb, lookup_delete_eq, app_nil_r. f_equal. rewrite filter_cons_True by done. csimpl.
        by rewrite app_nil_r.
      * rewrite lookup_delete_ne by done. rewrite filter_cons_False, filter_nil by done. csimpl. by rewrite app_nil_r.
  - assert (E : (remove_book sym m).2 = m).
    { unfold remove_book. simpl. rewrite delete_id by done. by destruct m. }
    rewrite E. by apply channel_ok_kept.
Qed.

Lemma on_book_kept {A} stamp sym (op : ST OrderBook A) m sym' :
  get_book sym' (on_book stamp sym op m).2 = None -> get_book sym' m = None.
Proof.
  unfold on_book, get_book. destruct (books m !! sym) as [b|] eqn:Hb; [|done].
  destruct (op b) as [a b']. simpl. by intros [? _]%lookup_insert_None.
Qed.

Lemma across_kept {A} stamp (op : ST OrderBook A) m sym' :
  get_book sym' (across_books stamp op m).2 = None -> get_book sym' m = None.
Proof. unfold get_book. simpl. by rewrite lookup_fmap, fmap_None. Qed.

Lemma step_channel removed m m' : manager_step dflt m m' -> channel_ok removed m ->
  channel_ok (removed ++ gone m m') m'.
Proof.
  intros Hs Hm. destruct Hs.
  - unfold start_trade_processor. destruct (trade_receiver m) eqn:E; [|by apply channel_ok_kept].
    apply channel_ok_kept; [done|]. by apply (channel_ok_same _ m).
  - unfold process_next. destruct (trade_receiver m), (trade_channel m) as [|e c] eqn:E; [by apply channel_ok_kept..|].
    apply channel_ok_kept; [done|]. apply (channel_ok_same _ m); [|done..]. unfold sent. rewrite E. simpl.
    by rewrite <- app_assoc.
  - unfold add_book. destruct (books m !! sym) eqn:E; [by apply channel_ok_kept|].
    apply channel_ok_kept; [intros sym'; unfold get_book; simpl; by intros [? _]%lookup_insert_None|].
    split; simpl; [apply Hm| | |apply Hm].
    + intros sym' b [[<- <-]|[_ H]]%lookup_insert_Some; [done|by eapply co_symbol].
    + intros sym'. etransitivity; [apply (co_sent _ _ Hm)|]. f_equal. unfold book_trades, get_book. simpl.
      destruct (decide (sym = sym')) as [<-|Hne]; [by rewrite E, lookup_insert_eq|by rewrite lookup_insert_ne].
  - by apply remove_channel.
  - apply channel_ok_kept; [apply on_book_kept|]. apply on_book_channel; [apply streams_command|done].
  - apply channel_ok_kept; [apply on_book_kept|]. apply on_book_channel; [apply streams_pegged|done].
  - apply channel_ok_kept; [apply on_book_kept|]. apply on_book_channel; [apply streams_trailing|done].
  - apply channel_ok_kept; [apply on_book_kept|]. apply on_book_channel; [apply streams_evict|done].
  - apply channel_ok_kept; [apply across_kept|]. apply across_channel; [apply tradeless_cancel_all|done].
  - apply channel_ok_kept; [apply across_kept|]. apply across_channel; [apply tradeless_user|done].
  - apply channel_ok_kept; [apply across_kept|]. apply across_channel; [apply tradeless_side|done].
  - apply channel_ok_kept; [apply across_kept|]. apply across_channel; [apply tradeless_evict|done].
Qed.

(** As many rounds as events wait hand over all of them. *)
Lemma process_all c : forall m, trade_receiver m = false -> trade_channel m = c ->
  processed (Nat.iter (length c) process_next m) = processed m ++ c /\
  trade_channel (Nat.iter (length c) process_next m) = [].
Proof.
  induction c as [|e c IH]; intros m Hr Hc; [by rewrite app_nil_r|].
  simpl length. rewrite Nat.iter_succ_r. unfold process_next at 2. unfold process_next at 3. rewrite Hr, Hc.
  match goal with |- context [Nat.iter _ _ ?m'] => destruct (IH m' eq_refl eq_refl) as [H1 H2] end.
  rewrite H1, H2. simpl. by rewrite <- app_assoc.
Qed.

Lemma history_steps removed m m' : manager_history removed m -> rtc (manager_step dflt) m m' ->
  exists removed', manager_history removed' m'.
Proof.
  intros Hh Hr. revert removed Hh. induction Hr as [m|m1 m2 m3 Hs _ IH]; intros removed Hh; [by exists removed|].
  eapply IH. by eapply history_step.
Qed.

(** C12.  The trade channel loses, invents and reorders nothing.  Take any
    system reached from the empty manager, with the record of the books that
    were removed on the way.  For every symbol, managed or not, what the
    processor has received and what waits in the channel is exactly the
    trades of the removed books of that symbol, in the order of their removal,
    followed by the trades the managed book of that symbol has emitted, each
    book's in the order it emitted them; every envelope carries its trade's
    symbol and engine sequence.  Before the processor is started nothing is
    received; once it is, as many receives as events wait deliver all of them
    in order. *)
Theorem trade_channel_exact removed m :
  manager_history removed m ->
  (forall sym, of_symbol sym (processed m ++ trade_channel m) =
     removed_trades sym removed ++ book_trades sym m) /\
  Forall envelope (processed m ++ trade_channel m) /\
  (trade_receiver m = true -> processed m = []) /\
  (trade_receiver m = false ->
     let m' := Nat.iter (length (trade_channel m)) process_next m in
     processed m' = processed m ++ trade_channel m /\ trade_channel m' = []).
Proof.
  intros Hh.
  assert (Hm : channel_ok removed m).
  { induction Hh as [|removed m m' _ IH Hs]; [by split; [constructor|..]|by apply step_channel]. }
  split_and!; [apply Hm|apply Hm|apply Hm|intros Hp; by apply process_all].
Qed.
End Channel.
