(* ===== verification/FileJournal.v ===== *)
(** * The file journal (sequencer/file_journal.rs)

    Segment files, the entry format, appending with rotation, reading across
    segments, the scans a reopen does and the integrity check.  A directory
    is the finite map from the start sequence in a segment's file name to
    the file's bytes; a memory map shows the file itself.  File system
    errors and poisoned locks are not modelled, nor file names that do not
    come from [segment_path].  [serde_json] and [crc32fast] are the class
    [JournalCodec].  A slice has at most [isize::MAX] bytes, so the checked
    additions of a 32-bit length to an offset in it always succeed and are
    written as plain additions. *)

From S2P Require Import Prelude Types PriceLevel OrderQuantity Fees Stp Clock Cache Risk OrderState Reject SkipMap Book WireFraming Matching Modifications MassCancel Operations Replay.
From stdpp Require Import strings.
Local Open Scope N_scope.

Definition ENTRY_HEADER_SIZE : N := 4 + 8 + 8.
Definition ENTRY_CRC_SIZE : N := 4.
Definition DEFAULT_SEGMENT_SIZE : N := 256 * 1024 * 1024.

Definition lenN {A} (l : list A) : N := N.of_nat (length l).

(** [data.get(lo..hi)] *)
Definition bget (data : list N) (lo hi : N) : option (list N) :=
  if (lo <=? hi) && (hi <=? lenN data) then Some (take (N.to_nat (hi - lo)) (drop (N.to_nat lo) data))
  else None.

Class JournalCodec (E : Type) := {
  to_vec : E -> Result string (list N);
  from_slice : list N -> Result string E;
  crc32 : list N -> N;
}.

(** What the journal relies on: the serializer round-trips and the checksum
    is a [u32]. *)
Class JournalCodecLaws (E : Type) {C : JournalCodec E} := {
  from_slice_to_vec : forall e bytes, to_vec e = Ok bytes -> from_slice bytes = Ok e;
  crc32_u32 : forall bytes, crc32 bytes <= U32_MAX;
}.

(** ** The state *)

Record FileJournal := {
  dir : gmap N (list N);
  archived : gmap N (list N);
  (** the [SegmentWriter] *)
  writer_path : N;
  write_pos : N;
  capacity : N;
  segment_size : N;
  segment_start_seq : N;
  last_seq : option N;
}.

Definition segment_bytes (start_seq : N) (d : gmap N (list N)) : list N := default [] (d !! start_seq).
(** [list_segments], then [sort]. *)
Definition list_segments (d : gmap N (list N)) : list N := (sm_iter d).*1.

Section FileJournal.
Context {PA : PriceLevelApi} {T : Type} {C : JournalCodec (SequencerEvent T)}.
Implicit Types (j : FileJournal) (data : list N).

Record JournalEntry := { je_event : SequencerEvent T; je_stored_crc : N }.

(** ** Entries *)

Definition encode_entry (event : SequencerEvent T) : Result JournalError (list N) :=
  match to_vec event with
  | Err message => Err (SerializationError message)
  | Ok payload =>
      let payload_len := lenN payload in
      match checked_add U32_MAX 16 (payload_len mod (U32_MAX + 1)) ≫= fun v => checked_add U32_MAX v 4 with
      | None => Err (SerializationError "entry size overflow")
      | Some entry_length =>
          let body := to_le_bytes 8 (sequence_num event) ++ to_le_bytes 8 (timestamp_ns event) ++ payload in
          Ok (to_le_bytes 4 entry_length ++ body ++ to_le_bytes 4 (crc32 body))
      end
  end.

Definition entry_crc_valid data (offset entry_end : N) : bool :=
  match checked_sub entry_end ENTRY_CRC_SIZE with
  | None => false
  | Some crc_start =>
      let payload_start := offset + 4 in
      if (crc_start <? payload_start) || (lenN data <? entry_end) then false
      else
        match bget data crc_start entry_end, bget data payload_start crc_start with
        | Some crc_bytes, Some checksummed => crc32 checksummed =? from_le_bytes crc_bytes
        | _, _ => false
        end
  end.

(** ** Scans of a reopened segment

    Every iteration advances by at least five bytes, so the length of the
    data is enough fuel. *)

Fixpoint scan_write (fuel : nat) data (cap offset : N) : N :=
  match fuel with
  | O => offset
  | S fuel' =>
      if (cap <? offset + 4) || (lenN data <? offset + 4) then offset
      else
        match bget data offset (offset + 4) with
        | None => offset
        | Some el_bytes =>
            let entry_length := from_le_bytes el_bytes in
            if entry_length =? 0 then offset
            else
              let entry_end := offset + 4 + entry_length in
              if (entry_end <=? cap) && (entry_end <=? lenN data) then
                if entry_crc_valid data offset entry_end then scan_write fuel' data cap entry_end
                else offset
              else offset
        end
  end.
Definition scan_write_position data (cap : N) : N := scan_write (S (length data)) data cap 0.

(** [None] inside is the function's early return through [?]. *)
Fixpoint scan_last (fuel : nat) data (wpos offset : N) (last : option N) : option N :=
  match fuel with
  | O => last
  | S fuel' =>
      if offset + ENTRY_HEADER_SIZE <=? wpos then
        match bget data offset (offset + 4) with
        | None => None
        | Some el_bytes =>
            let entry_length := from_le_bytes el_bytes in
            if entry_length =? 0 then last
            else
              let entry_end := offset + 4 + entry_length in
              if wpos <? entry_end then last
              else
                match bget data (offset + 4) (offset + 4 + 8) with
                | None => None
                | Some seq_bytes => scan_last fuel' data wpos entry_end (Some (from_le_bytes seq_bytes))
                end
        end
      else last
  end.
Definition scan_last_sequence data (wpos : N) : option N := scan_last (S (length data)) data wpos 0 None.

(** ** Opening *)

Definition segment_create (path cap : N) (d : gmap N (list N)) : gmap N (list N) :=
  <[path := replicate (N.to_nat cap) 0]> d.

Definition open_with_segment_size (d arch : gmap N (list N)) (size : N) : FileJournal :=
  match last (list_segments d) with
  | Some latest =>
      let data := segment_bytes latest d in
      let cap := lenN data in
      let wpos := scan_write_position data cap in
      {| dir := d; archived := arch; writer_path := latest; write_pos := wpos; capacity := cap;
         segment_size := size; segment_start_seq := latest; last_seq := scan_last_sequence data wpos |}
  | None =>
      {| dir := segment_create 0 size d; archived := arch; writer_path := 0; write_pos := 0; capacity := size;
         segment_size := size; segment_start_seq := 0; last_seq := None |}
  end.
Definition open (d arch : gmap N (list N)) : FileJournal := open_with_segment_size d arch DEFAULT_SEGMENT_SIZE.

(** ** Appending *)

Definition remaining j : N := sat_sub (capacity j) (write_pos j).

Definition write_entry (entry_bytes : list N) : ST FileJournal (Result JournalError unit) := fun j =>
  let end_ := write_pos j + lenN entry_bytes in
  if capacity j <? end_ then (Err (EntryTooLarge (lenN entry_bytes) (capacity j)), j)
  else
    let data := segment_bytes (writer_path j) (dir j) in
    let data' := take (N.to_nat (write_pos j)) data ++ entry_bytes ++ drop (N.to_nat end_) data in
    (Ok tt, {| dir := <[writer_path j := data']> (dir j); archived := archived j;
               writer_path := writer_path j; write_pos := end_; capacity := capacity j;
               segment_size := segment_size j; segment_start_seq := segment_start_seq j;
               last_seq := last_seq j |}).

Definition rotate_segment (start_seq : N) j : FileJournal :=
  {| dir := segment_create start_seq (segment_size j) (dir j); archived := archived j;
     writer_path := start_seq; write_pos := 0; capacity := segment_size j;
     segment_size := segment_size j; segment_start_seq := start_seq; last_seq := last_seq j |}.

Definition set_last_seq (seq : N) j : FileJournal :=
  {| dir := dir j; archived := archived j; writer_path := writer_path j; write_pos := write_pos j;
     capacity := capacity j; segment_size := segment_size j; segment_start_seq := segment_start_seq j;
     last_seq := Some seq |}.

Definition fj_append (event : SequencerEvent T) : ST FileJournal (Result JournalError unit) :=
  let? entry_bytes := sret (encode_entry event) in
  let! room := sget remaining in
  do! (if room <? lenN entry_bytes then smod (rotate_segment (sequence_num event)) else sret tt) in
  let! room := sget remaining in
  if room <? lenN entry_bytes then
    let! size := sget segment_size in sret (Err (EntryTooLarge (lenN entry_bytes) size))
  else
    let? _ := write_entry entry_bytes in
    do! smod (set_last_seq (sequence_num event)) in
    sret (Ok tt).

(** ** Reading *)

(** [decode_next] at an offset of the mapped data: the item and the offset
    after it, or the end of the segment. *)
Definition decode_next data (offset : N) : option (Result JournalError JournalEntry * N) :=
  if lenN data <? offset + ENTRY_HEADER_SIZE then None
  else
    match bget data offset (offset + 4) with
    | None => None
    | Some el_bytes =>
        let entry_length := from_le_bytes el_bytes in
        if entry_length =? 0 then None
        else
          let entry_end := offset + 4 + entry_length in
          if lenN data <? entry_end then None
          else
            let payload_start := offset + 4 in
            match checked_sub entry_end ENTRY_CRC_SIZE with
            | None => None
            | Some crc_start =>
                match bget data crc_start entry_end, bget data payload_start crc_start with
                | Some crc_bytes, Some checksummed =>
                    let stored_crc := from_le_bytes crc_bytes in
                    let computed_crc := crc32 checksummed in
                    match bget data payload_start (payload_start + 8) with
                    | None => None
                    | Some seq_bytes =>
                        let seq := from_le_bytes seq_bytes in
                        if negb (stored_crc =? computed_crc) then
                          Some (Err (CorruptEntry seq stored_crc computed_crc), entry_end)
                        else
                          match bget data (payload_start + 16) crc_start with
                          | None => None
                          | Some json_data =>
                              match from_slice json_data with
                              | Ok event =>
                                  Some (Ok {| je_event := event; je_stored_crc := stored_crc |}, entry_end)
                              | Err message => Some (Err (DeserializationError seq message), entry_end)
                              end
                          end
                    end
                | _, _ => None
                end
            end
    end.

(** The items [decode_next] yields until the segment is exhausted. *)
Fixpoint segment_items (fuel : nat) data (offset : N) : list (Result JournalError JournalEntry) :=
  match fuel with
  | O => []
  | S fuel' =>
      match decode_next data offset with
      | None => []
      | Some (item, offset') => item :: segment_items fuel' data offset'
      end
  end.

(** [next] skips the entries before the start and passes errors on. *)
Definition wanted (start_sequence : N) (item : Result JournalError JournalEntry) : bool :=
  match item with
  | Ok entry => negb (sequence_num (je_event entry) <? start_sequence)
  | Err _ => true
  end.

(** [binary_search]: the position, or else the insertion point less one. *)
Definition start_idx (segments : list N) (sequence : N) : nat :=
  let idx := length (filter (fun s => s < sequence) segments) in
  if decide (segments !! idx = Some sequence) then idx else Nat.pred idx.

Definition fj_entries j (sequence : N) : list (Result JournalError JournalEntry) :=
  let segments := list_segments (dir j) in
  let segments_from := drop (start_idx segments sequence) segments in
  filter (fun item => Is_true (wanted sequence item))
    (mjoin ((fun s => let data := segment_bytes s (dir j) in segment_items (S (length data)) data 0)
              <$> segments_from)).

#[export] Instance file_journal : Journal (SequencerEvent T) FileJournal := {|
  read_from j sequence := Ok (result_map je_event <$> fj_entries j sequence);
  last_sequence j := last_seq j;
|}.

(** ** Integrity *)

Fixpoint verify_data (fuel : nat) data (offset : N) : Result JournalError unit :=
  match fuel with
  | O => Ok tt
  | S fuel' =>
      if offset + ENTRY_HEADER_SIZE <=? lenN data then
        match bget data offset (offset + 4) with
        | None => Err (InvalidEntryHeader offset "truncated entry_length")
        | Some el_bytes =>
            let entry_length := from_le_bytes el_bytes in
            if entry_length =? 0 then Ok tt
            else
              let entry_end := offset + 4 + entry_length in
              if lenN data <? entry_end then
                Err (InvalidEntryHeader offset "truncated entry (extends beyond segment data)")
              else
                match checked_sub entry_end ENTRY_CRC_SIZE with
                | None => Err (InvalidEntryHeader offset "entry too small for CRC")
                | Some crc_start =>
                    let payload_start := offset + 4 in
                    match bget data crc_start entry_end with
                    | None => Err (InvalidEntryHeader offset "truncated CRC")
                    | Some crc_bytes =>
                        let stored_crc := from_le_bytes crc_bytes in
                        match bget data payload_start crc_start with
                        | None => Err (InvalidEntryHeader offset "truncated payload")
                        | Some checksummed =>
                            let computed_crc := crc32 checksummed in
                            if negb (stored_crc =? computed_crc) then
                              match bget data payload_start (payload_start + 8) with
                              | None => Err (InvalidEntryHeader offset "truncated sequence_num")
                              | Some seq_bytes =>
                                  Err (CorruptEntry (from_le_bytes seq_bytes) stored_crc computed_crc)
                              end
                            else verify_data fuel' data entry_end
                        end
                    end
                end
        end
      else Ok tt
  end.

Fixpoint verify_segments (segments : list (N * list N)) : Result JournalError unit :=
  match segments with
  | [] => Ok tt
  | (_, data) :: segments' =>
      match verify_data (S (length data)) data 0 with
      | Ok _ => verify_segments segments'
      | Err e => Err e
      end
  end.
Definition verify_integrity j : Result JournalError unit := verify_segments (sm_iter (dir j)).

(** ** Archiving *)

Definition archivable (before_sequence active start_seq : N) : Prop :=
  start_seq < before_sequence /\ start_seq <> active.
#[export] Instance archivable_dec b a s : Decision (archivable b a s).
Proof. unfold archivable. apply _. Defined.

Definition archive_segments_before (before_sequence : N) j : Result JournalError N * FileJournal :=
  let chosen := filter (archivable before_sequence (segment_start_seq j)) (list_segments (dir j)) in
  (Ok (lenN chosen),
   {| dir := filter (fun kv => ~ archivable before_sequence (segment_start_seq j) kv.1) (dir j);
      archived := filter (fun kv => archivable before_sequence (segment_start_seq j) kv.1) (dir j)
                    ∪ archived j;
      writer_path := writer_path j; write_pos := write_pos j; capacity := capacity j;
      segment_size := segment_size j; segment_start_seq := segment_start_seq j; last_seq := last_seq j |}).
End FileJournal.
