(* ===== verification/FileJournalProps.v ===== *)
(** * Properties of the file journal

    The file journal against the in-memory one: what is appended is read
    back, across segments and across a reopen, and a torn tail is cut off. *)

From S2P Require Import Prelude Types PriceLevel OrderQuantity Fees Stp Clock Cache Risk OrderState Reject SkipMap Book WireFraming Matching Modifications MassCancel Operations Replay FileJournal.
From stdpp Require Import sorting strings.
Local Open Scope N_scope.

(** ** Slices *)

Lemma lenN_app {A} (l k : list A) : lenN (l ++ k) = lenN l + lenN k.
Proof. unfold lenN. rewrite length_app. lia. Qed.

Lemma lenN_le_bytes k n : lenN (to_le_bytes k n) = N.of_nat k.
Proof. unfold lenN. by rewrite length_to_le. Qed.

Lemma bget_at (data pre mid post : list N) lo hi :
  data = pre ++ mid ++ post -> lo = lenN pre -> hi = lenN pre + lenN mid -> bget data lo hi = Some mid.
Proof.
  intros -> -> ->. unfold bget. rewrite (proj2 (N.leb_le _ _)) by lia.
  rewrite (proj2 (N.leb_le _ _)) by (rewrite !lenN_app; lia). simpl. f_equal.
  replace (lenN pre + lenN mid - lenN pre) with (lenN mid) by lia. unfold lenN. rewrite !Nat2N.id.
  by rewrite drop_app_length, take_app_length.
Qed.

Lemma bget_shift (pre data : list N) lo hi :
  bget (pre ++ data) (lenN pre + lo) (lenN pre + hi) = bget data lo hi.
Proof.
  unfold bget. rewrite lenN_app.
  destruct (N.leb_spec lo hi), (N.leb_spec hi (lenN data)),
    (N.leb_spec (lenN pre + lo) (lenN pre + hi)), (N.leb_spec (lenN pre + hi) (lenN pre + lenN data));
    try lia; try done. simpl. f_equal.
  replace (lenN pre + hi - (lenN pre + lo)) with (hi - lo) by lia. f_equal.
  unfold lenN. rewrite N2Nat.inj_add, Nat2N.id, drop_app_add. done.
Qed.

(** ** Entries *)

Section Entries.
Context {PA : PriceLevelApi} {T : Type} {C : JournalCodec (SequencerEvent T)} {CL : JournalCodecLaws (SequencerEvent T)}.
Abbreviation Ev := (SequencerEvent T).
Implicit Types (j : FileJournal) (data pre tail : list N) (e : Ev) (es : list Ev).

(** A checksummed body as it stands on disk. *)
Definition framed (body : list N) : list N :=
  to_le_bytes 4 (lenN body + 4) ++ body ++ to_le_bytes 4 (crc32 body).

Definition body_of e (payload : list N) : list N :=
  to_le_bytes 8 (sequence_num e) ++ to_le_bytes 8 (timestamp_ns e) ++ payload.

(** [bytes] is the entry of [e], and of a size the format can express. *)
Definition entry_of e (bytes : list N) : Prop :=
  encode_entry e = Ok bytes /\ lenN bytes <= U32_MAX /\ sequence_num e <= U64_MAX.

Lemma entry_framed e bytes :
  entry_of e bytes ->
  exists payload, to_vec e = Ok payload /\ bytes = framed (body_of e payload) /\
    lenN (body_of e payload) + 8 <= U32_MAX.
Proof.
  intros (H & Hle & _). unfold encode_entry in H. destruct (to_vec e) as [payload|]; [|done].
  exists payload. split; [done|].
  assert (Hb : lenN (body_of e payload) = 16 + lenN payload)
    by (unfold body_of; rewrite !lenN_app, !lenN_le_bytes; lia).
  destruct (checked_add U32_MAX 16 _ ≫= _) as [el|] eqn:Ec; [|done]. injection H as <-.
  change (lenN (to_le_bytes 4 el ++ body_of e payload ++ to_le_bytes 4 (crc32 (body_of e payload))) <= U32_MAX) in Hle.
  rewrite !lenN_app, !lenN_le_bytes, Hb in Hle.
  rewrite N.mod_small in Ec by lia. unfold checked_add in Ec.
  destruct (N.leb_spec (16 + lenN payload) U32_MAX); [|done]. simpl in Ec.
  destruct (N.leb_spec (16 + lenN payload + 4) U32_MAX); [|done]. injection Ec as <-.
  split; [|lia]. unfold framed. by rewrite Hb.
Qed.

Lemma lenN_framed body : lenN (framed body) = lenN body + 8.
Proof. unfold framed. rewrite !lenN_app, !lenN_le_bytes. lia. Qed.

Lemma from_le_u32 n : n <= U32_MAX -> from_le_bytes (to_le_bytes 4 n) = n.
Proof. intros H. apply from_to_le. change (256 ^ N.of_nat 4) with (U32_MAX + 1). lia. Qed.

(** The fields of a framed body, read where it stands. *)
Lemma framed_fields pre body tail :
  lenN body + 8 <= U32_MAX ->
  let data := pre ++ framed body ++ tail in
  let off := lenN pre in
  let crc_start := off + 4 + lenN body in
  bget data off (off + 4) = Some (to_le_bytes 4 (lenN body + 4)) /\
  from_le_bytes (to_le_bytes 4 (lenN body + 4)) = lenN body + 4 /\
  bget data (off + 4) crc_start = Some body /\
  bget data crc_start (crc_start + 4) = Some (to_le_bytes 4 (crc32 body)) /\
  from_le_bytes (to_le_bytes 4 (crc32 body)) = crc32 body /\
  crc_start + 4 <= lenN data.
Proof.
  intros Hb data off crc_start. subst data off crc_start. unfold framed. split_and!.
  - apply (bget_at _ pre _ (body ++ to_le_bytes 4 (crc32 body) ++ tail));
      [by rewrite <- !app_assoc|done|by rewrite lenN_le_bytes].
  - apply from_le_u32. lia.
  - apply (bget_at _ (pre ++ to_le_bytes 4 (lenN body + 4)) _ (to_le_bytes 4 (crc32 body) ++ tail));
      [by rewrite <- !app_assoc|by rewrite lenN_app, lenN_le_bytes..].
  - apply (bget_at _ (pre ++ to_le_bytes 4 (lenN body + 4) ++ body) _ tail);
      [by rewrite <- !app_assoc|rewrite !lenN_app, ?lenN_le_bytes; lia..].
  - apply from_le_u32, crc32_u32.
  - rewrite !lenN_app, !lenN_le_bytes. lia.
Qed.

Lemma body_fields pre e payload tail :
  let body := body_of e payload in
  let data := pre ++ framed body ++ tail in
  let start := lenN pre + 4 in
  bget data start (start + 8) = Some (to_le_bytes 8 (sequence_num e)) /\
  bget data (start + 16) (start + lenN body) = Some payload.
Proof.
  intros body data start. subst body data start. unfold framed. set (len4 := to_le_bytes 4 _).
  set (crc4 := to_le_bytes 4 (crc32 _)).
  assert (H4 : lenN len4 = 4) by apply lenN_le_bytes. unfold body_of. split.
  - apply (bget_at _ (pre ++ len4) _ (to_le_bytes 8 (timestamp_ns e) ++ payload ++ crc4 ++ tail));
      [by rewrite <- !app_assoc|rewrite lenN_app, ?lenN_le_bytes; lia..].
  - apply (bget_at _ (pre ++ len4 ++ to_le_bytes 8 (sequence_num e) ++ to_le_bytes 8 (timestamp_ns e)) _ (crc4 ++ tail));
      [by rewrite <- !app_assoc|rewrite !lenN_app, ?lenN_le_bytes; lia..].
Qed.

(** One good entry: what the reader, the scans and the check make of it. *)
Lemma decode_entry pre e bytes tail :
  entry_of e bytes ->
  exists crc, decode_next (pre ++ bytes ++ tail) (lenN pre) =
    Some (Ok {| je_event := e; je_stored_crc := crc |}, lenN pre + lenN bytes).
Proof.
  intros (payload & Hp & -> & Hb)%entry_framed. set (body := body_of e payload) in *.
  destruct (framed_fields pre body tail Hb) as (H1 & H2 & H3 & H4 & H5 & H6).
  destruct (body_fields pre e payload tail) as (H7 & H8). fold body in H7, H8.
  assert (Hlen : 16 <= lenN body) by (unfold body, body_of; rewrite !lenN_app, !lenN_le_bytes; lia).
  set (data := pre ++ framed body ++ tail) in *. unfold decode_next. change ENTRY_HEADER_SIZE with 20.
  rewrite (proj2 (N.ltb_ge _ _)) by lia. rewrite H1, H2, (proj2 (N.eqb_neq _ _)) by lia. cbv zeta.
  rewrite (proj2 (N.ltb_ge _ _)) by lia. unfold checked_sub. change ENTRY_CRC_SIZE with 4.
  rewrite (proj2 (N.leb_le _ _)) by lia.
  replace (lenN pre + 4 + (lenN body + 4) - 4) with (lenN pre + 4 + lenN body) by lia.
  replace (lenN pre + 4 + (lenN body + 4)) with (lenN pre + 4 + lenN body + 4) by lia.
  rewrite H4, H3, H7, H5, N.eqb_refl. cbv iota beta delta [negb]. rewrite H8, (from_slice_to_vec _ _ Hp).
  eexists. rewrite lenN_framed. replace (lenN pre + (lenN body + 8)) with (lenN pre + 4 + lenN body + 4) by lia.
  reflexivity.
Qed.

Lemma crc_valid_entry pre e bytes tail :
  entry_of e bytes -> entry_crc_valid (pre ++ bytes ++ tail) (lenN pre) (lenN pre + lenN bytes) = true.
Proof.
  intros (payload & Hp & -> & Hb)%entry_framed. set (body := body_of e payload) in *.
  destruct (framed_fields pre body tail Hb) as (H1 & H2 & H3 & H4 & H5 & H6).
  set (data := pre ++ framed body ++ tail) in *. unfold entry_crc_valid, checked_sub.
  change ENTRY_CRC_SIZE with 4. rewrite lenN_framed, (proj2 (N.leb_le _ _)) by lia. cbv zeta.
  replace (lenN pre + (lenN body + 8) - 4) with (lenN pre + 4 + lenN body) by lia.
  replace (lenN pre + (lenN body + 8)) with (lenN pre + 4 + lenN body + 4) by lia.
  rewrite !(proj2 (N.ltb_ge _ _)) by lia. cbn [orb]. rewrite H4, H3, H5. apply N.eqb_refl.
Qed.

(** The header of a good entry: its length field and its extent. *)
Lemma entry_header pre e bytes tail :
  entry_of e bytes ->
  exists el, bget (pre ++ bytes ++ tail) (lenN pre) (lenN pre + 4) = Some el /\
    from_le_bytes el + 4 = lenN bytes /\ 24 <= lenN bytes /\
    bget (pre ++ bytes ++ tail) (lenN pre + 4) (lenN pre + 4 + 8) = Some (to_le_bytes 8 (sequence_num e)) /\
    from_le_bytes (to_le_bytes 8 (sequence_num e)) = sequence_num e /\
    lenN pre + lenN bytes <= lenN (pre ++ bytes ++ tail).
Proof.
  intros Hent. pose proof Hent as (_ & _ & Hu). apply entry_framed in Hent as (payload & Hp & -> & Hb).
  set (body := body_of e payload) in *.
  destruct (framed_fields pre body tail Hb) as (H1 & H2 & H3 & H4 & H5 & H6).
  destruct (body_fields pre e payload tail) as (H7 & H8). fold body in H7, H8.
  assert (Hlen : 16 <= lenN body) by (unfold body, body_of; rewrite !lenN_app, !lenN_le_bytes; lia).
  rewrite lenN_framed. eexists. split_and!; [exact H1|rewrite H2; lia|lia|exact H7| |].
  - apply from_to_le. change (256 ^ N.of_nat 8) with (U64_MAX + 1). lia.
  - rewrite !lenN_app, lenN_framed. lia.
Qed.

Lemma scan_write_entry f pre e bytes tail cap :
  entry_of e bytes -> lenN pre + lenN bytes <= cap ->
  scan_write (S f) (pre ++ bytes ++ tail) cap (lenN pre) =
  scan_write f (pre ++ bytes ++ tail) cap (lenN pre + lenN bytes).
Proof.
  intros Hent Hcap. destruct (entry_header pre e bytes tail Hent) as (el & H1 & H2 & H3 & _ & _ & H6).
  cbn [scan_write]. rewrite !(proj2 (N.ltb_ge _ _)) by lia. cbn [orb]. rewrite H1.
  rewrite (proj2 (N.eqb_neq _ _)) by lia. cbv zeta.
  replace (lenN pre + 4 + from_le_bytes el) with (lenN pre + lenN bytes) by lia.
  rewrite !(proj2 (N.leb_le _ _)) by lia. cbn [andb]. by rewrite (crc_valid_entry _ e).
Qed.

Lemma scan_last_entry f pre e bytes tail wpos last :
  entry_of e bytes -> lenN pre + lenN bytes <= wpos ->
  scan_last (S f) (pre ++ bytes ++ tail) wpos (lenN pre) last =
  scan_last f (pre ++ bytes ++ tail) wpos (lenN pre + lenN bytes) (Some (sequence_num e)).
Proof.
  intros Hent Hcap. destruct (entry_header pre e bytes tail Hent) as (el & H1 & H2 & H3 & H4 & H5 & H6).
  cbn [scan_last]. change ENTRY_HEADER_SIZE with 20. rewrite (proj2 (N.leb_le _ _)) by lia. rewrite H1.
  rewrite (proj2 (N.eqb_neq _ _)) by lia. cbv zeta.
  replace (lenN pre + 4 + from_le_bytes el) with (lenN pre + lenN bytes) by lia.
  rewrite (proj2 (N.ltb_ge _ _)) by lia. by rewrite H4, H5.
Qed.

Lemma verify_entry f pre e bytes tail :
  entry_of e bytes ->
  verify_data (S f) (pre ++ bytes ++ tail) (lenN pre) =
  verify_data f (pre ++ bytes ++ tail) (lenN pre + lenN bytes).
Proof.
  intros Hent. destruct (entry_header pre e bytes tail Hent) as (el & Hel & Hlen & H24 & _ & _ & Hin).
  apply entry_framed in Hent as (payload & Hp & -> & Hb). set (body := body_of e payload) in *.
  destruct (framed_fields pre body tail Hb) as (H1 & H2 & H3 & H4 & H5 & H6).
  set (data := pre ++ framed body ++ tail) in *. rewrite lenN_framed in *.
  cbn [verify_data]. change ENTRY_HEADER_SIZE with 20. rewrite (proj2 (N.leb_le _ _)) by lia.
  rewrite H1, H2, (proj2 (N.eqb_neq _ _)) by lia. cbv zeta. rewrite (proj2 (N.ltb_ge _ _)) by lia.
  unfold checked_sub. change ENTRY_CRC_SIZE with 4. rewrite (proj2 (N.leb_le _ _)) by lia.
  replace (lenN pre + 4 + (lenN body + 4) - 4) with (lenN pre + 4 + lenN body) by lia.
  replace (lenN pre + 4 + (lenN body + 4)) with (lenN pre + 4 + lenN body + 4) by lia.
  rewrite H4, H3, H5, N.eqb_refl. cbn [negb]. f_equal. lia.
Qed.

(** ** Tails *)

Definition clean tail : Prop := exists k, tail = replicate k 0.

(** A tail that does not start with a good entry. *)
Definition torn tail : Prop := scan_write_position tail (lenN tail) = 0.

Lemma clean_drop n tail : clean tail -> clean (drop n tail).
Proof. intros [k ->]. exists (k - n)%nat. apply drop_replicate. Qed.

Lemma bget_zeros k lo hi l : bget (replicate k 0) lo hi = Some l -> from_le_bytes l = 0.
Proof.
  unfold bget. destruct (_ && _); [|done]. intros [= <-]. rewrite drop_replicate, take_replicate.
  generalize (N.to_nat (hi - lo) `min` (k - N.to_nat lo))%nat. intros n. induction n as [|n IH]; [done|]. simpl. lia.
Qed.

Lemma bget_shift0 pre data hi : bget (pre ++ data) (lenN pre) (lenN pre + hi) = bget data 0 hi.
Proof. rewrite <- (bget_shift pre data). by rewrite N.add_0_r. Qed.

Lemma decode_clean pre tail : clean tail -> decode_next (pre ++ tail) (lenN pre) = None.
Proof.
  intros [k ->]. unfold decode_next. destruct (_ <? _); [done|]. rewrite bget_shift0.
  destruct (bget _ 0 4) as [l|] eqn:E; [|done]. by rewrite (bget_zeros _ _ _ _ E).
Qed.

Lemma verify_clean f pre tail : clean tail -> verify_data f (pre ++ tail) (lenN pre) = Ok tt.
Proof.
  intros [k ->]. destruct f; [done|]. cbn [verify_data]. destruct (N.leb_spec (lenN pre + ENTRY_HEADER_SIZE) (lenN (pre ++ replicate k 0))) as [H|]; [|done].
  rewrite bget_shift0. change ENTRY_HEADER_SIZE with 20 in H. rewrite lenN_app in H.
  destruct (bget _ 0 4) as [l|] eqn:E; [by rewrite (bget_zeros _ _ _ _ E)|].
  unfold bget in E. destruct (N.leb_spec 0 4), (N.leb_spec 4 (lenN (replicate k 0))); simpl in E; done || lia.
Qed.

Lemma crc_valid_shift pre data off entry_end :
  entry_crc_valid (pre ++ data) (lenN pre + off) (lenN pre + entry_end) = true ->
  4 <= entry_end -> entry_crc_valid data off entry_end = true.
Proof.
  intros H Hend. unfold entry_crc_valid, checked_sub in *. change ENTRY_CRC_SIZE with 4 in *.
  rewrite !(proj2 (N.leb_le _ _)) in * by lia. cbv zeta in *.
  replace (lenN pre + entry_end - 4) with (lenN pre + (entry_end - 4)) in H by lia.
  replace (lenN pre + off + 4) with (lenN pre + (off + 4)) in H by lia. rewrite !bget_shift, lenN_app in H.
  destruct (N.ltb_spec (lenN pre + (entry_end - 4)) (lenN pre + (off + 4))),
    (N.ltb_spec (lenN pre + lenN data) (lenN pre + entry_end)); try discriminate H.
  rewrite !(proj2 (N.ltb_ge _ _)) by lia. exact H.
Qed.

(** A scan of the tail alone stops at once, so a scan that reaches it stops. *)
Lemma scan_torn f pre tail : torn tail -> scan_write f (pre ++ tail) (lenN (pre ++ tail)) (lenN pre) = lenN pre.
Proof.
  intros Ht. destruct f as [|f]; [done|]. cbn [scan_write]. rewrite lenN_app.
  destruct (N.ltb_spec (lenN pre + lenN tail) (lenN pre + 4)) as [|H4]; [done|]. cbn [orb]. rewrite bget_shift0.
  unfold torn, scan_write_position in Ht. cbn [scan_write] in Ht. rewrite !(proj2 (N.ltb_ge _ _)) in Ht by lia.
  cbn [orb] in Ht. rewrite N.add_0_l in Ht. destruct (bget tail 0 4) as [l|]; [|done]. cbv zeta in *.
  destruct (N.eqb_spec (from_le_bytes l) 0) as [|Hz]; [done|].
  destruct (N.leb_spec (lenN pre + 4 + from_le_bytes l) (lenN pre + lenN tail)) as [Hle|]; [|done]. cbn [andb].
  rewrite !(proj2 (N.leb_le _ _)) in Ht by lia. cbn [andb] in Ht.
  destruct (entry_crc_valid (pre ++ tail) _ _) eqn:Ec; [|done].
  replace (lenN pre + 4 + from_le_bytes l) with (lenN pre + (4 + from_le_bytes l)) in Ec by lia.
  rewrite <- (N.add_0_r (lenN pre)) in Ec at 1. apply crc_valid_shift in Ec; [|lia]. rewrite Ec in Ht.
  exfalso. assert (Hge : forall f data cap off, off <= scan_write f data cap off); [|specialize (Hge (length tail) tail (lenN tail) (4 + from_le_bytes l)); lia].
  clear. induction f as [|f IH]; intros data cap off; cbn [scan_write]; [lia|].
  destruct (_ || _); [lia|]. destruct (bget _ _ _); [|lia]. cbv zeta. destruct (_ =? 0); [lia|].
  destruct (_ && _); [|lia]. destruct (entry_crc_valid _ _ _); [|lia]. etransitivity; [|apply IH]. lia.
Qed.

Lemma clean_torn tail : clean tail -> torn tail.
Proof.
  intros [k ->]. unfold torn, scan_write_position. cbn [scan_write]. destruct (_ || _); [done|].
  destruct (bget _ 0 (0 + 4)) as [l|] eqn:E; [|done]. by rewrite (bget_zeros _ _ _ _ E).
Qed.

(** ** A segment *)

Lemma chunk_length chunk bs : Forall2 entry_of chunk bs -> (length chunk <= length (concat bs))%nat.
Proof.
  induction 1 as [|e bytes chunk bs He _ IH]; simpl; [lia|]. rewrite length_app.
  destruct (entry_header [] e bytes [] He) as (_ & _ & _ & H24 & _). unfold lenN in H24. lia.
Qed.

Lemma segment_items_chunk chunk bs tail : Forall2 entry_of chunk bs -> forall pre f,
  (length chunk < f)%nat -> (forall pre, decode_next (pre ++ tail) (lenN pre) = None) ->
  result_map je_event <$> segment_items f (pre ++ concat bs ++ tail) (lenN pre) = Ok <$> chunk.
Proof.
  induction 1 as [|e bytes chunk bs He _ IH]; intros pre f Hf Hend; destruct f as [|f]; simpl in Hf; try lia.
  - cbn [segment_items concat]. rewrite app_nil_l. by rewrite Hend.
  - cbn [concat segment_items]. rewrite <- app_assoc.
    destruct (decode_entry pre e bytes (concat bs ++ tail) He) as [crc ->]. csimpl. f_equal.
    rewrite <- lenN_app. rewrite (app_assoc pre). apply IH; [lia|done].
Qed.

Lemma verify_chunk chunk bs tail : Forall2 entry_of chunk bs -> forall pre f,
  clean tail -> verify_data f (pre ++ concat bs ++ tail) (lenN pre) = Ok tt.
Proof.
  induction 1 as [|e bytes chunk bs He _ IH]; intros pre f Hend.
  - by apply verify_clean.
  - destruct f as [|f]; [done|]. cbn [concat]. rewrite <- app_assoc, (verify_entry _ _ e) by done.
    rewrite <- lenN_app, (app_assoc pre). by apply IH.
Qed.

Lemma scan_write_chunk chunk bs tail : Forall2 entry_of chunk bs -> forall pre f,
  (length chunk < f)%nat -> torn tail ->
  let data := pre ++ concat bs ++ tail in
  scan_write f data (lenN data) (lenN pre) = lenN (pre ++ concat bs).
Proof.
  induction 1 as [|e bytes chunk bs He _ IH]; intros pre f Hf Ht data; subst data.
  - cbn [concat]. rewrite app_nil_l, app_nil_r. by apply scan_torn.
  - destruct f as [|f]; simpl in Hf; [lia|]. cbn [concat]. rewrite <- !app_assoc.
    rewrite (scan_write_entry _ _ e); [|done|rewrite !lenN_app; lia].
    rewrite <- lenN_app, !(app_assoc pre bytes). apply IH; [lia|done].
Qed.

Lemma scan_last_chunk chunk bs tail : Forall2 entry_of chunk bs -> forall pre f lst,
  (length chunk < f)%nat ->
  scan_last f (pre ++ concat bs ++ tail) (lenN (pre ++ concat bs)) (lenN pre) lst =
  match last chunk with Some e => Some (sequence_num e) | None => lst end.
Proof.
  induction 1 as [|e bytes chunk bs He _ IH]; intros pre f lst Hf; destruct f as [|f]; simpl in Hf; try lia.
  - cbn [scan_last concat]. rewrite app_nil_r. change ENTRY_HEADER_SIZE with 20.
    by rewrite (proj2 (N.leb_gt _ _)) by lia.
  - cbn [concat]. rewrite <- !app_assoc. rewrite (scan_last_entry _ _ e); [|done|rewrite !lenN_app; lia].
    rewrite <- lenN_app, !(app_assoc pre bytes), IH by lia. rewrite last_cons. by destruct (last chunk).
Qed.

(** ** The journal on disk *)

Definition before (x y : N * list Ev) : Prop := x.1 < y.1 /\ forall e, e ∈ x.2 -> sequence_num e < y.1.

Definition seg_ok (f : N * list N) (sc : N * list Ev) : Prop :=
  f.1 = sc.1 /\ exists bs tail, Forall2 entry_of sc.2 bs /\ clean tail /\ f.2 = concat bs ++ tail.

(** The files of [j] hold [es]: the closed segments [old], then the active
    one with the entries [bs] of [chunk] and [tail] behind them. *)
Record fj_files j es tail (old : list (N * list Ev)) (start : N) (chunk : list Ev) (bs : list (list N)) : Prop := {
  r_files : exists fs, sm_iter (dir j) = fs ++ [(start, concat bs ++ tail)] /\ Forall2 seg_ok fs old;
  r_chunk : Forall2 entry_of chunk bs;
  r_sorted : StronglySorted before (old ++ [(start, chunk)]);
  r_start : Forall (fun sc => forall e, e ∈ sc.2 -> sc.1 <= sequence_num e) (old ++ [(start, chunk)]);
  r_events : es = concat old.*2 ++ chunk;
  r_writer : writer_path j = start /\ segment_start_seq j = start /\ write_pos j = lenN (concat bs) /\
    capacity j = lenN (concat bs ++ tail);
}.
Definition on_disk j es tail : Prop := exists old start chunk bs, fj_files j es tail old start chunk bs.

(** Besides, the last sequence number is right and the active segment has
    the last event, or it is the first and nothing was appended yet. *)
Definition holds j es tail : Prop := exists old start chunk bs,
  fj_files j es tail old start chunk bs /\
  last_seq j = sequence_num <$> last es /\ ((es = [] /\ start = 0) \/ chunk <> []).

Lemma holds_on_disk j es tail : holds j es tail -> on_disk j es tail.
Proof. intros (old & start & chunk & bs & H & _). by exists old, start, chunk, bs. Qed.

(** Every sequence number is above those of [es]. *)
Definition above es e : Prop := forall e', e' ∈ es -> sequence_num e' < sequence_num e.

Lemma holds_start j es tail e : holds j es tail -> above es e -> segment_start_seq j <= sequence_num e.
Proof.
  intros (old & start & chunk & bs & [_ _ _ Hst Hes (_ & -> & _)] & _ & [[_ ->]|Hne]) Hab; [lia|].
  apply Forall_app in Hst as [_ [Hst _]%Forall_cons]. destruct chunk as [|e' chunk]; [done|].
  specialize (Hst e' ltac:(left)). specialize (Hab e'). rewrite Hes in Hab. specialize (Hab ltac:(set_solver)).
  simpl in Hst. lia.
Qed.

Lemma open_fresh size : holds (open_with_segment_size ∅ ∅ size) [] (replicate (N.to_nat size) 0).
Proof.
  exists [], 0, [], []. assert (E : last (list_segments (∅ : gmap N (list N))) = None) by done.
  unfold open_with_segment_size. rewrite E. split; [|split; [done|by left]]. split; simpl.
  - exists []. split; [|done]. unfold segment_create. rewrite sm_iter_insert_last; [done|]. intros k' [? H]. done.
  - done.
  - repeat constructor.
  - repeat constructor. by intros e ?%elem_of_nil.
  - done.
  - split_and!; try done. unfold lenN. rewrite length_replicate. lia.
Qed.

Lemma segment_bytes_elem d start data : (start, data) ∈ sm_iter d -> segment_bytes start d = data.
Proof. intros H%elem_of_sm_iter. unfold segment_bytes. by rewrite H. Qed.

Lemma segment_bytes_last d fs start data :
  sm_iter d = fs ++ [(start, data)] -> segment_bytes start d = data.
Proof. intros E. apply segment_bytes_elem. rewrite E, elem_of_app. right. by left. Qed.

(** Writing into the active segment. *)
Lemma write_holds j es tail e bytes :
  on_disk j es tail -> entry_of e bytes -> lenN bytes <= lenN tail -> segment_start_seq j <= sequence_num e ->
  exists j', write_entry bytes j = (Ok tt, j') /\
    holds (set_last_seq (sequence_num e) j') (es ++ [e]) (drop (length bytes) tail) /\
    segment_size j' = segment_size j /\ segment_start_seq j' = segment_start_seq j.
Proof.
  intros (old & start & chunk & bs & [(fs & Efs & Hfs) Hch Hso Hst Hes (Hw1 & Hw2 & Hw3 & Hw4)]) He Hlen Hge.
  unfold write_entry. rewrite Hw3, Hw4, Hw1, lenN_app, (proj2 (N.ltb_ge _ _)) by lia. cbv zeta.
  rewrite (segment_bytes_last _ _ _ _ Efs).
  assert (E1 : take (N.to_nat (lenN (concat bs))) (concat bs ++ tail) = concat bs)
    by (unfold lenN; by rewrite Nat2N.id, take_app_length).
  assert (E2 : drop (N.to_nat (lenN (concat bs) + lenN bytes)) (concat bs ++ tail) = drop (length bytes) tail)
    by (unfold lenN; by rewrite N2Nat.inj_add, !Nat2N.id, drop_app_add).
  rewrite E1, E2. eexists. split; [reflexivity|]. split; [|done].
  exists old, start, (chunk ++ [e]), (bs ++ [bytes]).
  assert (Ec : concat (bs ++ [bytes]) = concat bs ++ bytes) by (by rewrite concat_app; simpl; rewrite app_nil_r).
  split; [|split; [by rewrite last_snoc|right; by destruct chunk]]. split; simpl.
  - exists fs. split; [|done]. rewrite Ec, <- app_assoc. eapply sm_iter_replace_last, Efs.
  - apply Forall2_app; [done|by constructor].
  - apply StronglySorted_app in Hso as (H1 & H2 & _). apply StronglySorted_app. split_and!; [|done|repeat constructor].
    intros x y Hx ->%list_elem_of_singleton. exact (H1 x (start, chunk) Hx ltac:(by left)).
  - apply Forall_app in Hst as [H1 H2]. apply Forall_app. split; [done|]. constructor; [|done].
    apply Forall_cons in H2 as [H2 _]. intros e' [H| ->%list_elem_of_singleton]%elem_of_app; [by apply H2|]. simpl. lia.
  - by rewrite Hes, app_assoc.
  - split_and!; try done; rewrite Ec, !lenN_app; [done|]. unfold lenN in *. rewrite length_drop. lia.
Qed.

Lemma concat_elem (l : list (N * list Ev)) x e : x ∈ l -> e ∈ x.2 -> e ∈ concat l.*2.
Proof.
  intros Hx He. apply list_elem_of_In, in_concat. exists x.2. rewrite <- !list_elem_of_In.
  split; [by apply list_elem_of_fmap_2|done].
Qed.

(** A fresh segment for the next event. *)
Lemma rotate_on_disk j es tail e :
  on_disk j es tail -> clean tail -> above es e -> segment_start_seq j <= sequence_num e ->
  on_disk (rotate_segment (sequence_num e) j) es (replicate (N.to_nat (segment_size j)) 0).
Proof.
  intros (old & start & chunk & bs & [(fs & Efs & Hfs) Hch Hso Hst Hes (Hw1 & Hw2 & Hw3 & Hw4)]) Hcl Hab Hge.
  rewrite Hw2 in Hge. pose proof Hst as [Hst1 Hst2]%Forall_app. apply Forall_cons in Hst2 as [Hst2 _]. simpl in Hst2.
  assert (Hw : forall s, s = sequence_num e -> writer_path (rotate_segment (sequence_num e) j) = s /\
    segment_start_seq (rotate_segment (sequence_num e) j) = s /\ 0 = lenN (concat ([] : list (list N))) /\
    segment_size j = lenN (concat [] ++ replicate (N.to_nat (segment_size j)) 0)).
  { intros s ->. split_and!; try done. unfold lenN. simpl. rewrite length_replicate. lia. }
  assert (Hnil : forall s : N, Forall (fun sc : N * list Ev => forall e, e ∈ sc.2 -> sc.1 <= sequence_num e) [(s, [])]).
  { intros s. constructor; [|done]. by intros e' ?%elem_of_nil. }
  destruct (N.eq_dec start (sequence_num e)) as [->|Hne].
  - assert (chunk = []) as ->.
    { destruct chunk as [|e' chunk]; [done|]. specialize (Hst2 e' ltac:(left)).
      specialize (Hab e'). rewrite Hes in Hab. specialize (Hab ltac:(set_solver)). lia. }
    exists old, (sequence_num e), [], []. split; try done; [|by apply Hw].
    exists fs. split; [by eapply sm_iter_replace_last|done].
  - exists (old ++ [(start, chunk)]), (sequence_num e), [], []. split; [|done| | | |by apply Hw].
    + exists (fs ++ [(start, concat bs ++ tail)]). split.
      * rewrite <- Efs. apply sm_iter_insert_last. intros k [x Hx]. apply elem_of_sm_iter in Hx.
        pose proof (sm_iter_sorted (dir j)) as Hs. rewrite Efs in Hs, Hx. apply StronglySorted_app in Hs as (H1 & _).
        apply elem_of_app in Hx as [Hx|Hx%list_elem_of_singleton]; [|simplify_eq; lia].
        specialize (H1 _ (start, concat bs ++ tail) Hx ltac:(by left)). unfold key_lt in H1. simpl in H1. lia.
      * apply Forall2_app; [done|]. constructor; [|done]. split; [done|]. by exists bs, tail.
    + apply StronglySorted_app. split_and!; [|done|repeat constructor].
      intros x y Hx ->%list_elem_of_singleton. apply StronglySorted_app in Hso as (H1 & _). split; simpl.
      * apply elem_of_app in Hx as [Hx|Hx%list_elem_of_singleton]; [|subst x; simpl; lia].
        destruct (H1 x (start, chunk) Hx ltac:(by left)). simpl in *. lia.
      * intros e' He'. apply Hab. rewrite Hes. replace (concat old.*2 ++ chunk) with (concat (old ++ [(start, chunk)]).*2);
          [by eapply concat_elem|]. rewrite fmap_app, concat_app. simpl. by rewrite app_nil_r.
    + apply Forall_app. split; [done|apply Hnil].
    + rewrite Hes, fmap_app, concat_app. simpl. by rewrite !app_nil_r.
Qed.

(** ** Appending *)

Lemma remaining_tail j es tail : on_disk j es tail -> remaining j = lenN tail.
Proof.
  intros (old & start & chunk & bs & [_ _ _ _ _ (_ & _ & H3 & H4)]). unfold remaining, sat_sub.
  rewrite H3, H4, lenN_app. lia.
Qed.

Definition fits (size : N) e : Prop :=
  exists bytes, encode_entry e = Ok bytes /\ lenN bytes <= size /\ sequence_num e <= U64_MAX.

(** An append that has room, or may rotate. *)
Lemma append_holds j es tail e bytes :
  on_disk j es tail -> entry_of e bytes -> above es e -> segment_start_seq j <= sequence_num e ->
  lenN bytes <= lenN tail \/ (clean tail /\ lenN bytes <= segment_size j) ->
  exists j' tail', fj_append e j = (Ok tt, j') /\ holds j' (es ++ [e]) tail' /\
    segment_size j' = segment_size j /\ segment_start_seq j' <= sequence_num e /\
    (clean tail -> clean tail') /\ (lenN bytes <= lenN tail -> tail' = drop (length bytes) tail).
Proof.
  intros Hd He Hab Hge Hroom. pose proof He as (Ee & Hu & _).
  unfold fj_append, stry, sbind, sret, sget, smod. rewrite Ee, (remaining_tail _ _ _ Hd).
  destruct (N.ltb_spec (lenN tail) (lenN bytes)) as [Hlt|Hle].
  - destruct Hroom as [?|[Hcl Hsz]]; [lia|]. apply (rotate_on_disk _ _ _ e) in Hd; [|done..].
    rewrite (remaining_tail _ _ _ Hd). set (zeros := replicate (N.to_nat (segment_size j)) 0) in *.
    assert (Hz : lenN zeros = segment_size j) by (unfold zeros, lenN; rewrite length_replicate; lia).
    rewrite Hz, (proj2 (N.ltb_ge _ _)) by lia.
    destruct (write_holds _ _ _ e bytes Hd He) as (j' & -> & Hh & H1 & H2); [lia|simpl; lia|].
    simpl in H1, H2. do 2 eexists. split_and!; [done|exact Hh|done|simpl; lia| |lia].
    intros _. apply clean_drop. by eexists.
  - rewrite (remaining_tail _ _ _ Hd), (proj2 (N.ltb_ge _ _)) by lia.
    destruct (write_holds _ _ _ e bytes Hd He) as (j' & -> & Hh & H1 & H2); [lia|lia|].
    do 2 eexists. split_and!; [done|exact Hh|done|simpl; lia| |done]. intros Hcl. by apply clean_drop.
Qed.

Fixpoint append_all es : ST FileJournal (Result JournalError unit) :=
  match es with
  | [] => sret (Ok tt)
  | e :: es' => let? _ := fj_append e in append_all es'
  end.

Definition increasing es : Prop := StronglySorted (fun e e' => sequence_num e < sequence_num e') es.

Lemma append_all_holds size es' : forall j es tail,
  holds j es tail -> clean tail -> segment_size j = size -> size <= U32_MAX -> increasing (es ++ es') ->
  Forall (fits size) es' ->
  exists j' tail', append_all es' j = (Ok tt, j') /\ holds j' (es ++ es') tail' /\ clean tail' /\
    segment_size j' = size.
Proof.
  induction es' as [|e es' IH]; intros j es tail Hh Hcl Hsz Hu Hinc Hfit.
  { rewrite app_nil_r. by exists j, tail. }
  apply Forall_cons in Hfit as [(bytes & Eb & Hb & Hs) Hfit].
  pose proof Hinc as (Hab0 & _ & _)%StronglySorted_app.
  assert (Hab : above es e) by (intros e' He'; apply Hab0; [done|by left]).
  destruct (append_holds j es tail e bytes) as (j' & tail' & E & Hh' & H1 & H2 & H3 & _).
  { by apply holds_on_disk. }
  { split_and!; [done|lia|done]. }
  { done. }
  { by eapply holds_start. }
  { right. split; [done|lia]. }
  destruct (IH j' (es ++ [e]) tail') as (j2 & tail2 & E2 & Hh2 & Hc2 & Hs2); try done.
  - auto.
  - congruence.
  - by rewrite <- app_assoc.
  - exists j2, tail2. simpl. unfold stry. rewrite E, E2. rewrite <- app_assoc in Hh2. done.
Qed.

(** ** Reading *)

(** The files of a journal whose active tail is clean. *)
Lemma clean_files j es tail :
  on_disk j es tail -> clean tail ->
  exists segs, Forall2 seg_ok (sm_iter (dir j)) segs /\ StronglySorted before segs /\
    Forall (fun sc => forall e, e ∈ sc.2 -> sc.1 <= sequence_num e) segs /\ es = concat segs.*2.
Proof.
  intros (old & start & chunk & bs & [(fs & Efs & Hfs) Hch Hso Hst Hes _]) Hcl.
  exists (old ++ [(start, chunk)]). split_and!; [|done|done|].
  - rewrite Efs. apply Forall2_app; [done|]. constructor; [|done]. split; [done|]. by exists bs, tail.
  - rewrite Hes, fmap_app, concat_app. simpl. by rewrite app_nil_r.
Qed.

Definition file_items (f : N * list N) : list (Result JournalError JournalEntry) :=
  segment_items (S (length f.2)) f.2 0.

Lemma file_items_ok f sc : seg_ok f sc -> result_map je_event <$> file_items f = Ok <$> sc.2.
Proof.
  destruct f as [s data]. intros (_ & bs & tail & Hb & Hcl & E). simpl in E. subst data. unfold file_items. simpl snd.
  apply (segment_items_chunk _ _ tail Hb []).
  - apply Nat.lt_succ_r. rewrite length_app. pose proof (chunk_length _ _ Hb). lia.
  - intros pre. by apply decode_clean.
Qed.

Lemma files_items_ok fs segs :
  Forall2 seg_ok fs segs -> result_map je_event <$> mjoin (file_items <$> fs) = Ok <$> concat segs.*2.
Proof.
  induction 1 as [|f sc fs segs Hf _ IH]; [done|]. csimpl. rewrite !fmap_app, IH. f_equal.
  by apply file_items_ok.
Qed.

Lemma wanted_filter s (items : list (Result JournalError JournalEntry)) : forall es,
  result_map je_event <$> items = Ok <$> es ->
  result_map je_event <$> filter (fun item => Is_true (wanted s item)) items =
  Ok <$> filter (fun e => s <= sequence_num e) es.
Proof.
  induction items as [|item items IH]; intros [|e es] H; try discriminate H; [done|].
  csimpl in H. destruct item as [[ev crc]|]; [|discriminate H]. injection H as -> H. specialize (IH es H).
  rewrite !filter_cons. cbn [wanted je_event]. destruct (N.ltb_spec (sequence_num e) s).
  - rewrite decide_False by (by intros []). rewrite decide_False by lia. done.
  - rewrite decide_True by done. rewrite decide_True by lia. csimpl. by rewrite IH.
Qed.

Lemma sorted_lookup {A} (R : relation A) (l : list A) : StronglySorted R l -> forall i k x y,
  l !! i = Some x -> l !! k = Some y -> (i < k)%nat -> R x y.
Proof.
  induction 1 as [|z l _ IH Hz]; intros [|i] [|k] x y Hx Hy Hik; try done; try lia; simplify_eq/=.
  - rewrite Forall_forall in Hz. eapply Hz, list_elem_of_lookup_2, Hy.
  - eapply IH; [done..|lia].
Qed.

(** When segments are skipped, the first one read starts at or before [s]. *)
Lemma start_idx_spec s (l : list N) i :
  StronglySorted N.lt l -> (i < start_idx l s)%nat -> exists y, l !! start_idx l s = Some y /\ y <= s.
Proof.
  intros Hl. unfold start_idx. case_decide as Hd; [intros _; exists s; split; [done|lia]|]. intros Hi.
  assert (Hpre : exists l2, l = filter (fun x => x < s) l ++ l2).
  { clear -Hl. induction Hl as [|x l _ [l2 IH] Hx]; [by exists []|]. rewrite filter_cons. case_decide.
    - exists l2. simpl. by f_equal.
    - exists (x :: l). rewrite list_filter_none; [done|]. rewrite Forall_forall in Hx. intros y Hy%Hx. lia. }
  set (k := length (filter (fun x => x < s) l)) in *. destruct Hpre as [l2 Hpre].
  destruct (lookup_lt_is_Some_2 (filter (fun x => x < s) l) (Nat.pred k)) as [y Hy]; [unfold k in *; lia|].
  exists y. split; [rewrite Hpre; by apply lookup_app_l_Some|].
  apply list_elem_of_lookup_2, list_elem_of_filter in Hy. lia.
Qed.

(** The segments [read_from] skips hold nothing it should yield. *)
Lemma skipped_segments s (segs : list (N * list Ev)) :
  StronglySorted before segs ->
  filter (fun e => s <= sequence_num e) (concat (take (start_idx segs.*1 s) segs).*2) = [].
Proof.
  intros Hso. apply list_filter_none. intros e He Hs.
  apply list_elem_of_In, in_concat in He as (c & Hc & He). apply list_elem_of_In in Hc, He.
  apply list_elem_of_fmap in Hc as (x & -> & Hx). apply list_elem_of_lookup in Hx as [i Hi].
  apply lookup_take_Some in Hi as [Hi Hlt].
  assert (Hsl : StronglySorted N.lt segs.*1).
  { clear -Hso. induction Hso as [|z l _ IH Hz]; [constructor|]. constructor; [done|].
    apply Forall_fmap. eapply Forall_impl; [exact Hz|]. by intros ? [? _]. }
  destruct (start_idx_spec s _ _ Hsl Hlt) as (k & Hk & Hks).
  rewrite list_lookup_fmap in Hk. destruct (segs !! start_idx segs.*1 s) as [y|] eqn:Hy; [|done].
  injection Hk as <-.
  assert (Hb : before x y) by (by eapply (sorted_lookup before)).
  destruct Hb as [_ Hb]. specialize (Hb e He). lia.
Qed.

Lemma seg_ok_keys fs segs : Forall2 seg_ok fs segs -> fs.*1 = segs.*1.
Proof. induction 1 as [|f sc fs segs [E _] _ IH]; csimpl; [done|by rewrite E, IH]. Qed.

Lemma read_on_disk j es tail s :
  on_disk j es tail -> clean tail ->
  result_map je_event <$> fj_entries j s = Ok <$> filter (fun e => s <= sequence_num e) es.
Proof.
  intros Hd Hcl. destruct (clean_files _ _ _ Hd Hcl) as (segs & Hsegs & Hso & _ & ->).
  unfold fj_entries, list_segments. set (k := start_idx _ s).
  assert (Hitems : (fun s0 => segment_items (S (length (segment_bytes s0 (dir j)))) (segment_bytes s0 (dir j)) 0)
      <$> drop k (sm_iter (dir j)).*1 = file_items <$> drop k (sm_iter (dir j))).
  { rewrite <- fmap_drop, <- list_fmap_compose. apply list_fmap_ext. intros i [s0 data] Hi. simpl.
    rewrite (segment_bytes_elem _ s0 data); [done|]. apply list_elem_of_lookup_2 in Hi.
    eapply subseteq_drop, Hi. }
  cbv zeta. rewrite Hitems. pose proof (seg_ok_keys _ _ Hsegs) as Hk.
  rewrite (wanted_filter s _ (concat (drop k segs).*2)); [|apply files_items_ok; by apply Forall2_drop].
  rewrite <- (take_drop k segs) at 2. rewrite fmap_app, concat_app, filter_app.
  unfold k. rewrite Hk at 2. by rewrite skipped_segments.
Qed.

Lemma verify_on_disk j es tail : on_disk j es tail -> clean tail -> verify_integrity j = Ok tt.
Proof.
  intros Hd Hcl. destruct (clean_files _ _ _ Hd Hcl) as (segs & Hsegs & _). unfold verify_integrity.
  induction Hsegs as [|[s data] sc fs segs Hf _ IH]; [done|]. cbn [verify_segments].
  destruct Hf as (_ & bs & t & Hb & Ht & E). simpl in E. subst data.
  change (verify_data _ _ 0) with (verify_data (S (length (concat bs ++ t))) ([] ++ concat bs ++ t) (lenN ([] : list N))).
  by rewrite (verify_chunk _ _ _ Hb).
Qed.

(** ** Reopening *)

Lemma reopen_holds j es tail tail' d arch size :
  holds j es tail -> torn tail' ->
  d = <[writer_path j := take (N.to_nat (write_pos j)) (segment_bytes (writer_path j) (dir j)) ++ tail']> (dir j) ->
  holds (open_with_segment_size d arch size) es tail'.
Proof.
  intros (old & start & chunk & bs & [(fs & Efs & Hfs) Hch Hso Hst Hes (Hw1 & Hw2 & Hw3 & Hw4)] & Hl & Ha) Ht Hd.
  rewrite Hw1, Hw3, (segment_bytes_last _ _ _ _ Efs) in Hd. unfold lenN in Hd. rewrite Nat2N.id, take_app_length in Hd.
  assert (Ed : sm_iter d = fs ++ [(start, concat bs ++ tail')]) by (rewrite Hd; by eapply sm_iter_replace_last).
  assert (Elast : last (list_segments d) = Some start)
    by (unfold list_segments; rewrite Ed, fmap_app; apply last_snoc).
  unfold open_with_segment_size. rewrite Elast, (segment_bytes_last _ _ _ _ Ed). cbv zeta.
  pose proof (chunk_length _ _ Hch) as Hlen.
  assert (Ew : scan_write_position (concat bs ++ tail') (lenN (concat bs ++ tail')) = lenN (concat bs)).
  { apply (scan_write_chunk chunk bs tail' Hch []); [rewrite length_app; lia|done]. }
  assert (Es : scan_last_sequence (concat bs ++ tail') (lenN (concat bs)) = sequence_num <$> last es).
  { unfold scan_last_sequence. rewrite (scan_last_chunk chunk bs tail' Hch [] _ None) by (simpl; rewrite length_app; lia).
    rewrite Hes. destruct Ha as [Ha|Ha].
    - destruct Ha as [Ha _]. rewrite Ha in Hes. symmetry in Hes. apply app_eq_nil in Hes as [-> ->]. done.
    - destruct chunk as [|e0 chunk0 _] using rev_ind; [done|]. by rewrite app_assoc, !last_snoc. }
  rewrite Ew, Es. exists old, start, chunk, bs. split; [|done].
  split; [by exists fs|done..].
Qed.

(** ** The contract *)

(** [j] answers a reader as the in-memory journal of [es] does. *)
Definition same_journal j es : Prop :=
  (forall s, read_from j s = read_from {| journal_events := es |} s) /\
  last_sequence j = last_sequence {| journal_events := es |}.

Lemma holds_same j es tail : holds j es tail -> clean tail -> same_journal j es.
Proof.
  intros Hh Hcl. split.
  - intros s. simpl. f_equal. by rewrite (read_on_disk _ es tail) by (done || by apply holds_on_disk).
  - by destruct Hh as (? & ? & ? & ? & _ & Hl & _).
Qed.

(** A reopen after a clean shutdown finds the file it left. *)
Lemma reopen_clean j es tail arch size :
  holds j es tail -> clean tail -> holds (open_with_segment_size (dir j) arch size) es tail.
Proof.
  intros Hh Hcl. apply (reopen_holds j es tail tail); [done|by apply clean_torn|].
  destruct Hh as (old & start & chunk & bs & [(fs & Efs & Hfs) Hch Hso Hst Hes (Hw1 & Hw2 & Hw3 & Hw4)] & _).
  rewrite Hw1, Hw3, (segment_bytes_last _ _ _ _ Efs). unfold lenN. rewrite Nat2N.id, take_app_length.
  rewrite insert_id; [done|]. apply elem_of_sm_iter. rewrite Efs, elem_of_app. right. by left.
Qed.

(** C7.  The file journal implements the journal.  Events with increasing
    sequence numbers whose entries fit a segment, of a size that is a [u32],
    are all appended, through as many segment rotations as it takes; reading from any sequence then
    yields exactly what the in-memory journal of the same events yields, and
    so does the last sequence; the integrity check passes; and all of this
    holds again after the journal is closed and reopened. *)
Theorem file_journal_refines size size' es :
  size <= U32_MAX -> increasing es -> Forall (fits size) es ->
  exists j, append_all es (open_with_segment_size ∅ ∅ size) = (Ok tt, j) /\
    same_journal j es /\ verify_integrity j = Ok tt /\
    let reopened := open_with_segment_size (dir j) (archived j) size' in
    same_journal reopened es /\ verify_integrity reopened = Ok tt.
Proof.
  intros Hu Hinc Hfit.
  destruct (append_all_holds size es (open_with_segment_size ∅ ∅ size) [] (replicate (N.to_nat size) 0))
    as (j & tail & E & Hh & Hcl & _); try done.
  - apply open_fresh.
  - by eexists.
  - exists j. split; [done|]. pose proof (reopen_clean j es tail (archived j) size' Hh Hcl) as Hr.
    assert (Hall : forall j', holds j' es tail -> same_journal j' es /\ verify_integrity j' = Ok tt).
    { intros j' Hj. split; [by eapply holds_same|]. eapply verify_on_disk; [by apply holds_on_disk|done]. }
    cbv zeta. destruct (Hall j Hh), (Hall _ Hr). done.
Qed.

(** C24.  A torn tail is cut off on reopen.  Whatever a crash leaves after
    the last complete entry of the active segment, as long as it is not
    itself a good entry, the reopened journal reports the last complete
    entry as its last sequence; and when the next event's entry covers the
    damaged bytes, appending it gives a journal that reads back all the
    complete events and the new one and passes the integrity check. *)
Theorem torn_tail_recovered size es j tail d e bytes torn_bytes k :
  size <= U32_MAX -> increasing (es ++ [e]) -> Forall (fits size) es ->
  append_all es (open_with_segment_size ∅ ∅ size) = (Ok tt, j) ->
  tail = torn_bytes ++ replicate k 0 -> torn tail ->
  d = <[writer_path j := take (N.to_nat (write_pos j)) (segment_bytes (writer_path j) (dir j)) ++ tail]> (dir j) ->
  entry_of e bytes -> lenN torn_bytes <= lenN bytes -> lenN bytes <= lenN tail ->
  let reopened := open_with_segment_size d (archived j) size in
  last_sequence reopened = last_sequence {| journal_events := es |} /\
  exists j', fj_append e reopened = (Ok tt, j') /\ same_journal j' (es ++ [e]) /\ verify_integrity j' = Ok tt.
Proof.
  intros Hu Hinc Hfit Eapp Etail Htorn Hd He Hcover Hfits reopened.
  pose proof Hinc as (Hab & Hinc0 & _)%StronglySorted_app.
  destruct (append_all_holds size es (open_with_segment_size ∅ ∅ size) [] (replicate (N.to_nat size) 0))
    as (j0 & tail0 & E & Hh & Hcl & _); try done.
  { apply open_fresh. }
  { by eexists. }
  rewrite Eapp in E. injection E as <-.
  pose proof (reopen_holds j es tail0 tail d (archived j) size Hh Htorn Hd) as Hr. fold reopened in Hr.
  split; [by destruct Hr as (? & ? & ? & ? & _ & Hl & _)|].
  destruct (append_holds reopened es tail e bytes) as (j' & tail' & Ea & Hh' & _ & _ & _ & Ht'); try done.
  - by apply holds_on_disk.
  - intros e' He'. apply Hab; [done|by left].
  - eapply holds_start; [done|]. intros e' He'. apply Hab; [done|by left].
  - by left.
  - assert (Hct : clean tail').
    { rewrite Ht' by done. exists (k - (length bytes - length torn_bytes))%nat. rewrite Etail.
      unfold lenN in Hcover. rewrite drop_app_ge, drop_replicate by lia. done. }
    exists j'. split_and!; [done|by eapply holds_same|]. eapply verify_on_disk; [by apply holds_on_disk|done].
Qed.
End Entries.
