(* ===== verification/SegmentIterator.v ===== *)
(** * Reading a journal entry by entry (sequencer/file_journal.rs)

    [read_from] returns a lazy iterator over the segment files; [fj_entries]
    says what it yields in all.  This file models the iterator with its state
    and shows the two agree, that every call of [next] ends, and what happens
    when a segment disappears while it is being read.

    [fs] is the directory at the time of a call.  A mapped segment keeps its
    bytes, also when its file is moved away; entries appended while the
    iterator is under way are not considered.  The text of an operating
    system error is a parameter.  [segment_idx] stays within the length of a
    vector, so its checked addition succeeds. *)

From S2P Require Import Prelude Types PriceLevel OrderQuantity Fees Stp Clock Cache Risk OrderState Reject SkipMap Book WireFraming Matching Modifications MassCancel Operations Replay FileJournal.
From stdpp Require Import strings.
Local Open Scope N_scope.

Record SegmentIterator := {
  si_segments : list N;
  segment_idx : nat;
  si_offset : N;
  mmap : option (list N);
  si_start : N;
  started : bool;
}.

Section Iterator.
Context {PA : PriceLevelApi} {T : Type} {C : JournalCodec (SequencerEvent T)} (os_error : string).
Definition Item : Type := Result JournalError (JournalEntry (T := T)).
Implicit Types (fs : gmap N (list N)) (it : SegmentIterator) (data : list N).

(** The iterator [read_from] makes. *)
Definition read_from_iter (j : FileJournal) (sequence : N) : SegmentIterator :=
  let segments := list_segments (dir j) in
  {| si_segments := drop (start_idx segments sequence) segments; segment_idx := 0; si_offset := 0;
     mmap := None; si_start := sequence; started := false |}.

Definition load_next_segment fs it : Result JournalError bool * SegmentIterator :=
  match si_segments it !! segment_idx it with
  | None => (Ok false, it)
  | Some start_seq =>
      match fs !! start_seq with
      | None =>
          (Err (JIo os_error),
           {| si_segments := si_segments it; segment_idx := S (segment_idx it); si_offset := 0;
              mmap := mmap it; si_start := si_start it; started := started it |})
      | Some data =>
          (Ok true,
           {| si_segments := si_segments it; segment_idx := S (segment_idx it); si_offset := 0;
              mmap := Some data; si_start := si_start it; started := started it |})
      end
  end.

Definition decode_next_item it : option (Item * SegmentIterator) :=
  match mmap it with
  | None => None
  | Some data =>
      match decode_next data (si_offset it) with
      | None => None
      | Some (item, offset) =>
          Some (item, {| si_segments := si_segments it; segment_idx := segment_idx it; si_offset := offset;
                         mmap := mmap it; si_start := si_start it; started := started it |})
      end
  end.

(** The [loop] of [next]; [None] when the fuel is spent. *)
Fixpoint next_loop (fuel : nat) fs it : option (option Item * SegmentIterator) :=
  match fuel with
  | O => None
  | S fuel' =>
      match decode_next_item it with
      | Some (item, it') =>
          if wanted (si_start it') item then Some (Some item, it') else next_loop fuel' fs it'
      | None =>
          match load_next_segment fs it with
          | (Ok true, it') => next_loop fuel' fs it'
          | (Ok false, it') => Some (None, it')
          | (Err e, it') => Some (Some (Err e), it')
          end
      end
  end.

Definition set_started it : SegmentIterator :=
  {| si_segments := si_segments it; segment_idx := segment_idx it; si_offset := si_offset it;
     mmap := mmap it; si_start := si_start it; started := true |}.

Definition si_next (fuel : nat) fs it : option (option Item * SegmentIterator) :=
  if started it then next_loop fuel fs it
  else
    match load_next_segment fs (set_started it) with
    | (Ok true, it') => next_loop fuel fs it'
    | (Ok false, it') => Some (None, it')
    | (Err e, it') => Some (Some (Err e), it')
    end.

(** [collect]: the items up to the first [None], in at most [rounds] calls. *)
Fixpoint collect_items (rounds fuel : nat) fs it : option (list Item) :=
  match rounds with
  | O => None
  | S rounds' =>
      match si_next fuel fs it with
      | Some (Some item, it') => match collect_items rounds' fuel fs it' with
                                 | Some l => Some (item :: l) | None => None end
      | Some (None, _) => Some []
      | None => None
      end
  end.

(** ** What is left to yield *)

Definition items_at data (offset : N) : list Item := segment_items (S (length data)) data offset.
Definition segment_part fs (s : N) : list Item := items_at (segment_bytes s fs) 0.

Definition current it : list Item := match mmap it with Some data => items_at data (si_offset it) | None => [] end.
Definition to_come fs it : list Item := mjoin (segment_part fs <$> drop (segment_idx it) (si_segments it)).
Definition pending fs it : list Item :=
  filter (fun x => Is_true (wanted (si_start it) x)) (current it ++ to_come fs it).

(** A bound on the rounds of [next_loop]: an entry takes a byte at least. *)
Definition work fs it : nat :=
  match mmap it with Some data => length data - N.to_nat (si_offset it) | None => 0 end
  + sum_list_with (fun s => S (length (segment_bytes s fs))) (drop (segment_idx it) (si_segments it)).

(** The files of the segments still to come are there. *)
Definition present fs it : Prop := Forall (fun s => is_Some (fs !! s)) (drop (segment_idx it) (si_segments it)).

Lemma decode_next_advances data offset item offset' :
  decode_next data offset = Some (item, offset') -> offset < offset' /\ offset' <= lenN data.
Proof.
  unfold decode_next. repeat case_match; intros [= <- <-];
    repeat match goal with H : (_ =? _) = false |- _ => apply N.eqb_neq in H
                         | H : (_ <? _) = false |- _ => apply N.ltb_ge in H end; lia.
Qed.

(** Enough fuel is enough. *)
Lemma segment_items_fuel data f1 f2 : forall offset,
  (length data - N.to_nat offset < f1)%nat -> (length data - N.to_nat offset < f2)%nat ->
  segment_items f1 data offset = segment_items f2 data offset.
Proof.
  revert f2. induction f1 as [|f1 IH]; intros [|f2] offset H1 H2; try lia. simpl.
  destruct (decode_next data offset) as [[item offset']|] eqn:E; [|done].
  apply decode_next_advances in E. unfold lenN in E. f_equal. apply IH; lia.
Qed.

Lemma items_at_unfold data offset :
  items_at data offset = match decode_next data offset with
                         | None => []
                         | Some (item, offset') => item :: items_at data offset'
                         end.
Proof.
  unfold items_at at 1. simpl. destruct (decode_next data offset) as [[item offset']|] eqn:E; [|done].
  apply decode_next_advances in E. unfold lenN in E. f_equal. apply segment_items_fuel; lia.
Qed.

(** ** One round *)

Lemma decode_some it item it' : decode_next_item it = Some (item, it') ->
  current it = item :: current it' /\ si_segments it' = si_segments it /\ segment_idx it' = segment_idx it /\
  si_start it' = si_start it /\ started it' = started it /\ forall fs, (work fs it' < work fs it)%nat.
Proof.
  unfold decode_next_item, current, work. destruct (mmap it) as [data|] eqn:Em; [|done].
  destruct (decode_next data (si_offset it)) as [[x offset]|] eqn:E; [|done]. intros [= <- <-]. simpl.
  rewrite items_at_unfold, E. apply decode_next_advances in E. unfold lenN in E. split_and!; [done..|].
  intros fs. lia.
Qed.

Lemma decode_none it : decode_next_item it = None -> current it = [].
Proof.
  unfold decode_next_item, current. destruct (mmap it) as [data|]; [|done]. rewrite items_at_unfold.
  by destruct (decode_next data (si_offset it)) as [[]|].
Qed.

Lemma load_spec fs it : present fs it ->
  match load_next_segment fs it with
  | (Ok true, it') =>
      current it' ++ to_come fs it' = to_come fs it /\ (work fs it' < work fs it)%nat /\ present fs it' /\
      si_start it' = si_start it /\ started it' = started it
  | (Ok false, it') => it' = it /\ to_come fs it = []
  | (Err _, _) => False
  end.
Proof.
  unfold load_next_segment, present, to_come, work. intros Hp.
  destruct (si_segments it !! segment_idx it) as [s|] eqn:Es; [|by rewrite drop_ge by (by apply lookup_ge_None_1)].
  rewrite (drop_S _ _ _ Es) in *. apply Forall_cons in Hp as [[data Hd] Hp]. rewrite Hd.
  assert (Hb : segment_bytes s fs = data) by (unfold segment_bytes; by rewrite Hd).
  split_and!; [|simpl; rewrite Hb; lia|done|done|done].
  unfold current, segment_part. simpl. by rewrite Hb.
Qed.

Lemma next_loop_spec fs fuel : forall it, (work fs it < fuel)%nat -> present fs it ->
  exists r it', next_loop fuel fs it = Some (r, it') /\ present fs it' /\ (work fs it' <= work fs it)%nat /\
    started it' = started it /\
    match r with
    | None => pending fs it = [] /\ pending fs it' = []
    | Some x => pending fs it = x :: pending fs it'
    end.
Proof.
  induction fuel as [|fuel IH]; intros it Hf Hp; [lia|]. simpl.
  destruct (decode_next_item it) as [[item it1]|] eqn:Ed.
  - destruct (decode_some _ _ _ Ed) as (Hc & Hs & Hi & Hst & Hb & Hw). specialize (Hw fs).
    assert (Hp1 : present fs it1) by (unfold present; by rewrite Hs, Hi).
    assert (Hpend : pending fs it = (if wanted (si_start it1) item then [item] else []) ++ pending fs it1).
    { unfold pending, to_come. rewrite Hc, Hs, Hi, Hst. simpl. rewrite filter_cons.
      destruct (wanted (si_start it) item); by case_decide. }
    destruct (wanted (si_start it1) item).
    + exists (Some item), it1. split_and!; [done|done|lia|done|done].
    + destruct (IH it1 ltac:(lia) Hp1) as (r & it' & H1 & H2 & H3 & H4 & H5).
      exists r, it'. rewrite Hpend. split_and!; [done|done|lia|congruence|done].
  - apply decode_none in Ed. pose proof (load_spec fs it Hp) as Hl.
    destruct (load_next_segment fs it) as [[[]|e] it1]; [| |done].
    + destruct Hl as (Hc & Hw & Hp1 & Hst & Hb).
      destruct (IH it1 ltac:(lia) Hp1) as (r & it' & H1 & H2 & H3 & H4 & H5). exists r, it'.
      assert (Hpend : pending fs it = pending fs it1) by (unfold pending; by rewrite Ed, Hc, Hst).
      rewrite Hpend. split_and!; [done|done|lia|congruence|done].
    + destruct Hl as [-> Hc]. exists None, it.
      assert (Hpend : pending fs it = []) by (unfold pending; by rewrite Ed, Hc).
      split_and!; [done|done|lia|done|done..].
Qed.

(** Before the first call nothing is mapped. *)
Definition ready it : Prop := started it = false -> mmap it = None.

Lemma next_spec fs fuel it : (work fs it < fuel)%nat -> present fs it -> ready it ->
  exists r it', si_next fuel fs it = Some (r, it') /\ present fs it' /\ (work fs it' <= work fs it)%nat /\ ready it' /\
    match r with
    | None => pending fs it = [] /\ pending fs it' = []
    | Some x => pending fs it = x :: pending fs it'
    end.
Proof.
  intros Hf Hp Hr. unfold si_next. destruct (started it) eqn:Eb.
  - destruct (next_loop_spec fs fuel it Hf Hp) as (r & it' & H1 & H2 & H3 & H4 & H5). exists r, it'.
    split_and!; [done..| |done]. intros Hn. congruence.
  - pose proof (load_spec fs (set_started it) Hp) as Hl.
    assert (Hcur : current it = []) by (unfold current; by rewrite (Hr Eb)).
    destruct (load_next_segment fs (set_started it)) as [[[]|e] it1]; [| |done].
    + destruct Hl as (Hc & Hw & Hp1 & Hst & Hb). change (work fs (set_started it)) with (work fs it) in Hw.
      destruct (next_loop_spec fs fuel it1 ltac:(lia) Hp1) as (r & it' & H1 & H2 & H3 & H4 & H5). exists r, it'.
      assert (Hpend : pending fs it = pending fs it1) by (unfold pending; rewrite Hcur, Hc, Hst; done).
      rewrite Hpend. split_and!; [done|done|lia| |done]. intros Hn. rewrite H4, Hb in Hn. done.
    + destruct Hl as [-> Hc]. exists None, (set_started it).
      assert (Hpend : pending fs it = []) by (unfold pending; rewrite Hcur; exact (f_equal _ Hc)).
      split_and!; [done..| |done]. done.
Qed.

Lemma collect_spec fs fuel : forall rounds it, (length (pending fs it) < rounds)%nat ->
  (work fs it < fuel)%nat -> present fs it -> ready it -> collect_items rounds fuel fs it = Some (pending fs it).
Proof.
  induction rounds as [|rounds IH]; intros it Hn Hf Hp Hr; [lia|]. simpl.
  destruct (next_spec fs fuel it Hf Hp Hr) as (r & it' & -> & Hp' & Hw & Hr' & H).
  destruct r as [x|]; [|by destruct H as [-> _]]. rewrite H in *. simpl in Hn.
  by rewrite (IH it') by (done || lia).
Qed.

(** C15.  The lazy reader yields the journal.  Calling [next] on the iterator
    of [read_from] until it answers [None] yields exactly the entries that
    the journal holds from the sequence on, in order, as long as the segment
    files stay; every call ends after at most one round per byte and per
    segment that is left. *)
Theorem segment_iterator_exact j sequence rounds fuel :
  let it := read_from_iter j sequence in
  (length (fj_entries j sequence) < rounds)%nat -> (work (dir j) it < fuel)%nat ->
  collect_items rounds fuel (dir j) it = Some (fj_entries j sequence).
Proof.
  intros it Hn Hf. rewrite collect_spec; [done|exact Hn|exact Hf| |done].
  unfold present, it, read_from_iter. simpl. rewrite drop_0. apply Forall_drop. unfold list_segments.
  apply Forall_fmap, Forall_forall. intros [s data] Hin. apply elem_of_sm_iter in Hin. by eexists.
Qed.

(** When the file of the next segment is gone, the error is reported, but the
    position was already reset while the previous segment is still mapped:
    the calls that follow yield that segment's entries a second time. *)
Theorem lost_segment_repeats fs fuel it data s :
  started it = true -> mmap it = Some data -> decode_next (T := T) data (si_offset it) = None ->
  si_segments it !! segment_idx it = Some s -> fs !! s = None ->
  exists it', si_next (S fuel) fs it = Some (Some (Err (JIo os_error)), it') /\
    pending fs it' =
      filter (fun x => Is_true (wanted (si_start it) x)) (items_at data 0 ++ to_come fs it').
Proof.
  intros Hb Hm Hd Hs Hf. unfold si_next. rewrite Hb. simpl. unfold decode_next_item. rewrite Hm, Hd.
  unfold load_next_segment. rewrite Hs, Hf. eexists. split; [done|]. unfold pending, current. simpl. by rewrite Hm.
Qed.
End Iterator.
