(* ===== verification/CountingAllocator.v ===== *)
(** * The counting allocator (utils/counting_allocator.rs)

    A wrapper around an allocator that counts calls and bytes; the wrapped
    allocator is a parameter of the code and only sees the calls it would
    see anyway.  The difference of two snapshots measures exactly the calls
    between them. *)

From S2P Require Import Prelude.
Local Open Scope N_scope.

Record AllocSnapshot := {
  allocs : N;
  deallocs : N;
  bytes_allocated : N;
  bytes_deallocated : N;
}.

Definition alloc_counters_new : AllocSnapshot :=
  {| allocs := 0; deallocs := 0; bytes_allocated := 0; bytes_deallocated := 0 |}.

Definition since (s earlier : AllocSnapshot) : AllocSnapshot :=
  {| allocs := sat_sub (allocs s) (allocs earlier);
     deallocs := sat_sub (deallocs s) (deallocs earlier);
     bytes_allocated := sat_sub (bytes_allocated s) (bytes_allocated earlier);
     bytes_deallocated := sat_sub (bytes_deallocated s) (bytes_deallocated earlier) |}.

(** The wrapper's calls, with the sizes of their layouts. *)
Inductive AllocCall :=
| Alloc (size : N)
| AllocZeroed (size : N)
| Dealloc (size : N)
| Realloc (old_size new_size : N).

Definition count (n size : N) : N := wrapping_add U64_MAX n size.

Definition allocator_call (c : AllocCall) (s : AllocSnapshot) : AllocSnapshot :=
  match c with
  | Alloc size | AllocZeroed size =>
      {| allocs := count (allocs s) 1; deallocs := deallocs s;
         bytes_allocated := count (bytes_allocated s) size; bytes_deallocated := bytes_deallocated s |}
  | Dealloc size =>
      {| allocs := allocs s; deallocs := count (deallocs s) 1;
         bytes_allocated := bytes_allocated s; bytes_deallocated := count (bytes_deallocated s) size |}
  | Realloc old_size new_size =>
      {| allocs := count (allocs s) 1; deallocs := count (deallocs s) 1;
         bytes_allocated := count (bytes_allocated s) new_size;
         bytes_deallocated := count (bytes_deallocated s) old_size |}
  end.

Definition allocator_run (cs : list AllocCall) (s : AllocSnapshot) : AllocSnapshot :=
  foldl (fun s c => allocator_call c s) s cs.

(** What a call brings in and gives back. *)
Definition acquired (c : AllocCall) : option N :=
  match c with Alloc size | AllocZeroed size | Realloc _ size => Some size | Dealloc _ => None end.
Definition released (c : AllocCall) : option N :=
  match c with Dealloc size | Realloc size _ => Some size | _ => None end.

(** The counters from which no call of a window wraps them. *)
Definition headroom (cs : list AllocCall) (s : AllocSnapshot) : Prop :=
  allocs s + N.of_nat (length (omap acquired cs)) <= U64_MAX /\
  deallocs s + N.of_nat (length (omap released cs)) <= U64_MAX /\
  bytes_allocated s + sumN (fun n => n) (omap acquired cs) <= U64_MAX /\
  bytes_deallocated s + sumN (fun n => n) (omap released cs) <= U64_MAX.

Lemma count_small n size : n + size <= U64_MAX -> count n size = n + size.
Proof. intros H. unfold count, wrapping_add. apply N.mod_small. lia. Qed.

Lemma allocator_run_exact cs : forall s, headroom cs s ->
  allocator_run cs s =
    {| allocs := allocs s + N.of_nat (length (omap acquired cs));
       deallocs := deallocs s + N.of_nat (length (omap released cs));
       bytes_allocated := bytes_allocated s + sumN (fun n => n) (omap acquired cs);
       bytes_deallocated := bytes_deallocated s + sumN (fun n => n) (omap released cs) |}.
Proof.
  induction cs as [|c cs IH]; intros s (H1 & H2 & H3 & H4).
  - destruct s. simpl. by rewrite !N.add_0_r.
  - unfold allocator_run in *. simpl foldl. destruct c; csimpl in *; rewrite ?sumN_cons in *;
      (rewrite IH; [|unfold headroom; csimpl; rewrite ?count_small by lia; split_and!; lia]);
      csimpl; rewrite ?count_small by lia; f_equal; lia.
Qed.

(** A window is measured exactly: between two snapshots the difference is
    the number of allocating calls, of releasing calls (a reallocation is one
    of each) and the sums of their sizes, as long as no counter wraps. *)
Theorem alloc_window_exact cs s :
  headroom cs s ->
  since (allocator_run cs s) s =
    {| allocs := N.of_nat (length (omap acquired cs));
       deallocs := N.of_nat (length (omap released cs));
       bytes_allocated := sumN (fun n => n) (omap acquired cs);
       bytes_deallocated := sumN (fun n => n) (omap released cs) |}.
Proof. intros H. rewrite (allocator_run_exact _ _ H). unfold since, sat_sub. simpl. f_equal; lia. Qed.
