(* ===== verification/ImpliedVolatility.v ===== *)
(** * Implied volatility (implied_volatility/)

    The option parameters (types.rs), the Black-Scholes price and Greeks
    (black_scholes.rs), the Newton-Raphson and bisection solvers (solver.rs)
    and their use on a book's prices (integration.rs).  [f64::exp] and
    [f64::ln], whose precision the language leaves open, are the class
    [Libm]; all other operations are IEEE-754.  A panic, which only
    [f64::clamp] with bad bounds causes here, is [None].  The messages of
    [InvalidParams] are kept as tags. *)

From S2P Require Import Prelude Float64 Types PriceLevel OrderQuantity Fees Stp Clock Cache Risk OrderState Reject SkipMap Book Depth.
From stdpp Require Import strings.
Local Open Scope N_scope.

Class Libm := { f64_exp : f64 -> f64; f64_ln : f64 -> f64 }.

Declare Scope f64_scope.
Delimit Scope f64_scope with f64.
Infix "+" := f64_add : f64_scope.
Infix "-" := f64_sub : f64_scope.
Infix "*" := f64_mul : f64_scope.
Infix "/" := f64_div : f64_scope.
Notation "- x" := (f64_neg x) : f64_scope.
Infix "<?" := f64_ltb : f64_scope.
Infix "<=?" := f64_leb : f64_scope.
Local Open Scope f64_scope.

Definition f0 : f64 := f64_zero.
Definition f1 : f64 := f64_of_N 1.
Definition f2 : f64 := f64_of_N 2.
Definition half : f64 := f64_dec 5 1.

(** ** Types *)

Inductive OptionType := Call | Put.
Inductive PriceSource := MidPrice | WeightedMid | LastTrade.
Inductive IVQuality := High | Medium | Low | Interpolated.
#[global] Instance IVQuality_eq_dec : EqDecision IVQuality.
Proof. solve_decision. Defined.

Record IVParams := {
  spot : f64;
  strike : f64;
  time_to_expiry : f64;
  risk_free_rate : f64;
  option_type : OptionType;
}.

Definition intrinsic_value (p : IVParams) : f64 :=
  match option_type p with
  | Call => f64_max (spot p - strike p) f0
  | Put => f64_max (strike p - spot p) f0
  end.
Definition is_itm (p : IVParams) : bool := f0 <? intrinsic_value p.
Definition is_atm (p : IVParams) : bool := f64_abs (spot p - strike p) / strike p <? f64_dec 1 3.
Definition is_otm (p : IVParams) : bool := negb (is_itm p) && negb (is_atm p).

Record IVResult := {
  iv : f64;
  price_used : f64;
  spread_bps : f64;
  iterations : N;
  quality : IVQuality;
}.
Definition iv_percent (r : IVResult) : f64 := iv r * f64_of_N 100.
Definition is_high_quality (r : IVResult) : bool := bool_decide (quality r = High).
Definition is_acceptable_quality (r : IVResult) : bool :=
  match quality r with High | Medium => true | _ => false end.

Inductive InvalidReason :=
| NotFinite (field : string)
| SpotNotPositive | StrikeNotPositive | NegativeTime
| MarketPriceInvalid
| NonFiniteIteration.

Inductive IVError :=
| NoPriceAvailable
| SpreadTooWide (spread_bps threshold_bps : f64)
| CrossedBook (bid ask : f64)
| ConvergenceFailure (iterations : N) (last_iv : f64)
| InvalidParams (message : InvalidReason)
| PriceBelowIntrinsic (price intrinsic : f64)
| TimeToExpiryTooSmall (time_to_expiry min_time : f64)
| VolatilityOutOfBounds (volatility min_bound max_bound : f64).

(** ** Black-Scholes *)

Section BlackScholes.
Context {LM : Libm}.

Definition erf (x : f64) : f64 :=
  let A1 := f64_dec 254829592 9 in
  let A2 := - f64_dec 284496736 9 in
  let A3 := f64_dec 1421413741 9 in
  let A4 := - f64_dec 1453152027 9 in
  let A5 := f64_dec 1061405429 9 in
  let P := f64_dec 3275911 7 in
  let sign := if x <? f0 then - f1 else f1 in
  let x := f64_abs x in
  let t := f1 / (f1 + P * x) in
  let y := f1 - (((((A5 * t + A4) * t) + A3) * t + A2) * t + A1) * t * f64_exp (- x * x) in
  sign * y.

Definition norm_cdf (x : f64) : f64 := half * (f1 + erf (x / f64_SQRT_2)).
Definition norm_pdf (x : f64) : f64 := f64_exp (- half * x * x) / f64_sqrt (f2 * f64_PI).

Definition d1 (spot strike rate time vol : f64) : f64 :=
  let sqrt_time := f64_sqrt time in
  (f64_ln (spot / strike) + (rate + half * vol * vol) * time) / (vol * sqrt_time).
Definition d2 (d1 vol time : f64) : f64 := d1 - vol * f64_sqrt time.

Definition discount (p : IVParams) : f64 := f64_exp (- risk_free_rate p * time_to_expiry p).
Definition d1_of (p : IVParams) (vol : f64) : f64 :=
  d1 (spot p) (strike p) (risk_free_rate p) (time_to_expiry p) vol.

Definition price (p : IVParams) (vol : f64) : f64 :=
  if time_to_expiry p <=? f0 then intrinsic_value p
  else if vol <=? f0 then
    match option_type p with
    | Call => f64_max (spot p - strike p * discount p) f0
    | Put => f64_max (strike p * discount p - spot p) f0
    end
  else
    let d1 := d1_of p vol in
    let d2 := d2 d1 vol (time_to_expiry p) in
    match option_type p with
    | Call => spot p * norm_cdf d1 - strike p * discount p * norm_cdf d2
    | Put => strike p * discount p * norm_cdf (- d2) - spot p * norm_cdf (- d1)
    end.

Definition vega (p : IVParams) (vol : f64) : f64 :=
  if (time_to_expiry p <=? f0) || (vol <=? f0) then f0
  else spot p * norm_pdf (d1_of p vol) * f64_sqrt (time_to_expiry p).

Definition delta (p : IVParams) (vol : f64) : f64 :=
  if time_to_expiry p <=? f0 then
    match option_type p with
    | Call => if strike p <? spot p then f1 else f0
    | Put => if spot p <? strike p then - f1 else f0
    end
  else
    match option_type p with
    | Call => norm_cdf (d1_of p vol)
    | Put => norm_cdf (d1_of p vol) - f1
    end.

Definition gamma (p : IVParams) (vol : f64) : f64 :=
  if (time_to_expiry p <=? f0) || (vol <=? f0) then f0
  else norm_pdf (d1_of p vol) / (spot p * vol * f64_sqrt (time_to_expiry p)).

Definition theta (p : IVParams) (vol : f64) : f64 :=
  if (time_to_expiry p <=? f0) || (vol <=? f0) then f0
  else
    let d1 := d1_of p vol in
    let d2 := d2 d1 vol (time_to_expiry p) in
    let sqrt_time := f64_sqrt (time_to_expiry p) in
    let term1 := - spot p * norm_pdf d1 * vol / (f2 * sqrt_time) in
    let theta_annual :=
      match option_type p with
      | Call => term1 - risk_free_rate p * strike p * discount p * norm_cdf d2
      | Put => term1 + risk_free_rate p * strike p * discount p * norm_cdf (- d2)
      end in
    theta_annual / f64_of_N 365.

End BlackScholes.

(** ** The solvers *)

Record SolverConfig := {
  max_iterations : N;
  tolerance : f64;
  initial_guess : f64;
  min_iv : f64;
  max_iv : f64;
  min_vega : f64;
}.

Definition solver_default : SolverConfig :=
  {| max_iterations := 100; tolerance := f64_dec 1 8; initial_guess := f64_dec 25 2;
     min_iv := f64_dec 1 3; max_iv := f64_of_N 5; min_vega := f64_dec 1 10 |}.

Definition with_max_iterations (n : N) (c : SolverConfig) : SolverConfig :=
  {| max_iterations := n; tolerance := tolerance c; initial_guess := initial_guess c; min_iv := min_iv c;
     max_iv := max_iv c; min_vega := min_vega c |}.
Definition with_tolerance (t : f64) (c : SolverConfig) : SolverConfig :=
  {| max_iterations := max_iterations c; tolerance := t; initial_guess := initial_guess c; min_iv := min_iv c;
     max_iv := max_iv c; min_vega := min_vega c |}.
Definition with_initial_guess (g : f64) (c : SolverConfig) : SolverConfig :=
  {| max_iterations := max_iterations c; tolerance := tolerance c; initial_guess := g; min_iv := min_iv c;
     max_iv := max_iv c; min_vega := min_vega c |}.
Definition with_bounds (lo hi : f64) (c : SolverConfig) : SolverConfig :=
  {| max_iterations := max_iterations c; tolerance := tolerance c; initial_guess := initial_guess c; min_iv := lo;
     max_iv := hi; min_vega := min_vega c |}.

Definition MIN_TIME : f64 := f1 / (f64_of_N 365 * f64_of_N 24).

(** [validate_params]: [None] when the parameters are valid. *)
Definition validate_params (p : IVParams) : option IVError :=
  match find (fun nv => negb (f64_is_finite nv.2))
          [("spot"%string, spot p); ("strike"%string, strike p);
           ("time_to_expiry"%string, time_to_expiry p); ("risk_free_rate"%string, risk_free_rate p)] with
  | Some (name, _) => Some (InvalidParams (NotFinite name))
  | None =>
      if spot p <=? f0 then Some (InvalidParams SpotNotPositive)
      else if strike p <=? f0 then Some (InvalidParams StrikeNotPositive)
      else if time_to_expiry p <? f0 then Some (InvalidParams NegativeTime)
      else if time_to_expiry p <? MIN_TIME then Some (TimeToExpiryTooSmall (time_to_expiry p) MIN_TIME)
      else None
  end.

Definition smart_initial_guess (p : IVParams) (market_price : f64) : option f64 :=
  let sqrt_time := f64_sqrt (time_to_expiry p) in
  let bs_approx := market_price / (f64_dec 4 1 * spot p * sqrt_time) in
  f64_clamp bs_approx (f64_dec 5 2) f2.

(** The checks both solvers start with. *)
Definition check_inputs (p : IVParams) (market_price : f64) (c : SolverConfig) : option IVError :=
  match validate_params p with
  | Some e => Some e
  | None =>
      if negb (f64_is_finite market_price) || (market_price <=? f0)
      then Some (InvalidParams MarketPriceInvalid)
      else if market_price <? intrinsic_value p - tolerance c
      then Some (PriceBelowIntrinsic market_price (intrinsic_value p))
      else None
  end.

Section Solver.
Context {LM : Libm}.

(** The step of one iteration that did not converge, before the clamp. *)
Definition next_guess (p : IVParams) (c : SolverConfig) (guess diff : f64) : f64 :=
  let v := vega p guess in
  if f64_abs v <? min_vega c then
    if f0 <? diff then guess * f64_dec 9 1 else guess * f64_dec 11 1
  else
    let step := diff / v in
    let damped_step := if half <? f64_abs step then f64_signum step * half else step in
    guess - damped_step.

Fixpoint newton (rounds : nat) (iteration : N) (p : IVParams) (market_price : f64) (c : SolverConfig)
    (guess : f64) : option (Result IVError (f64 * N)) :=
  match rounds with
  | O => Some (Err (ConvergenceFailure (max_iterations c) guess))
  | S rounds =>
      let pr := price p guess in
      if negb (f64_is_finite pr) || negb (f64_is_finite guess)
      then Some (Err (InvalidParams NonFiniteIteration))
      else
        let diff := pr - market_price in
        if f64_abs diff <? tolerance c then
          if (guess <? min_iv c) || (max_iv c <? guess)
          then Some (Err (VolatilityOutOfBounds guess (min_iv c) (max_iv c)))
          else Some (Ok (guess, (iteration + 1)%N))
        else
          match f64_clamp (next_guess p c guess diff) (min_iv c) (max_iv c) with
          | None => None
          | Some guess => newton rounds (iteration + 1)%N p market_price c guess
          end
  end.

Definition first_guess (p : IVParams) (market_price : f64) (c : SolverConfig) : option f64 :=
  let guess :=
    if f64_abs (initial_guess c - f64_dec 25 2) <? f64_dec 1 10
    then smart_initial_guess p market_price else Some (initial_guess c) in
  match guess with Some g => f64_clamp g (min_iv c) (max_iv c) | None => None end.

Definition solve_iv (p : IVParams) (market_price : f64) (c : SolverConfig) :
    option (Result IVError (f64 * N)) :=
  match check_inputs p market_price c with
  | Some e => Some (Err e)
  | None =>
      match first_guess p market_price c with
      | None => None
      | Some guess => newton (N.to_nat (max_iterations c)) 0 p market_price c guess
      end
  end.

Fixpoint bisect (rounds : nat) (iteration : N) (p : IVParams) (market_price : f64) (c : SolverConfig)
    (low high : f64) : Result IVError (f64 * N) :=
  match rounds with
  | O => Err (ConvergenceFailure (max_iterations c) ((low + high) / f2))
  | S rounds =>
      let mid := (low + high) / f2 in
      let diff := price p mid - market_price in
      if (f64_abs diff <? tolerance c) || (high - low <? tolerance c) then Ok (mid, (iteration + 1)%N)
      else if f0 <? diff then bisect rounds (iteration + 1)%N p market_price c low mid
      else bisect rounds (iteration + 1)%N p market_price c mid high
  end.

Definition solve_iv_bisection (p : IVParams) (market_price : f64) (c : SolverConfig) : Result IVError (f64 * N) :=
  match check_inputs p market_price c with
  | Some e => Err e
  | None =>
      let price_low := price p (min_iv c) in
      let price_high := price p (max_iv c) in
      if (market_price <? price_low) || (price_high <? market_price) then
        Err (VolatilityOutOfBounds (if market_price <? price_low then min_iv c else max_iv c) (min_iv c) (max_iv c))
      else bisect (N.to_nat (max_iterations c)) 0 p market_price c (min_iv c) (max_iv c)
  end.

End Solver.

(** ** On a book *)

Definition HIGH_QUALITY_SPREAD_BPS : f64 := f64_of_N 100.
Definition MEDIUM_QUALITY_SPREAD_BPS : f64 := f64_of_N 500.
Definition ONE_SIDED_BPS : f64 := f64_of_N 10000.

Record IVConfig := {
  solver : SolverConfig;
  max_spread_bps : f64;
  price_scale : f64;
}.
Definition iv_config_default : IVConfig :=
  {| solver := solver_default; max_spread_bps := f64_of_N 1000; price_scale := f1 |}.
Definition with_max_spread (x : f64) (c : IVConfig) : IVConfig :=
  {| solver := solver c; max_spread_bps := x; price_scale := price_scale c |}.
Definition with_price_scale (x : f64) (c : IVConfig) : IVConfig :=
  {| solver := solver c; max_spread_bps := max_spread_bps c; price_scale := x |}.
Definition with_solver (s : SolverConfig) (c : IVConfig) : IVConfig :=
  {| solver := s; max_spread_bps := max_spread_bps c; price_scale := price_scale c |}.

Definition spread_to_quality (spread : f64) : IVQuality :=
  if spread <? HIGH_QUALITY_SPREAD_BPS then High
  else if spread <? MEDIUM_QUALITY_SPREAD_BPS then Medium
  else Low.

Definition reject_crossed_or_locked (bid_f ask_f : f64) : option IVError :=
  if ask_f <=? bid_f then Some (CrossedBook bid_f ask_f) else None.

Section Integration.
Context {PA : PriceLevelApi} {LM : Libm}.

Definition quantity_at_price (price : N) (side : Side) (b : OrderBook) : N :=
  match levels side b !! price with
  | Some lv => match pl_total_quantity lv with Ok q => q | Err _ => 0 end
  | None => 0
  end.

(** The [u64] sum wraps, as in a release build. *)
Definition weighted_mid_price_for_iv (bid ask : N) (scale : f64) (b : OrderBook) : f64 :=
  let bid_f := f64_of_N bid / scale in
  let ask_f := f64_of_N ask / scale in
  let bid_qty := quantity_at_price bid Buy b in
  let ask_qty := quantity_at_price ask Sell b in
  let total_qty := wrapping_add U64_MAX bid_qty ask_qty in
  if (total_qty =? 0)%N then (bid_f + ask_f) / f2
  else
    let bid_weight := f64_of_N ask_qty / f64_of_N total_qty in
    let ask_weight := f64_of_N bid_qty / f64_of_N total_qty in
    bid_f * bid_weight + ask_f * ask_weight.

(** The arms of the [match] on the two best prices. *)
Definition price_for_iv (source : PriceSource) (scale : f64) (best_bid best_ask : option N) (b : OrderBook) :
    Result IVError (f64 * f64) :=
  match best_bid, best_ask with
  | Some bid, Some ask =>
      let bid_f := f64_of_N bid / scale in
      let ask_f := f64_of_N ask / scale in
      match reject_crossed_or_locked bid_f ask_f with
      | Some e => Err e
      | None =>
          let mid := (bid_f + ask_f) / f2 in
          let spread := if f0 <? mid then ((ask_f - bid_f) / mid) * ONE_SIDED_BPS else f0 in
          let price :=
            match source with
            | MidPrice => mid
            | WeightedMid => weighted_mid_price_for_iv bid ask scale b
            | LastTrade => match get_last_trade_price b with Some p => f64_of_N p / scale | None => mid end
            end in
          Ok (price, spread)
      end
  | Some bid, None => Ok (f64_of_N bid / scale, ONE_SIDED_BPS)
  | None, Some ask => Ok (f64_of_N ask / scale, ONE_SIDED_BPS)
  | None, None => Err NoPriceAvailable
  end.

Definition extract_price_for_iv (source : PriceSource) (scale : f64) : ST OrderBook (Result IVError (f64 * f64)) :=
  let! bid := best_bid in
  let! ask := best_ask in
  sget (price_for_iv source scale bid ask).

(** What follows the extraction. *)
Definition iv_of_price (p : IVParams) (c : IVConfig) (price spread : f64) : option (Result IVError IVResult) :=
  if max_spread_bps c <? spread then Some (Err (SpreadTooWide spread (max_spread_bps c)))
  else
    let intrinsic := intrinsic_value p in
    if price <? intrinsic - tolerance (solver c) then Some (Err (PriceBelowIntrinsic price intrinsic))
    else
      let q := spread_to_quality spread in
      match solve_iv p price (solver c) with
      | None => None
      | Some (Err e) => Some (Err e)
      | Some (Ok (v, n)) =>
          Some (Ok {| iv := v; price_used := price; spread_bps := spread; iterations := n; quality := q |})
      end.

Definition implied_volatility_with_config (p : IVParams) (source : PriceSource) (c : IVConfig) :
    ST OrderBook (option (Result IVError IVResult)) :=
  let! r := extract_price_for_iv source (price_scale c) in
  sret (match r with Err e => Some (Err e) | Ok (price, spread) => iv_of_price p c price spread end).

Definition implied_volatility (p : IVParams) (source : PriceSource) : ST OrderBook (option (Result IVError IVResult)) :=
  implied_volatility_with_config p source iv_config_default.

Definition theoretical_price : IVParams -> f64 -> f64 := price.
Definition option_vega : IVParams -> f64 -> f64 := vega.
Definition option_delta : IVParams -> f64 -> f64 := delta.
Definition option_gamma : IVParams -> f64 -> f64 := gamma.
Definition option_theta : IVParams -> f64 -> f64 := theta.

End Integration.
