(* ===== verification/ImpliedVolatilityProps.v ===== *)
(** * Properties of the implied-volatility solvers

    What each outcome of the two solvers means, for every pair of
    exponential and logarithm, and what a volatility computed from a book is
    worth. *)

From S2P Require Import Prelude Float64 Types PriceLevel OrderQuantity Fees Stp Clock Cache Risk OrderState Reject SkipMap Book BookInv Depth ImpliedVolatility.
Local Open Scope N_scope.
Local Open Scope f64_scope.

Section SolverProps.
Context {LM : Libm}.

(** [v] reproduces the market price to within the tolerance. *)
Definition matches_price (p : IVParams) (m : f64) (c : SolverConfig) (v : f64) : Prop :=
  (f64_abs (price p v - m) <? tolerance c) = true.
Definition in_bounds (c : SolverConfig) (v : f64) : Prop :=
  (v <? min_iv c) = false /\ (max_iv c <? v) = false.

(** ** The estimates of the Newton-Raphson method *)

Definition clamped (c : SolverConfig) (x : f64) : f64 :=
  if x <? min_iv c then min_iv c else if max_iv c <? x then max_iv c else x.

(** The configured guess; where that is the default 0.25, the
    Brenner-Subrahmanyam approximation, kept within 0.05 and 2. *)
Definition start_estimate (p : IVParams) (m : f64) (c : SolverConfig) : f64 :=
  if f64_abs (initial_guess c - f64_dec 25 2) <? f64_dec 1 10 then
    let approx := m / (f64_dec 4 1 * spot p * f64_sqrt (time_to_expiry p)) in
    if approx <? f64_dec 5 2 then f64_dec 5 2 else if f2 <? approx then f2 else approx
  else initial_guess c.

(** Newton's step, cut to one half either way; a tenth up or down where vega
    is too small to divide by. *)
Definition newton_update (p : IVParams) (m : f64) (c : SolverConfig) (v : f64) : f64 :=
  let diff := price p v - m in
  if f64_abs (vega p v) <? min_vega c then v * (if f0 <? diff then f64_dec 9 1 else f64_dec 11 1)
  else
    let step := diff / vega p v in
    v - (if half <? step then half else if step <? - half then - half else step).

Fixpoint estimate (p : IVParams) (m : f64) (c : SolverConfig) (n : nat) : f64 :=
  clamped c match n with O => start_estimate p m c | S n => newton_update p m c (estimate p m c n) end.

(** The estimate and the price at it are numbers. *)
Definition usable (p : IVParams) (v : f64) : bool := f64_is_finite v && f64_is_finite (price p v).

Lemma clamp_clamped x c : (min_iv c <=? max_iv c) = true -> f64_clamp x (min_iv c) (max_iv c) = Some (clamped c x).
Proof.
  intros H. apply f64_ltb_swap in H as H'. unfold f64_clamp, clamped. rewrite H.
  destruct (x <? min_iv c); [by rewrite H'|done].
Qed.

Lemma estimate_in_bounds p m c n : (min_iv c <=? max_iv c) = true -> in_bounds c (estimate p m c n).
Proof. intros H. destruct n; cbn [estimate]; eapply f64_clamp_bounds; by apply clamp_clamped. Qed.

Lemma signum_cut step :
  (if half <? f64_abs step then f64_signum step * half else step) =
  (if half <? step then half else if step <? - half then - half else step).
Proof.
  destruct step as [s|s| |s m e]; [by destruct s|by destruct s; vm_compute|done|].
  destruct s; change (f64_abs (S754_finite _ m e)) with (S754_finite false m e).
  - change (half <? S754_finite true m e) with false.
    change (S754_finite true m e <? - half) with (- S754_finite false m e <? - half).
    rewrite <- (f64_ltb_opp half). by destruct (half <? _).
  - replace (S754_finite false m e <? - half) with false by (vm_compute; reflexivity).
    by destruct (half <? _).
Qed.

Lemma next_guess_update p m c v : next_guess p c v (price p v - m) = newton_update p m c v.
Proof.
  unfold next_guess, newton_update. cbv zeta. destruct (f64_abs (vega p v) <? min_vega c); [by destruct (f0 <? _)|].
  by rewrite signum_cut.
Qed.

Lemma first_guess_estimate p m c :
  first_guess p m c = if min_iv c <=? max_iv c then Some (estimate p m c 0) else None.
Proof.
  unfold first_guess. set (g := if _ <? _ then smart_initial_guess p m else _).
  assert (g = Some (start_estimate p m c)) as ->.
  { unfold g, start_estimate, smart_initial_guess, f64_clamp. destruct (_ <? f64_dec 1 10); [|done].
    replace (f64_dec 5 2 <=? f2) with true by (vm_compute; reflexivity).
    destruct (_ <? f64_dec 5 2); [|done]. by replace (f2 <? f64_dec 5 2) with false by (vm_compute; reflexivity). }
  destruct (min_iv c <=? max_iv c) eqn:E; [by apply clamp_clamped|by apply f64_clamp_panics].
Qed.

(** How the run of the solver ends that has looked at [k] estimates, none of
    which was the answer, and may look at [n]. *)
Definition ends_at (p : IVParams) (m : f64) (c : SolverConfig) (n k : nat) (r : Result IVError (f64 * N)) : Prop :=
  let v := estimate p m c k in
  (k = n /\ r = Err (ConvergenceFailure (max_iterations c) v)) \/
  ((k < n)%nat /\ usable p v = false /\ r = Err (InvalidParams NonFiniteIteration)) \/
  ((k < n)%nat /\ usable p v = true /\ matches_price p m c v /\ r = Ok (v, N.of_nat k + 1)%N).

Lemma newton_run rounds : forall i p m c,
  (min_iv c <=? max_iv c) = true ->
  exists k r, newton rounds (N.of_nat i) p m c (estimate p m c i) = Some r /\
    (i <= k)%nat /\ ends_at p m c (i + rounds) k r /\
    forall j, (i <= j < k)%nat -> usable p (estimate p m c j) = true /\ ~ matches_price p m c (estimate p m c j).
Proof.
  induction rounds as [|rounds IH]; intros i p m c Hlh.
  { exists i. eexists. split_and!; [done|lia|left; split; [lia|done]|]. intros j ?. lia. }
  set (v := estimate p m c i). cbn [newton].
  destruct (negb _ || negb _) eqn:Hf.
  { exists i. eexists. split_and!; [done|lia| |intros j ?; lia]. right. left. split_and!; [lia| |done].
    unfold usable. fold v. apply orb_true_iff in Hf as [Hf|Hf]; apply negb_true_iff in Hf; rewrite Hf; [apply andb_false_r|done]. }
  assert (Hu : usable p v = true).
  { apply orb_false_iff in Hf as [H1 H2]. apply negb_false_iff in H1, H2. unfold usable. by rewrite H1, H2. }
  destruct (f64_abs (price p v - m) <? tolerance c) eqn:Ht.
  - destruct (estimate_in_bounds p m c i Hlh) as [Hb1 Hb2]. fold v in Hb1, Hb2. rewrite Hb1, Hb2.
    exists i. eexists. split_and!; [done|lia| |intros j ?; lia]. right. right. split_and!; [lia|done|done|done].
  - rewrite next_guess_update, clamp_clamped by done. change (clamped c (newton_update p m c v)) with (estimate p m c (S i)).
    replace (N.of_nat i + 1)%N with (N.of_nat (S i)) by lia.
    destruct (IH (S i) p m c Hlh) as (k & r & E & Hk & He & Hj). exists k, r.
    split_and!; [done|lia|by replace (i + S rounds)%nat with (S i + rounds)%nat by lia|].
    intros j Hj'. destruct (decide (j = i)) as [->|Hne]; [|apply Hj; lia]. fold v. unfold matches_price. by rewrite Ht.
Qed.

Lemma solve_iv_spec p m c :
  check_inputs p m c = None -> (min_iv c <=? max_iv c) = true ->
  exists k r, solve_iv p m c = Some r /\ ends_at p m c (N.to_nat (max_iterations c)) k r /\
    forall j, (j < k)%nat -> usable p (estimate p m c j) = true /\ ~ matches_price p m c (estimate p m c j).
Proof.
  intros Hc Hlh. unfold solve_iv. rewrite Hc, first_guess_estimate, Hlh.
  destruct (newton_run (N.to_nat (max_iterations c)) 0 p m c Hlh) as (k & r & E & _ & He & Hj).
  exists k, r. split_and!; [exact E|exact He|]. intros j ?. apply Hj. lia.
Qed.

Lemma solve_iv_ok p m c v k : solve_iv p m c = Some (Ok (v, k)) ->
  f64_is_finite v = true /\ f64_is_finite (price p v) = true /\ in_bounds c v /\ matches_price p m c v /\
  (1 <= k <= max_iterations c)%N.
Proof.
  intros E. assert (Hc : check_inputs p m c = None /\ (min_iv c <=? max_iv c) = true).
  { unfold solve_iv in E. destruct (check_inputs p m c); [done|]. rewrite first_guess_estimate in E. by destruct (_ <=? _). }
  destruct Hc as [Hc Hlh]. destruct (solve_iv_spec p m c Hc Hlh) as (j & r & E' & He & _). rewrite E in E'.
  injection E' as <-. destruct He as [[_ [=]]|[(_ & _ & [=])|(Hj & Hu & Hm & [= -> ->])]].
  apply andb_true_iff in Hu as [H1 H2]. split_and!; [done|done|by apply estimate_in_bounds..|done|lia|lia].
Qed.


(** The bracket of the bisection: the model does not exceed the market at
    its lower end and exceeds it at its upper end, except where an end is
    still the configured bound. *)
Definition bracket (p : IVParams) (m : f64) (c : SolverConfig) (low high : f64) : Prop :=
  (low = min_iv c \/ (f0 <? price p low - m) = false) /\
  (high = max_iv c \/ (f0 <? price p high - m) = true).

Lemma bisect_outcome rounds : forall iteration p m c low high,
  bracket p m c low high ->
  match bisect rounds iteration p m c low high with
  | Ok (v, k) => exists low' high', bracket p m c low' high' /\ v = (low' + high') / f2 /\
      (matches_price p m c v \/ (high' - low' <? tolerance c) = true) /\
      (iteration < k <= iteration + N.of_nat rounds)%N
  | Err e => exists low' high', bracket p m c low' high' /\
      e = ConvergenceFailure (max_iterations c) ((low' + high') / f2)
  end.
Proof.
  induction rounds as [|rounds IH]; intros iteration p m c low high Hb; simpl; [by eauto|].
  set (mid := (low + high) / f2). destruct (_ || _) eqn:Hd.
  - exists low, high. apply orb_true_iff in Hd. split_and!; auto; lia.
  - assert (Hk : forall low' high', bracket p m c low' high' ->
      match bisect rounds (iteration + 1) p m c low' high' with
      | Ok (v, k) => exists low' high', bracket p m c low' high' /\ v = (low' + high') / f2 /\
          (matches_price p m c v \/ (high' - low' <? tolerance c) = true) /\
          (iteration < k <= iteration + N.pos (Pos.of_succ_nat rounds))%N
      | Err e => exists low' high', bracket p m c low' high' /\
          e = ConvergenceFailure (max_iterations c) ((low' + high') / f2)
      end).
    { intros low' high' Hb'. specialize (IH (iteration + 1)%N p m c low' high' Hb').
      destruct (bisect _ _ _ _ _ _ _) as [[v k]|e]; [|done].
      destruct IH as (l & h & H1 & H2 & H3 & H4). exists l, h. split_and!; auto; lia. }
    destruct Hb as [Hb1 Hb2]. destruct (f0 <? price p mid - m) eqn:Hs; apply Hk; split; auto.
Qed.

(** Every outcome of the bisection solver.  It answers after at most
    [max_iterations] rounds.  A volatility it returns is the middle of a
    bracket around the market price, and either reproduces the price to
    within the tolerance or comes from a bracket narrower than the
    tolerance; [VolatilityOutOfBounds] names the bound the market price is
    beyond. *)
Theorem solve_iv_bisection_outcomes p m c :
  match solve_iv_bisection p m c with
  | Ok (v, k) =>
      check_inputs p m c = None /\ (m <? price p (min_iv c)) = false /\ (price p (max_iv c) <? m) = false /\
      (1 <= k <= max_iterations c)%N /\
      exists low high, bracket p m c low high /\ v = (low + high) / f2 /\
        (matches_price p m c v \/ (high - low <? tolerance c) = true)
  | Err e =>
      check_inputs p m c = Some e \/
      (check_inputs p m c = None /\
       ((e = VolatilityOutOfBounds (min_iv c) (min_iv c) (max_iv c) /\ (m <? price p (min_iv c)) = true) \/
        (e = VolatilityOutOfBounds (max_iv c) (min_iv c) (max_iv c) /\ (price p (max_iv c) <? m) = true) \/
        exists low high, bracket p m c low high /\ e = ConvergenceFailure (max_iterations c) ((low + high) / f2)))
  end.
Proof.
  unfold solve_iv_bisection. destruct (check_inputs p m c) as [e|]; [by left|].
  destruct (m <? price p (min_iv c)) eqn:H1; simpl; [by auto|].
  destruct (price p (max_iv c) <? m) eqn:H2; [by auto 6|].
  pose proof (bisect_outcome (N.to_nat (max_iterations c)) 0 p m c (min_iv c) (max_iv c)) as H.
  specialize (H ltac:(split; auto)). destruct (bisect _ _ _ _ _ _ _) as [[v k]|e]; [|by auto].
  destruct H as (low & high & B1 & B2 & B3 & B4). split_and!; auto; [lia|lia|]. by exists low, high.
Qed.

(** ** Where the code misses its purpose *)

Lemma f64_nan_sub m : f64_sub S754_nan m = S754_nan.
Proof. by destruct m. Qed.
Lemma f64_nan_gt m : (m <? S754_nan) = false.
Proof. by destruct m as [s|s| |s mm e]; try destruct s. Qed.

(** The midpoints the bisection visits when it never lowers its upper end. *)
Fixpoint mids (n : nat) (low high : f64) : list f64 :=
  match n with
  | O => []
  | S n => let mid := (low + high) / f2 in mid :: mids n mid high
  end.
Fixpoint drift (n : nat) (iteration : N) (c : SolverConfig) (low high : f64) : option (f64 * N) :=
  match n with
  | O => None
  | S n =>
      let mid := (low + high) / f2 in
      if high - low <? tolerance c then Some (mid, (iteration + 1)%N) else drift n (iteration + 1)%N c mid high
  end.

Lemma bisect_drifts n : forall rounds iteration p m c low high r,
  (n <= rounds)%nat -> Forall (fun v => price p v = S754_nan) (mids n low high) ->
  drift n iteration c low high = Some r -> bisect rounds iteration p m c low high = Ok r.
Proof.
  induction n as [|n IH]; intros [|rounds] iteration p m c low high r Hn Hf H; simpl in *; try done; [lia|].
  apply Forall_cons in Hf as [Hmid Hf]. rewrite Hmid, f64_nan_sub. cbn [f64_abs SFabs].
  change (S754_nan <? tolerance c) with false. cbn [orb].
  destruct (high - low <? tolerance c); [by simplify_eq|].
  change (f0 <? S754_nan) with false. apply IH; [lia|done|done].
Qed.

(** The bisection accepts a model that yields no number.  Where the
    Black-Scholes price is a NaN at the bounds and at the points it visits,
    it does not fail as the Newton-Raphson solver does, but answers, after 30
    rounds with the default configuration, a volatility within 1e-8 of its
    upper bound 5.0, as if the option were priced. *)
Theorem bisection_accepts_nan p m :
  check_inputs p m solver_default = None ->
  Forall (fun v => price p v = S754_nan)
    (min_iv solver_default :: max_iv solver_default :: mids 30 (min_iv solver_default) (max_iv solver_default)) ->
  solve_iv_bisection p m solver_default = Ok (S754_finite false 5629499528971288 (-50), 30%N) /\
  (f64_of_N 5 - S754_finite false 5629499528971288 (-50) <? f64_dec 1 8) = true.
Proof.
  intros Hc [Hlo [Hhi Hf]%Forall_cons]%Forall_cons. split; [|vm_compute; reflexivity].
  unfold solve_iv_bisection. rewrite Hc, Hlo, Hhi, f64_nan_gt. change (S754_nan <? m) with false. cbn [orb].
  apply (bisect_drifts 30); [vm_compute; lia|exact Hf|vm_compute; reflexivity].
Qed.

End SolverProps.

(** ** On a book *)

Section BookProps.
Context {PA : PriceLevelApi} {LM : Libm}.

(** Only the cache may change, and the prices come from the true best levels. *)
Lemma extract_exact source scale b : cache_ok b ->
  (extract_price_for_iv source scale b).1 =
    price_for_iv source scale (sm_back (levels Buy b)) (sm_front (levels Sell b)) b /\
  quiet b (extract_price_for_iv source scale b).2.
Proof.
  intros Hc. unfold extract_price_for_iv, sbind, sget.
  pose proof (best_bid_exact b Hc) as H1. pose proof (quiet_best_bid b) as Q1.
  destruct (best_bid b) as [bid b1] eqn:E1. cbn [fst snd] in H1, Q1.
  pose proof (best_ask_exact b1 (proj2 Q1 Hc)) as H2. pose proof (quiet_best_ask b1) as Q2.
  destruct (best_ask b1) as [ask b2] eqn:E2. cbn [fst snd] in H2, Q2 |- *.
  assert (Q : quiet b b2) by by etransitivity. split; [|done].
  rewrite (same_core_levels _ _ _ (proj1 Q1)) in H2. subst bid ask.
   destruct Q as [Hs _].
  unfold price_for_iv, weighted_mid_price_for_iv, quantity_at_price. rewrite !(same_core_levels _ _ _ Hs).
  assert (Hl : get_last_trade_price b2 = get_last_trade_price b); [|by rewrite Hl].
  unfold best_ask, best_bid in *. repeat case_match; simplify_eq; done.
Qed.

(** A volatility computed from a book is worth its label.  On a book
    whose cached best prices are right, a result was computed from the true
    best bid and ask (from one of them on a one-sided book, labelled with a
    spread of 10,000 bps), which are neither crossed nor locked; its spread
    is within the configured maximum and decides its quality; its volatility
    is finite and in bounds and reproduces the price used; and the book is
    left as it was, its cache apart. *)
Theorem implied_volatility_sound p source c b r b' :
  cache_ok b -> implied_volatility_with_config p source c b = (Some (Ok r), b') ->
  quiet b b' /\
  price_for_iv source (price_scale c) (sm_back (levels Buy b)) (sm_front (levels Sell b)) b =
    Ok (price_used r, spread_bps r) /\
  (max_spread_bps c <? spread_bps r) = false /\ quality r = spread_to_quality (spread_bps r) /\
  f64_is_finite (iv r) = true /\ in_bounds (solver c) (iv r) /\
  matches_price p (price_used r) (solver c) (iv r) /\
  (1 <= iterations r <= max_iterations (solver c))%N.
Proof.
  intros Hc H. destruct (extract_exact source (price_scale c) b Hc) as [He Hq].
  unfold implied_volatility_with_config, sbind, sret in H.
  destruct (extract_price_for_iv source (price_scale c) b) as [[[pr sp]|e] b1] eqn:E1; simpl in He, Hq;
    injection H as H <-; [|done].
  unfold iv_of_price in H. destruct (max_spread_bps c <? sp) eqn:Es; [done|].
  destruct (pr <? _) eqn:Ei; [done|].
  destruct (solve_iv p pr (solver c)) as [[[v n]|e]|] eqn:Eo; [|done|done]. injection H as <-. simpl.
  apply solve_iv_ok in Eo as (H1 & _ & H3 & H4 & H5). split_and!; try done; try apply H3; try apply H5; by symmetry.
Qed.

End BookProps.
