(* ===== verification/Serialization.v ===== *)
(** * Event serialization (serialization.rs, book_change_event.rs)

    The events the listeners receive, the [EventSerializer] trait as a record
    of operations and its two implementations.  [serde_json] and [bincode]
    are the classes [SerdeJson] and [Bincode], one instance per event type:
    a decoder of [bincode] also reports how many bytes it read.  The laws say
    what the two crates document: a value that was encoded decodes to itself,
    and for [bincode] after exactly the bytes of its encoding, whatever
    follows them. *)

From S2P Require Import Prelude Types PriceLevel Fees.
From stdpp Require Import strings.
Local Open Scope N_scope.

Record PriceLevelChangedEvent := {
  ev_side : Side;
  ev_price : N;
  ev_quantity : N;
  ev_engine_seq : N;
}.

Inductive SerializationError :=
| Json (message : string)
| BincodeError (message : string)
| TrailingBytes (bytes_read len : N).

Class SerdeJson (E : Type) := {
  json_to_vec : E -> Result string (list N);
  json_from_slice : list N -> Result string E;
}.
Class Bincode (E : Type) := {
  encode_to_vec : E -> Result string (list N);
  decode_from_slice : list N -> Result string (E * N);
}.

Class SerdeJsonLaws (E : Type) {J : SerdeJson E} := {
  json_decodes : forall e bytes, json_to_vec e = Ok bytes -> json_from_slice bytes = Ok e;
}.
Class BincodeLaws (E : Type) {B : Bincode E} := {
  bincode_decodes : forall e bytes rest, encode_to_vec e = Ok bytes ->
    decode_from_slice (bytes ++ rest) = Ok (e, N.of_nat (length bytes));
}.

Definition map_err {E E' A} (f : E -> E') (r : Result E A) : Result E' A :=
  match r with Ok a => Ok a | Err e => Err (f e) end.

Section Serializers.
Context {PA : PriceLevelApi}.

Record EventSerializer := {
  serialize_trade : TradeResult -> Result SerializationError (list N);
  serialize_book_change : PriceLevelChangedEvent -> Result SerializationError (list N);
  deserialize_trade : list N -> Result SerializationError TradeResult;
  deserialize_book_change : list N -> Result SerializationError PriceLevelChangedEvent;
  content_type : string;
}.

Definition JsonEventSerializer `{SerdeJson TradeResult} `{SerdeJson PriceLevelChangedEvent} :
    EventSerializer :=
  {| serialize_trade := fun t => map_err Json (json_to_vec t);
     serialize_book_change := fun e => map_err Json (json_to_vec e);
     deserialize_trade := fun data => map_err Json (json_from_slice data);
     deserialize_book_change := fun data => map_err Json (json_from_slice data);
     content_type := "application/json" |}.

(** The body the two [deserialize_*] functions of [BincodeEventSerializer] share. *)
Definition bincode_deserialize {E} `{Bincode E} (data : list N) : Result SerializationError E :=
  match decode_from_slice data with
  | Err e => Err (BincodeError e)
  | Ok (value, bytes_read) =>
      if negb (bytes_read =? N.of_nat (length data))
      then Err (TrailingBytes bytes_read (N.of_nat (length data)))
      else Ok value
  end.

Definition BincodeEventSerializer `{Bincode TradeResult} `{Bincode PriceLevelChangedEvent} :
    EventSerializer :=
  {| serialize_trade := fun t => map_err BincodeError (encode_to_vec t);
     serialize_book_change := fun e => map_err BincodeError (encode_to_vec e);
     deserialize_trade := bincode_deserialize;
     deserialize_book_change := bincode_deserialize;
     content_type := "application/x-bincode" |}.

(** What a publisher and a consumer rely on. *)
Definition roundtrips (s : EventSerializer) : Prop :=
  (forall t bytes, serialize_trade s t = Ok bytes -> deserialize_trade s bytes = Ok t) /\
  (forall e bytes, serialize_book_change s e = Ok bytes -> deserialize_book_change s bytes = Ok e).

Lemma json_roundtrip {E} `{SerdeJsonLaws E} (e : E) bytes :
  map_err Json (json_to_vec e) = Ok bytes -> map_err Json (json_from_slice bytes) = Ok e.
Proof.
  destruct (json_to_vec e) as [b|] eqn:E1; intros [= ->]. by rewrite (json_decodes _ _ E1).
Qed.

(** Bytes that follow a payload are an error, never ignored. *)
Lemma bincode_trailing {E} `{BincodeLaws E} (e : E) bytes rest :
  encode_to_vec e = Ok bytes ->
  bincode_deserialize (bytes ++ rest) =
    match rest with
    | [] => Ok e
    | _ => Err (TrailingBytes (N.of_nat (length bytes)) (N.of_nat (length bytes + length rest)))
    end.
Proof.
  intros E1. unfold bincode_deserialize. rewrite (bincode_decodes _ _ rest E1), length_app.
  destruct rest as [|x rest]; simpl.
  - by rewrite Nat.add_0_r, N.eqb_refl.
  - destruct (N.eqb_spec (N.of_nat (length bytes)) (N.of_nat (length bytes + S (length rest)))); [lia|done].
Qed.

Lemma bincode_roundtrip {E} `{BincodeLaws E} (e : E) bytes :
  map_err BincodeError (encode_to_vec e) = Ok bytes -> bincode_deserialize bytes = Ok e.
Proof.
  destruct (encode_to_vec e) as [b|] eqn:E1; intros [= ->].
  by rewrite <- (app_nil_r bytes), (bincode_trailing _ _ [] E1).
Qed.

Lemma json_serializer_roundtrips `{SerdeJsonLaws TradeResult} `{SerdeJsonLaws PriceLevelChangedEvent} :
  roundtrips JsonEventSerializer.
Proof. split; intros ? ?; apply json_roundtrip. Qed.

(** The binary serializer round-trips every trade result and every
    book-change event it can encode, and a consumer that gets further bytes
    after a payload gets an error that counts them instead of a value. *)
Theorem bincode_serializer_strict `{BincodeLaws TradeResult} `{BincodeLaws PriceLevelChangedEvent} :
  roundtrips BincodeEventSerializer /\
  (forall t bytes x rest, serialize_trade BincodeEventSerializer t = Ok bytes ->
     deserialize_trade BincodeEventSerializer (bytes ++ x :: rest) =
       Err (TrailingBytes (N.of_nat (length bytes)) (N.of_nat (length bytes + S (length rest))))) /\
  (forall e bytes x rest, serialize_book_change BincodeEventSerializer e = Ok bytes ->
     deserialize_book_change BincodeEventSerializer (bytes ++ x :: rest) =
       Err (TrailingBytes (N.of_nat (length bytes)) (N.of_nat (length bytes + S (length rest))))).
Proof.
  split_and!; [split; intros ? ?; apply bincode_roundtrip| |]; intros v bytes x rest; simpl;
    (destruct (encode_to_vec v) as [b|] eqn:E1; intros [= ->]); by apply (bincode_trailing v bytes (x :: rest)).
Qed.

End Serializers.
