(* ===== verification/NatsTask.v ===== *)
(** * What the two NATS publishers share (nats.rs, nats_book_change.rs)

    Both publishers hand each event to a bounded channel and let one
    background task batch and publish.  This file holds what their code has
    in common: the publish of one message with retries, the channel, and the
    task as a transition system over its program points.  What a publisher
    brings (its configuration, its counters, its [flush_batch]) is the class
    [Publisher].

    A JetStream context is represented by what was asked of it so far, an
    activity log, and the server by a function that decides each attempt
    from that log and the message.  Timers are not modelled: a batch window
    may elapse at any moment.  Throttling only delays and is left out.
    [flush_batch] is one step: the listeners that may run meanwhile touch
    only the channel and two counters no flush reads. *)

From S2P Require Import Prelude.
From stdpp Require Import strings.
Local Open Scope N_scope.

(** [AtomicU64::fetch_add(1)]: the stored value wraps. *)
Definition fetch_add (x : N) : N := wrapping_add U64_MAX x 1.

(** ** Publishing one message *)

Inductive AttemptOutcome := Acked | AckFailed | PublishFailed.
#[global] Instance AttemptOutcome_eq_dec : EqDecision AttemptOutcome.
Proof. solve_decision. Defined.

Record Message := {
  msg_subject : string;
  msg_sequence : N;
  msg_content_type : option string;
  msg_payload : list N;
}.

Inductive Activity :=
| Attempt (m : Message) (o : AttemptOutcome)
| Sleep (ms : N).

Class JetStream := publish_with_headers : list Activity -> Message -> AttemptOutcome.

Definition BASE_RETRY_DELAY_MS : N := 10.

(** [1u64.checked_shl(shift)] *)
Definition checked_shl_one (shift : N) : option N := if shift <? 64 then Some (N.shiftl 1 shift) else None.

Definition retry_delay (attempt : N) : N :=
  let shift := N.min attempt 63 in
  sat_mul U64_MAX BASE_RETRY_DELAY_MS (default U64_MAX (checked_shl_one shift)).

Section Retry.
Context {JS : JetStream}.

(** The [for attempt in 0..max_attempts] loop, [rounds] rounds before its end. *)
Fixpoint publish_attempts (rounds : nat) (attempt max_attempts : N) (m : Message) (log : list Activity) :
    bool * list Activity :=
  match rounds with
  | O => (false, log)
  | S rounds =>
      let outcome := publish_with_headers log m in
      let log := log ++ [Attempt m outcome] in
      match outcome with
      | Acked => (true, log)
      | AckFailed | PublishFailed =>
          let log := if attempt + 1 <? max_attempts then log ++ [Sleep (retry_delay attempt)] else log in
          publish_attempts rounds (attempt + 1) max_attempts m log
      end
  end.

Definition publish_message (max_retries : N) (m : Message) (log : list Activity) : bool * list Activity :=
  let max_attempts := max_retries + 1 in
  publish_attempts (N.to_nat max_attempts) 0 max_attempts m log.

End Retry.

(** ** What a delivery looks like from the server *)

(** Refused attempts, each followed by its delay. *)
Fixpoint refusals (m : Message) (attempt : N) (os : list AttemptOutcome) : list Activity :=
  match os with
  | [] => []
  | o :: os => Attempt m o :: Sleep (retry_delay attempt) :: refusals m (attempt + 1) os
  end.

(** One message offered until it is acknowledged or the attempts are used up. *)
Definition delivery (max_retries : N) (m : Message) (ok : bool) (acts : list Activity) : Prop :=
  exists os o,
    Forall (fun o => o <> Acked) os /\
    acts = refusals m 0 os ++ [Attempt m o] /\
    ok = bool_decide (o = Acked) /\
    N.of_nat (length os) <= max_retries /\
    (ok = false -> N.of_nat (length os) = max_retries).

(** Messages offered one after the other, with the outcome of each. *)
Inductive session (max_retries : N) : list (Message * bool) -> list Activity -> Prop :=
| session_nil : session max_retries [] []
| session_snoc ds acts m ok acts' :
    session max_retries ds acts -> delivery max_retries m ok acts' ->
    session max_retries (ds ++ [(m, ok)]) (acts ++ acts').

Definition attempts_of (acts : list Activity) : list (Message * AttemptOutcome) :=
  omap (fun a => match a with Attempt m o => Some (m, o) | Sleep _ => None end) acts.

Section RetryProps.
Context {JS : JetStream}.

Lemma publish_attempts_spec rounds : forall attempt max_attempts m log ok log',
  max_attempts = attempt + N.of_nat rounds -> (0 < rounds)%nat ->
  publish_attempts rounds attempt max_attempts m log = (ok, log') ->
  exists os o, Forall (fun o => o <> Acked) os /\
    log' = log ++ refusals m attempt os ++ [Attempt m o] /\ ok = bool_decide (o = Acked) /\
    (length os < rounds)%nat /\ (ok = false -> S (length os) = rounds).
Proof.
  induction rounds as [|rounds IH]; intros attempt mx m log ok log' Hmx Hl E; [lia|]. simpl in E.
  assert (Hretry : forall o, publish_with_headers log m = o -> o <> Acked ->
    publish_attempts rounds (attempt + 1) mx m
      (if attempt + 1 <? mx then (log ++ [Attempt m o]) ++ [Sleep (retry_delay attempt)]
       else log ++ [Attempt m o]) = (ok, log') ->
    exists os o, Forall (fun o => o <> Acked) os /\
    log' = log ++ refusals m attempt os ++ [Attempt m o] /\ ok = bool_decide (o = Acked) /\
    (length os < S rounds)%nat /\ (ok = false -> S (length os) = S rounds)).
  { intros o _ Ho E2. destruct rounds as [|rounds].
    - simpl in E2. destruct (N.ltb_spec (attempt + 1) mx); [lia|]. injection E2 as <- <-.
      exists [], o. rewrite bool_decide_eq_false_2 by done. split_and!; simpl; auto.
    - destruct (N.ltb_spec (attempt + 1) mx); [|lia].
      destruct (IH (attempt + 1) mx m _ _ _ ltac:(lia) ltac:(lia) E2) as (os & o' & H1 & -> & H3 & H4 & H5).
      exists (o :: os), o'. split_and!; [by constructor| |done|simpl; lia|].
      + simpl. by rewrite <- !app_assoc.
      + intros Hok. simpl. by rewrite (H5 Hok). }
  destruct (publish_with_headers log m) eqn:Eo; [|by eapply Hretry; eauto..].
  injection E as <- <-. exists [], Acked. split_and!; simpl; auto; lia.
Qed.

Lemma publish_message_spec max_retries m log ok log' :
  publish_message max_retries m log = (ok, log') ->
  exists acts, log' = log ++ acts /\ delivery max_retries m ok acts.
Proof.
  intros E. apply publish_attempts_spec in E as (os & o & H1 & -> & H3 & H4 & H5); [|lia..].
  eexists. split; [done|]. exists os, o. split_and!; auto; [lia|]. intros Hok. specialize (H5 Hok). lia.
Qed.

Lemma session_app mr ds1 a1 ds2 a2 : session mr ds1 a1 -> session mr ds2 a2 -> session mr (ds1 ++ ds2) (a1 ++ a2).
Proof.
  intros H1. induction 1 as [|ds acts m ok acts' H IH Hd]; [by rewrite !app_nil_r|].
  rewrite !app_assoc. by constructor.
Qed.

Lemma session_one mr m ok acts : delivery mr m ok acts -> session mr [(m, ok)] acts.
Proof. intros H. apply (session_snoc mr [] []); [constructor|done]. Qed.

Lemma attempts_of_app l1 l2 : attempts_of (l1 ++ l2) = attempts_of l1 ++ attempts_of l2.
Proof. apply omap_app. Qed.

Lemma attempts_refusals m a os : attempts_of (refusals m a os) = (fun o => (m, o)) <$> os.
Proof.
  revert a. induction os as [|o os IH]; intros a; [done|]. change (attempts_of (refusals m a (o :: os))) with
    ((m, o) :: attempts_of (refusals m (a + 1) os)). by rewrite IH.
Qed.

Lemma retry_delay_le attempt : retry_delay attempt <= U64_MAX.
Proof. unfold retry_delay, sat_mul. apply N.le_min_l. Qed.

Lemma retry_delay_exact attempt : attempt <= 60 -> retry_delay attempt = 10 * 2 ^ attempt.
Proof.
  intros H. unfold retry_delay, checked_shl_one, sat_mul, BASE_RETRY_DELAY_MS.
  rewrite (N.min_l attempt 63) by lia. destruct (N.ltb_spec attempt 64); [|lia].
  unfold default. rewrite N.shiftl_1_l. apply N.min_r.
  assert (H2 : 2 ^ attempt <= 2 ^ 60) by (apply N.pow_le_mono_r; lia).
  transitivity (10 * 2 ^ 60); [lia|]. vm_compute. congruence.
Qed.

(** C35.  Publishing a message always comes to an end.  It makes between one
    and [max_retries + 1] attempts, all with that message, every one but the
    last refused, with the delay 10 * 2^i ms after attempt i (exact up to
    i = 60, and a [u64] however many retries are configured); it reports success exactly when the last
    attempt was acknowledged, and failure only after the last attempt
    allowed. *)
Theorem publish_retry_bounded max_retries m log :
  let '(ok, log') := publish_message max_retries m log in
  exists acts os o,
    log' = log ++ acts /\ attempts_of acts = ((fun o => (m, o)) <$> os) ++ [(m, o)] /\
    Forall (fun o => o <> Acked) os /\ (ok = true <-> o = Acked) /\
    N.of_nat (length os) + 1 <= max_retries + 1 /\
    (ok = false -> N.of_nat (length os) = max_retries) /\
    (forall i o', os !! i = Some o' ->
       acts !! (2 * i)%nat = Some (Attempt m o') /\
       acts !! (2 * i + 1)%nat = Some (Sleep (retry_delay (N.of_nat i)))) /\
    (forall i, retry_delay i <= U64_MAX /\ (i <= 60 -> retry_delay i = 10 * 2 ^ i)).
Proof.
  destruct (publish_message max_retries m log) as [ok log'] eqn:E.
  apply publish_message_spec in E as (acts & -> & os & o & H1 & -> & -> & H4 & H5).
  exists (refusals m 0 os ++ [Attempt m o]), os, o. split_and!; auto; [|by rewrite bool_decide_eq_true|lia| |].
  - by rewrite attempts_of_app, attempts_refusals.
  - clear. intros i o' Hi.
    assert (G : forall a, refusals m a os !! (2 * i)%nat = Some (Attempt m o') /\
      refusals m a os !! (2 * i + 1)%nat = Some (Sleep (retry_delay (a + N.of_nat i)))).
    { revert i Hi. induction os as [|x os IH]; intros [|i] Hi a; [done|done| |].
      - injection Hi as ->. simpl. split; [done|]. by rewrite N.add_0_r.
      - destruct (IH i Hi (a + 1)) as [G1 G2].
        replace (2 * S i)%nat with (S (S (2 * i)))%nat by lia.
        replace (S (S (2 * i)) + 1)%nat with (S (S (2 * i + 1)))%nat by lia. 
        split; [exact G1|]. transitivity (refusals m (a + 1) os !! (2 * i + 1)%nat); [done|].
        rewrite G2. do 3 f_equal. lia. }
    destruct (G 0) as [G1 G2]. rewrite N.add_0_l in G2.
    split; by apply lookup_app_l_Some.
  - intros i. split; [apply retry_delay_le|apply retry_delay_exact].
Qed.

End RetryProps.

(** ** The background task *)

Definition is_nil {A} (l : list A) : bool := match l with [] => true | _ => false end.

(** What the task and the listener closure use of a publisher: [E] are the
    channel's items, [B] the entries of a batch. *)
Class Publisher (P E B : Type) := {
  pub_channel_capacity : P -> N;
  pub_max_batch_size : P -> N;
  pub_entry : E -> B;
  count_received : P -> P;
  count_dropped : P -> P;
  pub_events_received : P -> N;
  pub_dropped_events : P -> N;
  (** [flush_batch], with the wall clock's reading: the batch vector it
      leaves and the publisher *)
  pub_flush : N -> list B -> P -> list B * P;
}.

(** What the task relies on: a flush takes the whole batch, an empty one
    costs nothing, the configuration is never written, and the counters of
    the listener are the listener's alone. *)
Class PublisherLaws (P E B : Type) {PU : Publisher P E B} := {
  flush_takes : forall now b p, (pub_flush now b p).1 = [];
  flush_empty : forall now p, pub_flush now [] p = ([], p);
  flush_config : forall now b p,
    pub_max_batch_size (pub_flush now b p).2 = pub_max_batch_size p /\
    pub_channel_capacity (pub_flush now b p).2 = pub_channel_capacity p;
  flush_counters : forall now b p,
    pub_events_received (pub_flush now b p).2 = pub_events_received p /\
    pub_dropped_events (pub_flush now b p).2 = pub_dropped_events p;
  count_config : forall p,
    pub_max_batch_size (count_received p) = pub_max_batch_size p /\
    pub_channel_capacity (count_received p) = pub_channel_capacity p /\
    pub_max_batch_size (count_dropped p) = pub_max_batch_size p /\
    pub_channel_capacity (count_dropped p) = pub_channel_capacity p;
  count_received_spec : forall p,
    pub_events_received (count_received p) = fetch_add (pub_events_received p) /\
    pub_dropped_events (count_received p) = pub_dropped_events p;
  count_dropped_spec : forall p,
    pub_events_received (count_dropped p) = pub_events_received p /\
    pub_dropped_events (count_dropped p) = fetch_add (pub_dropped_events p);
}.

(** Where the task stands: before the [select!], in the batch window, in the
    loop that follows a shutdown signal, past that loop with the receiver
    still alive, returned. *)
Inductive Phase := Waiting | Collecting | Draining | Leaving | Exited.
#[global] Instance Phase_eq_dec : EqDecision Phase.
Proof. solve_decision. Defined.

Inductive Action (E : Type) :=
(** the listener closure, [shutdown], the last sender dropped *)
| Listen (e : E)
| Shutdown
| DropListener
(** the task: the signal is seen, [recv] gives an item or reports the
    channel closed, the window elapses or the batch is full *)
| SeeSignal
| Recv
| SeeClosed (now : N)
| FlushNow (now : N)
(** the task: one [try_recv] that gives an item, the end of one
    [drain_buffered], the return *)
| DrainOne
| DrainEnd (now : N)
| Return.
Arguments Listen {E} e. Arguments Shutdown {E}. Arguments DropListener {E}.
Arguments SeeSignal {E}. Arguments Recv {E}. Arguments SeeClosed {E} now. Arguments FlushNow {E} now.
Arguments DrainOne {E}. Arguments DrainEnd {E} now. Arguments Return {E}.

Section Task.
Context {P E B : Type} {PU : Publisher P E B}.

Record Task := {
  phase : Phase;
  channel : list E;
  batch : list B;
  (** the [oneshot]: its sender is still in the [shutdown_tx] slot; it was sent *)
  shutdown_slot : bool;
  signalled : bool;
  senders : bool;
  publisher : P;
  (** history: the items the channel took and refused, the batches flushed,
      the items that were in the channel when the receiver went away *)
  accepted : list E;
  refused : list E;
  flushed : list (list B);
  lost : list E;
}.

(** [into_listener] *)
Definition into_listener (p : P) : Task :=
  {| phase := Waiting; channel := []; batch := []; shutdown_slot := true; signalled := false;
     senders := true; publisher := p; accepted := []; refused := []; flushed := []; lost := [] |}.

(** [try_send]: there is a receiver and a free slot. *)
Definition can_send (t : Task) : bool :=
  negb (bool_decide (phase t = Exited)) &&
  (N.of_nat (length (channel t)) <? pub_channel_capacity (publisher t)).

Definition listen (e : E) (t : Task) : Task :=
  let p := count_received (publisher t) in
  if can_send t then
    {| phase := phase t; channel := channel t ++ [e]; batch := batch t; shutdown_slot := shutdown_slot t;
       signalled := signalled t; senders := senders t; publisher := p; accepted := accepted t ++ [e];
       refused := refused t; flushed := flushed t; lost := lost t |}
  else
    {| phase := phase t; channel := channel t; batch := batch t; shutdown_slot := shutdown_slot t;
       signalled := signalled t; senders := senders t; publisher := count_dropped p; accepted := accepted t;
       refused := refused t ++ [e]; flushed := flushed t; lost := lost t |}.

(** The signal [shutdown] sends; a second call finds the slot empty. *)
Definition shutdown (t : Task) : Task :=
  {| phase := phase t; channel := channel t; batch := batch t; shutdown_slot := false;
     signalled := signalled t || shutdown_slot t; senders := senders t; publisher := publisher t;
     accepted := accepted t; refused := refused t; flushed := flushed t; lost := lost t |}.

Definition drop_listener (t : Task) : Task :=
  {| phase := phase t; channel := channel t; batch := batch t; shutdown_slot := shutdown_slot t;
     signalled := signalled t; senders := false; publisher := publisher t;
     accepted := accepted t; refused := refused t; flushed := flushed t; lost := lost t |}.

Definition move (ph : Phase) (t : Task) : Task :=
  {| phase := ph; channel := channel t; batch := batch t; shutdown_slot := shutdown_slot t;
     signalled := signalled t; senders := senders t; publisher := publisher t;
     accepted := accepted t; refused := refused t; flushed := flushed t; lost := lost t |}.

(** The oldest item leaves the channel for the batch. *)
Definition pull (ph : Phase) (t : Task) : option Task :=
  match channel t with
  | [] => None
  | e :: c =>
      Some {| phase := ph; channel := c; batch := batch t ++ [pub_entry e]; shutdown_slot := shutdown_slot t;
              signalled := signalled t; senders := senders t; publisher := publisher t;
              accepted := accepted t; refused := refused t; flushed := flushed t; lost := lost t |}
  end.

Definition flush (now : N) (t : Task) : Task :=
  let '(b, p) := pub_flush now (batch t) (publisher t) in
  {| phase := phase t; channel := channel t; batch := b; shutdown_slot := shutdown_slot t;
     signalled := signalled t; senders := senders t; publisher := p;
     accepted := accepted t; refused := refused t;
     flushed := (if is_nil (batch t) then flushed t else flushed t ++ [batch t]); lost := lost t |}.

(** Returning drops the receiver and what is still in the channel. *)
Definition leave (t : Task) : Task :=
  {| phase := Exited; channel := []; batch := batch t; shutdown_slot := shutdown_slot t;
     signalled := signalled t; senders := senders t; publisher := publisher t;
     accepted := accepted t; refused := refused t; flushed := flushed t; lost := lost t ++ channel t |}.

(** The top of the [loop]: only an empty batch waits. *)
Definition loop_top (t : Task) : Task := move (if is_nil (batch t) then Waiting else Collecting) t.

Definition batch_full (t : Task) : bool := pub_max_batch_size (publisher t) <=? N.of_nat (length (batch t)).
Definition closed (t : Task) : bool := negb (senders t) && is_nil (channel t).

Definition task_step (a : Action E) (t : Task) : option Task :=
  match a, phase t with
  | Listen e, _ => if senders t then Some (listen e t) else None
  | Shutdown, _ => Some (shutdown t)
  | DropListener, _ => Some (drop_listener t)
  (* [select! { biased; .. }] *)
  | SeeSignal, Waiting => if signalled t then Some (move Draining t) else None
  | Recv, Waiting => if signalled t then None else pull Collecting t
  | SeeClosed now, Waiting =>
      if negb (signalled t) && closed t then Some (leave (flush now t)) else None
  (* [while batch.len() < max_batch_size { timeout_at(deadline, rx.recv()) }] *)
  | Recv, Collecting => if batch_full t then None else pull Collecting t
  | SeeClosed now, Collecting =>
      if negb (batch_full t) && closed t then Some (leave (flush now t)) else None
  | FlushNow now, Collecting => Some (loop_top (flush now t))
  (* [loop { drain_buffered(..); if batch.is_empty() { break } flush_batch(..) }] *)
  | DrainOne, Draining => if batch_full t then None else pull Draining t
  | DrainEnd now, Draining =>
      if batch_full t || is_nil (channel t) then
        Some (if is_nil (batch t) then move Leaving t else flush now t)
      else None
  | Return, Leaving => Some (leave t)
  | _, _ => None
  end.

Fixpoint task_run (tr : list (Action E)) (t : Task) : option Task :=
  match tr with
  | [] => Some t
  | a :: tr => match task_step a t with Some t => task_run tr t | None => None end
  end.

End Task.
Arguments Task : clear implicits.
