(* ===== verification/NatsTaskProps.v ===== *)
(** * The background task of the NATS publishers: what every run keeps

    For any publisher that satisfies [PublisherLaws]: the bookkeeping of the
    channel and the batches on every interleaving of listeners, shutdown and
    task steps, and the end of the task after a shutdown. *)

From S2P Require Import Prelude NatsTask.
Local Open Scope N_scope.

Definition task_action {E} (a : Action E) : bool :=
  match a with Listen _ | Shutdown | DropListener => false | _ => true end.

Lemma fetch_add_count x n : x = N.of_nat n mod 2 ^ 64 -> fetch_add x = N.of_nat (S n) mod 2 ^ 64.
Proof.
  intros ->. unfold fetch_add, wrapping_add. change (U64_MAX + 1) with (2 ^ 64).
  rewrite N.Div0.add_mod_idemp_l. f_equal. lia.
Qed.

Section TaskProps.
Context {P E B : Type} {PU : Publisher P E B} {L : PublisherLaws P E B}.
Abbreviation Task := (Task P E B).

Lemma flush_batch_nil now (t : Task) : batch (flush now t) = [].
Proof.
  unfold flush. pose proof (flush_takes now (batch t) (publisher t)) as H.
  by destruct (pub_flush now (batch t) (publisher t)) as [b p].
Qed.

Lemma flush_fields now (t : Task) :
  phase (flush now t) = phase t /\ channel (flush now t) = channel t /\
  accepted (flush now t) = accepted t /\ refused (flush now t) = refused t /\ lost (flush now t) = lost t /\
  signalled (flush now t) = signalled t /\ senders (flush now t) = senders t /\
  flushed (flush now t) = (if is_nil (batch t) then flushed t else flushed t ++ [batch t]) /\
  publisher (flush now t) = (pub_flush now (batch t) (publisher t)).2.
Proof. unfold flush. destruct (pub_flush now (batch t) (publisher t)) as [b p]. by split_and!. Qed.

Lemma flush_concat now (t : Task) : concat (flushed (flush now t)) = concat (flushed t) ++ batch t.
Proof.
  destruct (flush_fields now t) as (_ & _ & _ & _ & _ & _ & _ & -> & _).
  destruct (batch t); simpl; [by rewrite app_nil_r|]. rewrite concat_app. simpl. by rewrite app_nil_r.
Qed.

(** Every step is one of these. *)
Inductive step_case (t : Task) : Task -> Prop :=
| case_listen e : step_case t (listen e t)
| case_shutdown : step_case t (shutdown t)
| case_drop : step_case t (drop_listener t)
| case_signal : phase t = Waiting -> signalled t = true -> step_case t (move Draining t)
| case_pull t' : phase t = Waiting \/ batch_full t = false -> (phase t = Waiting \/ phase t = Collecting) ->
    pull Collecting t = Some t' -> step_case t t'
| case_drain t' : batch_full t = false -> phase t = Draining -> pull Draining t = Some t' -> step_case t t'
| case_closed now : phase t = Waiting \/ phase t = Collecting -> closed t = true ->
    step_case t (leave (flush now t))
| case_flush now : phase t = Collecting -> step_case t (loop_top (flush now t))
| case_empty : phase t = Draining -> batch t = [] -> batch_full t || is_nil (channel t) = true ->
    step_case t (move Leaving t)
| case_drain_flush now : phase t = Draining -> batch t <> [] -> step_case t (flush now t)
| case_return : phase t = Leaving -> step_case t (leave t).

Lemma task_step_case a (t t' : Task) : task_step a t = Some t' -> step_case t t'.
Proof.
  unfold task_step. destruct a, (phase t) eqn:Hp; intros H; try discriminate H;
    try (injection H as <-; by econstructor);
    repeat match type of H with (if ?c then _ else _) = _ => destruct c eqn:? end; simplify_eq;
    try (apply andb_true_iff in Heqb as [_ ?]); try (by econstructor; eauto).
  all: destruct (batch t) eqn:Hb; simpl; [by apply case_empty|by apply case_drain_flush; rewrite ?Hb].
Qed.

Definition batch_bound (t : Task) : N := N.max 1 (pub_max_batch_size (publisher t)).

Record task_ok (t : Task) : Prop := {
  ok_items : exists es, accepted t = es ++ channel t ++ lost t /\
    pub_entry <$> es = concat (flushed t) ++ batch t;
  ok_batch : phase t = Waiting \/ phase t = Leaving \/ phase t = Exited -> batch t = [];
  ok_size : N.of_nat (length (batch t)) <= batch_bound t;
  ok_sizes : Forall (fun b => b <> [] /\ N.of_nat (length b) <= batch_bound t) (flushed t);
  ok_channel : N.of_nat (length (channel t)) <= pub_channel_capacity (publisher t);
  ok_running : phase t <> Exited -> lost t = [];
  ok_exited : phase t = Exited -> channel t = [];
  ok_received : pub_events_received (publisher t) =
    N.of_nat (length (accepted t) + length (refused t)) mod 2 ^ 64;
  ok_dropped : pub_dropped_events (publisher t) = N.of_nat (length (refused t)) mod 2 ^ 64;
}.

Lemma into_listener_ok p :
  pub_events_received p = 0 -> pub_dropped_events p = 0 -> task_ok (into_listener p).
Proof.
  intros H1 H2. split; simpl; try done; try lia. by exists [].
Qed.

Lemma flush_publisher now (t : Task) :
  batch_bound (flush now t) = batch_bound t /\
  pub_channel_capacity (publisher (flush now t)) = pub_channel_capacity (publisher t) /\
  pub_events_received (publisher (flush now t)) = pub_events_received (publisher t) /\
  pub_dropped_events (publisher (flush now t)) = pub_dropped_events (publisher t).
Proof.
  unfold batch_bound. destruct (flush_fields now t) as (_ & _ & _ & _ & _ & _ & _ & _ & ->).
  destruct (flush_config now (batch t) (publisher t)) as [-> ->].
  by destruct (flush_counters now (batch t) (publisher t)) as [-> ->].
Qed.

Lemma flush_ok now (t : Task) : task_ok t -> task_ok (flush now t).
Proof.
  intros [(es & H1 & H1') H2 H3 H4 H5 H6 H7 H8 H9].
  pose proof (flush_batch_nil now t) as Hb. pose proof (flush_concat now t) as Hc.
  destruct (flush_fields now t) as (E1 & E2 & E3 & E4 & E5 & _ & _ & E6 & _).
  destruct (flush_publisher now t) as (F1 & F2 & F3 & F4).
  split; rewrite ?E1, ?E2, ?E3, ?E4, ?E5, ?F1, ?F2, ?F3, ?F4, ?Hb; auto; try done.
  - exists es. split; [done|]. by rewrite Hc, app_nil_r.
  - simpl. lia.
  - rewrite E6. destruct (batch t) eqn:Et; simpl; [done|].
    apply Forall_app. split; [done|]. by repeat constructor.
Qed.

(** Moving the program point, or the receiver going away, with an empty
    batch. *)
Lemma move_ok ph (t : Task) : task_ok t -> batch t = [] \/ ph = Collecting \/ ph = Draining ->
  ph <> Exited -> phase t <> Exited -> task_ok (move ph t).
Proof.
  intros [H1 H2 H3 H4 H5 H6 H7 H8 H9] Hb Hn He. split; simpl; auto; [|done].
  destruct Hb as [?|[->| ->]]; [done| |]; intros [?|[?|?]]; done.
Qed.

Lemma leave_ok (t : Task) : task_ok t -> batch t = [] -> task_ok (leave t).
Proof.
  intros [(es & H1 & H1') H2 H3 H4 H5 H6 H7 H8 H9] Hb. split; simpl; auto; try done; [|lia].
  exists es. split; [|done]. rewrite H1. f_equal. destruct (decide (phase t = Exited)) as [He|He].
  - by rewrite (H7 He), app_nil_r.
  - by rewrite (H6 He), app_nil_r.
Qed.

Lemma pull_ok ph (t t' : Task) : task_ok t -> pull ph t = Some t' -> phase t <> Exited ->
  ph = Collecting \/ ph = Draining -> batch t = [] \/ batch_full t = false -> task_ok t'.
Proof.
  intros [(es & H1 & H1') H2 H3 H4 H5 H6 H7 H8 H9] E1 He Hph Hb. unfold pull in E1.
  destruct (channel t) as [|e c] eqn:Ec; simplify_eq. split; simpl in *; auto.
  - exists (es ++ [e]). rewrite <- app_assoc. split; [done|]. by rewrite fmap_app, H1', <- app_assoc.
  - destruct Hph as [->| ->]; intros [?|[?|?]]; done.
  - rewrite length_app. unfold batch_bound. simpl. destruct Hb as [->|Hb]; simpl; [lia|].
    unfold batch_full in Hb. bool_prop. lia.
  - lia.
  - destruct Hph as [->| ->]; done.
Qed.

Lemma listen_ok e (t : Task) : task_ok t -> task_ok (listen e t).
Proof.
  intros [(es & H1 & H1') H2 H3 H4 H5 H6 H7 H8 H9]. unfold listen.
  destruct (count_config (publisher t)) as (C1 & C2 & _ & _).
  destruct (count_config (count_received (publisher t))) as (_ & _ & C3 & C4).
  destruct (count_received_spec (publisher t)) as [R1 R2].
  destruct (count_dropped_spec (count_received (publisher t))) as [D1 D2].
  assert (Hr : fetch_add (pub_events_received (publisher t)) =
    N.of_nat (S (length (accepted t) + length (refused t))) mod 2 ^ 64) by by apply fetch_add_count.
  destruct (can_send t) eqn:Ec.
  - unfold can_send in Ec. bool_prop. apply bool_decide_eq_false in H.
    split; unfold batch_bound; simpl; rewrite ?C1, ?C2, ?R1, ?R2; auto; try done.
    + exists es. split; [|done]. rewrite H1, (H6 H), !app_nil_r. by rewrite app_assoc.
    + rewrite length_app. simpl. lia.
    + rewrite length_app, Hr. f_equal. simpl. lia.
  - split; unfold batch_bound; simpl; rewrite ?C3, ?C4, ?C1, ?C2, ?D1, ?D2, ?R1, ?R2; auto.
    + by exists es.
    + rewrite length_app, Hr. f_equal. simpl. lia.
    + rewrite (fetch_add_count _ _ H9), length_app. f_equal. simpl. lia.
Qed.

Lemma step_ok (t t' : Task) : task_ok t -> step_case t t' -> task_ok t'.
Proof.
  intros H. destruct 1 as [e| | |Hp Hs|t' Hb Hp Ep|t' Hb Hp Ep|now Hp Hc|now Hp|Hp Hb Hc|now Hp Hb|Hp].
  - by apply listen_ok.
  - by destruct H; split.
  - by destruct H; split.
  - apply move_ok; auto; congruence.
  - eapply (pull_ok Collecting t); eauto; [by destruct Hp; congruence|].
    destruct Hb as [Hb|Hb]; [left; apply H; auto|auto].
  - eapply (pull_ok Draining t); eauto. congruence.
  - apply leave_ok; [by apply flush_ok|apply flush_batch_nil].
  - unfold loop_top. rewrite (flush_batch_nil now t).
    apply move_ok; [by apply flush_ok|left; apply flush_batch_nil|done|].
    destruct (flush_fields now t) as (-> & _). congruence.
  - apply move_ok; auto; congruence.
  - by apply flush_ok.
  - apply leave_ok; [done|]. apply H. auto.
Qed.

Lemma run_case (I : Task -> Prop) tr (t t' : Task) :
  (forall t t', I t -> step_case t t' -> I t') -> I t -> task_run tr t = Some t' -> I t'.
Proof.
  intros Hs. revert t. induction tr as [|a tr IH]; intros t Ht E1; simpl in E1; [by simplify_eq|].
  destruct (task_step a t) as [t1|] eqn:E2; [|done].
  eapply IH; [|done]. eapply Hs; [done|]. by eapply task_step_case.
Qed.

Lemma run_ok tr (t t' : Task) : task_ok t -> task_run tr t = Some t' -> task_ok t'.
Proof. apply run_case. exact step_ok. Qed.

(** What holds of a publisher and the batches it has flushed holds in every
    state of a run. *)
Lemma run_history (I : list (list B) -> P -> Prop) tr (t t' : Task) :
  (forall now fl b p, b <> [] -> I fl p -> I (fl ++ [b]) (pub_flush now b p).2) ->
  (forall fl p, I fl p -> I fl (count_received p)) -> (forall fl p, I fl p -> I fl (count_dropped p)) ->
  I (flushed t) (publisher t) -> task_run tr t = Some t' -> I (flushed t') (publisher t').
Proof.
  intros Hf Hr Hd. apply (run_case (fun t => I (flushed t) (publisher t))). clear t t'.
  assert (Hfl : forall now t, I (flushed t) (publisher t) ->
    I (flushed (flush now t)) (publisher (flush now t))).
  { intros now t Ht. destruct (flush_fields now t) as (_ & _ & _ & _ & _ & _ & _ & -> & ->).
    destruct (batch t) eqn:Eb; simpl; [by rewrite flush_empty|]. by apply Hf. }
  intros t t' Ht. destruct 1; auto.
  - unfold listen. destruct (can_send t); simpl; auto.
  - unfold pull in *. by destruct (channel t); simplify_eq.
  - unfold pull in *. by destruct (channel t); simplify_eq.
  - simpl. by apply Hfl.
  - by apply (Hfl now).
Qed.

(** ** What a shutdown loses *)

(** The items accepted by the channel after the task's last look at it. *)
Definition late1 (a : Action E) (t : Task) : list E :=
  match a, phase t with
  | Listen e, Leaving => if can_send t then [e] else []
  | _, _ => []
  end.
Fixpoint late (tr : list (Action E)) (t : Task) : list E :=
  match tr with
  | [] => []
  | a :: tr => late1 a t ++ match task_step a t with Some t => late tr t | None => [] end
  end.

(** The items accepted by the channel during a run. *)
Definition arrival (a : Action E) (t : Task) : list E :=
  match a with Listen e => if can_send t then [e] else [] | _ => [] end.
Fixpoint arrivals (tr : list (Action E)) (t : Task) : list E :=
  match tr with
  | [] => []
  | a :: tr => arrival a t ++ match task_step a t with Some t => arrivals tr t | None => [] end
  end.

(** How many steps of a run are the task's. *)
Definition own_steps (tr : list (Action E)) : nat := length (filter task_action tr).

Definition stranded (t : Task) : list E :=
  match phase t with Leaving | Exited => channel t ++ lost t | _ => [] end.

Lemma max_batch_kept a (t t' : Task) : task_step a t = Some t' ->
  pub_max_batch_size (publisher t') = pub_max_batch_size (publisher t).
Proof.
  intros H%task_step_case.
  assert (Hf : forall now, pub_max_batch_size (publisher (flush now t)) = pub_max_batch_size (publisher t)).
  { intros now. destruct (flush_fields now t) as (_ & _ & _ & _ & _ & _ & _ & _ & ->). apply flush_config. }
  destruct H; simpl; auto; try (unfold pull in *; by destruct (channel t); simplify_eq).
  unfold listen. destruct (count_config (publisher t)) as (C1 & _ & _ & _).
  destruct (count_config (count_received (publisher t))) as (_ & _ & C2 & _).
  destruct (can_send t); simpl; congruence.
Qed.

Lemma stranded_step a (t t' : Task) : task_ok t -> 0 < pub_max_batch_size (publisher t) ->
  task_step a t = Some t' -> stranded t' = stranded t ++ late1 a t.
Proof.
  intros Hok Hmax H. destruct a as [e| | | | | | | | |].
  - simpl in H. destruct (senders t); simplify_eq. unfold stranded, late1, listen, can_send.
    destruct (phase t) eqn:Hp; try (by repeat case_match).
    + destruct (_ && _); simpl; [|by rewrite app_nil_r].
      rewrite (ok_running _ Hok) by congruence. by rewrite !app_nil_r.
    + rewrite bool_decide_eq_true_2 by done. simpl. by rewrite app_nil_r.
  - simpl in H. simplify_eq. unfold stranded, late1. simpl. by rewrite app_nil_r.
  - simpl in H. simplify_eq. unfold stranded, late1. simpl. by rewrite app_nil_r.
  - simpl in H. repeat case_match; simplify_eq. unfold stranded. simpl. by case_match.
  - simpl in H. unfold pull in H. unfold stranded, late1. repeat case_match; simplify_eq; done.
  - assert (Hl : closed t = true -> lost t = [] -> stranded (leave (flush now t)) = []).
    { unfold closed, stranded. simpl. destruct (flush_fields now t) as (_ & -> & _ & _ & -> & _).
      by intros [_ Hc]%andb_true_iff ->; destruct (channel t). }
    unfold late1. rewrite app_nil_r. unfold stranded at 2. simpl in H.
    destruct (phase t) eqn:Hp; try done; destruct (_ && _) eqn:Hc; try done; simplify_eq;
      (apply Hl; [by apply andb_true_iff in Hc as [_ ?]|apply Hok; congruence]).
  - unfold late1. rewrite app_nil_r. simpl in H. unfold stranded at 2. destruct (phase t) eqn:Hp; simplify_eq.
    unfold loop_top. by rewrite (flush_batch_nil now t).
  - simpl in H. unfold pull in H. unfold stranded, late1. repeat case_match; simplify_eq; done.
  - unfold late1. rewrite app_nil_r. simpl in H. unfold stranded at 2. destruct (phase t) eqn:Hp; try done.
    destruct (batch_full t || is_nil (channel t)) eqn:Hc; [|done]. destruct (batch t) as [|b bs] eqn:Hb; simplify_eq.
    + unfold stranded. simpl. rewrite (ok_running _ Hok) by congruence.
      apply orb_true_iff in Hc as [Hc|Hc]; [|by destruct (channel t)].
      unfold batch_full in Hc. bool_prop. rewrite Hb in Hc. simpl in Hc. lia.
    + cbn [is_nil]. unfold stranded. destruct (flush_fields now t) as (Hq & _). by rewrite Hq, Hp.
  - unfold late1. rewrite app_nil_r. simpl in H. unfold stranded. destruct (phase t) eqn:Hp; simplify_eq. simpl.
    rewrite (ok_running _ Hok) by congruence. by rewrite app_nil_r.
Qed.

Lemma stranded_run tr : forall t t' : Task, task_ok t -> 0 < pub_max_batch_size (publisher t) ->
  task_run tr t = Some t' -> stranded t' = stranded t ++ late tr t.
Proof.
  induction tr as [|a tr IH]; intros t t' Hok Hmax H; simpl in *; [simplify_eq; by rewrite app_nil_r|].
  destruct (task_step a t) as [t1|] eqn:E1; [|done].
  rewrite (IH t1 t'), (stranded_step _ _ _ Hok Hmax E1), <- app_assoc; auto.
  - eapply step_ok; [done|]. by eapply task_step_case.
  - by rewrite (max_batch_kept _ _ _ E1).
Qed.

(** ** The end of the task *)

Definition phase_weight (ph : Phase) : nat :=
  match ph with Exited => 0%nat | Leaving => 1%nat | Draining => 2%nat | Waiting => 3%nat | Collecting => 4%nat end.
Definition steps_left (t : Task) : nat :=
  (2 * length (channel t) + (if is_nil (batch t) then 0 else 1) + phase_weight (phase t))%nat.

Lemma pull_steps ph (t t' : Task) : (phase_weight ph <= phase_weight (phase t))%nat -> pull ph t = Some t' ->
  (steps_left t' < steps_left t)%nat /\ signalled t' = signalled t.
Proof.
  intros Hw H. unfold pull in H. unfold steps_left. destruct (channel t) as [|e c] eqn:Ec; simplify_eq.
  simpl. split; [|done]. destruct (batch t); simpl; lia.
Qed.

Lemma signalled_step a (t t' : Task) : signalled t = true -> task_action a -> task_step a t = Some t' ->
  (steps_left t' < steps_left t)%nat /\ signalled t' = true.
Proof.
  intros Hs Ha H. rewrite <- Hs.
  assert (Hf : forall now t, steps_left (flush now t) =
    (2 * length (channel t) + phase_weight (phase t))%nat /\ signalled (flush now t) = signalled t).
  { intros now t0. unfold steps_left. rewrite (flush_batch_nil now t0).
    destruct (flush_fields now t0) as (-> & -> & _ & _ & _ & -> & _). simpl. split; [lia|done]. }
  assert (Hl : forall now, phase t <> Exited -> signalled (leave (flush now t)) = signalled t /\
    (steps_left (leave (flush now t)) < steps_left t)%nat).
  { intros now Hp. destruct (Hf now t) as [_ Hg]. split; [exact Hg|]. unfold steps_left. simpl.
    rewrite (flush_batch_nil now t). destruct (phase t); simpl; try done; lia. }
  destruct a; try done; simpl in H; rewrite ?Hs in H; destruct (phase t) eqn:Hp; simplify_eq;
    try (destruct (batch_full t) eqn:?; [done|]); simplify_eq.
  - unfold steps_left. simpl. rewrite Hp. simpl. split; [lia|done].
  - eapply pull_steps; [|done]. by rewrite Hp.
  - simpl in H. destruct (closed t); simplify_eq. by destruct (Hl now).
  - unfold loop_top. rewrite (flush_batch_nil now t). destruct (Hf now t) as [_ Hg]. split; [|exact Hg].
    unfold steps_left. simpl. rewrite (flush_batch_nil now t), Hp.
    destruct (flush_fields now t) as (_ & -> & _). simpl. lia.
  - eapply pull_steps; [|done]. by rewrite Hp.
  - destruct (_ || _); [|done]. destruct (batch t) eqn:Hb; simpl in H; simplify_eq.
    + unfold steps_left. simpl. rewrite Hp, Hb. simpl. split; [lia|done].
    + destruct (Hf now t) as [-> ->]. unfold steps_left. rewrite Hb. simpl. split; [lia|done].
  - unfold steps_left. simpl. rewrite Hp. simpl. split; [lia|done].
Qed.

(** What others do meanwhile: each event the channel accepts is two steps more. *)
Lemma others_step a (t t' : Task) : ~ task_action a -> task_step a t = Some t' ->
  steps_left t' = (steps_left t + 2 * length (arrival a t))%nat /\ (signalled t = true -> signalled t' = true).
Proof.
  intros Ha H. destruct a as [e| | | | | | | | |]; try (by destruct (Ha I)); simpl in H; simplify_eq.
  - destruct (senders t); simplify_eq. unfold listen, arrival, steps_left. destruct (can_send t); simpl;
      rewrite ?length_app; simpl; (split; [lia|done]).
  - unfold steps_left. simpl. split; [lia|by intros ->].
  - unfold steps_left. simpl. split; [lia|done].
Qed.

Lemma signalled_run tr : forall t t' : Task, signalled t = true -> task_run tr t = Some t' ->
  (own_steps tr + steps_left t' <= steps_left t + 2 * length (arrivals tr t))%nat /\ signalled t' = true.
Proof.
  induction tr as [|a tr IH]; intros t t' Hs H; simpl in H; [simplify_eq; split; [simpl; lia|done]|].
  destruct (task_step a t) as [t1|] eqn:E1; [|done]. cbn [arrivals]. rewrite E1, length_app. unfold own_steps in *.
  destruct (decide (task_action a)) as [Ha|Ha].
  - destruct (signalled_step _ _ _ Hs Ha E1) as [H1 H2]. destruct (IH _ _ H2 H) as [H3 H4].
    rewrite filter_cons_True by done. split; [simpl; lia|done].
  - destruct (others_step _ _ _ Ha E1) as [H1 H2]. destruct (IH _ _ (H2 Hs) H) as [H3 H4].
    rewrite filter_cons_False by done. split; [lia|done].
Qed.

(** A signalled task that has not returned can go on. *)
Lemma signalled_enabled (t : Task) : signalled t = true -> phase t <> Exited ->
  exists a t', task_action a /\ task_step a t = Some t'.
Proof.
  intros Hs Hp. destruct (phase t) eqn:E1; [| | | |done].
  - exists SeeSignal. simpl. rewrite E1, Hs. eauto.
  - exists (FlushNow 0). simpl. rewrite E1. eauto.
  - destruct (batch_full t || is_nil (channel t)) eqn:Hc.
    + exists (DrainEnd 0). simpl. rewrite E1, Hc. eauto.
    + apply orb_false_iff in Hc as [Hf Hc]. exists DrainOne. simpl. rewrite E1, Hf. unfold pull.
      destruct (channel t); [done|]. eauto.
  - exists Return. simpl. rewrite E1. eauto.
Qed.

Lemma accepted_step a (t t' : Task) : task_step a t = Some t' -> accepted t' = accepted t ++ arrival a t.
Proof.
  intros H. assert (Hf : forall now, accepted (flush now t) = accepted t) by (intros now; apply (flush_fields now t)).
  destruct a as [e| | | | | | | | |]; simpl in H |- *; rewrite ?app_nil_r.
  1: { destruct (senders t); simplify_eq. unfold listen. destruct (can_send t); simpl; by rewrite ?app_nil_r. }
  all: unfold pull in H; repeat case_match; simplify_eq; simpl; auto.
Qed.

Lemma accepted_run tr : forall t t' : Task, task_run tr t = Some t' -> accepted t' = accepted t ++ arrivals tr t.
Proof.
  induction tr as [|a tr IH]; intros t t' H; simpl in *; [simplify_eq; by rewrite app_nil_r|].
  destruct (task_step a t) as [t1|] eqn:E1; [|done].
  by rewrite (IH _ _ H), (accepted_step _ _ _ E1), app_assoc.
Qed.

(** Once the task has left, whatever is accepted is late. *)
Lemma left_step a (t t' : Task) : phase t = Leaving \/ phase t = Exited -> task_step a t = Some t' ->
  (phase t' = Leaving \/ phase t' = Exited) /\ late1 a t = arrival a t.
Proof.
  intros Hp H. destruct a as [e| | | | | | | | |]; simpl in H; unfold late1, arrival.
  - destruct (senders t); simplify_eq. unfold listen. destruct (can_send t) eqn:Ec; simpl; (split; [done|]).
    + destruct Hp as [Hp|Hp]; rewrite Hp; [done|]. unfold can_send in Ec. by rewrite Hp in Ec.
    + by destruct (phase t).
  - simplify_eq. auto.
  - simplify_eq. auto.
  - destruct Hp as [Hp|Hp]; rewrite Hp in H; done.
  - destruct Hp as [Hp|Hp]; rewrite Hp in H; done.
  - destruct Hp as [Hp|Hp]; rewrite Hp in H; done.
  - destruct Hp as [Hp|Hp]; rewrite Hp in H; done.
  - destruct Hp as [Hp|Hp]; rewrite Hp in H; done.
  - destruct Hp as [Hp|Hp]; rewrite Hp in H; done.
  - destruct Hp as [Hp|Hp]; rewrite Hp in H; simplify_eq. simpl. auto.
Qed.

Lemma late_left tr : forall t t' : Task, phase t = Leaving \/ phase t = Exited -> task_run tr t = Some t' ->
  late tr t = arrivals tr t.
Proof.
  induction tr as [|a tr IH]; intros t t' Hp H; simpl in *; [done|].
  destruct (task_step a t) as [t1|] eqn:E1; [|done]. destruct (left_step _ _ _ Hp E1) as [Hp1 ->].
  f_equal. by eapply IH.
Qed.

Lemma late_suffix tr : forall t t' : Task, task_run tr t = Some t' -> late tr t `suffix_of` arrivals tr t.
Proof.
  induction tr as [|a tr IH]; intros t t' H; [done|].
  destruct (decide (phase t = Leaving \/ phase t = Exited)) as [Hp|Hp]; [by rewrite (late_left _ _ _ Hp H)|].
  simpl in *. destruct (task_step a t) as [t1|] eqn:E1; [|done].
  assert (late1 a t = []) as -> by (unfold late1; destruct a, (phase t); naive_solver).
  by apply suffix_app_r, (IH t1 t').
Qed.

Lemma run_max_batch tr : forall t t' : Task, task_run tr t = Some t' ->
  pub_max_batch_size (publisher t') = pub_max_batch_size (publisher t).
Proof.
  induction tr as [|a tr IH]; intros t t' H; simpl in H; [by simplify_eq|].
  destruct (task_step a t) as [t1|] eqn:E1; [|done]. rewrite (IH _ _ H). by eapply max_batch_kept.
Qed.

(** A new publisher: nothing counted yet. *)
Definition fresh (p : P) : Prop := pub_events_received p = 0 /\ pub_dropped_events p = 0.

Lemma fresh_run_ok p tr t : fresh p -> task_run tr (into_listener p) = Some t -> task_ok t.
Proof. intros [H1 H2]. apply run_ok. by apply into_listener_ok. Qed.

Lemma exited_accepted (t : Task) : task_ok t -> phase t = Exited ->
  pub_entry <$> accepted t = concat (flushed t) ++ (pub_entry <$> lost t).
Proof.
  intros [(es & H1 & H1') H2 _ _ _ _ H7 _ _] Hp.
  by rewrite H1, (H7 Hp), !fmap_app, H1', (H2 ltac:(auto)), app_nil_r.
Qed.

Lemma exited_handled (t : Task) : task_ok t -> phase t = Exited -> lost t = [] ->
  concat (flushed t) = pub_entry <$> accepted t.
Proof. intros Hok Hp Hl. by rewrite (exited_accepted _ Hok Hp), Hl, app_nil_r. Qed.

(** C36.  On every interleaving of listener calls, shutdown and task steps,
    the events the channel accepted are, in order, those in flushed batches,
    those in the batch being filled, those in the channel and those that were
    in the channel when the task returned; the two listener counters are the
    numbers of events received and refused (modulo 2^64); no batch is empty
    or exceeds the configured size (or 1, where that is 0); the channel never
    exceeds its capacity. *)
Theorem task_bookkeeping p tr t :
  fresh p -> task_run tr (into_listener p) = Some t ->
  pub_entry <$> accepted t =
    concat (flushed t) ++ batch t ++ (pub_entry <$> channel t) ++ (pub_entry <$> lost t) /\
  pub_events_received (publisher t) = N.of_nat (length (accepted t) + length (refused t)) mod 2 ^ 64 /\
  pub_dropped_events (publisher t) = N.of_nat (length (refused t)) mod 2 ^ 64 /\
  Forall (fun b => b <> [] /\ N.of_nat (length b) <= N.max 1 (pub_max_batch_size (publisher t))) (flushed t) /\
  N.of_nat (length (channel t)) <= pub_channel_capacity (publisher t).
Proof.
  intros Hf H. destruct (fresh_run_ok _ _ _ Hf H) as [(es & H1 & H1') H2 H3 H4 H5 H6 H7 H8 H9].
  split_and!; auto. by rewrite H1, !fmap_app, H1', <- app_assoc.
Qed.

(** With a positive batch size, a task that has returned lost exactly
    the events the channel accepted after the task's last look at it and
    before the receiver was dropped, and nothing when there was no such
    event. *)
Theorem shutdown_loses_only_late p tr t :
  fresh p -> 0 < pub_max_batch_size p -> task_run tr (into_listener p) = Some t -> phase t = Exited ->
  lost t = late tr (into_listener p) /\
  (late tr (into_listener p) = [] -> concat (flushed t) = pub_entry <$> accepted t).
Proof.
  intros Hf Hm H Hp. pose proof (fresh_run_ok _ _ _ Hf H) as Hok.
  assert (Hl : lost t = late tr (into_listener p)).
  { destruct Hf as [Hf1 Hf2]. pose proof (stranded_run tr (into_listener p) t (into_listener_ok p Hf1 Hf2) Hm H) as E1.
    unfold stranded in E1. rewrite Hp, (ok_exited _ Hok Hp) in E1. exact E1. }
  split; [done|]. intros E1. apply exited_handled; congruence.
Qed.

(** C34.  A shutdown ends the task and publishes what is buffered.  Take any
    reachable state in which the signal was sent, with a positive batch size,
    and any continuation, in which listeners may go on sending, be dropped,
    and [shutdown] be called again between the task's steps.  The task takes
    at most 2 * (events in the channel + events the channel accepts meanwhile)
    + 5 steps of its own, whichever it takes, and until it has returned some
    step of its own is possible.  When it returns and had not passed its last
    look at the channel at the start, the flushed batches hold, in order, all
    events accepted before and all accepted during the continuation, except
    the [late] ones: the last ones sent, those accepted between the last look
    and the return, which are lost.  Without such a send nothing is lost. *)
Theorem shutdown_drains p tr t :
  fresh p -> 0 < pub_max_batch_size p -> task_run tr (into_listener p) = Some t -> signalled t = true ->
  forall tr' t', task_run tr' t = Some t' ->
  (own_steps tr' <= 2 * (length (channel t) + length (arrivals tr' t)) + 5)%nat /\
  (phase t' <> Exited -> exists a t2, task_action a /\ task_step a t' = Some t2) /\
  (phase t <> Leaving -> phase t <> Exited -> phase t' = Exited ->
     pub_entry <$> (accepted t ++ arrivals tr' t) = concat (flushed t') ++ (pub_entry <$> late tr' t) /\
     late tr' t `suffix_of` arrivals tr' t /\ lost t' = late tr' t).
Proof.
  intros Hf Hm H Hs tr' t' H'. pose proof (fresh_run_ok _ _ _ Hf H) as Hok.
  destruct (signalled_run _ _ _ Hs H') as [Hn Hs']. split_and!.
  - unfold steps_left in Hn. destruct (is_nil (batch t)), (phase t); simpl in Hn; lia.
  - by apply signalled_enabled.
  - intros Hp1 Hp2 Hp. assert (Hok' : task_ok t') by by eapply run_ok.
    pose proof (stranded_run tr' t t' Hok) as E1. rewrite (run_max_batch _ _ _ H) in E1.
    specialize (E1 Hm H'). unfold stranded in E1. rewrite Hp, (ok_exited _ Hok' Hp) in E1.
    assert (Hlost : lost t' = late tr' t) by (simpl in E1; rewrite E1; by destruct (phase t)).
    split_and!; [|by eapply late_suffix|done]. rewrite <- (accepted_run _ _ _ H'), <- Hlost.
    by apply exited_accepted.
Qed.

End TaskProps.
