(* ===== verification/NatsTrade.v ===== *)
(** * The NATS trade publisher (nats.rs)

    [NatsTradePublisher]: its configuration and counters, [flush_batch],
    [publish_with_retry] and [publish_single], its instance of the
    background task, and what reaches the server for the trades it handled.
    The [HeaderMap] of a message is its sequence number and content type. *)

From S2P Require Import Prelude Types PriceLevel Fees Serialization NatsTask NatsTaskProps.
From stdpp Require Import strings.
Local Open Scope N_scope.

Definition DEFAULT_BATCH_WINDOW_MS : N := 1.
Definition DEFAULT_MAX_BATCH_SIZE : N := 100.
Definition DEFAULT_CHANNEL_CAPACITY : N := 10000.
Definition DEFAULT_MIN_PUBLISH_INTERVAL_MS : N := 0.
Definition DEFAULT_MAX_RETRIES : N := 3.

Definition clamp_channel_capacity (requested : N) : N := if requested =? 0 then 1 else requested.

Section NatsTrade.
Context {PA : PriceLevelApi} {JS : JetStream}.

Record NatsTradePublisher := {
  jetstream : list Activity;
  subject_prefix : string;
  all_subject : string;
  batch_window_ms : N;
  max_batch_size : N;
  channel_capacity : N;
  min_publish_interval_ms : N;
  max_retries : N;
  sequence : N;
  publish_count : N;
  error_count : N;
  events_received : N;
  batches_published : N;
  dropped_events : N;
  serializer : EventSerializer;
}.

Definition new (prefix : string) (json : EventSerializer) : NatsTradePublisher :=
  {| jetstream := []; subject_prefix := prefix; all_subject := prefix +:+ ".all";
     batch_window_ms := DEFAULT_BATCH_WINDOW_MS; max_batch_size := DEFAULT_MAX_BATCH_SIZE;
     channel_capacity := DEFAULT_CHANNEL_CAPACITY;
     min_publish_interval_ms := DEFAULT_MIN_PUBLISH_INTERVAL_MS; max_retries := DEFAULT_MAX_RETRIES;
     sequence := 0; publish_count := 0; error_count := 0; events_received := 0; batches_published := 0;
     dropped_events := 0; serializer := json |}.

(** The builders, one setter for the six configuration fields. *)
Definition configure (window mbs cap interval retries : N) (ser : EventSerializer)
    (p : NatsTradePublisher) : NatsTradePublisher :=
  {| jetstream := jetstream p; subject_prefix := subject_prefix p; all_subject := all_subject p;
     batch_window_ms := window; max_batch_size := mbs; channel_capacity := cap;
     min_publish_interval_ms := interval; max_retries := retries;
     sequence := sequence p; publish_count := publish_count p; error_count := error_count p;
     events_received := events_received p; batches_published := batches_published p;
     dropped_events := dropped_events p; serializer := ser |}.

Definition with_batch_window_ms (v : N) (p : NatsTradePublisher) : NatsTradePublisher :=
  configure v (max_batch_size p) (channel_capacity p) (min_publish_interval_ms p) (max_retries p) (serializer p) p.
Definition with_max_batch_size (v : N) (p : NatsTradePublisher) : NatsTradePublisher :=
  configure (batch_window_ms p) v (channel_capacity p) (min_publish_interval_ms p) (max_retries p) (serializer p) p.
Definition with_channel_capacity (v : N) (p : NatsTradePublisher) : NatsTradePublisher :=
  configure (batch_window_ms p) (max_batch_size p) (clamp_channel_capacity v) (min_publish_interval_ms p)
    (max_retries p) (serializer p) p.
Definition with_min_publish_interval_ms (v : N) (p : NatsTradePublisher) : NatsTradePublisher :=
  configure (batch_window_ms p) (max_batch_size p) (channel_capacity p) v (max_retries p) (serializer p) p.
Definition with_max_retries (v : N) (p : NatsTradePublisher) : NatsTradePublisher :=
  configure (batch_window_ms p) (max_batch_size p) (channel_capacity p) (min_publish_interval_ms p) v (serializer p) p.
Definition with_serializer (s : EventSerializer) (p : NatsTradePublisher) : NatsTradePublisher :=
  configure (batch_window_ms p) (max_batch_size p) (channel_capacity p) (min_publish_interval_ms p) (max_retries p) s p.

(** The state the task and the listener write: the context and the six counters. *)
Definition update (log : list Activity) (seq pub err recv bat drop : N) (p : NatsTradePublisher) :
    NatsTradePublisher :=
  {| jetstream := log; subject_prefix := subject_prefix p; all_subject := all_subject p;
     batch_window_ms := batch_window_ms p; max_batch_size := max_batch_size p;
     channel_capacity := channel_capacity p; min_publish_interval_ms := min_publish_interval_ms p;
     max_retries := max_retries p; sequence := seq; publish_count := pub; error_count := err;
     events_received := recv; batches_published := bat; dropped_events := drop; serializer := serializer p |}.

Definition set_jetstream (log : list Activity) (p : NatsTradePublisher) : NatsTradePublisher :=
  update log (sequence p) (publish_count p) (error_count p) (events_received p) (batches_published p)
    (dropped_events p) p.
Definition take_sequence (p : NatsTradePublisher) : N * NatsTradePublisher :=
  (sequence p, update (jetstream p) (fetch_add (sequence p)) (publish_count p) (error_count p)
                 (events_received p) (batches_published p) (dropped_events p) p).
Definition count_publish (p : NatsTradePublisher) : NatsTradePublisher :=
  update (jetstream p) (sequence p) (fetch_add (publish_count p)) (error_count p) (events_received p)
    (batches_published p) (dropped_events p) p.
Definition count_error (p : NatsTradePublisher) : NatsTradePublisher :=
  update (jetstream p) (sequence p) (publish_count p) (fetch_add (error_count p)) (events_received p)
    (batches_published p) (dropped_events p) p.
Definition count_batch (p : NatsTradePublisher) : NatsTradePublisher :=
  update (jetstream p) (sequence p) (publish_count p) (error_count p) (events_received p)
    (fetch_add (batches_published p)) (dropped_events p) p.
Definition count_event (p : NatsTradePublisher) : NatsTradePublisher :=
  update (jetstream p) (sequence p) (publish_count p) (error_count p) (fetch_add (events_received p))
    (batches_published p) (dropped_events p) p.
Definition count_drop (p : NatsTradePublisher) : NatsTradePublisher :=
  update (jetstream p) (sequence p) (publish_count p) (error_count p) (events_received p)
    (batches_published p) (fetch_add (dropped_events p)) p.

Definition account_publish_outcome (symbol_ok all_ok : bool) (p : NatsTradePublisher) :
    bool * NatsTradePublisher :=
  if symbol_ok && all_ok then (true, count_publish p) else (false, count_error p).

Definition publish_single (m : Message) (p : NatsTradePublisher) : bool * NatsTradePublisher :=
  let '(ok, log) := publish_message (max_retries p) m (jetstream p) in (ok, set_jetstream log p).

Definition trade_message (p : NatsTradePublisher) (subject : string) (seq : N) (payload : list N) : Message :=
  {| msg_subject := subject; msg_sequence := seq;
     msg_content_type := Some (content_type (serializer p)); msg_payload := payload |}.

Definition publish_with_retry (symbol_subject all_subject : string) (payload : list N) (symbol_seq all_seq : N)
    (p : NatsTradePublisher) : NatsTradePublisher :=
  let '(symbol_ok, p) := publish_single (trade_message p symbol_subject symbol_seq payload) p in
  let '(all_ok, p) := publish_single (trade_message p all_subject all_seq payload) p in
  (account_publish_outcome symbol_ok all_ok p).2.

(** One round of the [for trade in trades] loop. *)
Definition publish_trade (trade : TradeResult) (p : NatsTradePublisher) : NatsTradePublisher :=
  match serialize_trade (serializer p) trade with
  | Err _ => count_error p
  | Ok payload =>
      let '(symbol_seq, p) := take_sequence p in
      let '(all_seq, p) := take_sequence p in
      let symbol_subject := subject_prefix p +:+ "." +:+ tr_symbol trade in
      publish_with_retry symbol_subject (all_subject p) payload symbol_seq all_seq p
  end.

Definition flush_batch (batch : list TradeResult) (p : NatsTradePublisher) :
    list TradeResult * NatsTradePublisher :=
  match batch with
  | [] => (batch, p)
  | _ => ([], count_batch (foldl (fun p trade => publish_trade trade p) p batch))
  end.

#[global] Instance trade_publisher : Publisher NatsTradePublisher TradeResult TradeResult := {
  pub_channel_capacity := channel_capacity;
  pub_max_batch_size := max_batch_size;
  pub_entry := fun trade => trade;
  count_received := count_event;
  count_dropped := count_drop;
  pub_events_received := events_received;
  pub_dropped_events := dropped_events;
  pub_flush := fun _ => flush_batch;
}.

(** ** What the server sees *)

(** The two messages of a trade, for the number of trades serialized before it. *)
Definition trade_messages (p : NatsTradePublisher) (n : N) (trade : TradeResult) : list Message :=
  match serialize_trade (serializer p) trade with
  | Err _ => []
  | Ok payload =>
      [trade_message p (subject_prefix p +:+ "." +:+ tr_symbol trade) (2 * n mod 2 ^ 64) payload;
       trade_message p (all_subject p) ((2 * n + 1) mod 2 ^ 64) payload]
  end.

Definition serializable (p : NatsTradePublisher) (trade : TradeResult) : bool :=
  is_ok (serialize_trade (serializer p) trade).

(** All messages of a list of trades, in order. *)
Fixpoint messages_from (p : NatsTradePublisher) (n : N) (trades : list TradeResult) : list Message :=
  match trades with
  | [] => []
  | trade :: trades =>
      trade_messages p n trade ++ messages_from p (if serializable p trade then n + 1 else n) trades
  end.

(** Trades whose two deliveries both succeeded, reading the outcomes two by two. *)
Fixpoint clean_successes (outcomes : list bool) : nat :=
  match outcomes with
  | symbol_ok :: all_ok :: rest => (if symbol_ok && all_ok then 1 else 0) + clean_successes rest
  | _ => 0
  end%nat.

(** ** Lemmas *)

Definition config (p : NatsTradePublisher) :=
  (subject_prefix p, all_subject p, max_batch_size p, channel_capacity p, max_retries p, serializer p).

Lemma messages_config p q : config p = config q -> forall trades n, messages_from p n trades = messages_from q n trades.
Proof.
  unfold config. intros [= H1 H2 _ _ _ H6]. induction trades as [|t trades IH]; intros n; simpl; [done|].
  rewrite IH. unfold serializable, trade_messages, trade_message. by rewrite H1, H2, H6.
Qed.

Lemma messages_snoc p t : forall trades n,
  messages_from p n (trades ++ [t]) = messages_from p n trades ++
    trade_messages p (n + N.of_nat (length (filter (serializable p) trades))) t.
Proof.
  induction trades as [|x trades IH]; intros n; simpl; [by rewrite app_nil_r, N.add_0_r|].
  rewrite IH, <- app_assoc. do 3 f_equal. rewrite filter_cons. destruct (serializable p x) eqn:E1; simpl; lia.
Qed.

Lemma clean_app l1 l2 : Nat.Even (length l1) ->
  clean_successes (l1 ++ l2) = (clean_successes l1 + clean_successes l2)%nat.
Proof.
  intros [k Hk]. revert l1 Hk. induction k as [|k IH]; intros [|a [|b l1]] Hk; simpl in *; try lia.
  rewrite IH by lia. lia.
Qed.

(** What a publisher has done when it has handled [trades]. *)
Record published (p0 : NatsTradePublisher) (trades : list TradeResult) (p : NatsTradePublisher) : Prop := {
  pd_config : config p = config p0;
  pd_sequence : sequence p = N.of_nat (2 * length (filter (serializable p0) trades)) mod 2 ^ 64;
  pd_session : exists ds, session (max_retries p0) ds (jetstream p) /\ ds.*1 = messages_from p0 0 trades /\
    length ds = (2 * length (filter (serializable p0) trades))%nat /\
    publish_count p = N.of_nat (clean_successes ds.*2) mod 2 ^ 64 /\
    exists failed, error_count p = N.of_nat failed mod 2 ^ 64 /\
      (clean_successes ds.*2 + failed = length trades)%nat;
}.

Lemma publish_single_spec m p ok p' : publish_single m p = (ok, p') ->
  exists acts, p' = set_jetstream (jetstream p ++ acts) p /\ delivery (max_retries p) m ok acts.
Proof.
  unfold publish_single. destruct (publish_message (max_retries p) m (jetstream p)) as [b log] eqn:E1.
  intros [= <- <-]. apply publish_message_spec in E1 as (acts & -> & H). eauto.
Qed.

Lemma publish_with_retry_spec s a payload n1 n2 p :
  exists ok1 ok2 acts,
    session (max_retries p) [(trade_message p s n1 payload, ok1); (trade_message p a n2 payload, ok2)] acts /\
    publish_with_retry s a payload n1 n2 p =
      (account_publish_outcome ok1 ok2 (set_jetstream (jetstream p ++ acts) p)).2.
Proof.
  unfold publish_with_retry.
  destruct (publish_single (trade_message p s n1 payload) p) as [ok1 p1] eqn:E1.
  apply publish_single_spec in E1 as (a1 & -> & D1).
  destruct (publish_single (trade_message (set_jetstream (jetstream p ++ a1) p) a n2 payload) _)
    as [ok2 p2] eqn:E2.
  apply publish_single_spec in E2 as (a2 & -> & D2).
  exists ok1, ok2, (a1 ++ a2). split.
  - apply (session_app _ [_] a1 [_] a2); by apply session_one.
  - simpl. by rewrite app_assoc.
Qed.

Lemma fetch_add_step x n : x = N.of_nat n mod 2 ^ 64 -> forall m, m = S n -> fetch_add x = N.of_nat m mod 2 ^ 64.
Proof. intros H m ->. by apply fetch_add_count. Qed.

Lemma account_fields ok1 ok2 p :
  let q := (account_publish_outcome ok1 ok2 p).2 in
  config q = config p /\ sequence q = sequence p /\ jetstream q = jetstream p /\
  publish_count q = (if ok1 && ok2 then fetch_add (publish_count p) else publish_count p) /\
  error_count q = (if ok1 && ok2 then error_count p else fetch_add (error_count p)).
Proof. unfold account_publish_outcome. by destruct (ok1 && ok2). Qed.

Lemma published_skip p0 trades t p : published p0 trades p -> ~ serializable p0 t ->
  published p0 (trades ++ [t]) (count_error p).
Proof.
  intros [Hc Hs (ds & S1 & S2 & S3 & S4 & failed & S5 & S6)] Hno.
  assert (Hf : filter (serializable p0) (trades ++ [t]) = filter (serializable p0) trades).
  { by rewrite filter_app, filter_cons_False, filter_nil, app_nil_r. }
  split; [done|by rewrite Hf|]. exists ds. rewrite Hf, messages_snoc. unfold trade_messages.
  unfold serializable in Hno. destruct (serialize_trade (serializer p0) t); [by destruct Hno|].
  rewrite app_nil_r. split_and!; auto. exists (S failed). split; [by apply fetch_add_count|].
  rewrite length_app. simpl. lia.
Qed.

Lemma published_send p0 trades t payload p ok1 ok2 acts q :
  published p0 trades p -> serialize_trade (serializer p0) t = Ok payload ->
  config q = config p -> publish_count q = publish_count p -> error_count q = error_count p ->
  sequence q = fetch_add (fetch_add (sequence p)) ->
  let m1 := trade_message p (subject_prefix p +:+ "." +:+ tr_symbol t) (sequence p) payload in
  let m2 := trade_message p (all_subject p) (fetch_add (sequence p)) payload in
  session (max_retries p) [(m1, ok1); (m2, ok2)] acts ->
  published p0 (trades ++ [t]) (account_publish_outcome ok1 ok2 (set_jetstream (jetstream p ++ acts) q)).2.
Proof.
  intros [Hc Hs (ds & S1 & S2 & S3 & S4 & failed & S5 & S6)] E1 Hcq Hpq Heq Hsq m1 m2 S7.
  assert (Hok : serializable p0 t) by (unfold serializable; by rewrite E1).
  set (n := length (filter (serializable p0) trades)) in *.
  assert (Hfl : length (filter (serializable p0) (trades ++ [t])) = S n).
  { rewrite filter_app, filter_cons_True, length_app by done. simpl. unfold n. lia. }
  assert (Hs1 : fetch_add (sequence p) = N.of_nat (2 * n + 1) mod 2 ^ 64)
    by (eapply fetch_add_step; [exact Hs|lia]).
  destruct (account_fields ok1 ok2 (set_jetstream (jetstream p ++ acts) q)) as (A1 & A2 & A3 & A4 & A5).
  split; rewrite ?A1, ?A2, ?A3, ?A4, ?A5; simpl.
  - etransitivity; [exact Hcq|done].
  - rewrite Hsq, Hfl. eapply fetch_add_step; [exact Hs1|lia].
  - exists (ds ++ [(m1, ok1); (m2, ok2)]). split_and!.
    + unfold config in Hc. apply session_app; [done|]. congruence.
    + rewrite messages_snoc, fmap_app, S2. f_equal. unfold trade_messages. rewrite E1. simpl.
      unfold m1, m2, trade_message. unfold config in Hc. injection Hc as -> -> _ _ _ ->. rewrite Hs1, Hs. fold n.
      replace (N.of_nat (2 * n)) with (2 * (0 + N.of_nat n)) by lia.
      by replace (N.of_nat (2 * n + 1)) with (2 * (0 + N.of_nat n) + 1) by lia.
    + rewrite length_app, Hfl. simpl. lia.
    + rewrite fmap_app, clean_app by (rewrite length_fmap, S3; by eexists). simpl. rewrite Hpq.
      destruct (ok1 && ok2); simpl; [eapply fetch_add_step; [exact S4|lia]|by rewrite Nat.add_0_r].
    + rewrite fmap_app, clean_app by (rewrite length_fmap, S3; by eexists). simpl. rewrite Heq, length_app. simpl.
      destruct (ok1 && ok2); simpl; [exists failed|exists (S failed)]; (split; [|lia]); [done|by apply fetch_add_count].
Qed.

Lemma publish_trade_spec p0 trades t p : published p0 trades p -> published p0 (trades ++ [t]) (publish_trade t p).
Proof.
  intros H. unfold publish_trade.
  assert (Hser : serializer p = serializer p0) by (pose proof (pd_config _ _ _ H) as Hc; unfold config in Hc; congruence).
  rewrite Hser. destruct (serialize_trade (serializer p0) t) as [payload|e] eqn:E1.
  - simpl. set (q := update _ _ _ _ _ _ _ _).
    destruct (publish_with_retry_spec (subject_prefix p +:+ "." +:+ tr_symbol t) (all_subject p) payload
      (sequence p) (fetch_add (sequence p)) q) as (ok1 & ok2 & acts & S7 & ->).
    by apply (published_send p0 trades t payload p ok1 ok2 acts q).
  - apply published_skip; [done|]. unfold serializable. rewrite E1. by intros [].
Qed.

Lemma publish_trades_spec p0 ts : forall trades p, published p0 trades p ->
  published p0 (trades ++ ts) (foldl (fun p trade => publish_trade trade p) p ts).
Proof.
  induction ts as [|t ts IH]; intros trades p H; simpl; [by rewrite app_nil_r|].
  replace (trades ++ t :: ts) with ((trades ++ [t]) ++ ts) by by rewrite <- app_assoc.
  apply IH. by apply publish_trade_spec.
Qed.

(** A field no publish writes. *)
Lemma publish_trades_keep {A} (f : NatsTradePublisher -> A) ts :
  (forall log seq pub err p, f (update log seq pub err (events_received p) (batches_published p) (dropped_events p) p) = f p) ->
  forall p, f (foldl (fun p trade => publish_trade trade p) p ts) = f p.
Proof.
  intros Hf. assert (H1 : forall t p, f (publish_trade t p) = f p).
  { intros t p. unfold publish_trade. destruct (serialize_trade (serializer p) t); [|apply Hf]. simpl.
    set (q := update _ _ _ _ _ _ _ _). destruct (publish_with_retry_spec
      (subject_prefix p +:+ "." +:+ tr_symbol t) (all_subject p) a (sequence p) (fetch_add (sequence p)) q)
      as (ok1 & ok2 & acts & _ & ->).
    unfold account_publish_outcome.
    destruct (ok1 && ok2); exact (Hf (jetstream p ++ acts) (fetch_add (fetch_add (sequence p))) _ _ p). }
  induction ts as [|t ts IH]; intros p; simpl; [done|]. by rewrite IH, H1.
Qed.

#[global] Instance trade_publisher_laws : PublisherLaws NatsTradePublisher TradeResult TradeResult.
Proof.
  split; try done.
  - intros now b p. simpl. by destruct b.
  - intros now b p. simpl. destruct b as [|t b]; [done|]. split.
    + apply (publish_trades_keep max_batch_size (t :: b)). done.
    + apply (publish_trades_keep channel_capacity (t :: b)). done.
  - intros now b p. simpl. destruct b as [|t b]; [done|]. split.
    + apply (publish_trades_keep events_received (t :: b)). done.
    + apply (publish_trades_keep dropped_events (t :: b)). done.
Qed.

(** A publisher as [new] and the builders leave it. *)
Definition unused (p : NatsTradePublisher) : Prop :=
  jetstream p = [] /\ sequence p = 0 /\ publish_count p = 0 /\ error_count p = 0 /\ events_received p = 0 /\
  batches_published p = 0 /\ dropped_events p = 0.

Lemma unused_published p : unused p -> published p [] p.
Proof.
  intros (H1 & H2 & H3 & H4 & _). split; [done|by rewrite H2|]. exists []. rewrite H1, H3, H4.
  split_and!; try done; [constructor|]. by exists 0%nat.
Qed.

(** C37.  What NATS sees of the trades the task has handled, on every
    interleaving.  The trades of the flushed batches are offered in order,
    each first to [prefix.symbol] and then to [prefix.all], with consecutive
    sequence numbers from 0 (modulo 2^64) and the payload and content type
    of the serializer; trades that do not serialize are skipped and use no
    numbers.  Each handled trade counts once: in [publish_count] when both
    offers were acknowledged, else in [error_count]; [batches_published]
    counts the batches. *)
Theorem trades_published_in_order p tr t :
  unused p -> task_run tr (into_listener p) = Some t ->
  let handled := concat (flushed t) in
  let q := publisher t in
  exists ds clean failed,
    session (max_retries p) ds (jetstream q) /\ ds.*1 = messages_from p 0 handled /\
    clean = clean_successes ds.*2 /\ (clean + failed = length handled)%nat /\
    publish_count q = N.of_nat clean mod 2 ^ 64 /\ error_count q = N.of_nat failed mod 2 ^ 64 /\
    sequence q = N.of_nat (2 * length (filter (serializable p) handled)) mod 2 ^ 64 /\
    batches_published q = N.of_nat (length (flushed t)) mod 2 ^ 64.
Proof.
  intros Hu H. set (I := fun fl q => published p (concat fl) q /\
    batches_published q = N.of_nat (length fl) mod 2 ^ 64).
  assert (HI : I (flushed t) (publisher t)).
  { apply (run_history I tr (into_listener p) t); [| | | |exact H].
    - intros now fl b q Hb [H1 H2]. simpl. destruct b as [|x b]; [done|]. unfold flush_batch.
      set (ts := x :: b) in *. split.
      + rewrite concat_app, concat_cons, concat_nil, app_nil_r.
        by destruct (publish_trades_spec p ts _ _ H1) as [? ? ?]; split.
      + simpl. rewrite length_app. eapply (fetch_add_step _ (length fl)); [|simpl; lia].
        rewrite <- H2. apply (publish_trades_keep batches_published ts). done.
    - intros fl q [[? ? ?] ?]. by repeat split.
    - intros fl q [[? ? ?] ?]. by repeat split.
    - split; [by apply unused_published|]. simpl. apply Hu. }
  destruct HI as [[_ Hs (ds & S1 & S2 & S3 & S4 & failed & S5 & S6)] Hb].
  exists ds, (clean_successes ds.*2), failed. by split_and!.
Qed.

(** Whatever capacity is asked for, the channel has room for one event. *)
Lemma trades_capacity_positive v p : 0 < channel_capacity (with_channel_capacity v p).
Proof. simpl. unfold clamp_channel_capacity. destruct (N.eqb_spec v 0); lia. Qed.
End NatsTrade.
