(* ===== verification/NatsBookChange.v ===== *)
(** * The NATS book-change publisher (nats_book_change.rs)

    [NatsBookChangePublisher]: its configuration and counters,
    [flush_batch], [publish_batch] and [publish_single], its instance of the
    background task, and what reaches the server for the batches it flushed.
    [serde_json] is the class [SerdeJson]; the reading of the wall clock a
    flush stamps its batches with is an argument. *)

From S2P Require Import Prelude Types Serialization NatsTask NatsTaskProps.
From stdpp Require Import strings.
Local Open Scope N_scope.

Definition DEFAULT_BATCH_WINDOW_MS : N := 1.
Definition DEFAULT_MAX_BATCH_SIZE : N := 100.
Definition DEFAULT_CHANNEL_CAPACITY : N := 10000.
Definition DEFAULT_MAX_RETRIES : N := 3.
Definition DEFAULT_MIN_PUBLISH_INTERVAL_MS : N := 0.

Definition clamp_channel_capacity (requested : N) : N := if requested =? 0 then 1 else requested.

Record BookChangeEntry := {
  bc_side : Side;
  bc_price : N;
  bc_quantity : N;
  bc_engine_seq : N;
}.

Definition from_event (e : PriceLevelChangedEvent) : BookChangeEntry :=
  {| bc_side := ev_side e; bc_price := ev_price e; bc_quantity := ev_quantity e;
     bc_engine_seq := ev_engine_seq e |}.

Record BookChangeBatch := {
  bb_symbol : string;
  bb_sequence : N;
  bb_timestamp_ms : N;
  bb_event_count : N;
  bb_changes : list BookChangeEntry;
}.

Section NatsBookChange.
Context {JS : JetStream} {SJ : SerdeJson BookChangeBatch}.

Record NatsBookChangePublisher := {
  jetstream : list Activity;
  symbol : string;
  subject_prefix : string;
  batch_window_ms : N;
  max_batch_size : N;
  channel_capacity : N;
  min_publish_interval_ms : N;
  max_retries : N;
  sequence : N;
  publish_count : N;
  error_count : N;
  events_received : N;
  batches_published : N;
  dropped_events : N;
}.

Definition new (sym prefix : string) : NatsBookChangePublisher :=
  {| jetstream := []; symbol := sym; subject_prefix := prefix;
     batch_window_ms := DEFAULT_BATCH_WINDOW_MS; max_batch_size := DEFAULT_MAX_BATCH_SIZE;
     channel_capacity := DEFAULT_CHANNEL_CAPACITY;
     min_publish_interval_ms := DEFAULT_MIN_PUBLISH_INTERVAL_MS; max_retries := DEFAULT_MAX_RETRIES;
     sequence := 0; publish_count := 0; error_count := 0; events_received := 0; batches_published := 0;
     dropped_events := 0 |}.

(** The builders, one setter for the five configuration fields. *)
Definition configure (window mbs cap interval retries : N) (p : NatsBookChangePublisher) :
    NatsBookChangePublisher :=
  {| jetstream := jetstream p; symbol := symbol p; subject_prefix := subject_prefix p;
     batch_window_ms := window; max_batch_size := mbs; channel_capacity := cap;
     min_publish_interval_ms := interval; max_retries := retries;
     sequence := sequence p; publish_count := publish_count p; error_count := error_count p;
     events_received := events_received p; batches_published := batches_published p;
     dropped_events := dropped_events p |}.

Definition with_batch_window_ms (v : N) (p : NatsBookChangePublisher) : NatsBookChangePublisher :=
  configure v (max_batch_size p) (channel_capacity p) (min_publish_interval_ms p) (max_retries p) p.
Definition with_max_batch_size (v : N) (p : NatsBookChangePublisher) : NatsBookChangePublisher :=
  configure (batch_window_ms p) v (channel_capacity p) (min_publish_interval_ms p) (max_retries p) p.
Definition with_channel_capacity (v : N) (p : NatsBookChangePublisher) : NatsBookChangePublisher :=
  configure (batch_window_ms p) (max_batch_size p) (clamp_channel_capacity v) (min_publish_interval_ms p)
    (max_retries p) p.
Definition with_min_publish_interval_ms (v : N) (p : NatsBookChangePublisher) : NatsBookChangePublisher :=
  configure (batch_window_ms p) (max_batch_size p) (channel_capacity p) v (max_retries p) p.
Definition with_max_retries (v : N) (p : NatsBookChangePublisher) : NatsBookChangePublisher :=
  configure (batch_window_ms p) (max_batch_size p) (channel_capacity p) (min_publish_interval_ms p) v p.

(** The state the task and the listener write: the context and the six counters. *)
Definition update (log : list Activity) (seq pub err recv bat drop : N) (p : NatsBookChangePublisher) :
    NatsBookChangePublisher :=
  {| jetstream := log; symbol := symbol p; subject_prefix := subject_prefix p;
     batch_window_ms := batch_window_ms p; max_batch_size := max_batch_size p;
     channel_capacity := channel_capacity p; min_publish_interval_ms := min_publish_interval_ms p;
     max_retries := max_retries p; sequence := seq; publish_count := pub; error_count := err;
     events_received := recv; batches_published := bat; dropped_events := drop |}.

Definition set_jetstream (log : list Activity) (p : NatsBookChangePublisher) : NatsBookChangePublisher :=
  update log (sequence p) (publish_count p) (error_count p) (events_received p) (batches_published p)
    (dropped_events p) p.
Definition take_sequence (p : NatsBookChangePublisher) : N * NatsBookChangePublisher :=
  (sequence p, update (jetstream p) (fetch_add (sequence p)) (publish_count p) (error_count p)
                 (events_received p) (batches_published p) (dropped_events p) p).
Definition count_error (p : NatsBookChangePublisher) : NatsBookChangePublisher :=
  update (jetstream p) (sequence p) (publish_count p) (fetch_add (error_count p)) (events_received p)
    (batches_published p) (dropped_events p) p.
(** [publish_count] and [batches_published] *)
Definition count_published (p : NatsBookChangePublisher) : NatsBookChangePublisher :=
  update (jetstream p) (sequence p) (fetch_add (publish_count p)) (error_count p) (events_received p)
    (fetch_add (batches_published p)) (dropped_events p) p.
Definition count_event (p : NatsBookChangePublisher) : NatsBookChangePublisher :=
  update (jetstream p) (sequence p) (publish_count p) (error_count p) (fetch_add (events_received p))
    (batches_published p) (dropped_events p) p.
Definition count_drop (p : NatsBookChangePublisher) : NatsBookChangePublisher :=
  update (jetstream p) (sequence p) (publish_count p) (error_count p) (events_received p)
    (batches_published p) (fetch_add (dropped_events p)) p.

Definition publish_single (m : Message) (p : NatsBookChangePublisher) : bool * NatsBookChangePublisher :=
  let '(ok, log) := publish_message (max_retries p) m (jetstream p) in
  let p := set_jetstream log p in
  if ok then (true, p) else (false, count_error p).

Definition publish_batch (subject : string) (batch : BookChangeBatch) (seq : N) (p : NatsBookChangePublisher) :
    bool * NatsBookChangePublisher :=
  match json_to_vec batch with
  | Err _ => (false, count_error p)
  | Ok payload =>
      publish_single {| msg_subject := subject; msg_sequence := seq; msg_content_type := None;
                        msg_payload := payload |} p
  end.

Definition make_batch (p : NatsBookChangePublisher) (seq timestamp_ms : N) (changes : list BookChangeEntry) :
    BookChangeBatch :=
  {| bb_symbol := symbol p; bb_sequence := seq; bb_timestamp_ms := timestamp_ms;
     bb_event_count := N.of_nat (length changes); bb_changes := changes |}.

Definition subject_of (p : NatsBookChangePublisher) (suffix : string) : string :=
  subject_prefix p +:+ "." +:+ symbol p +:+ suffix.

(** The bid and the ask part of [flush_batch]: published only if there are changes. *)
Definition publish_side (suffix : string) (timestamp_ms : N) (changes : list BookChangeEntry)
    (p : NatsBookChangePublisher) : bool * NatsBookChangePublisher :=
  match changes with
  | [] => (true, p)
  | _ =>
      let '(seq, p) := take_sequence p in
      publish_batch (subject_of p suffix) (make_batch p seq timestamp_ms changes) seq p
  end.

Definition side_changes (side : Side) (changes : list BookChangeEntry) : list BookChangeEntry :=
  filter (fun c => bc_side c = side) changes.

Definition flush_batch (timestamp_ms : N) (batch : list BookChangeEntry) (p : NatsBookChangePublisher) :
    list BookChangeEntry * NatsBookChangePublisher :=
  match batch with
  | [] => (batch, p)
  | changes =>
      let '(seq, p) := take_sequence p in
      let '(all_ok, p) :=
        publish_batch (subject_of p ".changes") (make_batch p seq timestamp_ms changes) seq p in
      let '(bid_ok, p) := publish_side ".bid" timestamp_ms (side_changes Buy changes) p in
      let '(ask_ok, p) := publish_side ".ask" timestamp_ms (side_changes Sell changes) p in
      ([], if all_ok && bid_ok && ask_ok then count_published p else p)
  end.

#[global] Instance change_publisher : Publisher NatsBookChangePublisher PriceLevelChangedEvent BookChangeEntry := {
  pub_channel_capacity := channel_capacity;
  pub_max_batch_size := max_batch_size;
  pub_entry := from_event;
  count_received := count_event;
  count_dropped := count_drop;
  pub_events_received := events_received;
  pub_dropped_events := dropped_events;
  pub_flush := flush_batch;
}.

(** ** What the server sees *)

(** The subjects of a batch with what each of them is told. *)
Definition parts (changes : list BookChangeEntry) : list (string * list BookChangeEntry) :=
  (".changes", changes) ::
  filter (fun part => part.2 <> []) [(".bid", side_changes Buy changes); (".ask", side_changes Sell changes)].

(** The message of the part that takes sequence number [n], when it serializes. *)
Definition part_message (p : NatsBookChangePublisher) (timestamp_ms n : N) (part : string * list BookChangeEntry) :
    option Message :=
  let seq := n mod 2 ^ 64 in
  match json_to_vec (make_batch p seq timestamp_ms part.2) with
  | Err _ => None
  | Ok payload => Some {| msg_subject := subject_of p part.1; msg_sequence := seq; msg_content_type := None;
                          msg_payload := payload |}
  end.

Fixpoint part_messages (p : NatsBookChangePublisher) (timestamp_ms n : N)
    (ps : list (string * list BookChangeEntry)) : list (option Message) :=
  match ps with
  | [] => []
  | part :: ps => part_message p timestamp_ms n part :: part_messages p timestamp_ms (n + 1) ps
  end.

(** The messages of batches with their time stamps, a list per batch. *)
Fixpoint batch_messages (p : NatsBookChangePublisher) (n : N) (bs : list (N * list BookChangeEntry)) :
    list (list (option Message)) :=
  match bs with
  | [] => []
  | (timestamp_ms, changes) :: bs =>
      part_messages p timestamp_ms n (parts changes) ::
      batch_messages p (n + N.of_nat (length (parts changes))) bs
  end.

(** The deliveries among offers, some of which did not serialize. *)
Definition sent (ds : list (option Message * bool)) : list (Message * bool) :=
  omap (fun d => match d.1 with Some m => Some (m, d.2) | None => None end) ds.

Definition failures (ds : list (option Message * bool)) : nat := length (filter (fun d => d.2 = false) ds).
Definition all_sent (ds : list (option Message * bool)) : Prop := Forall (fun d => d.2 = true) ds.

(** What was offered, batch by batch. *)
Definition offers_of (dss : list (list (option Message * bool))) : list (list (option Message)) :=
  (fun ds => ds.*1) <$> dss.

(** ** Lemmas *)

Definition names (p : NatsBookChangePublisher) := (symbol p, subject_prefix p).
Definition advance (k : nat) (x : N) : N := Nat.iter k fetch_add x.

Lemma advance_count k : forall x n, x = N.of_nat n mod 2 ^ 64 -> advance k x = N.of_nat (n + k) mod 2 ^ 64.
Proof.
  induction k as [|k IH]; intros x n H; simpl; [by rewrite Nat.add_0_r|].
  rewrite Nat.add_succ_r. apply fetch_add_count. by apply IH.
Qed.
Lemma advance_add k1 k2 x : advance k2 (advance k1 x) = advance (k1 + k2) x.
Proof. unfold advance. by rewrite Nat.add_comm, Nat.iter_add. Qed.

Lemma part_message_names p q ts n part : names p = names q -> part_message p ts n part = part_message q ts n part.
Proof. unfold names. intros [= H1 H2]. unfold part_message, make_batch, subject_of. by rewrite H1, H2. Qed.
Lemma part_messages_names p q ts ps : names p = names q ->
  forall n, part_messages p ts n ps = part_messages q ts n ps.
Proof.
  intros H. induction ps as [|part ps IH]; intros n; simpl; [done|]. by rewrite IH, (part_message_names p q).
Qed.
Lemma part_messages_app p ts ps1 ps2 : forall n, part_messages p ts n (ps1 ++ ps2) =
  part_messages p ts n ps1 ++ part_messages p ts (n + N.of_nat (length ps1)) ps2.
Proof.
  induction ps1 as [|part ps1 IH]; intros n; simpl; [by rewrite N.add_0_r|]. rewrite IH. do 3 f_equal. lia.
Qed.
Lemma length_part_messages p ts ps : forall n, length (part_messages p ts n ps) = length ps.
Proof. induction ps as [|part ps IH]; intros n; simpl; [done|]. by rewrite IH. Qed.

(** [q] is [p] after the offers [ds]. *)
Definition offered (p : NatsBookChangePublisher) (ds : list (option Message * bool)) (q : NatsBookChangePublisher) :
    Prop :=
  exists acts, session (max_retries p) (sent ds) acts /\ Forall (fun d => d.1 = None -> d.2 = false) ds /\
    q = update (jetstream p ++ acts) (advance (length ds) (sequence p)) (publish_count p)
          (advance (failures ds) (error_count p)) (events_received p) (batches_published p) (dropped_events p) p.

Lemma offered_nil p : offered p [] p.
Proof. exists []. split_and!; [constructor|done|]. simpl. rewrite app_nil_r. by destruct p. Qed.

Lemma offered_app p ds1 q ds2 r : offered p ds1 q -> offered q ds2 r -> offered p (ds1 ++ ds2) r.
Proof.
  intros (a1 & S1 & F1 & ->) (a2 & S2 & F2 & ->). exists (a1 ++ a2). split_and!.
  - unfold sent. rewrite omap_app. by apply session_app.
  - by apply Forall_app.
  - unfold update; simpl. unfold failures. by rewrite filter_app, !length_app, <- !advance_add, app_assoc.
Qed.

Lemma offer_one p ts n part ok q :
  sequence p = n mod 2 ^ 64 ->
  (let '(seq, p1) := take_sequence p in
   publish_batch (subject_of p1 part.1) (make_batch p1 seq ts part.2) seq p1) = (ok, q) ->
  offered p [(part_message p ts n part, ok)] q.
Proof.
  intros Hn. simpl. unfold publish_batch, part_message. rewrite <- Hn.
  change (make_batch (update _ _ _ _ _ _ _ p)) with (make_batch p).
  destruct (json_to_vec (make_batch p (sequence p) ts part.2)) as [payload|e].
  - unfold publish_single. simpl.
    destruct (publish_message _ _ _) as [b log] eqn:E1. apply publish_message_spec in E1 as (acts & -> & D).
    intros H. exists acts. split_and!; [|by repeat constructor|by destruct b; simplify_eq].
    destruct b; simplify_eq; by apply session_one.
  - intros [= <- <-]. exists []. split_and!; [constructor|by repeat constructor|]. by rewrite app_nil_r.
Qed.

Lemma offer_side suffix ts n changes p ok q :
  sequence p = N.of_nat n mod 2 ^ 64 -> publish_side suffix ts changes p = (ok, q) ->
  exists ds, offered p ds q /\ ok = forallb snd ds /\
    ds.*1 = part_messages p ts (N.of_nat n) (filter (fun part => part.2 <> []) [(suffix, changes)]).
Proof.
  intros Hn. unfold publish_side. destruct changes as [|c cs].
  - intros [= <- <-]. exists []. split_and!; [apply offered_nil|done|done].
  - intros E1. eexists. split_and!; [by apply (offer_one p ts (N.of_nat n) (suffix, c :: cs))|simpl; by destruct ok|done].
Qed.

Lemma offered_names p ds q : offered p ds q -> names q = names p.
Proof. by intros (a & _ & _ & ->). Qed.
Lemma offered_sequence p ds q n : offered p ds q -> sequence p = N.of_nat n mod 2 ^ 64 ->
  sequence q = N.of_nat (n + length ds) mod 2 ^ 64.
Proof. intros (a & _ & _ & ->) H. by apply advance_count. Qed.

Lemma flush_offers ts changes p n : changes <> [] -> sequence p = N.of_nat n mod 2 ^ 64 ->
  exists ds q, offered p ds q /\ ds.*1 = part_messages p ts (N.of_nat n) (parts changes) /\
    flush_batch ts changes p = ([], if forallb snd ds then count_published q else q).
Proof.
  intros Hne Hn. destruct changes as [|c cs]; [done|]. set (changes := c :: cs) in *. unfold flush_batch. fold changes.
  destruct (let '(seq, p1) := take_sequence p in
    publish_batch (subject_of p1 ".changes") (make_batch p1 seq ts changes) seq p1) as [ok1 p1] eqn:E1.
  simpl in E1. simpl. rewrite E1. apply (offer_one p ts (N.of_nat n) (".changes", changes)) in E1 as O1; [|done].
  destruct (publish_side ".bid" ts (side_changes Buy changes) p1) as [ok2 p2] eqn:E2.
  apply (offer_side _ _ (n + 1)) in E2 as (d2 & O2 & -> & M2); [|by eapply offered_sequence in O1].
  assert (O12 := offered_app _ _ _ _ _ O1 O2).
  destruct (publish_side ".ask" ts (side_changes Sell changes) p2) as [ok3 p3] eqn:E3.
  apply (offer_side _ _ (n + (1 + length d2))) in E3 as (d3 & O3 & -> & M3);
    [|by eapply offered_sequence in O12].
  assert (O123 := offered_app _ _ _ _ _ O12 O3).
  eexists _, p3. split_and!; [exact O123| |].
  - unfold parts. change [(".bid", side_changes Buy changes); (".ask", side_changes Sell changes)] with
      ([(".bid", side_changes Buy changes)] ++ [(".ask", side_changes Sell changes)]).
    rewrite filter_app, !fmap_app, M2, M3. simpl. f_equal.
    rewrite part_messages_app. rewrite !(part_messages_names p1 p), !(part_messages_names p2 p);
      [|by eapply offered_names..]. f_equal; [f_equal; lia|]. f_equal.
    apply (f_equal length) in M2. rewrite length_fmap, length_part_messages in M2. rewrite M2. lia.
  - rewrite !forallb_app. simpl. by rewrite andb_true_r.
Qed.

Lemma batch_messages_snoc p ts b bs : forall n,
  batch_messages p n (bs ++ [(ts, b)]) = batch_messages p n bs ++
    [part_messages p ts (n + N.of_nat (length (concat (batch_messages p n bs)))) (parts b)].
Proof.
  induction bs as [|[ts' b'] bs IH]; intros n; [by rewrite N.add_0_r|]. cbn [batch_messages app]. rewrite IH.
  rewrite concat_cons, length_app, length_part_messages, Nat2N.inj_add, N.add_assoc. done.
Qed.

(** What a publisher has done when it has flushed the batches [bs], offer by offer. *)
Record told (p0 : NatsBookChangePublisher) (bs : list (N * list BookChangeEntry))
    (dss : list (list (option Message * bool))) (p : NatsBookChangePublisher) : Prop := {
  td_names : names p = names p0 /\ max_retries p = max_retries p0;
  td_messages : offers_of dss = batch_messages p0 0 bs;
  td_session : session (max_retries p0) (sent (concat dss)) (jetstream p);
  td_unsent : Forall (fun d => d.1 = None -> d.2 = false) (concat dss);
  td_sequence : sequence p = N.of_nat (length (concat dss)) mod 2 ^ 64;
  td_errors : error_count p = N.of_nat (failures (concat dss)) mod 2 ^ 64;
  td_published : publish_count p = N.of_nat (length (filter (forallb snd) dss)) mod 2 ^ 64;
  td_batches : batches_published p = publish_count p;
}.

Lemma concat_fst (dss : list (list (option Message * bool))) :
  length (concat (offers_of dss)) = length (concat dss).
Proof.
  induction dss as [|d dss IH]; [done|]. change (offers_of (d :: dss)) with (d.*1 :: offers_of dss).
  by rewrite !concat_cons, !length_app, length_fmap, IH.
Qed.

Lemma flush_told p0 bs dss p ts b : b <> [] -> told p0 bs dss p ->
  exists ds, told p0 (bs ++ [(ts, b)]) (dss ++ [ds]) (flush_batch ts b p).2.
Proof.
  intros Hb [[H1 H1'] H2 H3 H4 H5 H6 H7 H8].
  destruct (flush_offers ts b p _ Hb H5) as (ds & q & (acts & O1 & O2 & O3) & M & ->).
  assert (Hc : concat (dss ++ [ds]) = concat dss ++ ds) by (rewrite concat_app; simpl; by rewrite app_nil_r).
  set (q' := (([] : list BookChangeEntry), if forallb snd ds then count_published q else q).2).
  assert (Hq : names q' = names p0 /\ max_retries q' = max_retries p0 /\ jetstream q' = jetstream p ++ acts /\
    sequence q' = advance (length ds) (sequence p) /\ error_count q' = advance (failures ds) (error_count p) /\
    publish_count q' = advance (length (filter (forallb snd) [ds])) (publish_count p) /\
    batches_published q' = advance (length (filter (forallb snd) [ds])) (batches_published p)).
  { unfold q'. subst q. destruct (forallb snd ds) eqn:Ef; [rewrite filter_cons_True by by rewrite Ef|
      rewrite filter_cons_False by (rewrite Ef; by intros [])]; split_and!; try done; exact H1. }
  destruct Hq as (Q1 & Q2 & Q3 & Q4 & Q5 & Q6 & Q7). clearbody q'.
  exists ds. split; rewrite ?Q3, ?Q4, ?Q5, ?Q6, ?Q7, ?Hc; auto.
  - unfold offers_of. rewrite fmap_app. fold (offers_of dss). rewrite H2, batch_messages_snoc.
    f_equal. simpl. f_equal. rewrite M, <- H2, concat_fst, N.add_0_l.
    exact (part_messages_names p p0 ts (parts b) H1 _).
  - unfold sent. rewrite omap_app. apply session_app; [done|]. by rewrite <- H1'.
  - by apply Forall_app.
  - rewrite length_app. by apply advance_count.
  - unfold failures in *. rewrite filter_app, length_app. by apply advance_count.
  - rewrite filter_app, length_app. by apply advance_count.
  - by rewrite H8.
Qed.

#[global] Instance change_publisher_laws :
  PublisherLaws NatsBookChangePublisher PriceLevelChangedEvent BookChangeEntry.
Proof.
  assert (G : forall A (f : NatsBookChangePublisher -> A),
    (forall log seq pub err bat p, f (update log seq pub err (events_received p) bat (dropped_events p) p) = f p) ->
    forall now b p, f (flush_batch now b p).2 = f p).
  { intros A f Hf. assert (Hpb : forall s b n p, f (publish_batch s b n p).2 = f p).
    { intros s b n p. unfold publish_batch. destruct (json_to_vec b); [|apply Hf]. unfold publish_single.
      destruct (publish_message _ _ _) as [[] log]; [apply Hf|]. exact (Hf log _ _ _ _ p). }
    assert (Hps : forall s ts l p, f (publish_side s ts l p).2 = f p).
    { intros s ts l p. destruct l; [done|]. simpl. rewrite Hpb. exact (Hf _ _ _ _ _ p). }
    intros now b p. destruct b as [|c b]; [done|]. unfold flush_batch. simpl.
    destruct (publish_batch _ _ _ _) as [ok1 p1] eqn:E1. apply (f_equal (fun x => f x.2)) in E1. rewrite Hpb in E1.
    destruct (publish_side ".bid" _ _ _) as [ok2 p2] eqn:E2. apply (f_equal (fun x => f x.2)) in E2. rewrite Hps in E2.
    destruct (publish_side ".ask" _ _ _) as [ok3 p3] eqn:E3. apply (f_equal (fun x => f x.2)) in E3. rewrite Hps in E3.
    simpl in *. rewrite (Hf _ _ _ _ _ p) in E1. destruct (ok1 && ok2 && ok3); [|congruence].
    etransitivity; [apply Hf|]. congruence. }
  split; try done.
  - intros now [|c b] p; [done|]. simpl. by repeat case_match.
  - intros now b p. split; by apply (G N).
  - intros now b p. split; by apply (G N).
Qed.

(** A publisher as [new] and the builders leave it. *)
Definition unused (p : NatsBookChangePublisher) : Prop :=
  jetstream p = [] /\ sequence p = 0 /\ publish_count p = 0 /\ error_count p = 0 /\ events_received p = 0 /\
  batches_published p = 0 /\ dropped_events p = 0.

(** What NATS sees of the book changes the task has handled, on every
    interleaving.  Each flushed batch is offered, in order, to the [.changes]
    subject as a whole and to [.bid] and [.ask] when it has changes of that
    side, each with the next sequence number (modulo 2^64) in its header and
    its payload; an offer that does not serialize uses a number and reaches
    no server.  [error_count] counts the failed offers, [publish_count] and
    [batches_published] the batches all of whose offers succeeded. *)
Theorem changes_published_in_order p tr t :
  unused p -> task_run tr (into_listener p) = Some t ->
  let q := publisher t in
  exists stamps dss,
    length stamps = length (flushed t) /\
    offers_of dss = batch_messages p 0 (zip stamps (flushed t)) /\
    session (max_retries p) (sent (concat dss)) (jetstream q) /\
    Forall (fun d => d.1 = None -> d.2 = false) (concat dss) /\
    sequence q = N.of_nat (length (concat dss)) mod 2 ^ 64 /\
    error_count q = N.of_nat (failures (concat dss)) mod 2 ^ 64 /\
    publish_count q = N.of_nat (length (filter (forallb snd) dss)) mod 2 ^ 64 /\
    batches_published q = publish_count q.
Proof.
  intros Hu H. set (I := fun fl q => exists stamps dss, length stamps = length fl /\ told p (zip stamps fl) dss q).
  assert (HI : I (flushed t) (publisher t)).
  { apply (run_history I tr (into_listener p) t); [| | | |exact H].
    - intros now fl b q Hb (stamps & dss & H1 & H2). destruct (flush_told _ _ _ _ now b Hb H2) as [ds H3].
      exists (stamps ++ [now]), (dss ++ [ds]). rewrite !length_app, H1. split; [done|].
      rewrite zip_with_app by done. exact H3.
    - intros fl q (stamps & dss & H1 & [? ? ? ? ? ? ? ?]). exists stamps, dss. split; [done|by split].
    - intros fl q (stamps & dss & H1 & [? ? ? ? ? ? ? ?]). exists stamps, dss. split; [done|by split].
    - exists [], []. destruct Hu as (U1 & U2 & U3 & U4 & U5 & U6 & U7). split; [done|]. simpl.
      split; rewrite ?U1, ?U2, ?U3, ?U4, ?U6; try done. constructor. }
  destruct HI as (stamps & dss & H1 & [? ? ? ? ? ? ? ?]). exists stamps, dss. by split_and!.
Qed.

Lemma changes_capacity_positive v p : 0 < channel_capacity (with_channel_capacity v p).
Proof. simpl. unfold clamp_channel_capacity. destruct (N.eqb_spec v 0); lia. Qed.

(** Every change of a batch is told to exactly one side's subject. *)
Lemma side_changes_partition changes : side_changes Buy changes ++ side_changes Sell changes ≡ₚ changes.
Proof.
  unfold side_changes. induction changes as [|c cs IH]; [done|]. rewrite !filter_cons.
  destruct (bc_side c) eqn:E1; repeat case_decide; try done; simpl;
    [by rewrite IH|by rewrite <- Permutation_middle, IH].
Qed.
End NatsBookChange.
