(* ===== verification/Scenarios.v ===== *)
(** * Scenarios

    A small book on first-in first-out levels, on which the theorems about
    matching, adding, cancelling and updating are instantiated: three sellers
    at two prices, one buyer, self-trade prevention and fees switched on. *)

From S2P Require Import Prelude Types PriceLevel PriceLevelFifo OrderQuantity Fees Stp Clock Cache Risk OrderState Reject SkipMap Book BookInv Matching MatchingInv MatchingSteps SweepFrame MatchingProps Modifications ModificationsProps AddProps UpdateProps Uncrossed MassCancel.
Local Open Scope N_scope.

(** ** Building a book *)

Section Building.
Context {PA : PriceLevelApi} {PL : PriceLevelLaws} {WC : WallClock}.

Lemma book_rep_content b R : book_rep b R -> book_rep b (content b).
Proof. intros H. by rewrite <- (rests_content b R (rep_rests _ _ H)). Qed.

(** Adding a list of orders to a book. *)
Definition add_all (l : list (OrderType unit)) (b : OrderBook) : OrderBook :=
  foldl (fun b o => (add_order_inner tt o false b).2) b l.

Lemma add_all_rep l : forall b, book_rep b (content b) -> book_rep (add_all l b) (content (add_all l b)).
Proof.
  induction l as [|o l IH]; intros b Hb; simpl; [done|]. apply IH.
  destruct (add_order_inner tt o false b) as [r b'] eqn:E. simpl.
  apply (add_rep _ _ _ _ (content b)) in E as (_ & C & F & rested & Hrep & _); [|done].
  by eapply book_rep_content.
Qed.

Lemma book_rep_close ts b R : book_rep b R -> book_rep (set_market_close_timestamp ts b) R.
Proof. apply book_rep_quiet. by apply quiet_same. Qed.
End Building.

#[local] Existing Instance sample_wall.

Definition demo_orders : list (OrderType unit) :=
  [ Standard 1 101 10 Sell 11 0 Gtc tt; IcebergOrder 2 101 5 15 Sell 12 0 Gtc tt;
    Standard 3 102 8 Sell 13 0 Gtc tt; Standard 4 99 6 Buy 14 0 Gtc tt ].

Definition demo_empty : OrderBook :=
  set_stp_mode CancelMaker (set_price_level_listener true (set_trade_listener true
    (with_clock_and_namespace "BTC/USD" stub_new 0))).
Definition demo : OrderBook := add_all demo_orders demo_empty.

Lemma demo_rep : book_rep demo (content demo).
Proof.
  apply add_all_rep, (book_rep_content _ ∅).
  apply (book_rep_same_levels (with_clock_and_namespace "BTC/USD" stub_new 0)); try done; [by left|].
  by apply empty_rep.
Qed.

Lemma demo_content :
  map_to_list (content demo) ≡ₚ
    [(1, (101, Sell, 11)); (2, (101, Sell, 12)); (3, (102, Sell, 13)); (4, (99, Buy, 14))].
Proof. vm_compute. solve_Permutation. Qed.

Lemma demo_visible : visible_u64 demo.
Proof.
  assert (H : forall s, map_Forall (fun _ lv => Forall (fun o => f_visible o <= U64_MAX) (fl_queue lv))
    (levels s demo)) by (intros []; apply (bool_decide_unpack _); by vm_compute).
  intros s p lv Hlv. exact (H s p lv Hlv).
Qed.

Lemma demo_depth : depth_u64 demo.
Proof.
  assert (H : forall s, map_Forall (fun _ lv => sumN (fun o => f_visible o + f_hidden o) (fl_queue lv) <= U64_MAX)
    (levels s demo)) by (intros []; apply (bool_decide_unpack _); by vm_compute).
  intros s p lv Hlv. exact (H s p lv Hlv).
Qed.

Lemma demo_drawable : drawable demo.
Proof.
  assert (H : forall s, map_Forall (fun _ lv => Forall (fun o => 0 < f_drawable o) (fl_queue lv))
    (levels s demo)) by (intros []; apply (bool_decide_unpack _); by vm_compute).
  intros s p lv o Hlv Ho. specialize (H s p lv Hlv). simpl in H. rewrite Forall_forall in H. by apply H.
Qed.

Lemma demo_uncrossed : uncrossed demo.
Proof.
  assert (H : map_Forall (fun pb _ => map_Forall (fun pa _ => pb < pa) (levels Sell demo))
    (levels Buy demo)) by (apply (bool_decide_unpack _); by vm_compute).
  intros pb pa [lb Hb] [la Ha]. exact (H pb lb Hb pa la Ha).
Qed.

Lemma demo_fresh : content demo !! 9 = None.
Proof. by vm_compute. Qed.

(** Name the outcome of a concrete run that succeeds. *)
Ltac run_ok c out b' E :=
  let H := fresh in
  assert (H : is_ok (fst c) = true) by (vm_compute; reflexivity);
  destruct c as [[out|?] b'] eqn:E; [clear H|discriminate H].

Definition trade_count (r : Result OrderBookError MatchOutcome) : nat :=
  match r with Ok o => length (mr_trades (result o)) | Err _ => 0 end.

(** A buyer of 15 at 102 takes order 1 and part of the iceberg. *)
Abbreviation buy15 := (match_order_inner 9 Buy (BaseQty 15 (Some 102)) 20 TakerStandard).

Lemma buy15_trades : trade_count (buy15 demo).1 = 2%nat.
Proof. by vm_compute. Qed.

(** An anonymous buyer of 50 at 101 gets the 30 that rest there, 15 of them
    hidden. *)
Abbreviation buy50 := (match_order_inner 9 Buy (BaseQty 50 (Some 101)) Hash32_zero TakerStandard).

Lemma match_executes_depth_witness :
  exists out b', buy50 demo = (Ok out, b') /\ reachable_depth 9 Buy (Some 101) demo = 30 /\
    executed_quantity (result out) = N.min 50 (reachable_depth 9 Buy (Some 101) demo) /\
    mr_remaining_quantity (result out) = 50 - N.min 50 (reachable_depth 9 Buy (Some 101) demo).
Proof.
  run_ok (buy50 demo) out b' E. exists out, b'. split; [done|]. split; [by vm_compute|].
  destruct (match_executes_depth 9 Buy 50 (Some 101) Hash32_zero demo (content demo) (Ok out) b' demo_rep
    (or_intror eq_refl) ltac:(by vm_compute) E) as (H1 & H2 & _). split; [exact H1|exact H2].
Defined.

Lemma match_prices_sound_witness :
  exists out b', buy15 demo = (Ok out, b') /\ length (mr_trades (result out)) = 2%nat /\
    forall t, t ∈ mr_trades (result out) -> beyond_limit Buy (Some 102) (trade_price t) = false.
Proof.
  pose proof buy15_trades as Hn. run_ok (buy15 demo) out b' E. exists out, b'. split_and!; [done|done|].
  intros t Ht. exact (proj1 (proj2 (proj2 (proj2
    (match_prices_sound 9 Buy 15 (Some 102) 20 TakerStandard demo (content demo) out b' demo_rep E) t Ht)))).
Defined.

(** A buyer spends at most 1100. *)
Abbreviation spend1100 := (match_order_inner 9 Buy (QuoteAmount 1100) 20 TakerStandard).

Lemma notional_never_overspends_witness :
  exists out b', spend1100 demo = (Ok out, b') /\ spent (result out) <= 1100.
Proof.
  run_ok (spend1100 demo) out b' E. exists out, b'. split; [done|].
  exact (proj1 (proj2 (notional_never_overspends 9 Buy 1100 20 demo (content demo) out b' demo_rep
    ltac:(by vm_compute) E))).
Defined.

(** A taker whose id already rests.  Order 9 of user 11 and order 2 of user 12
    rest at 101 under CancelTaker; user 12 buys 10 under the id 9.  The 10
    before its own order count as safe, but the match passes over order 9,
    which carries the taker's id, and takes order 2: a self-trade.  The market
    entry point does not look the id up. *)
Definition reused : OrderBook :=
  add_all [Standard 9 101 10 Sell 11 0 Gtc tt; Standard 2 101 5 Sell 12 0 Gtc tt]
    (set_stp_mode CancelTaker demo_empty).

Definition trade_makers (r : Result OrderBookError MatchResult) : list Id :=
  match r with Ok m => trade_maker_order_id <$> mr_trades m | Err _ => [] end.

Theorem reused_id_self_trades :
  stp_mode (book_config reused) = CancelTaker /\ content reused !! 2 = Some (101, Sell, 12) /\
  content reused !! 9 = Some (101, Sell, 11) /\
  trade_makers (match_market_order_with_user 9 10 Buy 12 reused).1 = [2].
Proof. split_and!; vm_compute; reflexivity. Qed.

(** User 12, who owns the iceberg at the front of the book, buys. *)
Abbreviation self_buy := (match_order_inner 9 Buy (BaseQty 15 (Some 102)) 12 TakerStandard).

Lemma match_no_self_trade_witness :
  exists out b', self_buy demo = (Ok out, b') /\ length (mr_trades (result out)) = 2%nat /\
    forall t, t ∈ mr_trades (result out) ->
      exists loc u, content demo !! trade_maker_order_id t = Some (loc, u) /\ u <> 12.
Proof.
  assert (Hn : trade_count (self_buy demo).1 = 2%nat) by (by vm_compute).
  run_ok (self_buy demo) out b' E. exists out, b'. split_and!; [done|done|].
  exact (match_no_self_trade 9 Buy (BaseQty 15 (Some 102)) 12 demo (content demo) out b' demo_rep
    demo_visible demo_fresh ltac:(by vm_compute) ltac:(done) E).
Defined.

Lemma fok_prediction_exact_witness :
  exists out b', self_buy demo = (Ok out, b') /\
    fok_fillable_quantity Buy 15 (Some 102) 12 9 demo = executed_quantity (result out).
Proof.
  run_ok (self_buy demo) out b' E. exists out, b'. split; [done|].
  exact (fok_prediction_exact 9 Buy 15 (Some 102) 12 demo (content demo) (Ok out) b' demo_rep
    demo_depth demo_fresh ltac:(by vm_compute) E).
Defined.

Lemma match_preserves_book_witness :
  exists out b' C F, self_buy demo = (Ok out, b') /\ F = mr_filled_order_ids (result out) /\
    book_rep b' (drop_ids (C ++ F) (content demo)).
Proof.
  run_ok (self_buy demo) out b' E.
  destruct (match_preserves_book 9 Buy (BaseQty 15 (Some 102)) 12 TakerStandard demo (content demo)
    (Ok out) b' demo_rep E) as (C & F & Hrep & _ & _ & HF).
  exists out, b', C, F. by split_and!.
Defined.

Abbreviation post_only_probe := (match_order_inner 9 Buy (BaseQty 15 (Some 102)) 20 TakerPostOnly).

Lemma post_only_never_trades_witness :
  exists out b', post_only_probe demo = (Ok out, b') /\ same_core demo b' /\ mr_trades (result out) = [].
Proof.
  run_ok (post_only_probe demo) out b' E.
  destruct (post_only_never_trades 9 Buy 15 (Some 102) 20 demo (Ok out) b' E) as [Hc (Ht & _)].
  exists out, b'. by split_and!.
Defined.

(** ** Adding, cancelling and updating *)

Definition buy_order : OrderType unit := Standard 9 101 50 Buy 20 0 Gtc tt.
Definition fok_order : OrderType unit := Standard 9 102 38 Buy 20 0 Fok tt.
Definition post_order : OrderType unit := PostOnly 9 100 5 Sell 20 0 Gtc tt.

(** The bid of 50 at 101 crosses the book; its residual does not. *)
Lemma add_keeps_uncrossed_witness :
  exists r b', add_order_inner tt buy_order false demo = (r, b') /\ uncrossed b'.
Proof.
  destruct (add_order_inner tt buy_order false demo) as [r b'] eqn:E. exists r, b'. split; [reflexivity|].
  exact (add_keeps_uncrossed tt buy_order false demo (content demo) r b' demo_rep demo_drawable
    demo_uncrossed ltac:(by vm_compute) E).
Defined.

Lemma kill_switch_blocks_flow_witness :
  kill_switch (engage_kill_switch demo) = true /\
  update_order tt (UpdatePrice 3 103) (engage_kill_switch demo)
    = (Err KillSwitchActive, engage_kill_switch demo).
Proof.
  split; [done|].
  exact (proj2 (kill_switch_blocks_flow tt buy_order true (UpdatePrice 3 103) (engage_kill_switch demo)
    eq_refl) eq_refl).
Defined.

(** Re-pricing order 4 with an overflowing quantity is refused up front. *)
Definition overflowing : OrderType unit := IcebergOrder 4 99 U64_MAX 1 Buy 14 0 Gtc tt.

Lemma rejected_modify_is_atomic_witness :
  exists e b1, check_modify 4 overflowing demo = (Err e, b1) /\
    cancel_then_add tt 4 overflowing demo = (Err e, b1) /\ same_core demo b1.
Proof.
  assert (H : is_ok (check_modify 4 overflowing demo).1 = false) by (vm_compute; reflexivity).
  destruct (check_modify 4 overflowing demo) as [[?|e] b1] eqn:E; [discriminate H|].
  exists e, b1. split; [done|]. exact (rejected_modify_is_atomic tt 4 overflowing e demo b1 E).
Defined.

Lemma cancel_refines_witness :
  exists b', (cancel_order_with_reason tt 3 UserRequested demo).2 = b' /\
    book_rep b' (delete 3 (content demo)).
Proof.
  destruct (cancel_order_with_reason tt 3 UserRequested demo) as [r b'] eqn:E. exists b'. split; [done|].
  exact (proj1 (cancel_refines tt 3 UserRequested demo (content demo) r b' demo_rep E)).
Defined.

(** The bid of 50 at 101 takes the two orders there and rests with 20. *)
Lemma add_order_refines_witness :
  exists r b', add_order_inner tt buy_order false demo = (r, b') /\ is_ok r = true /\
    added tt buy_order false demo (content demo) r b'.
Proof.
  assert (H : is_ok (add_order_inner tt buy_order false demo).1 = true) by (vm_compute; reflexivity).
  destruct (add_order_inner tt buy_order false demo) as [r b'] eqn:E. exists r, b'.
  split; [reflexivity|]. split; [exact H|].
  exact (proj2 (add_order_refines tt buy_order false demo (content demo) r b' demo_rep E)).
Defined.

(** 50 submitted: 30 trade at 101 and 20 rest. *)
Lemma add_order_conserves_witness :
  exists o tr b', add_order_with_result tt buy_order demo = (Ok (o, tr), b') /\
    reported_quantity tr = 30 /\
    reported_quantity tr + (match locations b' !! 9 with Some _ => total_quantity o | None => 0 end) = 50.
Proof.
  assert (H : match (add_order_with_result tt buy_order demo).1 with
              | Ok (_, tr) => reported_quantity tr | Err _ => 0 end = 30) by (vm_compute; reflexivity).
  destruct (add_order_with_result tt buy_order demo) as [[[o tr]|?] b'] eqn:E; [|discriminate H].
  exists o, tr, b'. split_and!; [done|exact H|].
  exact (proj1 (add_order_conserves tt buy_order demo (content demo) o tr b' demo_rep E)).
Defined.

Lemma fok_all_or_nothing_witness :
  exists r b', add_order_inner tt fok_order true demo = (r, b') /\ is_ok r = true /\
    filled_or_killed fok_order true demo r b'.
Proof.
  assert (H : is_ok (add_order_inner tt fok_order true demo).1 = true) by (vm_compute; reflexivity).
  destruct (add_order_inner tt fok_order true demo) as [r b'] eqn:E. exists r, b'.
  split; [reflexivity|]. split; [exact H|].
  exact (fok_all_or_nothing tt fok_order true demo (content demo) r b' demo_rep demo_depth
    eq_refl eq_refl ltac:(by vm_compute) ltac:(by vm_compute) E).
Defined.

Lemma post_only_add_never_takes_witness :
  exists r b', add_order_inner tt post_order true demo = (r, b') /\ is_ok r = true /\
    match r with
    | Ok (_, tr) => tr = None /\ book_rep b' (content_after post_order true (content demo))
    | Err _ => book_rep b' (content demo)
    end.
Proof.
  assert (H : is_ok (add_order_inner tt post_order true demo).1 = true) by (vm_compute; reflexivity).
  destruct (add_order_inner tt post_order true demo) as [r b'] eqn:E. exists r, b'.
  split_and!; [done|exact H|].
  exact (post_only_add_never_takes tt post_order true demo (content demo) r b' demo_rep eq_refl E).
Defined.

(** The bid 4 at 99 is moved to 101, where it trades. *)
Lemma update_order_refines_witness :
  exists r b', update_order tt (UpdatePrice 4 101) demo = (r, b') /\ is_ok r = true /\
    updated tt (UpdatePrice 4 101) demo (content demo) r b'.
Proof.
  assert (H : is_ok (update_order tt (UpdatePrice 4 101) demo).1 = true) by (vm_compute; reflexivity).
  destruct (update_order tt (UpdatePrice 4 101) demo) as [r b'] eqn:E. exists r, b'.
  split; [reflexivity|]. split; [exact H|].
  exact (proj2 (proj2 (update_order_refines tt (UpdatePrice 4 101) demo (content demo) r b' demo_rep I E))).
Defined.

(** ** Mass cancellation *)

Lemma cancel_by_price_range_exact_witness :
  exists res b', cancel_orders_by_price_range tt Sell 100 101 demo = (res, b') /\
    cancelled_order_ids res = [1; 2] /\ NoDup (cancelled_order_ids res).
Proof.
  assert (H : cancelled_order_ids (cancel_orders_by_price_range tt Sell 100 101 demo).1 = [1; 2])
    by (vm_compute; reflexivity).
  destruct (cancel_orders_by_price_range tt Sell 100 101 demo) as [res b'] eqn:E. exists res, b'.
  split_and!; [reflexivity|exact H|].
  exact (proj1 (proj2 (proj2 (cancel_by_price_range_exact tt Sell 100 101 demo (content demo) res b'
    demo_rep E)))).
Defined.

Lemma cancel_by_side_exact_witness :
  exists res b', cancel_orders_by_side tt Sell demo = (res, b') /\
    cancelled_order_ids res = [1; 2; 3] /\
    book_rep b' (filter (fun kv => kv.2.1.2 <> Sell) (content demo)).
Proof.
  assert (H : cancelled_order_ids (cancel_orders_by_side tt Sell demo).1 = [1; 2; 3])
    by (vm_compute; reflexivity).
  destruct (cancel_orders_by_side tt Sell demo) as [res b'] eqn:E. exists res, b'.
  split_and!; [reflexivity|exact H|].
  exact (proj1 (cancel_by_side_exact tt Sell demo (content demo) res b' demo_rep E)).
Defined.

Lemma cancel_by_user_exact_witness :
  exists res b', cancel_orders_by_user tt 12 demo = (res, b') /\
    cancelled_order_ids res = [2] /\ book_rep b' (filter (fun kv => kv.2.2 <> 12) (content demo)).
Proof.
  assert (H : cancelled_order_ids (cancel_orders_by_user tt 12 demo).1 = [2]) by (vm_compute; reflexivity).
  destruct (cancel_orders_by_user tt 12 demo) as [res b'] eqn:E. exists res, b'.
  split_and!; [reflexivity|exact H|].
  exact (proj1 (cancel_by_user_exact tt 12 demo (content demo) res b' demo_rep E)).
Defined.

Lemma cancel_all_exact_witness :
  exists res b', cancel_all_orders demo = (res, b') /\ cancelled_order_ids res = [4; 1; 2; 3] /\
    book_rep b' ∅.
Proof.
  assert (H : cancelled_order_ids (cancel_all_orders demo).1 = [4; 1; 2; 3]) by (vm_compute; reflexivity).
  destruct (cancel_all_orders demo) as [res b'] eqn:E. exists res, b'.
  split_and!; [reflexivity|exact H|].
  exact (proj1 (cancel_all_exact demo (content demo) res b' demo_rep E)).
Defined.

(** The same book with a day order and a dated order, and a market close. *)
Definition dated : OrderBook :=
  add_all [Standard 5 98 1 Buy 14 0 (Gtd 500) tt; Standard 6 97 1 Buy 14 0 Day tt]
    (set_market_close_timestamp 1000 demo).

Lemma dated_rep : book_rep dated (content dated).
Proof.
  apply add_all_rep, (book_rep_content _ (content demo)). apply book_rep_close, demo_rep.
Qed.

Lemma evict_expired_exact_witness :
  exists evicted b', evict_expired_orders tt 500 dated = (evicted, b') /\
    (o_id <$> evicted) = [5] /\ evict_expired_orders tt 500 b' = ([], b').
Proof.
  assert (H : (o_id <$> (evict_expired_orders tt 500 dated).1) = [5]) by (vm_compute; reflexivity).
  destruct (evict_expired_orders tt 500 dated) as [evicted b'] eqn:E. exists evicted, b'.
  split_and!; [reflexivity|exact H|].
  exact (proj2 (proj2 (proj2 (proj2 (proj2 (evict_expired_exact tt 500 dated (content dated) evicted b'
    dated_rep E)))))).
Defined.

(** ** Corners of the engine, on concrete books *)

(** Seller 11 offers 10 at 100, then user 20 offers 5 at the same price;
    self-trade prevention cancels the taker. *)
Definition stp_corner : OrderBook :=
  set_order_state_tracker (OrderState.with_clock stub_new)
    (add_all [Standard 1 100 10 Sell 11 0 Gtc tt; Standard 2 100 5 Sell 20 0 Gtc tt]
       (set_stp_mode CancelTaker (with_clock_and_namespace "BTC/USD" stub_new 0))).
Definition stp_taker : OrderType unit := Standard 9 100 10 Buy 20 0 Fok tt.

(** A completely filled taker can be reported as self-trade prevented.
    User 20 sends a fill-or-kill buy of 10; the 10 units of user 11 stand in
    front of user 20's own order, so the taker fills completely without
    touching it.  Still the call returns [SelfTradePrevented] and records the
    order as cancelled with 10 units filled, because the sweep flags the
    taker at any level that holds one of its own orders. *)
Theorem stp_full_fill_reported_prevented :
  fst (add_order tt stp_taker stp_corner) = Err (SelfTradePrevented CancelTaker 9 20) /\
  order_status 9 (snd (add_order tt stp_taker stp_corner)) = Some (Cancelled 10 SelfTradePrevention) /\
  locations (snd (add_order tt stp_taker stp_corner)) !! 1 = None /\
  locations (snd (add_order tt stp_taker stp_corner)) !! 2 = Some (100, Sell).
Proof. by vm_compute. Qed.

(** User 11 may have one open order. *)
Definition one_order_risk : RiskConfig := with_max_open_orders_per_account risk_config_new 1.
Definition risk_corner : OrderBook :=
  add_all [Standard 1 100 10 Sell 11 0 Gtc tt]
    (set_risk_config one_order_risk (with_clock_and_namespace "BTC/USD" stub_new 0)).
Definition next_of_11 : OrderType unit := Standard 3 101 10 Sell 11 0 Gtc tt.

(** The cancel arm of [update_order] keeps the risk slot.  After
    [cancel_order] user 11 may place another order; after the same cancel sent
    through [update_order] the book is just as empty, but the account is still
    charged for the order and its next order is refused. *)
Theorem update_cancel_leaks_risk :
  locations (snd (cancel_order tt 1 risk_corner)) = ∅ /\
  locations (snd (update_order tt (Cancel 1) risk_corner)) = ∅ /\
  is_ok (fst (add_order tt next_of_11 (snd (cancel_order tt 1 risk_corner)))) = true /\
  fst (add_order tt next_of_11 (snd (update_order tt (Cancel 1) risk_corner)))
    = Err (RiskMaxOpenOrders 11 1 1).
Proof. by vm_compute. Qed.

(** User 11 places orders 1, 2 and 3; order 1 is then filled. *)
Definition index_corner : OrderBook :=
  add_all [Standard 1 100 1 Sell 11 0 Gtc tt; Standard 2 101 1 Sell 11 0 Gtc tt;
           Standard 3 102 1 Sell 11 0 Gtc tt; Standard 9 100 1 Buy 20 0 Ioc tt]
    (with_clock_and_namespace "BTC/USD" stub_new 0).

(** The user index is reordered by fills.  A filled maker leaves its
    user's entry by a swap with the last id, so a mass cancel by user reports
    orders 3 and 2 here, not in the order in which they were admitted. *)
Theorem user_index_reordered_by_fill :
  cancelled_order_ids (fst (cancel_orders_by_user tt 11 index_corner)) = [3; 2].
Proof. by vm_compute. Qed.
