(* ===== verification/GateScenarios.v ===== *)
(** * Scenarios for concurrent callers

    A fill-or-kill submission with a cancel that arrives meanwhile, a listener
    that calls back into the book while a writer is queued, and a price query
    that runs into the middle of a sweep. *)

From S2P Require Import Prelude Types PriceLevel PriceLevelFifo OrderQuantity Fees Stp Clock Cache Risk OrderState Reject SkipMap Book BookInv Matching MatchingInv MatchingSteps SweepFrame MatchingProps Modifications ModificationsProps AddProps MassCancel Operations SubmitGate GatedBook Scenarios.
Local Open Scope N_scope.
#[local] Existing Instance sample_wall.

(** The call a step is about, looked up in a concrete system. *)
Ltac at_call c :=
  match goal with |- context [match ?x with _ => _ end] => replace x with (Some c) by reflexivity end.

(** ** Two callers *)

Section TwoCallers.
Context {PA : PriceLevelApi} {WC : WallClock} (b : OrderBook) (e e2 : EntryPoint (T := unit)).

(** The work of an entry point in one step, and the call that does it. *)
Definition one_step (e : EntryPoint (T := unit)) : Thread OrderBook Reply :=
  at_once (entry_body tt e) Returned.
Definition in_one_step (e : EntryPoint (T := unit)) : Thread OrderBook Reply :=
  guarded (gate_mode e) (one_step e).

Lemma one_step_implements x : implements tt (one_step x) x.
Proof. intros b'. unfold one_step. rewrite run_at_once. unfold sbind. by destruct (entry_body tt x b'). Qed.

Lemma in_one_step_proper t x : proper tt (Invoke t x (in_one_step x)).
Proof. exists (one_step x). split_and!; [done|by intros ?|apply one_step_implements]. Qed.

Definition caller (x : EntryPoint) : BookCall (T := unit) :=
  {| entry := x; guards := []; queued := false; thread := in_one_step x |}.
Definition at_work (x : EntryPoint) (m : GateMode) (th : Thread OrderBook Reply) : BookCall (T := unit) :=
  {| entry := x; guards := [m]; queued := false; thread := th |}.
Definition finished (x : EntryPoint) : BookCall (T := unit) :=
  {| entry := x; guards := []; queued := false; thread := Returned (entry_body tt x b).1 |}.

Definition called : BookSystem (T := unit) :=
  {| shared := b; calls := <[1 := caller e]> ∅; replies := [] |}.
Definition begun : BookSystem (T := unit) :=
  {| shared := b;
     calls := <[1 := at_work e Exclusive (release_at_end (one_step e))]> (calls called); replies := [] |}.
Definition worked : BookSystem (T := unit) :=
  {| shared := (entry_body tt e b).2;
     calls := <[1 := at_work e Exclusive (Unlocking (Returned (entry_body tt e b).1))]>
                (<[2 := caller e2]> (calls begun));
     replies := [] |}.
Definition over : BookSystem (T := unit) :=
  {| shared := (entry_body tt e b).2; calls := <[1 := finished e]> (calls worked); replies := [] |}.

(** The second call arrives while the first works, and waits. *)
Lemma two_callers : gate_mode e = Exclusive ->
  window tt b [Invoke 1 e (in_one_step e)] [Invoke 2 e2 (in_one_step e2); Advance 1] 1 (caller e)
    called begun worked over.
Proof.
  intros Hm. split.
  - repeat constructor; [exact (in_one_step_proper 1 e)|exact (in_one_step_proper 2 e2)].
  - reflexivity.
  - apply lookup_insert_eq.
  - assert (Hf : gate_free Exclusive (calls called) = true).
    { apply gate_free_exclusive. apply map_Forall_insert_2; [done|apply map_Forall_empty]. }
    unfold book_step_of. cbn [gate_step]. at_call (caller e). unfold caller, in_one_step, guarded.
    by rewrite Hm, Hf.
  - repeat constructor.
  - unfold book_run. cbn [gate_run gate_step].
    match goal with |- context [match ?x with _ => _ end] => replace x with (@None (BookCall (T := unit))) by done end.
    at_call (at_work e Exclusive (release_at_end (one_step e))). done.
  - unfold book_step_of. cbn [gate_step].
    at_call (at_work e Exclusive (Unlocking (Returned (entry_body tt e b).1))). done.
Qed.

(** ** A listener that calls back *)

(** While [e], a shared call, is at work, a listener it notifies calls [cb],
    another shared entry point, of the same book. *)
Definition calling_back (cb : EntryPoint) : Thread OrderBook (Reply (T := unit)) :=
  guarded (gate_mode e) (at_once (entry_body tt e) (fun r =>
    Locking Shared (at_once (entry_body tt cb) (fun _ => Unlocking (Returned r))))).

Definition rest_of (cb : EntryPoint) : Thread OrderBook (Reply (T := unit)) :=
  Locking Shared (release_at_end (at_once (entry_body tt cb)
    (fun _ => Unlocking (Returned (entry_body tt e b).1)))).

(** Meanwhile [e2], an exclusive call, has queued. *)
Definition stuck (cb : EntryPoint) : BookSystem (T := unit) :=
  {| shared := (entry_body tt e b).2;
     calls := <[2 := {| entry := e2; guards := []; queued := true; thread := in_one_step e2 |}]>
                (<[1 := at_work e Shared (rest_of cb)]> ∅);
     replies := [] |}.

Definition call_back (cb : EntryPoint) : list (BookAction (T := unit)) :=
  [Invoke 1 e (calling_back cb); Acquire 1; Advance 1; Invoke 2 e2 (in_one_step e2); Enqueue 2].

Lemma stuck_reached cb : gate_mode e = Shared -> gate_mode e2 = Exclusive ->
  book_run (call_back cb) (system_new b) = Some (stuck cb).
Proof.
  intros Hm1 Hm2. unfold book_run, call_back, calling_back, in_one_step. rewrite Hm1, Hm2.
  unfold stuck, in_one_step. rewrite Hm2. reflexivity.
Qed.

(** The listener waits for the queued writer, the writer for the call that
    notified the listener. *)
Lemma stuck_stays cb ev : gate_mode e2 = Exclusive -> own_work ev -> book_step_of ev (stuck cb) = None.
Proof.
  intros Hm2 Hw.
  assert (Hx : gate_free Exclusive (calls (stuck cb)) = false).
  { apply not_true_is_false. intros Hu%gate_free_exclusive.
    assert (Hl : calls (stuck cb) !! 1 = Some (at_work e Shared (rest_of cb))).
    { simpl. rewrite lookup_insert_ne by done. apply lookup_insert_eq. }
    specialize (Hu 1 _ Hl). done. }
  assert (Hc : forall t : Tid, calls (stuck cb) !! t = None \/ calls (stuck cb) !! t = Some (at_work e Shared (rest_of cb)) \/
    calls (stuck cb) !! t = Some {| entry := e2; guards := []; queued := true; thread := in_one_step e2 |}).
  { intros t. simpl. rewrite !lookup_insert. repeat case_decide; auto. }
  unfold book_step_of. destruct ev as [t e0 th|t|t|t|t|t|q]; simpl in Hw; try done; cbn [gate_step];
    match goal with |- context [match ?x with _ => _ end] => destruct (Hc t : x = _ \/ x = _ \/ x = _) as [-> |[-> | ->]] end;
    try reflexivity; unfold at_work, rest_of, in_one_step, guarded.
  rewrite Hm2.
  by match goal with |- (if ?g then _ else _) = None => replace g with false by (symmetry; exact Hx) end.
Qed.
End TwoCallers.

Lemma fok_atomic_among_callers_witness :
  let e := CallAddOrderWithResult fok_order in
  let s3 := over demo e (CallCancelOrder 1) in
  exists r, about_to_reply 1 r s3 /\ entry_body tt e demo = (r, shared s3).
Proof.
  destruct (fok_atomic_among_callers tt demo _ _ 1 _ _ _ _ _ fok_order (content demo)
    (two_callers demo (CallAddOrderWithResult fok_order) (CallCancelOrder 1) eq_refl)
    eq_refl demo_rep demo_depth eq_refl ltac:(by vm_compute) ltac:(by vm_compute)) as (r & _ & H1 & H2 & _).
  exists r. split; [exact H1|exact H2].
Defined.


(** Re-entering the gate blocks.  A market match notifies a listener, which
    cancels an order of the same book; a fill-or-kill submission has queued in
    between.  The cancel cannot read while the writer is queued, the writer
    cannot write while the match holds its guard: two calls are under way and
    no step of either is possible.  The match is not a guarded call: its body
    takes a guard. *)
Theorem reentrant_callback_deadlocks :
  let e := CallMatchOrder 30 Buy 5 None 20 in
  exists s : BookSystem (T := unit),
    book_run (call_back e (CallAddOrderWithResult fok_order) (CallCancelOrder 1)) (system_new demo) = Some s /\
    size (calls s) = 2%nat /\ (forall ev, own_work ev -> book_step_of ev s = None) /\
    ~ proper tt (Invoke 1 e (calling_back e (CallCancelOrder 1))).
Proof.
  intros e. exists (stuck demo e (CallAddOrderWithResult fok_order) (CallCancelOrder 1)). split_and!.
  - by apply stuck_reached.
  - simpl. rewrite !map_size_insert_None; [by rewrite map_size_empty|apply lookup_empty|].
    rewrite lookup_insert_ne by done. apply lookup_empty.
  - intros ev Hw. by apply stuck_stays.
  - intros (body & Hb & Hu & _). unfold calling_back, guarded in Hb. injection Hb as Hb.
    destruct body as [|effect next| |]; try done. simpl in Hb. injection Hb as _ Hn.
    specialize (Hu demo). apply (f_equal (fun f => f demo)) in Hn. simpl in Hn. by destruct (next demo).
Qed.

(** ** A query in the middle of a sweep *)

Section Split.
Context {PA : PriceLevelApi} {WC : WallClock}.

(** [match_order_inner] after its first statement, the invalidation. *)
Definition sweep_rest (order_id : Id) (side : Side) (m : MatchMode) (user : Hash32) (kind : TakerKind) :
    ST OrderBook (Result OrderBookError MatchOutcome) :=
  ltac:(let body := eval cbv beta delta [match_order_inner] in (match_order_inner order_id side m user kind) in
        match body with sbind _ ?k => exact (k tt) end).

Lemma sweep_split order_id side m user kind b :
  match_order_inner order_id side m user kind b =
  (do! smod (set_cache invalidate) in sweep_rest order_id side m user kind) b.
Proof. reflexivity. Qed.

(** A matching call cut after the invalidation. *)
Definition cut_body (order_id : Id) (side : Side) (quantity : N) (limit : option N) (user : Hash32) :
    Thread OrderBook (Reply (T := unit)) :=
  at_once (smod (set_cache invalidate)) (fun _ =>
    at_once (sweep_rest order_id side (BaseQty quantity limit) user TakerStandard)
      (fun r => Returned (Matched (result_map result r)))).

Definition cut_match (order_id : Id) (side : Side) (quantity : N) (limit : option N) (user : Hash32) :
    Thread OrderBook (Reply (T := unit)) :=
  guarded Shared (cut_body order_id side quantity limit user).

Lemma cut_body_implements order_id side quantity limit user :
  implements tt (cut_body order_id side quantity limit user) (CallMatchOrder order_id side quantity limit user).
Proof.
  intros b. unfold cut_body. rewrite run_at_once. unfold sbind at 1, smod. simpl run_alone.
  unfold entry_body, reply_with, match_order_with_user, match_order_with_user_outcome, sbind at 1, stry.
  rewrite sweep_split. unfold sbind, smod, sret.
  destruct (sweep_rest _ _ _ _ _ _) as [[out|err] b']; reflexivity.
Qed.
End Split.

(** A buyer takes the whole best level of the demo book (30 units at 101,
    user 12's iceberg included); between the invalidation and the sweep
    another thread asks for the best ask. *)
Definition taking_best : EntryPoint (T := unit) := CallMatchOrder 30 Buy 30 None 20.
Definition race : list (BookAction (T := unit)) :=
  [Invoke 1 taking_best (cut_match 30 Buy 30 None 20); Acquire 1; Advance 1; Ask BestAsk;
   Advance 1; Release 1; Reply_to 1].
Definition after_race : BookSystem (T := unit) := default (system_new demo) (book_run race (system_new demo)).

Lemma default_run {A} (d : A) o : bool_decide (is_Some o) = true -> o = Some (default d o).
Proof. by intros [x ->]%bool_decide_eq_true. Qed.

(** The cache is cleared once, before the sweep, and queries take no gate.  A
    query that runs in between caches the level the sweep is about to empty.
    When all calls are done the book's best ask is 102, the price it answers
    is 101, and so a post-only bid at 101, which would rest without crossing,
    is refused. *)
Theorem stale_price_after_race :
  exists s, Forall (proper tt) race /\ book_run race (system_new demo) = Some s /\ size (calls s) = 0%nat /\
    (best_ask (shared s)).1 = Some 101 /\ sm_front (levels Sell (shared s)) = Some 102 /\
    (add_order tt (PostOnly 31 101 1 Buy 20 0 Gtc tt) (shared s)).1 = Err (PriceCrossing 101 Buy 101).
Proof.
  exists after_race. split_and!.
  - repeat constructor. exists (cut_body 30 Buy 30 None 20).
    split_and!; [done|by intros ? ?|apply cut_body_implements].
  - apply default_run. vm_compute. reflexivity.
  - vm_compute. reflexivity.
  - vm_compute. reflexivity.
  - vm_compute. reflexivity.
  - vm_compute. reflexivity.
Qed.
