(* ===== verification/DepthScenarios.v ===== *)
(** * Scenarios for the depth analytics *)

From S2P Require Import Prelude Float64 Types PriceLevel PriceLevelFifo OrderQuantity Fees Stp Clock Cache Risk OrderState Reject SkipMap Book BookInv Matching Depth Statistics DepthProps Modifications Scenarios.
Local Open Scope N_scope.
#[local] Existing Instance sample_wall.

(** On the demo book 30 units are offered at 101 and 8 at 102. *)
Lemma price_at_depth_exact_witness :
  price_at_depth 31 Sell demo = Some 102 /\ cumulative_depth_to_target 31 Sell demo = Some (102, 38).
Proof.
  assert (Ep : price_at_depth 31 Sell demo = Some 102) by (vm_compute; reflexivity).
  assert (Ed : N.min U64_MAX (depth_to Sell 102 demo) = 38) by (vm_compute; reflexivity).
  split; [exact Ep|]. rewrite <- Ed.
  exact (proj1 (proj2 (price_at_depth_exact 31 Sell demo 102 ltac:(vm_compute; discriminate))) Ep).
Defined.

Lemma dry_runs_agree_witness :
  sim_total_filled (simulate_market_order 31 Buy demo) = 31 /\
  peek_match Buy 31 None demo = 31 /\
  can_fill (market_impact 31 Buy demo).1 31 = is_fully_filled (simulate_market_order 31 Buy demo).
Proof.
  assert (E : sim_total_filled (simulate_market_order 31 Buy demo) = 31) by (vm_compute; reflexivity).
  pose proof (dry_runs_agree 31 Buy demo ltac:(vm_compute; reflexivity) ltac:(vm_compute; discriminate)) as H.
  cbv zeta in H. destruct H as (H1 & _ & _ & _ & _ & _ & H2).
  split; [exact E|]. split; [rewrite <- H1; exact E|exact H2].
Defined.

(** Two offers, at 100 and at 110. *)
Definition wide : OrderBook :=
  add_all [Standard 1 100 5 Sell 11 0 Gtc tt; Standard 2 110 7 Sell 12 0 Gtc tt] demo_empty.

Lemma wide_prices p : is_Some (levels Sell wide !! p) -> 100 <= p /\ p <= 110.
Proof.
  intros [lv H]. assert (Hall : map_Forall (fun p _ => 100 <= p /\ p <= 110) (levels Sell wide))
    by (apply (bool_decide_unpack _); vm_compute; exact I).
  exact (Hall _ _ H).
Qed.

Definition last_bin (l : list DistributionBin) : DistributionBin :=
  default {| bin_min_price := 0; bin_max_price := 0; bin_volume := 0; bin_level_count := 0 |} (last l).

Lemma histogram_exact_witness :
  length (depth_distribution Sell 4 wide) = 4%nat /\
  bin_volume (last_bin (depth_distribution Sell 4 wide)) = 7.
Proof.
  assert (E : depth_distribution Sell 4 wide !! 3%nat = Some (last_bin (depth_distribution Sell 4 wide)))
    by (vm_compute; reflexivity).
  assert (H100 : is_Some (levels Sell wide !! 100)) by (vm_compute; eauto).
  assert (H110 : is_Some (levels Sell wide !! 110)) by (vm_compute; eauto).
  pose proof (histogram_exact Sell 4 wide 100 110 3 _ H100 H110 wide_prices
    ltac:(vm_compute; discriminate) E) as (H1 & H2 & _).
  split; [exact H1|]. rewrite H2. vm_compute. reflexivity.
Defined.

(** The histogram's last bin can be inverted.  With offers at 100 and
    110 in eight bins, the rounded-up width is 2, so the last bin runs from
    114 to 111; it is the bin that holds the offer at 110, while the bin
    whose range contains 110 stays empty. *)
Theorem histogram_last_bin_inverted :
  let h := depth_distribution Sell 8 wide in
  bin_min_price (last_bin h) = 114 /\ bin_max_price (last_bin h) = 111 /\ bin_volume (last_bin h) = 7 /\
  exists bin, h !! 5%nat = Some bin /\
    bin_min_price bin <= 110 /\ 110 < bin_max_price bin /\ bin_volume bin = 0.
Proof. vm_compute. split_and!; try done. eexists. split_and!; done. Qed.
