(* ===== verification/RepricingScenarios.v ===== *)
(** * Scenarios for re-pricing *)

From S2P Require Import Prelude Float64 Types PriceLevel PriceLevelFifo OrderQuantity Fees Stp Clock Cache Risk OrderState Reject SkipMap Book BookInv Matching MatchingInv MatchingSteps MatchingProps Depth Modifications ModificationsProps AddProps UpdateProps Uncrossed Repricing RepricingProps Scenarios.
From stdpp Require Import pretty.
Local Open Scope N_scope.
#[local] Existing Instance sample_wall.

(** Ids printed in decimal. *)
#[local] Instance decimal_ids : IdDisplay := fun id : N => pretty id.

(** An offer at 107 on a grid of 5: a buy pegged to it goes to 100, the last
    price of the grid a full tick below the offer. *)
Lemma pegged_price_exact_witness :
  calculate_pegged_price Types.BestAsk 0 Buy (Some 90) (Some 107) None None (Some 5) = Some 100 /\
  on_grid 5 100 /\ 100 + 5 <= 107 /\ forall q, on_grid 5 q -> q <= 107 -> q + 5 <= 107 -> q <= 100.
Proof.
  pose proof (pegged_price_exact Types.BestAsk 0 Buy (Some 90) (Some 107) None None (Some 5)) as H.
  cbv zeta in H.
  assert (E : calculate_pegged_price Types.BestAsk 0 Buy (Some 90) (Some 107) None None (Some 5) = Some 100)
    by (vm_compute; reflexivity).
  rewrite E in H. split; [exact E|].
  destruct H as [Hg (r & [= <-] & _ & [[_ Ha]|(? & _)] & Hq)].
  - intros r [= <-]. vm_compute. split; discriminate.
  - intros b [= <-]. vm_compute. discriminate.
  - vm_compute. split; [reflexivity|discriminate].
  - split_and!; [exact Hg|exact (Ha 107 eq_refl)|].
    intros q Hg' Hq1 Hq2. apply Hq; [done|exact Hq1|]. intros a [= <-]. exact Hq2.
  - discriminate.
Defined.

Lemma repricing_order_deterministic_witness :
  sort_ids [10; 9; 2] = [10; 2; 9] /\ sort_ids [10; 9; 2] = sort_ids (elements ({[9; 2; 10]} : gset Id)).
Proof.
  split; [vm_compute; reflexivity|].
  refine (proj1 (repricing_order_deterministic {[9; 2; 10]} [10; 9; 2] pretty_N_inj _)).
  vm_compute. solve_Permutation.
Defined.

(** A bid at 100, an offer at 110, a buy pegged one tick inside the offer, a
    sell pegged one tick inside the bid, and a trailing stop. *)
Definition pegs : OrderBook :=
  add_all [ Standard 1 100 5 Buy 11 0 Gtc tt; Standard 2 110 5 Sell 12 0 Gtc tt;
            PeggedOrder 3 99 4 Buy 13 0 Gtc (-1)%Z Types.BestAsk tt;
            PeggedOrder 4 111 4 Sell 14 0 Gtc 1%Z Types.BestBid tt;
            TrailingStop 5 112 4 Sell 15 0 Gtc 2 90 tt ] demo_empty.

Lemma pegs_rep : book_rep pegs (content pegs).
Proof.
  apply add_all_rep, (book_rep_content _ ∅).
  apply (book_rep_same_levels (with_clock_and_namespace "BTC/USD" stub_new 0)); try done; [by left|].
  by apply empty_rep.
Qed.

(** A pegged pass can trade.  The best prices are read once, before
    the loop, so the first peg moves to 109, the second is computed against
    the old best bid and moves to 101, through the first: the two pegs trade
    although both prices are strictly inside the market the pass started
    from. *)
Theorem pegged_pass_can_trade :
  pegged_order_ids pegs = [3; 4] /\ has_traded pegs = false /\
  calculate_pegged_price Types.BestAsk (-1) Buy (Some 100) (Some 110) (Some 105) None None = Some 109 /\
  calculate_pegged_price Types.BestBid 1 Sell (Some 100) (Some 110) (Some 105) None None = Some 101 /\
  (reprice_pegged_orders tt pegs).1 = Ok 2%nat /\
  has_traded (reprice_pegged_orders tt pegs).2 = true /\
  last_trade_price (reprice_pegged_orders tt pegs).2 = 109.
Proof. split_and!; vm_compute; reflexivity. Qed.

Lemma reprice_keeps_book_witness :
  exists r b' R', reprice_pegged_orders tt pegs = (r, b') /\ r = Ok 2%nat /\
    book_rep b' R' /\ moved [3; 4] (content pegs) R'.
Proof.
  assert (Hr : (reprice_pegged_orders tt pegs).1 = Ok 2%nat) by (vm_compute; reflexivity).
  assert (Hi : pegged_order_ids pegs = [3; 4]) by (vm_compute; reflexivity).
  pose proof (proj1 (reprice_keeps_book tt pegs (content pegs) pegs_rep)) as H. rewrite Hi in H.
  destruct (reprice_pegged_orders tt pegs) as [r b']. destruct (H r b' eq_refl) as (_ & R' & H1 & H2).
  exists r, b', R'. split_and!; [reflexivity|exact Hr|exact H1|exact H2].
Defined.

(** Executable form of [uncrossed]. *)
Definition uncrossedb {PA : PriceLevelApi} (b : OrderBook) : bool :=
  forallb (fun x => forallb (fun y => x.1 <? y.1) (sm_iter (levels Sell b))) (sm_iter (levels Buy b)).

Lemma uncrossedb_spec {PA : PriceLevelApi} (b : OrderBook) : uncrossedb b = true -> uncrossed b.
Proof.
  unfold uncrossedb. rewrite forallb_forall. intros H pb pa [lb Hb] [la Ha].
  apply elem_of_sm_iter, list_elem_of_In in Hb, Ha. specialize (H _ Hb). rewrite forallb_forall in H.
  specialize (H _ Ha). by apply N.ltb_lt.
Qed.

Lemma pegs_uncrossed : uncrossed pegs.
Proof. apply uncrossedb_spec. vm_compute. reflexivity. Qed.

Lemma pegs_in_place : orders_in_place pegs.
Proof.
  assert (H : forall s, map_Forall (fun p lv =>
      Forall (fun o => o_price o = p /\ o_side o = s /\ p <= U128_MAX) (fl_queue lv)) (levels s pegs))
    by (intros []; apply (bool_decide_unpack _); by vm_compute).
  intros s p lv o Hlv Ho. specialize (H s p lv Hlv). simpl in H. rewrite Forall_forall in H. by apply H.
Qed.

Lemma trailing_stops_inert_witness :
  trailing_stop_ids pegs = [5] /\
  exists b', reprice_trailing_stops tt pegs = (Ok 0%nat, b') /\ book_rep b' (content pegs).
Proof.
  split; [vm_compute; reflexivity|].
  destruct (reprice_trailing_stops tt pegs) as [r b'] eqn:E. exists b'.
  destruct (trailing_stops_inert tt pegs (content pegs) r b' pegs_rep pegs_uncrossed pegs_in_place E)
    as (Hr & Hrep & _).
  split; [rewrite Hr; reflexivity|exact Hrep].
Defined.
