(* ===== verification/SnapshotScenarios.v ===== *)
(** * Scenarios for snapshots

    The snapshot interface on first-in first-out levels, and the theorems
    about restore on the demo book. *)

From S2P Require Import Prelude Float64 Types PriceLevel PriceLevelFifo OrderQuantity Fees Stp Clock Cache Risk OrderState Reject SkipMap Book BookInv Matching MatchingInv MatchingSteps MatchingProps Modifications ModificationsProps AddProps UpdateProps Uncrossed MassCancel Depth DepthProps Snapshot SnapshotProps SnapshotQueries Scenarios.
Local Open Scope N_scope.
#[local] Existing Instance sample_wall.

(** A first-in first-out level is its own snapshot. *)
Definition f_from_snapshot (s : FLevel) : Result PriceLevelError FLevel :=
  if decide (NoDup (o_id <$> fl_queue s)) then
    if sumN f_total (fl_queue s) <=? U64_MAX then Ok s
    else Err (PLInvalidOperation (Lit "level counter overflow"))
  else Err InvalidFormat.

#[export] Instance FifoSnapshotApi : SnapshotApi := {|
  LevelSnapshot := FLevel;
  ls_price := fl_price;
  pl_snapshot lv := lv;
  ls_refresh_aggregates s := s;
  pl_from_snapshot := f_from_snapshot;
|}.

#[export] Instance FifoSnapshotLaws : SnapshotLaws.
Proof.
  constructor; simpl; unfold f_from_snapshot.
  - done.
  - done.
  - intros s lv. repeat case_match; intros; by simplify_eq.
  - intros s lv. repeat case_match; intros; by simplify_eq.
  - intros lv Hnd Ht. exists lv. rewrite decide_True by done. split; [|done].
    by destruct (sumN f_total (fl_queue lv) <=? U64_MAX).
Qed.

(** A stand-in for the hash: the number of listed levels. *)
Definition sample_checksum (s : OrderBookSnapshot) : Result OrderBookError string :=
  Ok (String.append (sn_symbol s)
    (if bool_decide (length (sn_bids s) + length (sn_asks s) = 3)%nat then "three" else "other")).

Lemma risky_keeps cfg b R : book_rep b R -> book_rep (engage_kill_switch (set_risk_config cfg b)) R.
Proof. apply book_rep_quiet. by apply quiet_same. Qed.

Definition risky_demo : OrderBook :=
  engage_kill_switch (set_risk_config (with_max_open_orders_per_account risk_config_new 5) demo).
Lemma risky_rep : book_rep risky_demo (content demo).
Proof. apply risky_keeps, demo_rep. Qed.

Definition demo_package : Result OrderBookError OrderBookSnapshotPackage :=
  (create_snapshot_package sample_checksum 10 risky_demo).1.
Definition target_book : OrderBook := with_clock_and_namespace "BTC/USD" stub_new 7.

Lemma snapshot_roundtrip_witness :
  exists pkg b', demo_package = Ok pkg /\
    restore_from_snapshot_package sample_checksum pkg target_book = (Ok tt, b') /\
    book_rep b' (content demo) /\ kill_switch b' = true.
Proof.
  assert (Ht : forall s, map_Forall (fun _ lv => is_ok (pl_total_quantity lv) = true) (levels s risky_demo))
    by (intros []; apply (bool_decide_unpack _); vm_compute; exact I).
  assert (Hd : forall s, (size (levels s risky_demo) <= 10)%nat)
    by (intros []; apply (bool_decide_unpack _); vm_compute; exact I).
  assert (Ho : is_ok demo_package = true) by (vm_compute; reflexivity).
  unfold demo_package in *.
  destruct (create_snapshot_package sample_checksum 10 risky_demo) as [[pkg|e] b1] eqn:E; [|discriminate Ho].
  destruct (snapshot_roundtrip sample_checksum 10 risky_demo (content demo) pkg b1 target_book
    risky_rep (fun s p lv => Ht s p lv) Hd eq_refl E) as (b' & H1 & H2 & _ & _ & _ & H3 & _).
  exists pkg, b'. split; [reflexivity|]. split; [exact H1|]. split; [exact H2|exact H3].
Defined.

Lemma demo_restores :
  exists pkg b', demo_package = Ok pkg /\
    restore_from_snapshot_package sample_checksum pkg target_book = (Ok tt, b').
Proof.
  assert (Ho : match demo_package with
               | Ok pkg => is_ok (restore_from_snapshot_package sample_checksum pkg target_book).1
               | Err _ => false end = true) by (vm_compute; reflexivity).
  destruct demo_package as [pkg|e]; [|discriminate Ho]. exists pkg.
  destruct (restore_from_snapshot_package sample_checksum pkg target_book) as [[[]|e] b']; [|discriminate Ho].
  by exists b'.
Qed.

Lemma restore_all_or_nothing_witness :
  exists pkg b', demo_package = Ok pkg /\
    restore_from_snapshot_package sample_checksum pkg target_book = (Ok tt, b') /\
    rests b' (content b').
Proof.
  destruct demo_restores as (pkg & b' & H1 & H2). exists pkg, b'. split; [exact H1|]. split; [exact H2|].
  exact (proj1 (proj2 (proj2 (proj2 (restore_all_or_nothing sample_checksum pkg target_book _ b' H2))))).
Defined.

Lemma restore_rebuilds_risk_witness :
  exists pkg b', demo_package = Ok pkg /\
    restore_from_snapshot_package sample_checksum pkg target_book = (Ok tt, b') /\
    config (risk_state b') = pk_risk_config pkg.
Proof.
  destruct demo_restores as (pkg & b' & H1 & H2). exists pkg, b'. split; [exact H1|]. split; [exact H2|].
  exact (proj1 (restore_rebuilds_risk sample_checksum pkg target_book b' H2)).
Defined.

(** ** Questions to a snapshot *)

#[export] Instance FifoSnapshotQueryApi : SnapshotQueryApi := {|
  ls_visible_quantity := pl_visible_quantity : FLevel -> N;
  ls_total_quantity := pl_total_quantity : FLevel -> _;
|}.
#[export] Instance FifoSnapshotQueryLaws : SnapshotQueryLaws.
Proof. by split. Qed.

Lemma snapshots_answer_as_book_witness :
  sn_best_bid (create_snapshot 1 demo).1 = Some (99, 6) /\ sn_best_ask (create_snapshot 1 demo).1 = Some (101, 15) /\
  es_mid_price (enriched_snapshot 1 demo).1 = (mid_price demo).1 /\
  es_ask_depth_total (enriched_snapshot 1 demo).1 = 30.
Proof.
  destruct (snapshots_answer_as_book demo (content demo) 1 demo_rep ltac:(lia))
    as (H1 & H2 & _ & _ & _ & _ & H7 & _ & _ & _ & H11).
  split_and!; [rewrite H1; vm_compute; reflexivity|rewrite H2; vm_compute; reflexivity|exact H7|].
  rewrite H11; [vm_compute; reflexivity|]. vm_compute. congruence.
Defined.

(** Two levels whose quantities sum to 2^64: the imbalance of an enriched
    snapshot saturates, its depth total wraps to zero. *)
Definition deep_book : OrderBook :=
  add_all [Standard 1 99 (2 ^ 63) Buy 11 0 Gtc tt; Standard 2 98 (2 ^ 63) Buy 12 0 Gtc tt] demo_empty.
Theorem enriched_depth_wraps :
  total_depth_at_levels 10 Buy deep_book = U64_MAX /\
  es_bid_depth_total (enriched_snapshot 10 deep_book).1 = 0 /\
  es_order_book_imbalance (enriched_snapshot 10 deep_book).1 = f64_of_N 1.
Proof. split_and!; vm_compute; reflexivity. Qed.
