(* ===== verification/ReplayScenarios.v ===== *)
(** * Scenarios for journal replay

    A short journal on first-in first-out levels: the theorems about replay
    instantiated, and what becomes of an order that trades and then fails. *)

From S2P Require Import Prelude Types PriceLevel PriceLevelFifo OrderQuantity Fees Stp Clock Cache Risk OrderState Reject SkipMap Book BookInv Matching MatchingInv MatchingSteps MatchingProps Modifications ModificationsProps AddProps UpdateProps Uncrossed MassCancel Operations Depth DepthProps Snapshot SnapshotProps SnapshotQueries Replay ReplayProps ReplayVerify UncrossedCommands Scenarios SnapshotScenarios.
Local Open Scope N_scope.
#[local] Existing Instance sample_wall.

Definition fresh_book : OrderBook := with_clock_and_namespace "BTC/USD" stub_new 0.
Lemma fresh_rep : book_rep fresh_book (content fresh_book).
Proof. apply (book_rep_content _ ∅). by apply empty_rep. Qed.

Definition event (seq : N) (c : SequencerCommand unit) (r : SequencerResult) : SequencerEvent unit :=
  {| sequence_num := seq; timestamp_ns := seq; command := c; event_result := r |}.
Definition journal_of (l : list (SequencerEvent unit)) : InMemoryJournal := {| journal_events := l |}.

Definition sell_10 : OrderType unit := Standard 1 100 10 Sell 11 0 Gtc tt.
Definition first_events : list (SequencerEvent unit) :=
  [event 0 (AddOrder sell_10) (OrderAdded 1);
   event 1 (AddOrder sell_10) (ResultRejected "duplicate order id")].
Definition more_events : list (SequencerEvent unit) :=
  [event 2 (MarketOrder 7 4 Buy) (OrderAdded 7);
   event 3 (UpdateOrder (UpdateQuantity 1 3)) (OrderUpdated 1);
   event 4 (CancelBySide Sell) (MassCancelled mass_cancel_default)].

Lemma replay_exact_witness :
  replay_into tt (journal_of (first_events ++ more_events)) 0 fresh_book =
    replay_reference tt 0 (first_events ++ more_events) fresh_book /\
  fst (replay_into tt (journal_of (first_events ++ more_events)) 0 fresh_book) =
    Ok (4, [(1, 0); (2, 2); (3, 3); (4, 4)]).
Proof.
  split; [|vm_compute; reflexivity].
  apply (replay_exact tt (journal_of (first_events ++ more_events)) 0 fresh_book). vm_compute. congruence.
Defined.

Lemma replay_resumes_witness :
  exists x b1, replay_into tt (journal_of first_events) 0 fresh_book = (Ok x, b1) /\ x = (0, [(1, 0)]) /\
    (replay_into tt (journal_of (first_events ++ more_events)) 2 b1).2 =
    (replay_into tt (journal_of (first_events ++ more_events)) 0 fresh_book).2.
Proof.
  assert (H : (replay_into tt (journal_of first_events) 0 fresh_book).1 = Ok (0, [(1, 0)]))
    by (vm_compute; reflexivity).
  destruct (replay_into tt (journal_of first_events) 0 fresh_book) as [r b1] eqn:E. simpl in H. subst r.
  eexists _, b1. split_and!; [reflexivity|reflexivity|].
  refine (proj1 (replay_resumes tt (journal_of first_events) (journal_of (first_events ++ more_events))
    more_events 0 fresh_book _ b1 eq_refl _ _ E)).
  - repeat split.
  - vm_compute. congruence.
Defined.

Lemma replay_keeps_book_witness :
  exists r b', replay_into tt (journal_of (first_events ++ more_events)) 0 fresh_book = (r, b') /\
    is_ok r = true /\ book_rep b' (content b').
Proof.
  assert (H : is_ok (replay_into tt (journal_of (first_events ++ more_events)) 0 fresh_book).1 = true)
    by (vm_compute; reflexivity).
  destruct (replay_into tt (journal_of (first_events ++ more_events)) 0 fresh_book) as [r b'] eqn:E.
  exists r, b'. split_and!; [reflexivity|exact H|].
  refine (proj2 (replay_keeps_book tt (journal_of (first_events ++ more_events)) 0 fresh_book r b'
    fresh_rep _ E)).
  intros entries [= <-]. repeat constructor.
Defined.

Definition ioc_15 : OrderType unit := Standard 2 100 15 Buy 20 0 Ioc tt.

(** An immediate order that fills in part cannot be replayed.  Live,
    an immediate-or-cancel buy of 15 against an offer of 10 takes the offer
    out of the book and returns an error for the remainder.  Whatever result
    the journal records for that command, a replay either stops with an
    error, or skips the command and keeps in the book the offer that was
    filled live. *)
Theorem partial_ioc_not_replayable :
  let live := snd (add_order tt ioc_15 (snd (add_order tt sell_10 fresh_book))) in
  locations live = ∅ /\ get_last_trade_price live = Some 100 /\
  forall recorded,
    match replay_into tt (journal_of [event 0 (AddOrder sell_10) (OrderAdded 1);
                                      event 1 (AddOrder ioc_15) recorded]) 0 fresh_book with
    | (Ok _, b') => locations b' !! 1 = Some (100, Sell) /\ get_last_trade_price b' = None
    | (Err e, _) => e = ReplayOrderBookError 1 (InsufficientLiquidity Buy 15 10)
    end.
Proof. cbv zeta. split_and!; [by vm_compute..|]. intros []; by vm_compute. Qed.

(** ** The oracle *)

#[local] Instance FifoLevelStateApi : LevelStateApi := {|
  ls_hidden_quantity := (fun lv => sumN f_total (fl_queue lv) - pl_visible_quantity lv) : FLevel -> N;
  ls_order_count := (fun lv => N.of_nat (length (fl_queue lv))) : FLevel -> N;
  ls_orders := (fun lv => pl_iter_orders lv) : FLevel -> _;
  (** the toy levels keep no statistics *)
  ls_statistics := (fun _ => {| orders_added := 0; orders_removed := 0; orders_executed := 0;
    quantity_executed := 0; value_executed := 0; stats_degraded := false |}) : FLevel -> _;
|}.

Definition resting_events : list (SequencerEvent unit) :=
  [event 0 (AddOrder sell_10) (OrderAdded 1);
   event 1 (AddOrder (Standard 2 99 5 Buy 12 0 Gtc tt)) (OrderAdded 2);
   event 2 (AddOrder (Standard 3 98 5 Buy 12 0 Gtc tt)) (OrderAdded 3);
   event 3 (MarketOrder 7 4 Buy) (OrderAdded 7)].
Definition expected_after (l : list (SequencerEvent unit)) : OrderBookSnapshot :=
  match replay_from tt (journal_of l) 0 "BTC/USD" 0 with
  | Ok (b, _) => let s := (create_snapshot 5 b).1 in
      {| sn_symbol := sn_symbol s; sn_timestamp := 0; sn_bids := reverse (sn_bids s); sn_asks := sn_asks s |}
  | Err _ => {| sn_symbol := "BTC/USD"; sn_timestamp := 0; sn_bids := []; sn_asks := [] |}
  end.

Lemma verify_exact_witness :
  exists book last, replay_from tt (journal_of resting_events) 0 "BTC/USD" 0 = Ok (book, last) /\
    verify tt 0 (journal_of resting_events) (expected_after resting_events) = Ok true /\
    shown (sn_bids (expected_after resting_events)) = book_states Buy book /\
    shown (sn_asks (expected_after resting_events)) = book_states Sell book.
Proof.
  assert (Hn : forall l, bool_decide (NoDup (ls_price <$> l)) = true -> NoDup (ls_price <$> l))
    by (intros l; apply bool_decide_eq_true_1).
  pose proof (verify_exact tt 0 (journal_of resting_events) (expected_after resting_events)) as H.
  specialize (H ltac:(intros entries [= <-]; by repeat constructor)).
  specialize (H (Hn (sn_bids (expected_after resting_events)) ltac:(vm_compute; reflexivity))
    (Hn (sn_asks (expected_after resting_events)) ltac:(vm_compute; reflexivity))).
  assert (Hv : verify tt 0 (journal_of resting_events) (expected_after resting_events) = Ok true)
    by (vm_compute; reflexivity).
  assert (Hs : sn_symbol (expected_after resting_events) = "BTC/USD") by (vm_compute; reflexivity).
  rewrite Hs in H.
  destruct (replay_from tt (journal_of resting_events) 0 "BTC/USD" 0) as [[book last]|e].
  - exists book, last. destruct H as (v & H1 & H2). rewrite Hv in H1. injection H1 as <-.
    destruct (proj1 H2 eq_refl) as [H3 H4]. by split_and!.
  - rewrite Hv in H. discriminate H.
Defined.

(** A different maker queue at the same prices and quantities is told apart. *)
Example swapped_queue_detected :
  verify tt 0 (journal_of [event 0 (AddOrder sell_10) (OrderAdded 1);
                           event 1 (AddOrder (Standard 2 100 10 Sell 12 0 Gtc tt)) (OrderAdded 2)])
    (expected_after [event 0 (AddOrder (Standard 2 100 10 Sell 12 0 Gtc tt)) (OrderAdded 2);
                     event 1 (AddOrder sell_10) (OrderAdded 1)]) = Ok false.
Proof. vm_compute. reflexivity. Qed.

(** ** Never crossed *)

Lemma drawable_check (b : OrderBook) :
  (forall s, bool_decide (map_Forall (fun _ lv => Forall (fun o => 0 < f_drawable o) (fl_queue lv)) (levels s b)) = true) ->
  drawable b.
Proof.
  intros H s p lv o Hlv Ho. specialize (H s). apply bool_decide_eq_true_1 in H. specialize (H p lv Hlv).
  simpl in H. rewrite Forall_forall in H. by apply H.
Qed.

(** A re-price across the spread, a crossing sell and a cancel by side. *)
Definition crossing_commands : list (SequencerCommand unit) :=
  [UpdateOrder (UpdatePrice 4 101); AddOrder (Standard 8 95 3 Sell 21 0 Gtc tt); CancelBySide Sell].

Lemma commands_keep_uncrossed_witness :
  uncrossed (run_commands tt crossing_commands demo) /\
  locations (run_commands tt crossing_commands demo) !! 4 = None /\ locations demo !! 4 = Some (99, Buy).
Proof.
  split; [|split; vm_compute; reflexivity].
  refine (proj1 (commands_keep_uncrossed tt crossing_commands demo demo_rep demo_uncrossed _ _ _)).
  - vm_compute. congruence.
  - repeat constructor.
  - split; [|split; [|split; [|exact I]]]; apply drawable_check; intros []; vm_compute; reflexivity.
Defined.
