(* ===== verification/FileJournalScenarios.v ===== *)
(** * Scenarios for the file journal

    A small codec: cancel events only, the id in unary, a checksum that adds
    the bytes up. *)

From S2P Require Import Prelude Types PriceLevel PriceLevelFifo OrderQuantity Fees Stp Clock Cache Risk OrderState Reject SkipMap Book WireFraming Matching Modifications MassCancel Operations Replay FileJournal FileJournalProps SegmentIterator.
From stdpp Require Import sorting strings.
Local Open Scope N_scope.

Abbreviation Event := (SequencerEvent unit).

Definition cancel_event (seq ts id : N) : Event :=
  {| sequence_num := seq; timestamp_ns := ts; command := Replay.CancelOrder id; event_result := OrderCancelled id |}.

Definition tiny_to_vec (e : Event) : Result string (list N) :=
  match command e, event_result e with
  | Replay.CancelOrder id, OrderCancelled id' =>
      if (id =? id') && (sequence_num e <=? U64_MAX) && (timestamp_ns e <=? U64_MAX) then
        Ok (to_le_bytes 8 (sequence_num e) ++ to_le_bytes 8 (timestamp_ns e) ++ replicate (N.to_nat id) 7)
      else Err "out of range"
  | _, _ => Err "not a cancel"
  end.

Definition tiny_from_slice (bytes : list N) : Result string Event :=
  Ok (cancel_event (from_le_bytes (take 8 bytes)) (from_le_bytes (take 8 (drop 8 bytes)))
        (lenN (drop 16 bytes))).

#[local] Instance tiny_codec : JournalCodec Event := {|
  to_vec := tiny_to_vec;
  from_slice := tiny_from_slice;
  crc32 bytes := sumN (fun b => b) bytes mod (U32_MAX + 1);
|}.

Lemma from_to_u64 n : n <= U64_MAX -> from_le_bytes (to_le_bytes 8 n) = n.
Proof. intros H. apply from_to_le. change (256 ^ N.of_nat 8) with (U64_MAX + 1). lia. Qed.

Lemma tiny_roundtrip seq ts id :
  seq <= U64_MAX -> ts <= U64_MAX ->
  tiny_from_slice (to_le_bytes 8 seq ++ to_le_bytes 8 ts ++ replicate (N.to_nat id) 7) = Ok (cancel_event seq ts id).
Proof.
  intros Hs Ht. unfold tiny_from_slice. rewrite take_app_length' by (by rewrite length_to_le).
  rewrite drop_app_length' by (by rewrite length_to_le). rewrite take_app_length' by (by rewrite length_to_le).
  rewrite (app_assoc (to_le_bytes 8 seq)), drop_app_length' by (by rewrite length_app, !length_to_le).
  rewrite !from_to_u64 by done. unfold lenN. by rewrite length_replicate, N2Nat.id.
Qed.

#[local] Instance tiny_laws : JournalCodecLaws Event.
Proof.
  split.
  - intros [seq ts c r] bytes. simpl. unfold tiny_to_vec. simpl.
    destruct c; try discriminate; destruct r; try discriminate.
    destruct (N.eqb_spec id order_id) as [<-|]; [|discriminate]. destruct (N.leb_spec seq U64_MAX); [|discriminate].
    destruct (N.leb_spec ts U64_MAX); [|discriminate]. intros [= <-]. by apply tiny_roundtrip.
  - intros bytes. simpl. pose proof (N.mod_lt (sumN (fun b => b) bytes) (U32_MAX + 1) ltac:(lia)). lia.
Qed.

Definition entry_bytes (e : Event) : list N := match encode_entry e with Ok bytes => bytes | Err _ => [] end.

(** Entries of 44, 44 and 54 bytes: a segment of 100 holds two of them. *)
Definition three : list Event := [cancel_event 0 5 4; cancel_event 1 6 4; cancel_event 2 7 14].

Lemma three_fit : Forall (fits 100) three.
Proof. repeat constructor; eexists; split_and!; try reflexivity; vm_compute; discriminate. Qed.

Lemma three_increasing : increasing three.
Proof. repeat constructor. Qed.

Lemma file_journal_refines_witness :
  exists j, append_all three (open_with_segment_size ∅ ∅ 100) = (Ok tt, j) /\
    list_segments (dir j) = [0; 2] /\ same_journal j three /\
    same_journal (open_with_segment_size (dir j) (archived j) 100) three.
Proof.
  assert (Hs : list_segments (dir (append_all three (open_with_segment_size ∅ ∅ 100)).2) = [0; 2])
    by (vm_compute; reflexivity).
  destruct (file_journal_refines 100 100 three ltac:(vm_compute; discriminate) three_increasing three_fit)
    as (j & E & H1 & _ & H2 & _).
  exists j. rewrite E in Hs. split_and!; [exact E|exact Hs|exact H1|exact H2].
Defined.

(** ** Crashes *)

Definition first : Event := cancel_event 0 5 4.
Definition second : Event := cancel_event 1 6 4.
Definition second_long : Event := cancel_event 1 6 30.
Definition journal1 : FileJournal := (append_all [first] (open_with_segment_size ∅ ∅ 200)).2.

(** The crash leaves the entry [bytes] with its last byte damaged. *)
Definition torn_entry (e : Event) : list N := take (length (entry_bytes e) - 1) (entry_bytes e) ++ [255].
Definition crash (torn_bytes : list N) : gmap N (list N) :=
  <[writer_path journal1 :=
      take (N.to_nat (write_pos journal1)) (segment_bytes (writer_path journal1) (dir journal1)) ++
      torn_bytes ++ replicate (156 - length torn_bytes) 0]> (dir journal1).
Definition after_crash (torn_bytes : list N) : FileJournal := open_with_segment_size (crash torn_bytes) ∅ 200.

Lemma torn_tail_recovered_witness :
  last_sequence (after_crash (torn_entry second)) = Some 0 /\
  exists j', fj_append second (after_crash (torn_entry second)) = (Ok tt, j') /\
    same_journal j' [first; second] /\ verify_integrity j' = Ok tt.
Proof.
  assert (E : append_all [first] (open_with_segment_size ∅ ∅ 200) = (Ok tt, journal1)).
  { unfold journal1. assert (Hok : (append_all [first] (open_with_segment_size ∅ ∅ 200)).1 = Ok tt) by (vm_compute; reflexivity).
    destruct (append_all [first] (open_with_segment_size ∅ ∅ 200)) as [r j]. simpl in *. by rewrite Hok. }
  refine (torn_tail_recovered 200 [first] journal1 _ _ second (entry_bytes second) (torn_entry second)
    (156 - length (torn_entry second)) _ _ _ E eq_refl _ eq_refl _ _ _).
  - vm_compute. discriminate.
  - repeat constructor.
  - repeat constructor. eexists. split_and!; try reflexivity; vm_compute; discriminate.
  - vm_compute. reflexivity.
  - split_and!; [vm_compute; reflexivity|vm_compute; discriminate..].
  - vm_compute. discriminate.
  - vm_compute. discriminate.
Defined.

(** A torn tail longer than the next entry survives.  The reopen does
    not clear the damaged bytes: until something is appended, reading the
    reopened journal yields a corrupt entry; and after a shorter entry has
    been written over the start of a longer torn one, the rest of it still
    follows, so the integrity check fails on a journal whose every
    acknowledged entry is intact. *)
Theorem torn_tail_residue :
  let j := after_crash (torn_entry second_long) in
  let j' := (fj_append second j).2 in
  last_sequence j = Some 0 /\
  existsb (fun item => negb (is_ok item)) (fj_entries j 0) = true /\
  (fj_append second j).1 = Ok tt /\
  is_ok (verify_integrity j') = false.
Proof. vm_compute. split_and!; reflexivity. Qed.

(** A fresh segment hides the last sequence.  An event too large for a
    segment is refused, but only after a new segment was made for it; when
    the journal is then reopened its last sequence is unknown, although the
    events appended before are all there to be read. *)
Theorem refused_append_hides_last_sequence :
  let j := (fj_append (cancel_event 1 6 300) journal1).2 in
  let reopened := open_with_segment_size (dir j) (archived j) 200 in
  is_ok (fj_append (cancel_event 1 6 300) journal1).1 = false /\
  last_sequence j = Some 0 /\ last_sequence reopened = None /\
  (fun item => match item with Ok entry => Some (sequence_num (je_event entry)) | Err _ => None end)
    <$> fj_entries reopened 0 = [Some 0].
Proof. vm_compute. split_and!; reflexivity. Qed.

(** ** Reading while files come and go *)

Definition journal3 : FileJournal := (append_all three (open_with_segment_size ∅ ∅ 100)).2.

Lemma segment_iterator_exact_witness :
  collect_items "not found" 4 300 (dir journal3) (read_from_iter journal3 1) =
  Some (fj_entries journal3 1).
Proof.
  apply segment_iterator_exact.
  - apply Nat.ltb_lt. vm_compute. reflexivity.
  - apply Nat.ltb_lt. vm_compute. reflexivity.
Defined.

(** The sequence an item carries; [None] for an error. *)
Definition item_seq (x : Item (T := unit)) : option N :=
  match x with Ok entry => Some (sequence_num (je_event entry)) | Err _ => None end.

(** An archive pass while a reader is at work.  The reader has read the first
    entry when the first two segments are archived: it goes on with its
    mapped segment, reports that the second one is gone, and then yields the
    entries of the first again before it goes on to the third. *)
Definition journal4 : FileJournal := (append_all (three ++ [cancel_event 3 8 14]) (open_with_segment_size ∅ ∅ 100)).2.
Definition archived4 : gmap N (list N) := dir (archive_segments_before 3 journal4).2.

Theorem archived_segment_repeats :
  list_segments (dir journal4) = [0; 2; 3] /\ list_segments archived4 = [3] /\
  match si_next "not found" 300 (dir journal4) (read_from_iter journal4 0) with
  | Some (Some item, it) =>
      item_seq item :: match collect_items "not found" 9 300 archived4 it with
                       | Some items => item_seq <$> items
                       | None => []
                       end
  | _ => []
  end = [Some 0; Some 1; None; Some 0; Some 1; Some 3].
Proof. vm_compute. split_and!; reflexivity. Qed.
