(* ===== verification/ManagerScenarios.v ===== *)
(** * Scenarios for the manager *)

From S2P Require Import Prelude Types PriceLevel PriceLevelFifo OrderQuantity Fees Stp Clock Cache Risk OrderState Reject SkipMap Book BookInv Matching MatchingInv MatchingSteps MatchingProps Depth Modifications ModificationsProps AddProps UpdateProps MassCancel Repricing RepricingProps Snapshot SnapshotProps Operations Replay ReplayProps EventStream Manager ManagerChannel Scenarios SnapshotScenarios.
From stdpp Require Import strings pretty.
Local Open Scope N_scope.
#[local] Existing Instance sample_wall.
#[local] Instance decimal_display : IdDisplay := fun id : N => pretty id.

Definition clock_stamp (i : nat) : N := 1000 + N.of_nat i.

(** A manager with a book, an order on it, and a mass cancel. *)
Definition trading : BookManager := (add_book "BTC/USD" 7 manager_new).2.
Definition one_order : BookManager :=
  (on_book clock_stamp "BTC/USD" (apply_command tt 0 (AddOrder (Standard 1 100 5 Buy 11 0 Gtc tt))) trading).2.
Definition swept : BookManager := (cancel_all_across_books clock_stamp one_order).2.

Lemma three_steps sym ns seq c : sane_command c ->
  rtc (manager_step tt) manager_new
    (cancel_all_across_books clock_stamp (on_book clock_stamp sym (apply_command tt seq c) (add_book sym ns manager_new).2).2).2.
Proof.
  intros Hc. eapply rtc_l; [apply (step_add tt sym ns)|]. eapply rtc_l; [by apply (step_command tt clock_stamp sym seq c)|].
  eapply rtc_l; [apply step_cancel_all|]. apply rtc_refl.
Qed.

Lemma swept_reachable : rtc (manager_step tt) manager_new swept.
Proof.
  unfold swept, one_order, trading. apply (three_steps "BTC/USD" 7 0 (AddOrder (Standard 1 100 5 Buy 11 0 Gtc tt))).
  exact I.
Qed.

Lemma reachable_books_ok_witness :
  is_Some (get_book "BTC/USD" swept) /\
  forall b, get_book "BTC/USD" swept = Some b -> symbol (book_config b) = "BTC/USD" /\ book_rep b (content b).
Proof.
  split; [apply (bool_decide_unpack _); vm_compute; exact I|].
  exact (fun b => reachable_books_ok tt swept swept_reachable "BTC/USD" b).
Defined.

Definition one_book : BookManager := {| books := {["BTC/USD" := demo]}; trade_channel := [];
  trade_receiver := true; processed := [] |}.
Lemma one_book_managed : managed one_book.
Proof.
  intros sym b H. simpl in H. apply lookup_singleton_Some in H as [<- <-].
  split; [vm_compute; reflexivity|]. exists (content demo). exact demo_rep.
Qed.

(** User 12 owns the iceberg order 2 of the demo book. *)
Lemma cancel_by_user_across_exact_witness :
  exists results m' res, cancel_by_user_across_books tt clock_stamp 12 one_book = (results, m') /\
    results !! "BTC/USD" = Some res /\
    forall id, id ∈ cancelled_order_ids res <-> exists loc, content demo !! id = Some (loc, 12).
Proof.
  destruct (cancel_by_user_across_books tt clock_stamp 12 one_book) as [results m'] eqn:E.
  destruct (proj2 (proj2 (cancel_by_user_across_exact tt clock_stamp 12 one_book results m' one_book_managed E))
    "BTC/USD" demo eq_refl) as (res & b' & H1 & _ & H2 & _).
  exists results, m', res. split_and!; [reflexivity|exact H1|exact H2].
Defined.

(** ** Events *)

(** A listening book, an ask of ten units, a market buy of four: the level
    appears, the level shrinks, the trade. *)
Definition listening : OrderBook := with_trade_and_price_level_listener "BTC/USD" 7.
Definition ask_ten : SequencerCommand unit := AddOrder (Standard 1 100 10 Sell 11 0 Gtc tt).
Definition buy_four : SequencerCommand unit := MarketOrder 2 4 Buy.
Definition both_commands (b : OrderBook) : OrderBook :=
  (apply_command tt 1 buy_four (apply_command tt 0 ask_ten b).2).2.
Definition life : OrderBook := both_commands listening.

Lemma two_commands b : rtc (book_step tt sample_checksum) b (both_commands b).
Proof. eapply rtc_l; [apply step_apply|]. eapply rtc_l; [apply step_apply|]. apply rtc_refl. Qed.

(** The package of the empty book, restored on the book that has traded; then
    the same two commands once more. *)
Definition numbers_after_restore : list N :=
  match (create_snapshot_package sample_checksum 10 listening).1 with
  | Ok pkg =>
      match restore_from_snapshot_package sample_checksum pkg life with
      | (Ok _, b) => event_seq <$> events (both_commands b)
      | (Err _, _) => []
      end
  | Err _ => []
  end.

(** The counter is rewound: the listeners of a live book see every number
    twice. *)
Theorem restore_repeats_numbers :
  exists pkg u b b', (create_snapshot_package sample_checksum 10 listening).1 = Ok pkg /\
    restore_from_snapshot_package sample_checksum pkg life = (Ok u, b) /\ b' = both_commands b /\
    event_seq <$> events b' = [0; 1; 2; 0; 1; 2].
Proof.
  assert (H : numbers_after_restore = [0; 1; 2; 0; 1; 2]) by (vm_compute; reflexivity).
  unfold numbers_after_restore in H.
  destruct (create_snapshot_package sample_checksum 10 listening).1 as [pkg|e]; [|discriminate H].
  destruct (restore_from_snapshot_package sample_checksum pkg life) as [[u|e] b] eqn:E; [|discriminate H].
  exists pkg, u, b, (both_commands b). split; [reflexivity|]. split; [exact E|]. split; [reflexivity|exact H].
Qed.

Lemma event_stream_sequenced_witness :
  exists pkg b' stretches, event_seq <$> events b' = [0; 1; 2; 0; 1; 2] /\
    events b' = concat (snd <$> stretches) /\
    Forall2 (numbered (book_config listening)) [0; pk_engine_seq pkg] stretches.
Proof.
  destruct restore_repeats_numbers as (pkg & u & b & b' & _ & Hr & -> & Hn).
  destruct (event_stream_sequenced tt sample_checksum listening [pkg] (both_commands b)
    (life_restore tt sample_checksum _ _ _ _ _ _ _ (two_commands listening) Hr
      (life_steps tt sample_checksum _ _ (two_commands b)))) as (stretches & H1 & H2 & _).
  exists pkg, (both_commands b), stretches. split; [exact Hn|]. split; [exact H1|exact H2].
Defined.

(** The same two commands through a manager whose processor runs. *)
Definition traded : BookManager :=
  (on_book clock_stamp "BTC/USD" (apply_command tt 1 buy_four)
    (on_book clock_stamp "BTC/USD" (apply_command tt 0 ask_ten) (start_trade_processor trading).2).2).2.

Lemma four_steps sym ns seq1 c1 seq2 c2 : sane_command c1 -> sane_command c2 ->
  rtc (manager_step tt) manager_new
    (on_book clock_stamp sym (apply_command tt seq2 c2)
      (on_book clock_stamp sym (apply_command tt seq1 c1)
        (start_trade_processor (add_book sym ns manager_new).2).2).2).2.
Proof.
  intros H1 H2. eapply rtc_l; [apply (step_add tt sym ns)|]. eapply rtc_l; [apply step_processor|].
  eapply rtc_l; [by apply (step_command tt clock_stamp sym seq1 c1)|].
  eapply rtc_l; [by apply (step_command tt clock_stamp sym seq2 c2)|]. apply rtc_refl.
Qed.

(** The book is removed and listed anew, and trades again. *)
Definition relisted : BookManager :=
  (on_book clock_stamp "BTC/USD" (apply_command tt 1 buy_four)
    (on_book clock_stamp "BTC/USD" (apply_command tt 0 ask_ten)
      (add_book "BTC/USD" 8 (remove_book "BTC/USD" traded).2).2).2).2.

Lemma relist_steps sym ns seq1 c1 seq2 c2 m : sane_command c1 -> sane_command c2 ->
  rtc (manager_step tt) m
    (on_book clock_stamp sym (apply_command tt seq2 c2)
      (on_book clock_stamp sym (apply_command tt seq1 c1) (add_book sym ns (remove_book sym m).2).2).2).2.
Proof.
  intros H1 H2. eapply rtc_l; [apply (step_remove tt sym)|]. eapply rtc_l; [apply (step_add tt sym ns)|].
  eapply rtc_l; [by apply (step_command tt clock_stamp sym seq1 c1)|].
  eapply rtc_l; [by apply (step_command tt clock_stamp sym seq2 c2)|]. apply rtc_refl.
Qed.

Lemma relisted_reachable : exists removed, manager_history tt removed relisted.
Proof.
  destruct (history_steps tt [] manager_new traded (history_new tt) (four_steps "BTC/USD" 7 0 ask_ten 1 buy_four I I))
    as [removed Hh].
  exact (history_steps tt removed traded relisted Hh (relist_steps "BTC/USD" 8 0 ask_ten 1 buy_four traded I I)).
Qed.

Lemma trade_channel_exact_witness :
  length (of_symbol "BTC/USD" (processed relisted ++ trade_channel relisted)) = 2%nat /\
  length (book_trades "BTC/USD" relisted) = 1%nat /\
  exists removed, of_symbol "BTC/USD" (processed relisted ++ trade_channel relisted) =
    removed_trades "BTC/USD" removed ++ book_trades "BTC/USD" relisted.
Proof.
  split; [vm_compute; reflexivity|]. split; [vm_compute; reflexivity|].
  destruct relisted_reachable as [removed Hh]. exists removed.
  exact (proj1 (trade_channel_exact tt removed relisted Hh) "BTC/USD").
Defined.
