(* ===== verification/NatsScenarios.v ===== *)
(** * Scenarios for the NATS publishers and the event serializers

    Runs of the two background tasks against a server that refuses the first
    offer of every message: the theorems instantiated, and two ways in which
    a shutdown loses events. *)

From S2P Require Import Prelude Types PriceLevel PriceLevelFifo Fees Serialization NatsTask NatsTaskProps NatsTrade NatsBookChange.
From stdpp Require Import strings.
Local Open Scope N_scope.

(** ** Serializers *)

Definition bytes_of (s : string) : list N := N.of_nat ∘ Ascii.nat_of_ascii <$> String.list_ascii_of_string s.

(** A toy length-prefixed format over any injection into byte lists. *)
Definition prefixed_encode {E} (f : E -> list N) (e : E) : Result string (list N) :=
  Ok (N.of_nat (length (f e)) :: f e).
Definition prefixed_decode {E} (g : list N -> option E) (data : list N) : Result string (E * N) :=
  match data with
  | [] => Err "unexpected end"
  | n :: rest =>
      if N.of_nat (length rest) <? n then Err "unexpected end"
      else match g (take (N.to_nat n) rest) with Some e => Ok (e, n + 1) | None => Err "invalid" end
  end.

Definition event_words (e : PriceLevelChangedEvent) : list N :=
  [match ev_side e with Buy => 0 | Sell => 1 end; ev_price e; ev_quantity e; ev_engine_seq e].
Definition event_of_words (l : list N) : option PriceLevelChangedEvent :=
  match l with
  | [s; p; q; n] => Some {| ev_side := if s =? 0 then Buy else Sell; ev_price := p; ev_quantity := q; ev_engine_seq := n |}
  | _ => None
  end.
#[local] Instance event_bincode : Bincode PriceLevelChangedEvent :=
  {| encode_to_vec := prefixed_encode event_words; decode_from_slice := prefixed_decode event_of_words |}.
(** Trades of this format carry no data: every trade is refused by the encoder. *)
#[local] Instance trade_bincode : Bincode TradeResult :=
  {| encode_to_vec := fun _ => Err "unsupported"; decode_from_slice := fun _ => Err "unsupported" |}.

#[local] Instance event_bincode_laws : BincodeLaws PriceLevelChangedEvent.
Proof.
  split. intros [s p q n] bytes rest [= <-].
  unfold decode_from_slice, event_bincode, prefixed_decode. cbn [app event_words length].
  destruct (N.ltb_spec (N.of_nat (S (S (S (S (length rest)))))) (N.of_nat 4)); [lia|]. by destruct s.
Qed.
#[local] Instance trade_bincode_laws : BincodeLaws TradeResult.
Proof. by split. Qed.

Definition sample_event : PriceLevelChangedEvent := {| ev_side := Sell; ev_price := 100; ev_quantity := 7; ev_engine_seq := 3 |}.

Lemma bincode_serializer_strict_witness :
  serialize_book_change BincodeEventSerializer sample_event = Ok [4; 1; 100; 7; 3] /\
  deserialize_book_change BincodeEventSerializer [4; 1; 100; 7; 3] = Ok sample_event /\
  deserialize_book_change BincodeEventSerializer ([4; 1; 100; 7; 3] ++ 9 :: []) = Err (TrailingBytes 5 6).
Proof.
  split; [reflexivity|]. destruct bincode_serializer_strict as ((_ & H1) & _ & H2). split.
  - by apply H1.
  - by apply (H2 sample_event [4; 1; 100; 7; 3] 9 []).
Defined.

(** ** A server *)

Definition same_message (m m' : Message) : bool :=
  (msg_sequence m =? msg_sequence m') && String.eqb (msg_subject m) (msg_subject m').
(** Refuses the first offer of every message and acknowledges the second. *)
#[local] Instance picky_server : JetStream := fun log m =>
  if existsb (fun a => same_message a.1 m) (attempts_of log) then Acked else AckFailed.

Definition sample_message : Message :=
  {| msg_subject := "trades.all"; msg_sequence := 1; msg_content_type := None; msg_payload := [] |}.
Example second_offer_acked :
  publish_message 3 sample_message [] = (true, [Attempt sample_message AckFailed; Sleep 10; Attempt sample_message Acked]).
Proof. vm_compute. reflexivity. Qed.
Example no_retries_no_ack :
  publish_message 0 sample_message [] = (false, [Attempt sample_message AckFailed]).
Proof. vm_compute. reflexivity. Qed.

(** ** Trades *)

Definition sample_serializer : EventSerializer :=
  {| serialize_trade := fun t => if String.eqb (tr_symbol t) "" then Err (Json "no symbol")
                                 else Ok (bytes_of (tr_symbol t));
     serialize_book_change := fun _ => Err (Json "unsupported");
     deserialize_trade := fun _ => Err (Json "unsupported");
     deserialize_book_change := fun _ => Err (Json "unsupported");
     content_type := "text/plain" |}.

Definition trade_of (symbol : string) : TradeResult := trade_result_new symbol (mr_new 1 5).
Definition trades_publisher : NatsTradePublisher :=
  NatsTrade.with_max_batch_size 2 (NatsTrade.with_channel_capacity 3 (NatsTrade.new "trades" sample_serializer)).

(** Four trades arrive and the channel takes three; the task takes one, then
    a shutdown makes it drain the rest. *)
Definition busy_day : list (Action TradeResult) :=
  [Listen (trade_of "A"); Listen (trade_of ""); Listen (trade_of "B"); Listen (trade_of "C"); Recv; Shutdown; FlushNow 0].
Definition drain : list (Action TradeResult) :=
  [SeeSignal; DrainOne; DrainOne; DrainEnd 0; DrainEnd 0; Return].

Lemma run_exists {P E B} `{Publisher P E B} {A} (f : Task P E B -> A) tr t0 v :
  option_map f (task_run tr t0) = Some v -> exists t, task_run tr t0 = Some t /\ f t = v.
Proof. destruct (task_run tr t0) as [t|]; intros E1; [|discriminate E1]. injection E1 as <-. eauto. Qed.

Lemma task_bookkeeping_witness :
  exists t, task_run busy_day (into_listener trades_publisher) = Some t /\
    accepted t = concat (flushed t) ++ batch t ++ channel t ++ lost t /\
    length (accepted t) = 3%nat /\ NatsTrade.events_received (publisher t) = 4 /\
    NatsTrade.dropped_events (publisher t) = 1.
Proof.
  destruct (run_exists (fun t => (length (accepted t), length (refused t))) busy_day (into_listener trades_publisher) (3, 1)%nat)
    as (t & E & Hn); [vm_compute; reflexivity|]. exists t. injection Hn as Ha Hr.
  destruct (task_bookkeeping trades_publisher busy_day t ltac:(split; reflexivity) E) as (H1 & H2 & H3 & _).
  rewrite Ha, Hr in H2. rewrite Hr in H3. split_and!; [exact E| |exact Ha|exact H2|exact H3].
  by rewrite !list_fmap_id in H1.
Defined.

Lemma shutdown_loses_only_late_witness :
  exists t, task_run (busy_day ++ drain) (into_listener trades_publisher) = Some t /\ phase t = Exited /\
    lost t = [] /\ concat (flushed t) = accepted t.
Proof.
  destruct (run_exists phase (busy_day ++ drain) (into_listener trades_publisher) Exited) as (t & E & Hp);
    [vm_compute; reflexivity|]. exists t.
  destruct (shutdown_loses_only_late trades_publisher (busy_day ++ drain) t ltac:(split; reflexivity) eq_refl E Hp)
    as [H1 H2].
  assert (Hl : length (late (busy_day ++ drain) (into_listener trades_publisher)) = 0%nat) by (vm_compute; reflexivity).
  apply nil_length_inv in Hl.
  split_and!; [exact E|exact Hp|by rewrite H1, Hl|]. by rewrite (H2 Hl), list_fmap_id.
Defined.

(** The same, with trades that arrive while the task drains, one of them after
    its last look at the channel. *)
Definition busy_drain : list (Action TradeResult) :=
  [SeeSignal; DrainOne; Listen (trade_of "D"); DrainOne; DrainEnd 0; Shutdown; DrainOne; DrainEnd 0; DrainEnd 0;
   Listen (trade_of "E"); DropListener; Return].

Lemma shutdown_drains_witness :
  exists t t', task_run busy_day (into_listener trades_publisher) = Some t /\ signalled t = true /\
    task_run busy_drain t = Some t' /\ phase t' = Exited /\
    accepted t ++ arrivals busy_drain t = concat (flushed t') ++ lost t' /\
    tr_symbol <$> arrivals busy_drain t = ["D"; "E"] /\ tr_symbol <$> lost t' = ["E"] /\
    (own_steps busy_drain <= 2 * (length (channel t) + 2) + 5)%nat.
Proof.
  destruct (run_exists (fun t => (signalled t, phase t, option_map phase (task_run busy_drain t),
      tr_symbol <$> arrivals busy_drain t, tr_symbol <$> late busy_drain t)) busy_day (into_listener trades_publisher)
    (true, Waiting, Some Exited, ["D"; "E"], ["E"])) as (t & E & Hn); [vm_compute; reflexivity|].
  pose proof (f_equal (fun x => x.1.1.1.1) Hn) as Hs. pose proof (f_equal (fun x => x.1.1.1.2) Hn) as Hp.
  pose proof (f_equal (fun x => x.1.1.2) Hn) as He. pose proof (f_equal (fun x => x.1.2) Hn) as Hd.
  apply (f_equal snd) in Hn as Hl. cbn [fst snd] in Hs, Hp, He, Hd, Hl. clear Hn.
  destruct (task_run busy_drain t) as [t'|] eqn:E'; rewrite ?E' in He; [|discriminate He]. injection He as Hp'.
  exists t, t'.
  destruct (shutdown_drains trades_publisher busy_day t ltac:(split; reflexivity) eq_refl E Hs busy_drain t' E')
    as (H1 & _ & H2).
  destruct H2 as (H2 & _ & H3); [by rewrite Hp..|exact Hp'|].
  rewrite <- H3, !list_fmap_id in H2. rewrite <- H3 in Hl.
  apply (f_equal length) in Hd as Hd'. rewrite length_fmap in Hd'. rewrite Hd' in H1. by split_and!.
Defined.

Lemma trades_published_in_order_witness :
  exists t ds, task_run (busy_day ++ drain) (into_listener trades_publisher) = Some t /\
    session 3 ds (NatsTrade.jetstream (publisher t)) /\
    ds.*1 = messages_from trades_publisher 0 (concat (flushed t)) /\
    NatsTrade.publish_count (publisher t) = 2 /\ NatsTrade.error_count (publisher t) = 1.
Proof.
  destruct (run_exists (fun t => (NatsTrade.publish_count (publisher t), NatsTrade.error_count (publisher t)))
    (busy_day ++ drain) (into_listener trades_publisher) (2, 1)) as (t & E & Hn); [vm_compute; reflexivity|].
  injection Hn as Hc He. exists t.
  destruct (trades_published_in_order trades_publisher (busy_day ++ drain) t ltac:(by repeat split) E)
    as (ds & clean & failed & H1 & H2 & _). exists ds. split_and!; assumption.
Defined.

(** ** Book changes *)

#[local] Instance batch_json : SerdeJson BookChangeBatch :=
  {| json_to_vec := fun b => if bb_event_count b =? 9 then Err "too many"
                             else Ok (bb_sequence b :: bb_timestamp_ms b :: (bc_engine_seq <$> bb_changes b));
     json_from_slice := fun _ => Err "unsupported" |}.

Definition level_event (side : Side) (seq : N) : PriceLevelChangedEvent :=
  {| ev_side := side; ev_price := 100; ev_quantity := 5; ev_engine_seq := seq |}.
Definition changes_publisher : NatsBookChangePublisher :=
  NatsBookChange.with_max_batch_size 2 (NatsBookChange.with_max_retries 1 (NatsBookChange.new "BTC" "book")).

Definition change_run : list (Action PriceLevelChangedEvent) :=
  [Listen (level_event Buy 1); Listen (level_event Sell 2); Listen (level_event Buy 3);
   Recv; Recv; FlushNow 50; Recv; DropListener; SeeClosed 60].

Definition sequences_of (log : list Activity) : list (string * N * list N * AttemptOutcome) :=
  (fun a => (msg_subject a.1, msg_sequence a.1, msg_payload a.1, a.2)) <$> attempts_of log.

Definition change_log : list (string * N * list N * AttemptOutcome) :=
  [("book.BTC.changes", 0, [0; 50; 1; 2], AckFailed); ("book.BTC.changes", 0, [0; 50; 1; 2], Acked);
   ("book.BTC.bid", 1, [1; 50; 1], AckFailed); ("book.BTC.bid", 1, [1; 50; 1], Acked);
   ("book.BTC.ask", 2, [2; 50; 2], AckFailed); ("book.BTC.ask", 2, [2; 50; 2], Acked);
   ("book.BTC.changes", 3, [3; 60; 3], AckFailed); ("book.BTC.changes", 3, [3; 60; 3], Acked);
   ("book.BTC.bid", 4, [4; 60; 3], AckFailed); ("book.BTC.bid", 4, [4; 60; 3], Acked)].

Lemma changes_published_in_order_witness :
  exists t stamps dss, task_run change_run (into_listener changes_publisher) = Some t /\
    phase t = Exited /\ publish_count (publisher t) = 2 /\ error_count (publisher t) = 0 /\
    sequences_of (jetstream (publisher t)) =
      change_log /\
    offers_of dss = batch_messages changes_publisher 0 (zip stamps (flushed t)) /\
    session 1 (sent (concat dss)) (jetstream (publisher t)).
Proof.
  destruct (run_exists (fun t => (phase t, publish_count (publisher t), error_count (publisher t),
    sequences_of (jetstream (publisher t)))) change_run (into_listener changes_publisher) (Exited, 2, 0, change_log))
    as (t & E & Hn); [vm_compute; reflexivity|].
  destruct (changes_published_in_order changes_publisher change_run t ltac:(by repeat split) E)
    as (stamps & dss & _ & H1 & H2 & _). exists t, stamps, dss.
  split_and!; [exact E| | | | |exact H1|exact H2].
  - exact (f_equal (fun x => x.1.1.1) Hn).
  - exact (f_equal (fun x => x.1.1.2) Hn).
  - exact (f_equal (fun x => x.1.2) Hn).
  - exact (f_equal snd Hn).
Defined.

(** ** Two ways to lose events *)

(** A batch size of zero is accepted by the builder.  The shutdown loop then
    reads nothing from the channel and takes its empty batch for an empty
    channel: the task returns and every buffered event is gone, counted
    neither as published nor as dropped or failed. *)
Theorem zero_batch_size_loses_on_shutdown :
  exists tr t,
    task_run tr (into_listener (NatsBookChange.with_max_batch_size 0 (NatsBookChange.new "BTC" "book"))) = Some t /\
    phase t = Exited /\ accepted t = [level_event Buy 1; level_event Sell 2] /\ lost t = accepted t /\
    flushed t = [] /\ events_received (publisher t) = 2 /\ dropped_events (publisher t) = 0 /\
    publish_count (publisher t) = 0 /\ error_count (publisher t) = 0.
Proof.
  exists [Listen (level_event Buy 1); Listen (level_event Sell 2); Shutdown; SeeSignal; DrainEnd 0; Return].
  eexists. split; [vm_compute; reflexivity|]. by repeat split.
Qed.

(** With any batch size, an event the channel accepts between the task's last
    [try_recv] and the drop of the receiver is lost and not counted. *)
Theorem late_event_lost_uncounted :
  exists tr t, task_run tr (into_listener changes_publisher) = Some t /\ phase t = Exited /\
    accepted t = [level_event Buy 1] /\ lost t = [level_event Buy 1] /\ dropped_events (publisher t) = 0 /\
    error_count (publisher t) = 0 /\ publish_count (publisher t) = 0.
Proof.
  exists [Shutdown; SeeSignal; DrainEnd 0; Listen (level_event Buy 1); Return].
  eexists. split; [vm_compute; reflexivity|]. by repeat split.
Qed.
