(* ===== verification/ImpliedVolatilityScenarios.v ===== *)
(** * Scenarios for implied volatility

    A rough exponential and logarithm, good enough for the solvers to
    converge, on which the theorems are instantiated; and inputs on which the
    code does not do what it says. *)

From S2P Require Import Prelude Float64 Types PriceLevel PriceLevelFifo OrderQuantity Fees Stp Clock Cache Risk OrderState Reject SkipMap Book BookInv Matching Modifications Depth ImpliedVolatility ImpliedVolatilityProps Scenarios.
Local Open Scope N_scope.
Local Open Scope f64_scope.
#[local] Existing Instance sample_wall.

(** ** A mathematical library *)

Fixpoint horner (n : nat) (x acc : f64) : f64 :=
  match n with O => acc | S k => horner k x (f1 + acc * x / f64_of_N (N.of_nat (S k))) end.
Definition rough_exp (x : f64) : f64 :=
  match x with
  | S754_nan => S754_nan
  | S754_infinity false => x
  | S754_infinity true => f0
  | _ => if x <? - f64_of_N 700 then f0 else if f64_of_N 700 <? x then S754_infinity false
         else Nat.iter 10 (fun y => y * y) (horner 10 (x / f64_of_N 1024) f1)
  end.
Fixpoint atanh_series (n : nat) (z2 acc : f64) : f64 :=
  match n with O => acc | S k => atanh_series k z2 (f1 / f64_of_N (2 * N.of_nat k + 1) + acc * z2) end.
Definition rough_ln (x : f64) : f64 :=
  match x with
  | S754_nan => S754_nan
  | S754_infinity false => x
  | S754_infinity true | S754_finite true _ _ => S754_nan
  | S754_zero _ => S754_infinity true
  | _ => let z := (x - f1) / (x + f1) in f2 * z * atanh_series 20 (z * z) f0
  end.
#[local] Instance rough_libm : Libm := {| f64_exp := rough_exp; f64_ln := rough_ln |}.

(** A three-month call at the money. *)
Definition atm_call : IVParams :=
  {| spot := f64_of_N 100; strike := f64_of_N 100; time_to_expiry := f64_dec 25 2;
     risk_free_rate := f64_dec 5 2; option_type := Call |}.

Example solvers_agree :
  solve_iv atm_call (f64_of_N 5) solver_default = Some (Ok (S754_finite false 7911497663179822 (-55), 3%N)) /\
  solve_iv_bisection atm_call (f64_of_N 5) solver_default = Ok (S754_finite false 7911497732081056 (-55), 30%N).
Proof. split; vm_compute; reflexivity. Qed.

(** ** From a book *)

Definition scaled : IVConfig := with_price_scale (f64_of_N 20) iv_config_default.

Lemma demo_iv : (implied_volatility_with_config atm_call MidPrice scaled demo).1 =
  Some (Ok {| iv := S754_finite false 7911497663179822 (-55); price_used := f64_of_N 5;
              spread_bps := (f64_of_N 101 / f64_of_N 20 - f64_of_N 99 / f64_of_N 20) / f64_of_N 5 * f64_of_N 10000;
              iterations := 3; quality := Medium |}).
Proof. vm_compute. reflexivity. Qed.

Lemma implied_volatility_sound_witness :
  exists r b', implied_volatility_with_config atm_call MidPrice scaled demo = (Some (Ok r), b') /\
    price_used r = f64_of_N 5 /\ quality r = Medium /\ f64_is_finite (iv r) = true /\
    in_bounds solver_default (iv r) /\ matches_price atm_call (f64_of_N 5) solver_default (iv r).
Proof.
  pose proof demo_iv as H. set (r := {| iv := _ |}) in H.
  destruct (implied_volatility_with_config atm_call MidPrice scaled demo) as [o b'] eqn:E. cbn [fst] in H. subst o.
  exists r, b'.
  destruct (implied_volatility_sound atm_call MidPrice scaled demo r b' (rep_cache _ _ demo_rep) E)
    as (_ & _ & _ & _ & H5 & H6 & H7 & _).
  split_and!; [reflexivity|reflexivity|reflexivity|exact H5|exact H6|exact H7].
Defined.

(** A book that is not crossed is refused as locked when its prices are
    beyond what an [f64] tells apart. *)
Definition huge_prices : OrderBook :=
  add_all [Standard 1 (2 ^ 53) 10 Buy 11 0 Gtc tt; Standard 2 (2 ^ 53 + 1) 10 Sell 12 0 Gtc tt] demo_empty.
Theorem uncrossed_book_refused :
  sm_back (levels Buy huge_prices) = Some (2 ^ 53)%N /\ sm_front (levels Sell huge_prices) = Some (2 ^ 53 + 1)%N /\
  (implied_volatility atm_call MidPrice huge_prices).1 =
    Some (Err (CrossedBook (f64_of_N (2 ^ 53)) (f64_of_N (2 ^ 53)))).
Proof. split_and!; vm_compute; reflexivity. Qed.

(** The weighted mid leans away from the side with more liquidity: with 6 to
    buy at 99 and 30 to sell at 101 it lies below the mid price 100. *)
Theorem weighted_mid_leans_away :
  quantity_at_price 99 Buy demo = 6%N /\ quantity_at_price 101 Sell demo = 30%N /\
  (weighted_mid_price_for_iv 99 101 f1 demo <? f64_of_N 100) = true.
Proof. split_and!; vm_compute; reflexivity. Qed.

(** ** No number *)

(** Finite parameters whose discount factor is infinite. *)
Definition odd_rate : IVParams :=
  {| spot := f64_of_N 100; strike := f64_of_N 100; time_to_expiry := f64_of_N 10;
     risk_free_rate := - f64_of_N (10 ^ 308); option_type := Call |}.

Lemma bisection_accepts_nan_witness :
  solve_iv odd_rate (f64_of_N 5) solver_default = Some (Err (InvalidParams NonFiniteIteration)) /\
  solve_iv_bisection odd_rate (f64_of_N 5) solver_default = Ok (S754_finite false 5629499528971288 (-50), 30%N).
Proof.
  split; [vm_compute; reflexivity|]. apply (bisection_accepts_nan odd_rate (f64_of_N 5)); [vm_compute; reflexivity|].
  assert (H : forallb (fun v => f64_is_nan (price odd_rate v)) (min_iv solver_default :: max_iv solver_default ::
    mids 30 (min_iv solver_default) (max_iv solver_default)) = true) by (vm_compute; reflexivity).
  rewrite forallb_forall in H. apply List.Forall_forall. intros v Hv. specialize (H v Hv).
  destruct (price odd_rate v); [discriminate H|discriminate H|reflexivity|discriminate H].
Defined.

(** At zero volatility the other Greeks are zero, while delta of an option at
    the money without interest is a NaN, whatever the exponential. *)
Definition flat_call : IVParams :=
  {| spot := f64_of_N 100; strike := f64_of_N 100; time_to_expiry := f1; risk_free_rate := f0; option_type := Call |}.
Theorem delta_nan_at_zero_volatility (LM : Libm) :
  f64_ln f1 = f0 ->
  @delta LM flat_call f0 = S754_nan /\ @vega LM flat_call f0 = f0 /\ @gamma LM flat_call f0 = f0 /\
  @theta LM flat_call f0 = f0.
Proof.
  intros Hln. split; [|split_and!; vm_compute; reflexivity].
  assert (Hd : @d1_of LM flat_call f0 = S754_nan).
  { unfold d1_of, d1. change (spot flat_call / strike flat_call) with f1. rewrite Hln. vm_compute. reflexivity. }
  unfold delta. change (time_to_expiry flat_call <=? f0) with false. cbn [option_type flat_call]. rewrite Hd.
  vm_compute. reflexivity.
Qed.
